(* ===== verification/_CoqProject ===== *)
-Q . S2P
Prelude.v
ActorTypes.v
Control.v
ControlProps.v
ControlSpec.v
Registry.v
Runtime.v
RuntimeSpec.v
Group.v
GroupSpec.v
Lifecycle.v
LifecycleSpec.v
Manager.v
ManagerSpec.v
Cluster.v
ClusterSpec.v
Store.v
StoreTimers.v
StoreSpec.v
Reader.v
ReaderSpec.v
Rpc.v
RpcSpec.v
Router.v
RouterSpec.v
Lease.v
RedisDriver.v
RedisSpec.v
FileDriver.v
FileSpec.v
Grain.v
GrainSpec.v
MongoDriver.v
MongoSpec.v
Logger.v
LoggerSpec.v
YamlDriver.v
YamlSpec.v
Text.v
ReadmeGen.v
ReadmeGenSpec.v
Game.v
GameSpec.v
Act.v
GameActors.v
GameCalls.v
GameLogic.v
GameRoom.v
GameTraffic.v
GameDemo.v
GameDemoSpec.v
JsonRpc.v
JsonRpcSpec.v
Nodes.v
NodesSpec.v
ClusterExample.v
ClusterRepl.v
ClusterExampleSpec.v
Script.v
GrainExample.v
GrainExampleSpec.v
ActorExample.v
ActorExampleSpec.v
SharedExample.v
SharedExampleSpec.v
RpcExample.v
TestUtil.v
