(* ===== verification/Prelude.v ===== *)
(** * actor-go: a verification library

    actor-go is an actor library in Go with a cluster router, an RPC layer, a
    publish/subscribe store and persistent actors (grains). This development models the
    packages actor/, cluster/, shared/, rpc/, grain/ and logger/ of src/, the tool cmd/readmegen and
    the example programs of cmd/, the largest of them a game server (engineering_example), and
    proves what makes them correct. This file is the root: this header, and the prelude (outcomes of Go code, machine
    integers, counting lemmas, the shared tactics and hints) that every file requires.

    ** The program and its model

    An actor is a goroutine with a mailbox; actors of one type form a group, the groups a
    manager. A caller looks the actor up in its group (spawning it if the handler may),
    holds a reference, sends, and releases. The goroutine handles its messages in
    batches with a context: state, timers, a queue of postponed messages, quit hooks.
    Everything else is built on that: the store and the readers of shared/ are actors, a
    grain of grain/ is an actor whose OnSpawn takes a lease, and cluster/ and rpc/ carry
    a message to the manager of another node.

    Shared mutable state is threaded explicitly. [W] is the world of everything a component
    does not own; what one component needs of another is a class (Poster, UserCode,
    StoreClient, Membership, RpcClients, Backend, Driver, ...), so that theorems about
    the client are proved against the interface, and the laws a theorem needs are a class
    of their own (PosterLog, LeaseLaws, ...), with a concrete instance in the witness
    modules. Code that can panic or block answers [flow], [ending], [outcome] or an option.

    ** Files

    - ActorTypes (actor/types.go, errors.go, trace.go and the error types of the other
      packages): identifiers, the errors with their messages and their unwrapping, traces.
    - Control, ControlProps, ControlSpec (actor/actor_control.go, postpone.go, timer.go):
      timers, the postpone queue, and APost, ACall, AMulticast and ABroadcast, over the
      interface Poster.
    - Registry (actor/registry_builder.go, handler.go, invoke.go, actor_context.go): handlers,
      messages and contexts. Go's generic instances are values of one universe, and a type
      assertion is a comparison of type names.
    - Runtime, RuntimeSpec (actor/actor.go, invoke.go, close.go, and waitResult and safeResult
      of manager.go): one message, a batch, the recovery of panics, the exit of the
      goroutine, the reply channels.
    - Group, GroupSpec (actor/group.go, handler.go, ref.go): the operations of a group, each
      one step under its lock; actors are pointers into a heap.
    - Lifecycle, LifecycleSpec: callers and goroutines of a group interleaved, a step
      relation whose transitions are the operations of Group and the phases of [run].
    - Manager, ManagerSpec (actor/manager.go): groups by actor type, routing, Call and
      SafeCall, closing.
    - Cluster, ClusterSpec (cluster/node.go, placement.go, migration.go): the hash ring on
      CRC-32, placement, ownership, changes of the membership.
    - Store, StoreTimers, StoreSpec (shared/key.go, store.go): the store actor, its entries on
      a heap, refreshes with a cooldown and the sweep of expired entries; the store as an
      instance of UserCode.
    - Reader, ReaderSpec (shared/reader.go, owner.go, peek.go): the cache of a reader, watching
      and fetching, publishing.
    - Rpc, RpcSpec (rpc/types.go, registry.go, entry.go, server.go, client.go): one message on
      the server, the loop of a connection ([serve_conn]), starting, running and stopping
      (Module Life, over the class Http), the client with its pending calls.
    - JsonRpc, JsonRpcSpec (rpc/json.go): the JSON codec and transport on document trees; what
      encoding/json does is the class JsonText.
    - Router, RouterSpec (cluster/cluster.go): routing of posts and calls to nodes, the retry
      on a lease error, the pool of connections.
    - Nodes, NodesSpec: the routers, clients and servers of all nodes of a cluster put together,
      over one network that delivers a frame when it is written; the cluster is its managers.
    - Lease: the interface Driver of grain/driver_json.go, the lease protocol as a step
      relation, and fencing, proved once for every driver that follows it.
    - RedisDriver, RedisSpec (grain/driver_redis.go): the Lua scripts, command by command.
    - MongoDriver, MongoSpec (grain/driver_mongo.go): filters, updates and the aggregation
      pipeline as data with their evaluation.
    - FileDriver, FileSpec (grain/driver_json.go): the JSON files, on a disk whose
      operations may fail.
    - YamlDriver, YamlSpec (grain/driver_yaml.go): the YAML files, with the edits of the
      document tree.
    - Grain, GrainSpec (grain/manager.go, snapshot.go, lifecycle.go, grain_lifecycle.go):
      activation, persisting, deactivation and the hooks of SetupGrain as user code of
      Runtime.
    - Logger, LoggerSpec (logger/logger.go, logutil.go): a value as package reflect shows
      it, the JSON text written for it, log lines.
    - Text: the functions of packages strings, strconv, unicode and fmt that the programs use.
    - ReadmeGen, ReadmeGenSpec (cmd/readmegen/main.go): the regions of the example tests and
      the READMEs they are copied into.
    - Game, GameSpec (cmd/engineering_example: game/, ids/ and protocol/): the rules of the
      game, its identifiers, rewards, combat and messages.
    - Act: a monad of handlers, [act]: code of an actor over its context and its world, which
      may panic; handlers in it become user code of Runtime ([dispatch]).
    - GameActors (actors/ and setup/ of the engineering example): the handlers of the client,
      the world, the room and the player, their registries, and the setup of the manager; an
      actor of the game as user code of Runtime and as code of a grain.
    - GameCalls, GameLogic, GameRoom, GameTraffic: which handler calls whom, the well-formed
      players, the room against a table of members, an attack from end to end.
    - GameDemo, GameDemoSpec (demo/demo.go and main.go of the engineering example): the scripted
      client and its waits.
    - ClusterExample, ClusterRepl, ClusterExampleSpec (cmd/cluster_example/main.go): the membership
      that commands change, the handlers, the start of a node; the command line. Groups,
      registries, server, placement and coordinator are those of the models above.
    - Script: the terminal and the printed calls that the next four share.
    - GrainExample, GrainExampleSpec (cmd/grain_example/main.go): a player that is a grain.
    - ActorExample, ActorExampleSpec (cmd/actor_example/main.go): players with references to each
      other (class Refs), a timer and a value of the manager.
    - SharedExample, SharedExampleSpec (cmd/shared_example/main.go): a world that publishes and
      a region that watches.
    - RpcExample (cmd/rpc_example/main.go): a server and a remote client.
    - TestUtil (internal/testutil/testutil.go): the waits of the tests.

    ** What the theorems show

    - Life of an actor (LifecycleSpec): no send on or close of a closed mailbox, one goroutine
      per identifier at a time, no accepted message lost or reordered, an exact idle count, and
      a closed actor whose references are released ends. By rule induction on reachable states.
    - Messages (RuntimeSpec): the batch loop with its recovery handles the messages one by
      one, in order, as a sequential specification does; every message with a reply
      channel is answered exactly once; the idle count is settled.
    - Control (ControlSpec): fresh timer ids although the counter wraps, stopped timers
      stay stopped, the postpone queue keeps the order per target and loses nothing
      silently, ACall ends after three attempts, the invariant of all of it.
    - Groups and managers (GroupSpec, ManagerSpec): what a caller may conclude from the
      result of a send, for one target and many; a closed manager accepts nothing; when a
      mounted value hides another.
    - Placement (ClusterSpec): the owner of a key does not depend on the order of the members,
      changes only when its owner leaves, and is eligible.
    - Shared data (StoreSpec, ReaderSpec): the store refines a map of versioned values; a
      subscriber that is reachable has the current version or a refresh is due; a reader
      converges; a published value is read back; the number of shards is fixed.
    - Remote calls and routing (RpcSpec, JsonRpcSpec, RouterSpec, NodesSpec): posts and calls
      from any nodes of a cluster answer as, and leave the managers as, direct calls of the
      managers of the owners, in the same order, with the JSON transport and consistent
      hashing as the instance; a connection answers its
      numbered messages in order and each once, a remote call gives the result of the local
      one, every field of a message arrives through the JSON transport, client goroutines
      never block, a post that succeeds was delivered once.
    - Grains (GrainSpec, RedisSpec, MongoSpec, FileSpec, YamlSpec): a handler runs only under a lease, a
      grain that ends is saved and released, one that lost its lease writes nothing, a
      save accepted with a lease shows that nobody else had it since; the two database
      drivers refine the lease protocol; a file gives back what was saved.
    - Logger (LoggerSpec): the text of a value is JSON that a reader, defined there as the
      reference, reads back; what masked, skipped and unexported fields hold does not
      reach the text; a record is one line.
    - README generator (ReadmeGenSpec): what was generated is up to date.
    - Example programs (ClusterExampleSpec, GrainExampleSpec, GameDemoSpec, ActorExampleSpec,
      SharedExampleSpec, TestUtil): after a node joined, every actor of the
      others is told to stay or to move to that node, and to no other; replaying the events of the membership gives
      its members; a session of the persistent player, through saves, unloading and late
      timers, is one of an abstract player; the scripted client and the waits of the tests
      end, and with what; Follow gives its reference back on every path; what is pushed is shown.
    - The game (GameSpec to GameTraffic): rewards add up in any order and level up at the exact
      thresholds, a player dies once; no handler waits, however indirectly, for an actor of
      its own type, so calls form no cycle; a player that receives well-formed messages stays well
      formed; the room's handlers refine a table of members; an attack changes exactly the
      two players it should.

    The remarks in the witness modules are facts that contradict a comment or look like
    defects; the manifest lists them as findings.

    ** Bounds and fuel

    int is 64 bits and atomic.Int32 wraps at 32 ([wrap32], [wrap64]); theorems about counters
    state the bound under which they do not wrap. [probe] (timer ids) has one more unit of
    fuel than there are timers, enough to reach a free id (Timer_fresh); [run_buf] gets two
    rounds per message and two more, enough since a round either handles a message or replaces
    it by one whose handler is not retried (run_buf_sequential proves the result present);
    [Search] gets one more than the length; the JSON reader of LoggerSpec gets [fuel] of the
    value (writes_json), and the one of JsonRpcSpec the length of the text; applyReward gets
    [level_fuel], enough for the levels a reward can give (applyReward_exact); a wait of the
    scripted client gets 202 rounds, one for every pause of 10 ms in its 2 s and two more
    (script_ends), and WaitCount as many for its timeout (WaitCount_result). Generations are exact integers: Lua's are
    up to 2^53, MongoDB's up to 2^63.

    ** Not modelled, and why

    - The calls of the logger in the other packages: they change no state of the model; the
      trace names of requests are kept, since replies and timers carry them. In logger/ the
      text of floats and times and the writer are parameters; the cache of the field lists
      ([getFieldMetas]) only holds what would be computed (getFieldMetas_memo), so that
      [writeStruct] reads the fields themselves.
    - The Go memory model: operations under a lock, on an atomic or on a channel are single
      steps; unlocked code between them is local.
    - net/http and the websocket library are the class Http and the frames a connection
      reads and writes; the text encoding/json writes is the class JsonText, with a printer and
      reader as its instance in JsonRpcSpec.
    - Real time: a timer may fire whenever it is running; durations matter only where the
      code compares times (cooldown, expiry, leases), and there time is a field of the world.
    - Redis, MongoDB, the file system, JSON and YAML are classes with their documented laws; a panic of a
      snapshotter or of a driver other than the Redis one is not followed.
    - A snapshot type that yaml.v3 cannot encode, where it panics; YAML positions, styles,
      comments and anchors.
    - The parsing of command lines and the signals that end the main functions.
      In cmd/readmegen the words of the messages and the exit code
      are left out. *)

From stdpp Require Export base tactics option list gmap sets strings pretty sorting numbers relations.
From Stdlib Require Export ZArith Lia.
From Stdlib Require DecimalString DecimalZ DecimalPos.

#[export] Set Default Goal Selector "!".

(** ** Outcomes of Go code

    A Go function returns a value, returns an error, or panics at run time. *)
Inductive outcome (E T : Type) : Type :=
  | Ok (v : T)
  | Err (e : E)
  | Panic (why : string).
Arguments Ok {E T} v.
Arguments Err {E T} e.
Arguments Panic {E T} why.

Declare Scope go_scope.
Delimit Scope go_scope with go.

(** Sequencing of outcomes: an error or a panic ends the computation. *)
Definition obind {E T U} (c : outcome E T) (k : T -> outcome E U) : outcome E U :=
  match c with
  | Ok v => k v
  | Err e => Err e
  | Panic w => Panic w
  end.

Notation "'let!' x ':=' c 'in' k" := (obind c (fun x => k))
  (at level 10, x pattern, c at level 100, k at level 200,
   format "'let!'  x  ':='  c  'in' '//' k") : go_scope.

Definition is_panic {E T} (o : outcome E T) : bool :=
  match o with Panic _ => true | _ => false end.

(** ** Lists without repeated keys *)
Lemma NoDup_key_eq {A B} (f : A -> B) l x y :
  NoDup (f <$> l) -> x ∈ l -> y ∈ l -> f x = f y -> x = y.
Proof.
  intros Hnd [i Hi]%list_elem_of_lookup [j Hj]%list_elem_of_lookup E. assert (i = j) as ->; [|congruence].
  eapply NoDup_lookup; [exact Hnd|by rewrite list_lookup_fmap, Hi|]. by rewrite list_lookup_fmap, Hj, E.
Qed.

(** ** Machine integers *)
Definition MaxInt : Z := 2 ^ 63 - 1.

Definition wrap_signed (w z : Z) : Z := (z + 2 ^ (w - 1)) mod 2 ^ w - 2 ^ (w - 1).
Definition wrap32 (z : Z) : Z := wrap_signed 32 z.
Definition wrap64 (z : Z) : Z := wrap_signed 64 z.
Definition uwrap32 (z : Z) : Z := z mod 2 ^ 32.
Definition uwrap64 (z : Z) : Z := z mod 2 ^ 64.

Lemma wrap_signed_small w z :
  (0 < w)%Z -> (- 2 ^ (w - 1) <= z < 2 ^ (w - 1))%Z -> wrap_signed w z = z.
Proof.
  intros Hw Hz. unfold wrap_signed.
  assert (2 ^ w = 2 * 2 ^ (w - 1))%Z as E.
  { rewrite <- Z.pow_succ_r by lia. f_equal. lia. }
  rewrite Z.mod_small; lia.
Qed.

Lemma wrap32_small z : (- 2 ^ 31 <= z < 2 ^ 31)%Z -> wrap32 z = z.
Proof. intros H. apply wrap_signed_small; simpl in *; lia. Qed.

Lemma wrap64_small z : (- 2 ^ 63 <= z < 2 ^ 63)%Z -> wrap64 z = z.
Proof. intros H. apply wrap_signed_small; simpl in *; lia. Qed.

Lemma wrap32_cong x y d : wrap32 x = wrap32 y -> wrap32 (x + d) = wrap32 (y + d).
Proof.
  unfold wrap32, wrap_signed. intros H.
  assert ((x + 2 ^ (32 - 1)) mod 2 ^ 32 = (y + 2 ^ (32 - 1)) mod 2 ^ 32)%Z as E by lia.
  f_equal. replace (x + d + 2 ^ (32 - 1))%Z with ((x + 2 ^ (32 - 1)) + d)%Z by lia.
  replace (y + d + 2 ^ (32 - 1))%Z with ((y + 2 ^ (32 - 1)) + d)%Z by lia.
  rewrite <- Zplus_mod_idemp_l, E, Zplus_mod_idemp_l. done.
Qed.

Lemma wrap32_idem x : wrap32 (wrap32 x) = wrap32 x.
Proof.
  apply wrap32_small. unfold wrap32, wrap_signed.
  change (2 ^ 32)%Z with 4294967296%Z. change (2 ^ (32 - 1))%Z with 2147483648%Z.
  change (2 ^ 31)%Z with 2147483648%Z.
  pose proof (Z.mod_pos_bound (x + 2147483648) 4294967296). lia.
Qed.

Lemma wrap32_add x d : wrap32 (wrap32 x + d) = wrap32 (x + d).
Proof. apply wrap32_cong, wrap32_idem. Qed.

Lemma uwrap32_range z : (0 <= uwrap32 z < 2 ^ 32)%Z.
Proof. apply Z.mod_pos_bound. lia. Qed.

Lemma uwrap64_range z : (0 <= uwrap64 z < 2 ^ 64)%Z.
Proof. apply Z.mod_pos_bound. lia. Qed.

(** A [time.Duration] is a number of nanoseconds. *)
Definition Millisecond : Z := 1000000.
Definition Second : Z := 1000000000.

(** ** Integers as text

    [strconv.FormatInt] (and [%d]) in base 10, and the reading of such text. *)
Definition FormatInt (z : Z) : string := DecimalString.NilZero.string_of_int (Z.to_int z).
Definition ParseInt (s : string) : option Z := Z.of_int <$> DecimalString.NilZero.int_of_string s.

Lemma ParseInt_FormatInt z : ParseInt (FormatInt z) = Some z.
Proof.
  unfold ParseInt, FormatInt. rewrite DecimalString.NilZero.isi.
  - simpl. by rewrite DecimalZ.of_to.
  - destruct z as [|p|p]; simpl; try done. intros [= H]. by apply (DecimalPos.Unsigned.to_uint_nonnil p).
  - destruct z as [|p|p]; simpl; try done. intros [= H]. by apply (DecimalPos.Unsigned.to_uint_nonnil p).
Qed.

(** ** Counting the elements of a list that satisfy a test *)
Section countb.
Context {T : Type}.
Implicit Types (l : list T) (f : T -> bool).

Fixpoint countb f l : nat :=
  match l with
  | [] => 0
  | x :: l => (if f x then 1 else 0) + countb f l
  end.

Lemma countb_app f l1 l2 : countb f (l1 ++ l2) = countb f l1 + countb f l2.
Proof. induction l1 as [|x l1 IH]; simpl; [done|]. rewrite IH. lia. Qed.

Lemma countb_insert f l i x y :
  l !! i = Some x ->
  countb f (<[i := y]> l) + (if f x then 1 else 0) = countb f l + (if f y then 1 else 0).
Proof.
  revert i. induction l as [|z l IH]; intros [|i] H; simplify_eq/=; [lia|].
  specialize (IH _ H). lia.
Qed.

Lemma countb_zero f l : countb f l = 0 <-> forall x, x ∈ l -> f x = false.
Proof.
  induction l as [|x l IH]; simpl.
  - split; [intros _ y Hy; by apply elem_of_nil in Hy|done].
  - split.
    + intros Hc y Hy. destruct (f x) eqn:E; [lia|].
      apply elem_of_cons in Hy as [-> | Hy]; [done|]. apply IH; [lia|done].
    + intros Hf. rewrite (Hf x) by apply list_elem_of_here.
      apply IH. intros y Hy. apply Hf. by apply list_elem_of_further.
Qed.

Lemma countb_pos f l i x : l !! i = Some x -> f x = true -> 1 <= countb f l.
Proof.
  revert i. induction l as [|z l IH]; intros [|i] H Hf; simplify_eq/=; [rewrite Hf; lia|].
  specialize (IH _ H Hf). lia.
Qed.

Lemma countb_ext f g l : (forall x, x ∈ l -> f x = g x) -> countb f l = countb g l.
Proof.
  induction l as [|x l IH]; intros H; simpl; [done|].
  rewrite (H x) by apply list_elem_of_here. rewrite IH; [done|].
  intros y Hy. apply H. by apply list_elem_of_further.
Qed.
End countb.

(** ** Automation shared by the components *)
Create HintDb actor.

(** Destructs the match the goal or a hypothesis is stuck on, keeping the equation. *)
Ltac case_all :=
  repeat (case_match; simplify_eq/=).

(** Closes goals that are equalities of map lookups. *)
Ltac map_done := simplify_map_eq; try done; try lia.
