(* ===== verification/ActorTypes.v ===== *)
(** * Shared types of the actor packages

    Actor identifiers, the error values of every package of the repository with
    their messages and their unwrapping, [From] traces and [IdErr] lists
    (actor/types.go, actor/errors.go, actor/trace.go, and the error types of
    grain/, shared/, rpc/ and cluster/). *)

From S2P Require Import Prelude.

Local Open Scope string_scope.

(** ** Actor identifiers *)

(** [ActorType] and [ActorId]: a comparable identifier with its two methods;
    [zero_id] is Go's zero value of the identifier type ([var id A]). *)
Class ActorId (A : Type) : Type := {
  ActorId_eq_dec :: EqDecision A;
  ActorId_countable :: Countable A;
  ActorType : A -> string;
  String : A -> string;
  zero_id : A;
}.

Definition actorTypeOf (A : Type) `{!ActorId A} : string := ActorType zero_id.

Definition actorNameOf `{!ActorId A} (id : A) : string := ActorType id +:+ "." +:+ String id.

(** An identifier seen through the interface [ActorIdBase]: what errors and logs keep. *)
Record ActorIdBase := mkIdBase { base_type : string; base_string : string }.

Definition to_base `{!ActorId A} (id : A) : ActorIdBase := mkIdBase (ActorType id) (String id).

#[export] Instance ActorIdBase_eq_dec : EqDecision ActorIdBase.
Proof. solve_decision. Defined.

(** ** Errors

    One constructor per error type of the repository, plus the sentinel values
    made by [errors.New], errors of user code, and the wrapped errors of
    [fmt.Errorf] with [%w]. The [Id] field of an actor error may hold the nil interface. *)
#[warnings="-register-all"]
Inductive error : Type :=
  | GroupNotFoundError (Id : option ActorIdBase)
  | GroupClosedError (Id : option ActorIdBase)
  | ActorNotFoundError (Id : option ActorIdBase)
  | ActorClosedError (Id : option ActorIdBase)
  | ActorBusyError (Id : option ActorIdBase)
  | ActorPostponeError (Id : option ActorIdBase)
  | HandlerNotFoundError (Id : option ActorIdBase) (Req : string)
  | HandlerNotAllowedError (Id : option ActorIdBase) (Req : string)
  | HandlerCallError (Id : option ActorIdBase) (Req : string) (Cause : option error)
  | ErrLeaseTaken (Key Owner : string) (Generation : Z)
  | ErrNotFound
  | ErrNoDriver
  | ErrStoreNotServed
  | NotPublishedError (Name : string)
  | TypeMismatchError (Name : string)
  | ReaderNotRegisteredError (Type_ : string)
  | ErrClientClosed
  | ErrRpcCallFailed
  | RouteError (ActorType_ ActorId_ Owner Reason : string)
  | PlacementError (ActorType_ ActorId_ : string)
  | CtxCanceled
  | CtxDeadlineExceeded
  | ErrNew (msg : string)
  | ErrWrap (msg : string) (causes : list error).

(** [fmt]'s rendering of the identifier of an error under [%s]. *)
Definition fmt_id (i : option ActorIdBase) : string :=
  match i with
  | Some b => base_string b
  | None => "%!s(<nil>)"
  end.

(** The [Error] methods of the other packages. *)
Definition LeaseTaken_Error (Key Owner : string) (Generation : Z) : string :=
  "grain: lease " +:+ Key +:+ " taken by " +:+ Owner +:+ " (generation=" +:+ pretty Generation +:+ ")".
Definition NotPublished_Error (Name : string) : string := "shared: key not published: " +:+ Name.
Definition TypeMismatch_Error (Name : string) : string := "shared: value type mismatch: " +:+ Name.
Definition ReaderNotRegistered_Error (Type_ : string) : string := "shared: reader group not registered: " +:+ Type_.
Definition Route_Error (ActorType_ ActorId_ Owner Reason : string) : string :=
  "route error: actor " +:+ ActorType_ +:+ ":" +:+ ActorId_ +:+ " should be on node " +:+ Owner +:+ ": " +:+ Reason.
Definition Placement_Error (ActorType_ ActorId_ : string) : string :=
  "no eligible node for actor " +:+ ActorType_ +:+ ":" +:+ ActorId_.
Arguments LeaseTaken_Error /.
Arguments NotPublished_Error /.
Arguments TypeMismatch_Error /.
Arguments ReaderNotRegistered_Error /.
Arguments Route_Error /.
Arguments Placement_Error /.

(** The [Error] methods. *)
Fixpoint Error (e : error) : string :=
  match e with
  | GroupNotFoundError i => "actor group not found: " +:+ fmt_id i
  | GroupClosedError i => "actor group closed: " +:+ fmt_id i
  | ActorNotFoundError i => "actor not found: " +:+ fmt_id i
  | ActorClosedError i => "actor closed: " +:+ fmt_id i
  | ActorBusyError i => "actor busy: " +:+ fmt_id i
  | ActorPostponeError i => "actor postpone: " +:+ fmt_id i
  | HandlerNotFoundError i r => "handler not found: " +:+ fmt_id i +:+ ":" +:+ r
  | HandlerNotAllowedError i r => "handler not allowed: " +:+ fmt_id i +:+ ":" +:+ r
  | HandlerCallError i _ c =>
      "handler call error [" +:+ fmt_id i +:+ "]: " +:+
      match c with Some c => Error c | None => "<nil>" end
  | ErrLeaseTaken k o g => LeaseTaken_Error k o g
  | ErrNotFound => "grain: snapshot not found"
  | ErrNoDriver => "grain: no driver configured in PersistenceManager"
  | ErrStoreNotServed => "shared: store group not served; call shared.Serve before use"
  | NotPublishedError n => NotPublished_Error n
  | TypeMismatchError n => TypeMismatch_Error n
  | ReaderNotRegisteredError t => ReaderNotRegistered_Error t
  | ErrClientClosed => "rpc client closed"
  | ErrRpcCallFailed => "rpc call failed"
  | RouteError t i o r => Route_Error t i o r
  | PlacementError t i => Placement_Error t i
  | CtxCanceled => "context canceled"
  | CtxDeadlineExceeded => "context deadline exceeded"
  | ErrNew m => m
  | ErrWrap m _ => m
  end.

(** The errors an error wraps ([Unwrap] of [HandlerCallError] and of [fmt.Errorf]). *)
Definition Unwrap (e : error) : list error :=
  match e with
  | HandlerCallError _ _ (Some c) => [c]
  | ErrWrap _ cs => cs
  | _ => []
  end.

(** [errors.As]: the first error of the tree, in pre-order, that matches the target. *)
Fixpoint errors_as {T} (target : error -> option T) (e : error) : option T :=
  match target e with
  | Some t => Some t
  | None =>
      match e with
      | HandlerCallError _ _ (Some c) => errors_as target c
      | ErrWrap _ cs =>
          (fix first (cs : list error) : option T :=
             match cs with
             | [] => None
             | c :: cs => match errors_as target c with Some t => Some t | None => first cs end
             end) cs
      | _ => None
      end
  end.

(** The direct type assertion [err.( *ActorBusyError)] of the postpone queue. *)
Definition is_busy (e : error) : bool :=
  match e with ActorBusyError _ => true | _ => false end.

(** ** Per-target results *)
Record IdErr (A : Type) := mkIdErr { Id : A; IErr : option error }.
Arguments mkIdErr {A} _ _.
Arguments Id {A} _.
Arguments IErr {A} _.

Definition CountNoErr {A} (list : list (IdErr A)) : nat :=
  foldl (fun count iderr => match IErr iderr with None => S count | Some _ => count end) 0 list.

(** ** Traces *)
Record From := mkFrom { Origin : string; ReqSeq : string }.

#[export] Instance From_eq_dec : EqDecision From.
Proof. solve_decision. Defined.

Definition From_String (f : From) : string := Origin f +:+ ":" +:+ ReqSeq f.

Definition OriginFrom (origin : string) : From := mkFrom origin origin.

Definition MakeFrom `{!ActorId A} (id : A) (seq : string) : From :=
  let reqSeq := actorNameOf id +:+ "." +:+ seq in
  mkFrom reqSeq reqSeq.

(** [Options] of a group. *)
Inductive TraceOption := TraceNone | TraceHead | TraceBrief | TraceVerbose.

Record Options := mkOptions { BufMails : nat; TraceSend : TraceOption }.

(** ** Lemmas *)

Lemma CountNoErr_countb {A} (l : list (IdErr A)) :
  CountNoErr l = countb (fun i => match IErr i with None => true | Some _ => false end) l.
Proof.
  unfold CountNoErr.
  assert (forall k, foldl (fun count (iderr : IdErr A) =>
      match IErr iderr with None => S count | Some _ => count end) k l
      = k + countb (fun i => match IErr i with None => true | Some _ => false end) l) as H.
  { induction l as [|x l IH]; intros k; simpl; [lia|].
    destruct (IErr x); rewrite IH; lia. }
  apply (H 0).
Qed.

Lemma errors_as_here {T} (target : error -> option T) e t :
  target e = Some t -> errors_as target e = Some t.
Proof. intros H. destruct e; simpl; rewrite H; done. Qed.

#[export] Hint Resolve errors_as_here : actor.
