(* ===== verification/Control.v ===== *)
(** * ActorControl: timers, quit hooks and the postpone queue

    actor/actor_control.go, with the sequence counter of actor/actor_context.go and
    the timer stubs of actor/timer.go. The functions of the file transform an
    [ActorControl] value, and those that send also the world [W] of the other
    actors, reached through the interface [Poster]. *)

From S2P Require Import Prelude ActorTypes.

Local Open Scope string_scope.

(** ** What the sending functions need from the manager

    [fpost], [fcall], [fmulticast] and [fbroadcast] are FPost, FCall, FMulticast and
    FBroadcast of actor/manager.go; [wsleep] is time.Sleep seen from the other
    goroutines, which go on running. *)
Class Poster (W I Q R : Type) : Type := {
  fpost : W -> From -> I -> Q -> W * option error;
  fcall : W -> From -> I -> Q -> W * (option R * option error);
  fmulticast : W -> From -> list I -> Q -> W * (list (IdErr I) * option error);
  fbroadcast : W -> From -> Q -> W * (nat * option error);
  wsleep : W -> Z -> W;
}.

Section Control.
Context {W I Q R : Type} `{!ActorId I} `{!Poster W I Q R}.
(** Quit hooks and timer callbacks of user code: closures, kept as values of two
    abstract types and interpreted where they run (see Runtime). *)
Context {Hook CB : Type}.

(** The callback of a timer: user code, or the postpone flush of [armPostponeFlush]. *)
Inductive timerFn := FnUser (c : CB) | FnPostponeFlush.

(** [timerStub]: callback, timer id and the [*time.Timer] it was started as. *)
Record timerStub := mkStub { stub_fn : timerFn; stub_id : Z; stub_t : nat }.

Record timerItem := mkTimerItem { ti_timer : nat; ti_from : From; ti_name : string }.

(** [postponeItem]: the closure [fn] captures the target and the request. *)
Record postponeItem := mkPostpone { pp_id : I; pp_req : Q }.

(** [gotimers] are the timers of package time that run for this control (started
    by [time.AfterFunc], neither stopped nor fired), [next_timer] the next fresh one. *)
Record ActorControl := mkControl {
  name : string;
  canceled : bool;
  from : From;
  seqCounter : Z;
  active : bool;
  OnQuit : list Hook;
  timers : gmap Z timerItem;
  timerId : Z;
  postpone : list postponeItem;
  postponeSet : gset I;
  postponeTimer : Z;
  gotimers : gmap nat timerStub;
  next_timer : nat;
}.

(** Field updates. *)
Definition set_canceled b a := mkControl (name a) b (from a) (seqCounter a) (active a) (OnQuit a)
  (timers a) (timerId a) (postpone a) (postponeSet a) (postponeTimer a) (gotimers a) (next_timer a).
Definition set_from f a := mkControl (name a) (canceled a) f (seqCounter a) (active a) (OnQuit a)
  (timers a) (timerId a) (postpone a) (postponeSet a) (postponeTimer a) (gotimers a) (next_timer a).
Definition set_seq n a := mkControl (name a) (canceled a) (from a) n (active a) (OnQuit a)
  (timers a) (timerId a) (postpone a) (postponeSet a) (postponeTimer a) (gotimers a) (next_timer a).
Definition set_active b a := mkControl (name a) (canceled a) (from a) (seqCounter a) b (OnQuit a)
  (timers a) (timerId a) (postpone a) (postponeSet a) (postponeTimer a) (gotimers a) (next_timer a).
Definition set_OnQuit h a := mkControl (name a) (canceled a) (from a) (seqCounter a) (active a) h
  (timers a) (timerId a) (postpone a) (postponeSet a) (postponeTimer a) (gotimers a) (next_timer a).
Definition set_timers t n a := mkControl (name a) (canceled a) (from a) (seqCounter a) (active a) (OnQuit a)
  t n (postpone a) (postponeSet a) (postponeTimer a) (gotimers a) (next_timer a).
Definition set_postpone l s a := mkControl (name a) (canceled a) (from a) (seqCounter a) (active a) (OnQuit a)
  (timers a) (timerId a) l s (postponeTimer a) (gotimers a) (next_timer a).
Definition set_postponeTimer t a := mkControl (name a) (canceled a) (from a) (seqCounter a) (active a) (OnQuit a)
  (timers a) (timerId a) (postpone a) (postponeSet a) t (gotimers a) (next_timer a).
Definition set_gotimers g n a := mkControl (name a) (canceled a) (from a) (seqCounter a) (active a) (OnQuit a)
  (timers a) (timerId a) (postpone a) (postponeSet a) (postponeTimer a) g n.

(** The control of a fresh context ([newActorContext]). *)
Definition new_control (nm : string) : ActorControl :=
  mkControl nm false (mkFrom "" "") 0 false [] ∅ 0 [] ∅ 0 ∅ 0.

(** [fromSeq]: a new request sequence name; the origin is inherited when there is one. *)
Definition fromSeq (a : ActorControl) (f : From) : ActorControl * From :=
  let seq := wrap64 (seqCounter a + 1) in
  let reqSeq := name a +:+ "." +:+ pretty seq in
  let origin := if String.eqb (Origin f) "" then reqSeq else Origin f in
  (set_seq seq a, mkFrom origin reqSeq).

Definition invokeLogger (f : From) (a : ActorControl) : ActorControl := set_from f a.

Definition Open (a : ActorControl) : ActorControl := set_active true a.
Definition Quit (a : ActorControl) : ActorControl := set_active false a.

(** [PushOnQuit]: the new hook runs before the older ones; a nil hook is ignored.
    The list is the composed closure, in running order, and [[]] is the nil function. *)
Definition PushOnQuit (fn : option Hook) (a : ActorControl) : ActorControl :=
  match fn with
  | None => a
  | Some h => set_OnQuit (h :: OnQuit a) a
  end.

(** ** Timers *)

(** One probing step of the search for a free timer id. *)
Definition next_id (id : Z) : Z := if (id =? MaxInt)%Z then 1 else (id + 1)%Z.

(** The probing loop; [fuel] bounds the number of probes ([Timer] gives enough). *)
Fixpoint probe (fuel : nat) (ts : gmap Z timerItem) (start id : Z) : Z :=
  match fuel with
  | O => id
  | S fuel =>
      match ts !! id with
      | None => id
      | Some _ =>
          let id' := next_id id in
          if (id' =? start)%Z then id' else probe fuel ts start id'
      end
  end.

Definition first_id (last : Z) : Z :=
  let id := wrap64 (last + 1) in if (id =? MaxInt)%Z then 1 else id.

(** [Timer]: allocates an id, starts the timer and records it. *)
Definition Timer (nm : string) (fn : timerFn) (a : ActorControl) : ActorControl * Z :=
  let start := first_id (timerId a) in
  let id := probe (S (size (timers a))) (timers a) start start in
  let '(a1, fr) := fromSeq a (from a) in
  let t := next_timer a1 in
  let a2 := set_gotimers (<[t := mkStub fn id t]> (gotimers a1)) (S t) a1 in
  (set_timers (<[id := mkTimerItem t fr nm]> (timers a2)) id a2, id).

Definition stop_gotimer (t : nat) (a : ActorControl) : ActorControl :=
  set_gotimers (delete t (gotimers a)) (next_timer a) a.

(** [StopTimer] *)
Definition StopTimer (tid : Z) (a : ActorControl) : ActorControl * bool :=
  match timers a !! tid with
  | None => (a, false)
  | Some timer =>
      let a1 := stop_gotimer (ti_timer timer) a in
      (set_timers (delete tid (timers a1)) (timerId a1) a1, true)
  end.

(** A timer fires: package time runs the closure of [timerFn], which sends the
    stub to the actor's mailbox. *)
Definition fire_timer (t : nat) (a : ActorControl) : ActorControl * option timerStub :=
  (stop_gotimer t a, gotimers a !! t).

(** The guard of [timerInvoke.Invoke]: the callback runs only if the stub is still the
    one registered under its id, which is then removed. *)
Definition take_timer (i : timerStub) (a : ActorControl) : option ActorControl :=
  match timers a !! stub_id i with
  | None => None
  | Some timer =>
      if bool_decide (ti_timer timer = stub_t i)
      then Some (set_timers (delete (stub_id i) (timers a)) (timerId a) a)
      else None
  end.

(** ** The postpone queue *)

Definition hasPostpone (a : ActorControl) (id : I) : bool := bool_decide (id ∈ postponeSet a).

Definition stopPostponeFlush (a : ActorControl) : ActorControl :=
  if (postponeTimer a =? 0)%Z then a
  else set_postponeTimer 0 (StopTimer (postponeTimer a) a).1.

Definition armPostponeFlush (a : ActorControl) : ActorControl :=
  if negb (postponeTimer a =? 0)%Z || match postpone a with [] => true | _ => false end then a
  else
    let '(a1, tid) := Timer "PostponeFlush" FnPostponeFlush a in
    set_postponeTimer tid a1.

(** The closure a postponed item keeps: one more FPost of its request. *)
Definition run_item (w : W) (a : ActorControl) (it : postponeItem) : W * ActorControl * option error :=
  let '(a1, fr) := fromSeq a (from a) in
  let '(w1, err) := fpost w fr (pp_id it) (pp_req it) in
  (w1, a1, err).

(** The loop of [poseponePost]: every item is tried once, the busy ones are kept. *)
Fixpoint retry_items (w : W) (a : ActorControl) (l : list postponeItem)
    : W * ActorControl * list postponeItem :=
  match l with
  | [] => (w, a, [])
  | it :: l =>
      let '(w1, a1, err) := run_item w a it in
      let '(w2, a2, kept) := retry_items w1 a1 l in
      match err with
      | Some e => if is_busy e then (w2, a2, it :: kept) else (w2, a2, kept)
      | None => (w2, a2, kept)
      end
  end.

Definition item_ids (l : list postponeItem) : gset I := list_to_set (pp_id <$> l).

Definition poseponePost (w : W) (a : ActorControl) : W * ActorControl :=
  match postpone a with
  | [] => (w, a)
  | l =>
      let a0 := set_postpone [] (postponeSet a) a in
      let '(w1, a1, kept) := retry_items w a0 l in
      let a2 := set_postpone kept (item_ids kept) a1 in
      (w1, match kept with [] => stopPostponeFlush a2 | _ => a2 end)
  end.

(** [flushPostpone]; the third component is the list of the items it drops (and logs). *)
Definition flushPostpone (w : W) (a : ActorControl) : W * ActorControl * list postponeItem :=
  let a1 := stopPostponeFlush a in
  match postpone a1 with
  | [] => (w, a1, [])
  | _ =>
      let '(w2, a2) := poseponePost w a1 in
      (w2, set_postpone [] ∅ a2, postpone a2)
  end.

(** The callback of the flush timer. *)
Definition postponeFlush (w : W) (a : ActorControl) : W * ActorControl :=
  let '(w1, a1) := poseponePost w (set_postponeTimer 0 a) in
  (w1, armPostponeFlush a1).

Definition appendPostpone (id : I) (req : Q) (a : ActorControl) : ActorControl :=
  armPostponeFlush
    (set_postpone (postpone a ++ [mkPostpone id req]) ({[id]} ∪ postponeSet a) a).

(** [ActorControl.clear]: last flush, all timers stopped, and the context cancelled
    (the deferred cancel runs when this function returns). *)
Definition stop_all_timers (a : ActorControl) : ActorControl :=
  let stopped := (fun kv : Z * timerItem => ti_timer kv.2) <$> map_to_list (timers a) in
  let a1 := foldr stop_gotimer a stopped in
  set_timers ∅ (timerId a1) a1.

Definition clear (w : W) (a : ActorControl) : W * ActorControl * list postponeItem :=
  let '(w1, a1, dropped) := flushPostpone w a in
  (w1, set_canceled true (stop_all_timers a1), dropped).

(** ** Sending from an actor *)

Definition APostOnce (w : W) (a : ActorControl) (id : I) (req : Q) : W * ActorControl * option error :=
  let '(w1, a1) := poseponePost w a in
  if hasPostpone a1 id then (w1, a1, Some (ActorPostponeError (Some (to_base id))))
  else
    let '(a2, fr) := fromSeq a1 (from a1) in
    let '(w2, err) := fpost w1 fr id req in
    (w2, a2, err).

Definition APost (w : W) (a : ActorControl) (id : I) (req : Q) : W * ActorControl * option error :=
  let '(w1, a1) := poseponePost w a in
  if hasPostpone a1 id then
    (w1, appendPostpone id req a1, Some (ActorPostponeError (Some (to_base id))))
  else
    let '(a2, fr) := fromSeq a1 (from a1) in
    let '(w2, err) := fpost w1 fr id req in
    match err with
    | None => (w2, a2, None)
    | Some e => if is_busy e then (w2, appendPostpone id req a2, Some e) else (w2, a2, Some e)
    end.

(** One turn of the loop of [ACall]: [rep] is the reply variable before the turn, and
    the flag says that the loop goes on. *)
Definition acall_turn (w : W) (a : ActorControl) (id : I) (req : Q) (rep : option R)
    : W * ActorControl * (option R * option error) * bool :=
  let '(w1, a1) := poseponePost w a in
  if hasPostpone a1 id then
    (w1, a1, (rep, Some (ActorPostponeError (Some (to_base id)))), true)
  else
    let '(a2, fr) := fromSeq a1 (from a1) in
    let '(w2, (rep, err)) := fcall w1 fr id req in
    (w2, a2, (rep, err), match err with None => false | Some e => is_busy e end).

(** The loop over [i = 0, 1, 2] with its pauses of [i * i * 20] milliseconds. *)
Fixpoint acall_loop (is_ : list Z) (w : W) (a : ActorControl) (id : I) (req : Q)
    (last : option R * option error) : W * ActorControl * (option R * option error) :=
  match is_ with
  | [] => (w, a, last)
  | i :: is_ =>
      let w0 := if (0 <? i)%Z then wsleep w (i * i * 20) else w in
      let '(w1, a1, r, again) := acall_turn w0 a id req last.1 in
      if again then acall_loop is_ w1 a1 id req r else (w1, a1, r)
  end.

Definition ACall (w : W) (a : ActorControl) (id : I) (req : Q) :=
  acall_loop [0; 1; 2]%Z w a id req (None, None).

Fixpoint splitPostpone (a : ActorControl) (ids : list I) : list I * list I :=
  match ids with
  | [] => ([], [])
  | id :: ids =>
      let '(p, np) := splitPostpone a ids in
      if hasPostpone a id then (id :: p, np) else (p, id :: np)
  end.

Fixpoint splitIdErr (l : list (IdErr I)) : list I * list (IdErr I) :=
  match l with
  | [] => ([], [])
  | x :: l =>
      let '(p, np) := splitIdErr l in
      match IErr x with
      | None => (p, x :: np)
      | Some e => if is_busy e then (Id x :: p, np) else (p, x :: np)
      end
  end.

Definition postpone_err (id : I) : IdErr I := mkIdErr id (Some (ActorPostponeError (Some (to_base id)))).
Definition busy_err (id : I) : IdErr I := mkIdErr id (Some (ActorBusyError (Some (to_base id)))).

Definition AMulticastOnce (w : W) (a : ActorControl) (ids : list I) (req : Q)
    : W * ActorControl * (list (IdErr I) * option error) :=
  let '(w1, a1) := poseponePost w a in
  let '(p, np) := splitPostpone a1 ids in
  let '(a2, fr) := fromSeq a1 (from a1) in
  let '(w2, (list, err)) := fmulticast w1 fr np req in
  match err with
  | Some e => (w2, a2, ([], Some e))
  | None => (w2, a2, ((list ++ (postpone_err <$> p))%list, None))
  end.

Definition append_all (ids : list I) (req : Q) (a : ActorControl) : ActorControl :=
  foldl (fun a id => appendPostpone id req a) a ids.

Definition AMulticast (w : W) (a : ActorControl) (ids : list I) (req : Q)
    : W * ActorControl * (list (IdErr I) * option error) :=
  let '(w1, a1) := poseponePost w a in
  let '(p, np) := splitPostpone a1 ids in
  let '(a2, fr) := fromSeq a1 (from a1) in
  let '(w2, (list, err)) := fmulticast w1 fr np req in
  match err with
  | Some e => (w2, a2, ([], Some e))
  | None =>
      let '(b, nb) := splitIdErr list in
      let a3 := append_all p req (append_all b req a2) in
      (w2, a3, ((nb ++ (busy_err <$> b) ++ (postpone_err <$> p))%list, None))
  end.

(** The [Keys] variants take the keys of a map, in the order Go ranges over it
    ([map_to_list] stands for that unspecified order). *)
Definition AMulticastOnceKeys {X} (w : W) (a : ActorControl) (ids : gmap I X) (req : Q) :=
  AMulticastOnce w a (map_to_list ids).*1 req.

Definition AMulticastKeys {X} (w : W) (a : ActorControl) (ids : gmap I X) (req : Q) :=
  AMulticast w a (map_to_list ids).*1 req.

Definition ABroadcast (w : W) (a : ActorControl) (req : Q) : W * ActorControl * (nat * option error) :=
  let '(a1, fr) := fromSeq a (from a) in
  let '(w1, r) := fbroadcast w fr req in
  (w1, a1, r).

End Control.

Arguments timerFn CB : clear implicits.
Arguments timerStub CB : clear implicits.


Arguments postponeItem I Q : clear implicits.
Arguments ActorControl I Q {_} Hook CB.
Arguments Timer : simpl never.
Arguments StopTimer : simpl never.
