(* ===== verification/ControlSpec.v ===== *)
(** * What ActorControl promises

    The theorems about timers, the postpone queue and the retrying sends of
    actor/actor_control.go, over any manager that satisfies the [Poster] interface
    and, where they speak of delivery, the laws of [PosterLog]. *)

From S2P Require Import Prelude ActorTypes Control ControlProps.

Local Open Scope string_scope.

(** ** The laws of delivery *)

(** [delivered w] is the sequence of messages this actor has got into mailboxes. *)
Class PosterLog (W I Q R : Type) `{!ActorId I} `{!Poster W I Q R} : Type := {
  delivered : W -> list (I * Q);
  fpost_ok : forall w fr id q w',
    fpost w fr id q = (w', None) -> delivered w' = (delivered w ++ [(id, q)])%list;
  fpost_err : forall w fr id q w' e,
    fpost w fr id q = (w', Some e) -> delivered w' = delivered w;
}.

(** While one flush runs nobody drains the mailboxes: a target that was busy refuses
    the rest of the flush. *)
Class PosterStable (W I Q R : Type) `{!ActorId I} `{!Poster W I Q R} : Type := {
  blocked : W -> I -> Prop;
  fpost_busy : forall w fr id q w' e,
    fpost w fr id q = (w', Some e) -> is_busy e = true -> blocked w' id;
  blocked_refuses : forall w id fr q, blocked w id -> (fpost w fr id q).2 ≠ None;
  blocked_fpost : forall w id fr id' q, blocked w id -> blocked (fpost w fr id' q).1 id;
}.

(** ** A small manager, for the witnesses

    Targets are numbers; [tw_full] lists those whose mailbox is full. *)
Module ToyManager.
#[export] Instance nat_actor_id : ActorId nat :=
  {| ActorType := fun _ => "T"; String := fun n => pretty (Z.of_nat n); zero_id := 0 |}.

Record toy := mkToy { tw_log : list (nat * nat); tw_full : list nat }.

Definition toy_fpost (w : toy) (fr : From) (id q : nat) : toy * option error :=
  if bool_decide (id ∈ tw_full w) then (w, Some (ActorBusyError (Some (to_base id))))
  else (mkToy (tw_log w ++ [(id, q)]) (tw_full w), None).

Fixpoint toy_multicast (w : toy) (fr : From) (ids : list nat) (q : nat) : toy * list (IdErr nat) :=
  match ids with
  | [] => (w, [])
  | id :: ids =>
      let '(w1, e) := toy_fpost w fr id q in
      let '(w2, l) := toy_multicast w1 fr ids q in
      (w2, mkIdErr id e :: l)
  end.

(** Sleeping lets every mailbox drain. *)
#[export] Instance toy_poster : Poster toy nat nat nat := {|
  fpost := toy_fpost;
  fcall := fun w fr id q =>
    let '(w1, e) := toy_fpost w fr id q in
    (w1, match e with None => (Some (q + 1), None) | Some e => (None, Some e) end);
  fmulticast := fun w fr ids q => let '(w1, l) := toy_multicast w fr ids q in (w1, (l, None));
  fbroadcast := fun w fr q => (w, (0, None));
  wsleep := fun w d => mkToy (tw_log w) [];
|}.

#[export] Instance toy_log : PosterLog toy nat nat nat.
Proof.
  refine {| delivered := tw_log; fpost_ok := _; fpost_err := _ |}.
  - intros w fr id q w'. simpl. unfold toy_fpost. case_bool_decide; [done|]. by intros [= <-].
  - intros w fr id q w' e. simpl. unfold toy_fpost. case_bool_decide; [|done]. by intros [= <- _].
Defined.

#[export] Instance toy_stable : PosterStable toy nat nat nat.
Proof.
  refine {| blocked := fun w id => id ∈ tw_full w;
            fpost_busy := _; blocked_refuses := _; blocked_fpost := _ |}.
  - intros w fr id q w' e. simpl. unfold toy_fpost. case_bool_decide; [|done].
    by intros [= <- <-] _.
  - intros w id fr q H. simpl. unfold toy_fpost. by rewrite bool_decide_eq_true_2.
  - intros w id fr id' q H. simpl. unfold toy_fpost. by case_bool_decide.
Defined.

Definition ctl0 : ActorControl nat nat nat nat := new_control "T.0".
End ToyManager.

(** ** The queue under one flush *)
Section queue.
Context {W I Q R : Type} `{!ActorId I} `{!Poster W I Q R} {Hook CB : Type}.
Implicit Types (a : ActorControl I Q Hook CB) (w : W).

(** The messages of a list that go to [id], in order. *)
Definition to_target (id : I) (l : list (I * Q)) : list (I * Q) := filter (fun p => p.1 = id) l.

Definition queued a : list (I * Q) := (fun it => (pp_id it, pp_req it)) <$> postpone a.
Definition items (l : list (postponeItem I Q)) : list (I * Q) :=
  (fun it => (pp_id it, pp_req it)) <$> l.

Definition queue_set_ok a : Prop := postponeSet a = item_ids (postpone a).

Lemma to_target_app id l1 l2 : to_target id (l1 ++ l2) = (to_target id l1 ++ to_target id l2)%list.
Proof. apply filter_app. Qed.

Lemma to_target_one id p :
  to_target id [p] = if decide (p.1 = id) then [p] else [].
Proof. unfold to_target. rewrite filter_cons, filter_nil. done. Qed.

Lemma to_target_sublist id l1 l2 : l1 `sublist_of` l2 -> to_target id l1 `sublist_of` to_target id l2.
Proof.
  induction 1 as [|x l1 l2 H IH|x l1 l2 H IH]; [done|..]; unfold to_target in *;
    rewrite ?filter_cons.
  - case_decide; [by constructor|done].
  - case_decide; [by constructor|done].
Qed.

Lemma items_sublist l1 l2 : l1 `sublist_of` l2 -> items l1 `sublist_of` items l2.
Proof. apply fmap_sublist. Qed.

Lemma to_target_items_cons id it (l : list (postponeItem I Q)) :
  to_target id (items (it :: l)) =
    (to_target id [(pp_id it, pp_req it)] ++ to_target id (items l))%list.
Proof. apply (to_target_app id [(pp_id it, pp_req it)] (items l)). Qed.

Lemma armPostponeFlush_queue a : queued (armPostponeFlush a) = queued a /\
  (queue_set_ok a -> queue_set_ok (armPostponeFlush a)).
Proof.
  unfold armPostponeFlush, queue_set_ok, queued.
  destruct (negb _ || _); [done|].
  destruct (Timer_queue "PostponeFlush" FnPostponeFlush a) as (Q1 & Q2 & Q3).
  destruct (Timer _ _ a) as [a1 tid]. cbn [fst snd] in *. simpl. by rewrite Q1, Q2.
Qed.

Lemma appendPostpone_queue id req a :
  queued (appendPostpone id req a) = (queued a ++ [(id, req)])%list /\
  (queue_set_ok a -> queue_set_ok (appendPostpone id req a)).
Proof.
  unfold appendPostpone.
  set (a1 := set_postpone (postpone a ++ [mkPostpone id req]) ({[id]} ∪ postponeSet a) a).
  destruct (armPostponeFlush_queue a1) as [H1 H2]. rewrite H1. split.
  - unfold queued. simpl. by rewrite fmap_app.
  - intros Hs. apply H2. unfold queue_set_ok in *. simpl. rewrite Hs. unfold item_ids.
    rewrite fmap_app, list_to_set_app_L. simpl.
    by rewrite (right_id_L ∅ (∪)), (comm_L (∪)).
Qed.

Lemma stopPostponeFlush_queue a :
  postpone (stopPostponeFlush a) = postpone a /\ postponeSet (stopPostponeFlush a) = postponeSet a.
Proof.
  unfold stopPostponeFlush. destruct (_ =? _)%Z; [done|].
  by destruct (StopTimer_queue (postponeTimer a) a) as (Q1 & Q2 & _).
Qed.

(** [poseponePost] is one pass of [retry_items] over the queue. *)
Lemma poseponePost_queue w a :
  exists a0, (poseponePost w a).1 = (retry_items w a0 (postpone a)).1.1 /\
  postpone (poseponePost w a).2 = (retry_items w a0 (postpone a)).2 /\
  (queue_set_ok a -> queue_set_ok (poseponePost w a).2).
Proof.
  exists (set_postpone [] (postponeSet a) a).
  unfold poseponePost, queue_set_ok.
  destruct (postpone a) as [|it l] eqn:E; [simpl; by rewrite E|].
  destruct (retry_items w _ (it :: l)) as [[w1 a1] kept].
  destruct kept as [|k kept]; [|done].
  destruct (stopPostponeFlush_queue (set_postpone [] (item_ids (@nil (postponeItem I Q))) a1)) as [E1 E2].
  simpl. by rewrite E1, E2.
Qed.

Lemma hasPostpone_spec a id :
  queue_set_ok a -> hasPostpone a id = true <-> id ∈ (queued a).*1.
Proof.
  intros Hs. unfold hasPostpone. rewrite bool_decide_eq_true, Hs.
  unfold item_ids, queued. rewrite elem_of_list_to_set, <- list_fmap_compose. done.
Qed.

Lemma to_target_absent id (l : list (I * Q)) : id ∉ l.*1 -> to_target id l = [].
Proof.
  induction l as [|p l IH]; intros H; [done|]. unfold to_target in *. rewrite filter_cons.
  rewrite fmap_cons, elem_of_cons in H.
  rewrite decide_False by (intros E; apply H; left; done). apply IH. tauto.
Qed.

(** The retry pass and the delivered messages. *)
Section retry.
Context `{!PosterLog W I Q R}.

Lemma run_item_delivered w a it :
  delivered (run_item w a it).1.1 =
  match (run_item w a it).2 with
  | None => (delivered w ++ [(pp_id it, pp_req it)])%list
  | Some _ => delivered w
  end.
Proof.
  unfold run_item. simpl.
  destruct (fpost w _ (pp_id it) (pp_req it)) as [w1 [e|]] eqn:E; simpl.
  - by apply fpost_err in E.
  - by apply fpost_ok in E.
Qed.

Context `{!PosterStable W I Q R}.

Lemma run_item_blocked w a it id : blocked w id -> blocked (run_item w a it).1.1 id.
Proof.
  intros H. unfold run_item. simpl. pose proof (blocked_fpost w id (fromSeq a (from a)).2 (pp_id it) (pp_req it) H).
  simpl in *. by destruct (fpost _ _ _ _).
Qed.

Lemma run_item_refused w a it : blocked w (pp_id it) -> (run_item w a it).2 ≠ None.
Proof.
  intros H. unfold run_item. simpl.
  pose proof (blocked_refuses w (pp_id it) (fromSeq a (from a)).2 (pp_req it) H).
  simpl in *. by destruct (fpost _ _ _ _).
Qed.

Lemma run_item_busy w a it e :
  (run_item w a it).2 = Some e -> is_busy e = true -> blocked (run_item w a it).1.1 (pp_id it).
Proof.
  unfold run_item. simpl. destruct (fpost w _ (pp_id it) (pp_req it)) as [w1 o] eqn:E. simpl.
  intros ->. by eapply fpost_busy.
Qed.

(** A blocked target gets nothing in the pass. *)
Lemma retry_blocked w a l id :
  blocked w id -> to_target id (delivered (retry_items w a l).1.1) = to_target id (delivered w).
Proof.
  revert w a. induction l as [|it l IH]; intros w a Hb; simpl; [done|].
  pose proof (run_item_blocked w a it id Hb) as Hb1.
  pose proof (run_item_delivered w a it) as Hd.
  pose proof (run_item_refused w a it) as Href.
  destruct (run_item w a it) as [[w1 a1] o]. cbn [fst snd] in *.
  specialize (IH w1 a1 Hb1).
  destruct (retry_items w1 a1 l) as [[w2 a2] kept]. cbn [fst snd] in *.
  assert (to_target id (delivered w1) = to_target id (delivered w)) as E.
  { destruct o; [by rewrite Hd|]. rewrite Hd, to_target_app, to_target_one. simpl.
    case_decide as Eid; [|by rewrite app_nil_r]. subst id. by destruct (Href Hb). }
  rewrite <- E, <- IH. destruct o as [e|]; [destruct (is_busy e)|]; done.
Qed.

(** The pass never inverts two messages to one target. *)
Lemma retry_order w a l id :
  (to_target id (delivered (retry_items w a l).1.1) ++
   to_target id (items (retry_items w a l).2))%list
  `sublist_of` (to_target id (delivered w) ++ to_target id (items l))%list.
Proof.
  revert w a. induction l as [|it l IH]; intros w a; [done|].
  rewrite (to_target_items_cons id it l). cbn [retry_items].
  pose proof (run_item_delivered w a it) as Hd.
  pose proof (run_item_busy w a it) as Hbusy.
  pose proof (retry_items_sublist (run_item w a it).1.1 (run_item w a it).1.2 l) as Hsub.
  pose proof (retry_blocked (run_item w a it).1.1 (run_item w a it).1.2 l id) as Hblk.
  destruct (run_item w a it) as [[w1 a1] o]. cbn [fst snd] in *.
  specialize (IH w1 a1).
  destruct (retry_items w1 a1 l) as [[w2 a2] kept]. cbn [fst snd] in *.
  destruct o as [e|].
  - rewrite Hd in IH. destruct (is_busy e) eqn:Eb; cbn [fst snd].
    + rewrite (to_target_items_cons id it kept), to_target_one. cbn [fst]. case_decide as Eid.
      * subst id. rewrite Hblk by by eapply Hbusy. rewrite Hd.
        apply sublist_app; [done|]. apply sublist_app; [done|].
        by apply to_target_sublist, items_sublist.
      * simpl. done.
    + etrans; [done|]. apply sublist_app; [done|]. by apply sublist_inserts_l.
  - rewrite Hd, to_target_app, <- app_assoc in IH. done.
Qed.
End retry.
End queue.

(** ** Timers *)
Section timer_theorems.
Context {I Q : Type} `{!ActorId I} {Hook CB : Type}.
Implicit Types (a : ActorControl I Q Hook CB).

(** Some timer is started. *)
Definition timer_started a b : Prop := exists nm fn, b = (Timer nm fn a).1.

(** [Timer] returns an id between 1 and MaxInt that no registered timer has, even
    when the ids wrapped around and the probing has to skip occupied ones: the
    probing loop ends with a free id while the map holds fewer than MaxInt timers.
    The new timer is registered under that id and runs, the others are unchanged. *)
Theorem Timer_fresh nm fn a :
  (0 <= timerId a < MaxInt)%Z -> (Z.of_nat (size (timers a)) < MaxInt)%Z ->
  let a' := (Timer nm fn a).1 in let id := (Timer nm fn a).2 in
  (1 <= id <= MaxInt)%Z /\ timers a !! id = None /\ timerId a' = id /\
  (exists it, timers a' !! id = Some it /\ ti_name it = nm /\
     gotimers a' !! ti_timer it = Some (mkStub fn id (ti_timer it))) /\
  (forall id', id' ≠ id -> timers a' !! id' = timers a !! id').
Proof.
  intros Hl Hs. pose proof (first_id_range _ Hl) as Hf.
  set (p := probe (S (size (timers a))) (timers a) (first_id (timerId a)) (first_id (timerId a))).
  assert (timers a !! p = None) as Hfree by (by apply probe_free).
  assert (1 <= p <= MaxInt)%Z as Hr by (by apply probe_range).
  change (Timer nm fn a).2 with p. cbn zeta. rewrite Timer_lookup, Timer_timerId.
  change (Timer nm fn a).2 with p. split; [done|]. split; [done|]. split; [done|]. split.
  - eexists. split; [apply lookup_insert_eq|]. split; [done|]. simpl. apply lookup_insert_eq.
  - intros id' Hne. by rewrite lookup_insert_ne.
Qed.

(** A stopped timer never runs: once [StopTimer] returned true the stub of that
    timer is refused by the guard of its callback, even if it had already fired and
    waits in the mailbox, and whatever other timers are then started under any id
    (the id may be issued again). *)
Theorem StopTimer_final tid a i timer :
  timers_wf a -> timers a !! tid = Some timer -> stub_id i = tid -> stub_t i = ti_timer timer ->
  (StopTimer tid a).2 = true /\
  (forall b, rtc timer_started (StopTimer tid a).1 b -> take_timer i b = None).
Proof.
  intros Hwf Htid Hid Ht.
  assert (forall b, rtc timer_started (StopTimer tid a).1 b ->
    ti_timer timer < next_timer b /\
    (forall id it, timers b !! id = Some it -> ti_timer it ≠ ti_timer timer)) as Hinv.
  { refine (rtc_ind_r (R := timer_started) _ _ _ _).
    - unfold StopTimer. rewrite Htid. simpl. split; [by eapply tw_item|].
      intros id it H. apply lookup_delete_Some in H as [Hne H]. intros E.
      apply Hne. by eapply tw_inj.
    - intros x y _ (nm & fn & ->) [H1 H2].
      change (next_timer (Timer nm fn x).1) with (S (next_timer x)). split; [lia|].
      intros id it. rewrite Timer_lookup. intros [[_ <-]|[_ H]]%lookup_insert_Some; simpl; [lia|].
      by eapply H2. }
  split; [unfold StopTimer; by rewrite Htid|].
  intros b Hb. destruct (Hinv b Hb) as [_ Hno].
  unfold take_timer. destruct (timers b !! stub_id i) as [it|] eqn:E; [|done].
  rewrite bool_decide_eq_false_2; [done|]. rewrite Ht. by eapply Hno.
Qed.
End timer_theorems.

(** ** The postpone queue *)
Section queue_theorems.
Context {W I Q R : Type} `{!ActorId I} `{!Poster W I Q R} {Hook CB : Type}.
Implicit Types (a : ActorControl I Q Hook CB) (w : W).


(** What [APost] decides, after its first flush. *)
Lemma APost_cases `{!PosterLog W I Q R} w a id req :
  queue_set_ok a ->
  let w1 := (poseponePost w a).1 in let a1 := (poseponePost w a).2 in
  let w' := (APost w a id req).1.1 in let a' := (APost w a id req).1.2 in
  queue_set_ok a' /\
  match (APost w a id req).2 with
  | None => (id ∉ (queued a1).*1) /\ delivered w' = (delivered w1 ++ [(id, req)])%list /\
            queued a' = queued a1
  | Some e => delivered w' = delivered w1 /\
      queued a' = (if bool_decide (id ∈ (queued a1).*1) || is_busy e
                   then queued a1 ++ [(id, req)] else queued a1)%list
  end.
Proof.
  intros Hs. destruct (poseponePost_queue w a) as (a0 & _ & _ & Hs1). specialize (Hs1 Hs).
  unfold APost. pose proof (hasPostpone_spec (poseponePost w a).2 id Hs1) as Hhp.
  destruct (poseponePost w a) as [w1 a1]. cbn [fst snd] in *.
  destruct (hasPostpone a1 id) eqn:Ehp; cbn [fst snd].
  - rewrite bool_decide_eq_true_2 by (by apply Hhp). simpl.
    destruct (appendPostpone_queue id req a1) as [G1 G2]. auto.
  - assert (id ∉ (queued a1).*1) as Hni by (intros Hin; by apply Hhp in Hin).
    rewrite bool_decide_eq_false_2 by done.
    destruct (fromSeq a1 (from a1)) as [a2 fr] eqn:Ef.
    assert (queued a2 = queued a1 /\ queue_set_ok a2) as [Hq2 Hs2]
      by (unfold fromSeq in Ef; by simplify_eq).
    destruct (fpost w1 fr id req) as [w2 [e|]] eqn:Ep.
    + apply fpost_err in Ep. destruct (is_busy e) eqn:Eb; cbn [fst snd orb]; rewrite ?Eb; [|by rewrite Hq2].
      destruct (appendPostpone_queue id req a2) as [G1 G2]. rewrite <- Hq2, G1. auto.
    + apply fpost_ok in Ep. cbn [fst snd]. auto.
Qed.

(** [APost] returns nil exactly when the message went into the mailbox of its target;
    on any error nothing was delivered, and the message was appended to the postpone
    queue if and only if the target already had queued messages or was busy. A target
    with queued messages is never sent to directly, so it cannot be overtaken. *)
Theorem APost_result `{!PosterLog W I Q R} w a id req :
  queue_set_ok a ->
  let w1 := (poseponePost w a).1 in let a1 := (poseponePost w a).2 in
  let w' := (APost w a id req).1.1 in let a' := (APost w a id req).1.2 in
  match (APost w a id req).2 with
  | None => (id ∉ (queued a1).*1) /\ delivered w' = (delivered w1 ++ [(id, req)])%list /\
            queued a' = queued a1
  | Some e => delivered w' = delivered w1 /\
      queued a' = (if bool_decide (id ∈ (queued a1).*1) || is_busy e
                   then queued a1 ++ [(id, req)] else queued a1)%list
  end.
Proof. intros Hs. exact (proj2 (APost_cases w a id req Hs)). Qed.

(** The life of the queue between sends of this actor: its posts, the callbacks of
    the flush timer, and moves of the others, which do not add to what it delivered.
    The last component is the list of what was posted, in order. *)
Inductive post_step `{!PosterLog W I Q R} :
    W * ActorControl I Q Hook CB * list (I * Q) -> W * ActorControl I Q Hook CB * list (I * Q) -> Prop :=
  | post_APost w a sub id req :
      post_step (w, a, sub) ((APost w a id req).1, (sub ++ [(id, req)])%list)
  | post_flush w a sub : post_step (w, a, sub) (postponeFlush w a, sub)
  | post_env w w' a sub : delivered w' = delivered w -> post_step (w, a, sub) (w', a, sub).

(** The order invariant. *)
Definition in_order `{!PosterLog W I Q R} (s : W * ActorControl I Q Hook CB * list (I * Q)) : Prop :=
  queue_set_ok s.1.2 /\
  forall id, (to_target id (delivered s.1.1) ++ to_target id (queued s.1.2))%list
    `sublist_of` to_target id s.2.

Lemma poseponePost_order `{!PosterLog W I Q R, !PosterStable W I Q R} w a id :
  (to_target id (delivered (poseponePost w a).1) ++ to_target id (queued (poseponePost w a).2))%list
  `sublist_of` (to_target id (delivered w) ++ to_target id (queued a))%list.
Proof.
  destruct (poseponePost_queue w a) as (a0 & E1 & E2 & _). unfold queued. rewrite E1, E2.
  apply retry_order.
Qed.

Lemma post_step_in_order `{!PosterLog W I Q R, !PosterStable W I Q R} s s' :
  post_step s s' -> in_order s -> in_order s'.
Proof.
  intros Hstep [Hs Ho]. destruct Hstep as [w a sub id req|w a sub|w w' a sub Hd]; simpl in *.
  - destruct (APost_cases w a id req Hs) as [Hs' Hr]. split; [done|]. simpl. intros id'.
    pose proof (poseponePost_order w a id') as Hp. specialize (Ho id').
    rewrite to_target_app.
    destruct (APost w a id req) as [[w' a'] [e|]]; cbn [fst snd] in *.
    + destruct Hr as [-> ->]. destruct (bool_decide _ || _).
      * rewrite to_target_app, app_assoc. apply sublist_app; [by etrans|done].
      * apply sublist_inserts_r. by etrans.
    + destruct Hr as (Hni & -> & ->). rewrite to_target_app.
      assert (to_target id' [(id, req)] = [] \/ to_target id' (queued (poseponePost w a).2) = [])
        as Hor.
      { rewrite to_target_one. simpl. case_decide as E; [subst id'|by left].
        right. by apply to_target_absent. }
      assert (forall l : list (I * Q),
        ((l ++ to_target id' [(id, req)]) ++ to_target id' (queued (poseponePost w a).2))%list =
        ((l ++ to_target id' (queued (poseponePost w a).2)) ++ to_target id' [(id, req)])%list) as ->.
      { intros l. destruct Hor as [-> | ->]; by rewrite ?app_nil_r. }
      apply sublist_app; [by etrans|done].
  - unfold postponeFlush.
    destruct (poseponePost_queue w (set_postponeTimer 0 a)) as (a0 & _ & _ & Hs1).
    pose proof (fun id => poseponePost_order w (set_postponeTimer 0 a) id) as Hp.
    destruct (poseponePost w (set_postponeTimer 0 a)) as [w1 a1]. cbn [fst snd] in *.
    destruct (armPostponeFlush_queue a1) as [G1 G2]. split; simpl; [by apply G2, Hs1|].
    intros id. rewrite G1. etrans; [apply Hp|apply Ho].
  - split; [done|]. simpl. by rewrite Hd.
Qed.

End queue_theorems.

(** ** Multicast, calls and the end of a lifetime *)

(** The law of multicast: one result per target, and no postpone error, which only
    the control makes. *)
Class PosterMulti (W I Q R : Type) `{!ActorId I} `{!Poster W I Q R} : Prop := {
  fmulticast_ids : forall w fr ids q w' l,
    fmulticast w fr ids q = (w', (l, None)) -> (Id <$> l) ≡ₚ ids;
  fmulticast_err : forall w fr ids q w' l x i,
    fmulticast w fr ids q = (w', (l, None)) -> x ∈ l -> IErr x ≠ Some (ActorPostponeError i);
}.

(** A result that tells the caller that the message waits in the postpone queue. *)
Definition retrying {I} (x : IdErr I) : bool :=
  match IErr x with
  | Some (ActorBusyError _) | Some (ActorPostponeError _) => true
  | _ => false
  end.

Section multicast_theorems.
Context {W I Q R : Type} `{!ActorId I} `{!Poster W I Q R} {Hook CB : Type}.
Implicit Types (a : ActorControl I Q Hook CB) (w : W).

Lemma splitPostpone_perm a ids : let '(p, np) := splitPostpone a ids in (p ++ np)%list ≡ₚ ids.
Proof.
  induction ids as [|id ids IH]; simpl; [done|].
  destruct (splitPostpone a ids) as [p np]. destruct (hasPostpone a id); simpl.
  - by rewrite IH.
  - by rewrite <- Permutation_middle, IH.
Qed.

Lemma splitIdErr_perm (l : list (IdErr I)) :
  let '(b, nb) := splitIdErr l in
  (b ++ (Id <$> nb))%list ≡ₚ Id <$> l /\
  (forall x, x ∈ nb -> x ∈ l /\ forall e, IErr x = Some e -> is_busy e = false).
Proof.
  induction l as [|x l IH]; simpl; [split; [done|]; intros x Hx; by apply elem_of_nil in Hx|].
  destruct (splitIdErr l) as [b nb]. destruct IH as [Hp Hf].
  destruct (IErr x) as [e|] eqn:E; [destruct (is_busy e) eqn:Eb|]; simpl; split.
  - by rewrite Hp.
  - intros y Hy. destruct (Hf y Hy). split; [by apply list_elem_of_further|done].
  - by rewrite <- Permutation_middle, Hp.
  - intros y [-> | Hy]%elem_of_cons.
    + split; [apply list_elem_of_here|]. intros e' ?. congruence.
    + destruct (Hf y Hy). split; [by apply list_elem_of_further|done].
  - by rewrite <- Permutation_middle, Hp.
  - intros y [-> | Hy]%elem_of_cons.
    + split; [apply list_elem_of_here|]. congruence.
    + destruct (Hf y Hy). split; [by apply list_elem_of_further|done].
Qed.

Lemma append_all_queue ids req a :
  queued (append_all ids req a) = (queued a ++ ((fun id => (id, req)) <$> ids))%list.
Proof.
  unfold append_all. revert a. induction ids as [|id ids IH]; intros a; simpl; [by rewrite app_nil_r|].
  rewrite IH. destruct (appendPostpone_queue id req a) as [-> _]. by rewrite <- app_assoc.
Qed.

Lemma filter_retrying_none (l : list (IdErr I)) :
  (forall x, x ∈ l -> retrying x = false) -> filter (fun x => retrying x = true) l = [].
Proof.
  induction l as [|x l IH]; intros H; [done|]. rewrite filter_cons.
  rewrite decide_False by (rewrite (H x) by apply list_elem_of_here; done).
  apply IH. intros y Hy. apply H. by apply list_elem_of_further.
Qed.

Lemma filter_retrying_all (f : I -> IdErr I) (l : list I) :
  (forall i, retrying (f i) = true /\ Id (f i) = i) ->
  Id <$> filter (fun x => retrying x = true) (f <$> l) = l.
Proof.
  intros Hf. induction l as [|i l IH]; [done|]. rewrite fmap_cons, filter_cons.
  rewrite decide_True by apply Hf. rewrite fmap_cons, IH. f_equal. apply Hf.
Qed.

(** [AMulticast] accounts for every target: when it returns no error, its result list
    names each of the given ids exactly as often as the caller did, and the targets
    reported busy or postponed are exactly those whose message was appended to the
    postpone queue, which otherwise is the queue left by the first flush. *)
Theorem AMulticast_accounts `{!PosterMulti W I Q R} w a ids req w' a' result :
  AMulticast w a ids req = (w', a', (result, None)) ->
  (Id <$> result) ≡ₚ ids /\
  queued a' = (queued (poseponePost w a).2 ++
    ((fun id => (id, req)) <$> (Id <$> filter (fun x => retrying x = true) result)))%list.
Proof.
  unfold AMulticast. pose proof (splitPostpone_perm (poseponePost w a).2 ids) as Hsp.
  destruct (poseponePost w a) as [w1 a1]. cbn [snd] in *.
  destruct (splitPostpone a1 ids) as [p np].
  destruct (fromSeq a1 (from a1)) as [a2 fr] eqn:Ef.
  assert (queued a2 = queued a1) as Hq2 by (unfold fromSeq in Ef; by simplify_eq).
  destruct (fmulticast w1 fr np req) as [w2 [l [e|]]] eqn:Em; [done|].
  pose proof (splitIdErr_perm l) as Hse. pose proof (fmulticast_ids _ _ _ _ _ _ Em) as Hids.
  destruct (splitIdErr l) as [b nb]. destruct Hse as [Hse Hnb]. intros [= <- <- <-]. split.
  - rewrite !fmap_app. rewrite <- !list_fmap_compose.
    change ((Id ∘ busy_err) <$> b) with (id <$> b). change ((Id ∘ postpone_err) <$> p) with (id <$> p).
    rewrite !list_fmap_id, app_assoc. rewrite <- Hsp, <- Hids, <- Hse.
    rewrite (Permutation_app_comm (Id <$> nb) b), (Permutation_app_comm p). done.
  - rewrite !filter_app, !fmap_app.
    rewrite (filter_retrying_none nb).
    2: { intros x Hx. destruct (Hnb x Hx) as [Hin Hb]. unfold retrying.
         destruct (IErr x) as [[]|] eqn:E; try done.
         - by specialize (Hb _ eq_refl).
         - exfalso. exact (fmulticast_err _ _ _ _ _ _ _ _ Em Hin E). }
    rewrite (filter_retrying_all busy_err b) by done.
    rewrite (filter_retrying_all postpone_err p) by done.
    rewrite !append_all_queue, Hq2. simpl. by rewrite <- app_assoc.
Qed.

(** The end of a lifetime: [clear] leaves no postponed message, no registered timer
    and no running timer, and cancels the context; the messages it drops are exactly
    those the last flush could not send, in their order. *)
Theorem clear_final w a :
  ctl_wf a ->
  let '(w', a', dropped) := clear w a in
  postpone a' = [] /\ postponeSet a' = ∅ /\ postponeTimer a' = 0%Z /\
  timers a' = ∅ /\ gotimers a' = ∅ /\ canceled a' = true /\
  dropped `sublist_of` postpone a /\
  dropped = postpone (poseponePost w (stopPostponeFlush a)).2.
Proof.
  intros Hwf. destruct (stopPostponeFlush_spec a (wf_timers _ Hwf)) as (H1 & H2 & H3 & H4 & H5).
  assert (queue_wf (stopPostponeFlush a)) as Hq.
  { split; [done|by rewrite H4, H3, (wf_set _ Hwf)|]. by rewrite H2. }
  assert (forall b : ActorControl I Q Hook CB, timers_wf b ->
    timers (stop_all_timers b) = ∅ /\ gotimers (stop_all_timers b) = ∅ /\
    same_queue b (stop_all_timers b)) as Hstop.
  { intros b Hb. unfold stop_all_timers. cbn [timers set_timers gotimers].
    assert (forall l (c : ActorControl I Q Hook CB),
      (forall t, gotimers (foldr stop_gotimer c l) !! t = if decide (t ∈ l) then None else gotimers c !! t) /\
      same_queue c (foldr stop_gotimer c l)) as Hf.
    { induction l as [|t l IH]; intros c; simpl.
      - done.
      - destruct (IH c) as [G1 G2]. split; [|done]. intros t'.
        destruct (decide (t = t')) as [->|Hne].
        + rewrite lookup_delete_eq, decide_True; [done|apply list_elem_of_here].
        + rewrite lookup_delete_ne by done. rewrite G1.
          destruct (decide (t' ∈ l)) as [Hin|Hin].
          * rewrite decide_True; [done|by apply list_elem_of_further].
          * rewrite decide_False; [done|]. rewrite elem_of_cons. intros [?|?]; congruence. }
    destruct (Hf ((fun kv : Z * timerItem => ti_timer kv.2) <$> map_to_list (timers b)) b) as [G1 G2].
    split; [done|]. split; [|done]. apply map_eq. intros t. rewrite lookup_empty, G1.
    case_decide as Hin; [done|]. destruct (gotimers b !! t) as [s|] eqn:E; [|done].
    destruct (tw_go _ Hb _ _ E) as (E1 & _ & it & E2 & E3). destruct Hin.
    apply list_elem_of_fmap. exists (stub_id s, it). split; [done|]. by apply elem_of_map_to_list. }
  unfold clear, flushPostpone.
  destruct (postpone (stopPostponeFlush a)) as [|it l] eqn:El.
  - destruct (Hstop (stopPostponeFlush a) H1) as (G1 & G2 & G3 & G4 & G5).
    cbn [canceled set_canceled postpone postponeSet postponeTimer timers gotimers].
    rewrite G1, G2, G3, G4, G5, El, H2, H4, (wf_set _ Hwf), <- H3.
    repeat split; try done. unfold poseponePost. rewrite El. cbn [snd]. by rewrite El.
  - destruct (poseponePost_spec w (stopPostponeFlush a) Hq) as ([K1 K2 K3] & K4 & K5 & K6 & _ & _).
    destruct (poseponePost w (stopPostponeFlush a)) as [w2 a2]. cbn [fst snd] in *.
    destruct (Hstop (set_postpone [] ∅ a2)) as (G1 & G2 & G3 & G4 & G5).
    { by apply (timers_wf_same a2). }
    cbn [canceled set_canceled postpone postponeSet postponeTimer timers gotimers].
    rewrite G1, G2, G3, G4, G5. cbn [postpone postponeSet postponeTimer set_postpone].
    repeat split; try done.
    + destruct (Z.eq_dec (postponeTimer a2) 0) as [|Hne]; [done|]. by apply K6 in Hne.
    + rewrite <- H3, <- El. done.
Qed.
End multicast_theorems.

(** ** ACall *)
Section acall_theorems.
Context {W I Q R : Type} `{!ActorId I} `{!Poster W I Q R} {Hook CB : Type}.

(** The same manager, counting the calls made through it. *)
Definition counted : Poster (nat * W) I Q R := {|
  fpost := fun w fr id q => let '(w', e) := fpost w.2 fr id q in ((w.1, w'), e);
  fcall := fun w fr id q => let '(w', r) := fcall w.2 fr id q in ((S w.1, w'), r);
  fmulticast := fun w fr ids q => let '(w', r) := fmulticast w.2 fr ids q in ((w.1, w'), r);
  fbroadcast := fun w fr q => let '(w', r) := fbroadcast w.2 fr q in ((w.1, w'), r);
  wsleep := fun w d => (w.1, wsleep w.2 d);
|}.

(** The errors after which the caller may send the request again. *)
Definition retryable (e : error) : bool :=
  match e with ActorBusyError _ | ActorPostponeError _ => true | _ => false end.

Implicit Types (a : ActorControl I Q Hook CB) (w : nat * W).

Lemma retry_items_count w a l :
  (retry_items (Poster0 := counted) w a l).1.1.1 = w.1.
Proof.
  revert w a. induction l as [|it l IH]; intros w a; cbn [retry_items]; [done|].
  assert ((run_item (Poster0 := counted) w a it).1.1.1 = w.1) as E.
  { unfold run_item. destruct (fromSeq a (from a)) as [a1 fr]. simpl.
    by destruct (fpost w.2 fr (pp_id it) (pp_req it)). }
  destruct (run_item w a it) as [[w1 a1] o]. cbn [fst] in E. specialize (IH w1 a1).
  destruct (retry_items w1 a1 l) as [[w2 a2] kept]. cbn [fst] in IH. rewrite <- E, <- IH.
  by destruct o as [e|]; [destruct (is_busy e)|].
Qed.

Lemma poseponePost_count w a : (poseponePost (Poster0 := counted) w a).1.1 = w.1.
Proof.
  unfold poseponePost. destruct (postpone a) as [|it l]; [done|].
  pose proof (retry_items_count w (set_postpone [] (postponeSet a) a) (it :: l)) as H.
  destruct (retry_items _ _ _) as [[w1 a1] kept]. done.
Qed.

(** One turn calls at most once; it asks for another turn only after a retryable
    error, and a turn that ends the loop has called. *)
Lemma acall_turn_count w a id req rep :
  let '(w', _, r, again) := acall_turn (Poster0 := counted) w a id req rep in
  w.1 <= w'.1 <= S (w.1) /\
  (again = false -> w'.1 = S w.1) /\
  (again = true -> exists e, r.2 = Some e /\ retryable e = true).
Proof.
  unfold acall_turn. pose proof (poseponePost_count w a) as Hc.
  destruct (poseponePost w a) as [w1 a1]. cbn [fst] in Hc.
  destruct (hasPostpone a1 id).
  { split; [lia|]. split; [done|]. intros _. by eexists. }
  destruct (fromSeq a1 (from a1)) as [a2 fr]. cbn [fcall counted].
  destruct (fcall w1.2 fr id req) as [w2 [rep' err]]. cbn [fst snd].
  split; [lia|]. split; [lia|]. destruct err as [e|]; [|done].
  intros Hb. exists e. split; [done|]. by destruct e.
Qed.

(** C11 [ACall] makes at most three calls. If it returns without error, or with an error
    that is neither busy nor postponed, a call was made; a first turn that succeeds
    or fails with another error is final: its reply and error are returned as they are. *)
Theorem ACall_bounded w a id req :
  let '(w', a', r) := ACall (Poster0 := counted) w a id req in
  w.1 <= w'.1 <= w.1 + 3 /\
  match r.2 with
  | Some e => retryable e = true \/ w.1 < w'.1
  | None => w.1 < w'.1
  end /\
  (forall w1 a1 r1, acall_turn (Poster0 := counted) w a id req None = (w1, a1, r1, false) ->
     (w', a', r) = (w1, a1, r1)).
Proof.
  unfold ACall. cbn [acall_loop]. simpl (if (0 <? 0)%Z then _ else _). cbn [fst].
  pose proof (acall_turn_count w a id req None) as T0.
  destruct (acall_turn w a id req None) as [[[w1 a1] r1] again1]. destruct T0 as (B0 & F0 & G0).
  destruct again1.
  2: { specialize (F0 eq_refl). split; [lia|]. split; [destruct r1.2; [right|]; lia|].
       by intros ??? [= <- <- <-]. }
  simpl (if (0 <? 1)%Z then _ else _).
  pose proof (acall_turn_count (w1.1, wsleep w1.2 (1 * 1 * 20)) a1 id req r1.1) as T1.
  destruct (acall_turn (w1.1, wsleep w1.2 (1 * 1 * 20)) a1 id req r1.1) as [[[w2 a2] r2] again2].
  cbn [fst] in T1. destruct T1 as (B1 & F1 & G1).
  destruct again2.
  2: { specialize (F1 eq_refl). split; [lia|]. split; [destruct r2.2; [right|]; lia|]. done. }
  simpl (if (0 <? 2)%Z then _ else _).
  pose proof (acall_turn_count (w2.1, wsleep w2.2 (2 * 2 * 20)) a2 id req r2.1) as T2.
  destruct (acall_turn (w2.1, wsleep w2.2 (2 * 2 * 20)) a2 id req r2.1) as [[[w3 a3] r3] again3].
  cbn [fst] in T2. destruct T2 as (B2 & F2 & G2).
  destruct again3.
  - destruct (G2 eq_refl) as (e & -> & He). split; [lia|]. split; [by left|]. done.
  - specialize (F2 eq_refl). split; [lia|]. split; [destruct r3.2; [right|]; lia|]. done.
Qed.
End acall_theorems.

(** ** Witnesses: the theorems at concrete controls *)
Module ControlWitness.
Import ToyManager.

Definition busy1 : toy := mkToy [] [1].

Lemma Timer_fresh_witness :
  let a := (Timer "first" (FnUser 7) ctl0).1 in
  timers a !! (Timer "second" (FnUser 8) a).2 = None /\ (Timer "second" (FnUser 8) a).2 = 2%Z.
Proof.
  split; [|reflexivity].
  exact (proj1 (proj2 (Timer_fresh "second" (FnUser 8) (Timer "first" (FnUser 7) ctl0).1
    ltac:(vm_compute; intuition congruence) ltac:(vm_compute; reflexivity)))).
Defined.

Definition armed : ActorControl nat nat nat nat := (Timer "t" (FnUser 7) ctl0).1.

Lemma StopTimer_final_witness :
  (StopTimer 1 armed).2 = true /\
  take_timer (mkStub (FnUser 7) 1 0) (Timer "again" (FnUser 8) (StopTimer 1 armed).1).1 = None.
Proof.
  assert (timers_wf armed) as Hwf.
  { apply Timer_timers_wf; [apply wf_timers, new_control_wf|vm_compute; intuition congruence]. }
  pose proof (StopTimer_final 1 armed (mkStub (FnUser 7) 1 0)
    (mkTimerItem 0 (mkFrom "T.0.1" "T.0.1") "t") Hwf eq_refl eq_refl eq_refl) as [H1 H2].
  split; [exact H1|]. apply H2. apply rtc_once. by eexists _, _.
Defined.


Lemma APost_result_witness :
  queued (APost busy1 ctl0 1 5).1.2 = [(1, 5)] /\ tw_log (APost busy1 ctl0 1 5).1.1 = [].
Proof.
  pose proof (APost_result busy1 ctl0 1 5 eq_refl) as [H1 H2]. split; [exact H2|exact H1].
Defined.


#[export] Instance toy_multi : PosterMulti toy nat nat nat.
Proof.
  assert (forall w fr ids q, (Id <$> (toy_multicast w fr ids q).2) = ids /\
    forall x i, x ∈ (toy_multicast w fr ids q).2 -> IErr x ≠ Some (ActorPostponeError i)) as H.
  { intros w fr ids q. revert w. induction ids as [|id ids IH]; intros w; simpl.
    - split; [done|]. intros x i Hx. by apply elem_of_nil in Hx.
    - unfold toy_fpost. case_bool_decide; simpl.
      + specialize (IH w). destruct (toy_multicast w fr ids q) as [w2 l]. destruct IH as [IH1 IH2]. simpl in *.
        split; [f_equal; exact IH1|]. intros x i [-> | Hx]%elem_of_cons; [done|by apply IH2].
      + specialize (IH (mkToy (tw_log w ++ [(id, q)]) (tw_full w))).
        destruct (toy_multicast _ fr ids q) as [w2 l]. destruct IH as [IH1 IH2]. simpl in *.
        split; [f_equal; exact IH1|]. intros x i [-> | Hx]%elem_of_cons; [done|by apply IH2]. }
  split.
  - intros w fr ids q w' l. simpl. destruct (H w fr ids q) as [H1 _].
    destruct (toy_multicast w fr ids q). intros [= <- <-]. simpl in H1. by rewrite H1.
  - intros w fr ids q w' l x i. simpl. destruct (H w fr ids q) as [_ H2].
    destruct (toy_multicast w fr ids q). intros [= <- <-]. apply H2.
Qed.

Lemma AMulticast_accounts_witness :
  let r := AMulticast busy1 ctl0 [0; 1; 2] 9 in
  (Id <$> r.2.1) ≡ₚ [0; 1; 2] /\ queued r.1.2 = [(1, 9)].
Proof.
  exact (AMulticast_accounts busy1 ctl0 [0; 1; 2] 9 _ _ _ eq_refl).
Defined.

Lemma clear_final_witness :
  let a := (APost busy1 ctl0 1 5).1.2 in
  (clear busy1 a).2 = [mkPostpone 1 5] /\ timers (clear busy1 a).1.2 = ∅.
Proof.
  assert (ctl_wf (APost busy1 ctl0 1 5).1.2) as Hwf.
  { apply APost_keeps; [|apply new_control_wf]. unfold ctl0, new_control. cbn [timerId]. unfold MaxInt. lia. }
  pose proof (clear_final busy1 (APost busy1 ctl0 1 5).1.2 Hwf) as H.
  split; [reflexivity|]. cbv zeta. revert H.
  destruct (clear busy1 _) as [[w' a'] dropped]. intros (_ & _ & _ & H & _). exact H.
Defined.

(** ** Where the code falls short of its comments *)

(** The comment of [Timer] says that the ids do not overflow; from a last id of MaxInt,
    which probing past an occupied MaxInt - 1 issues, the next id is -2^63. *)
Remark Timer_overflows :
  let a := set_timers {[ (MaxInt - 1)%Z := mkTimerItem 0 (mkFrom "" "") "old" ]} (MaxInt - 2) ctl0 in
  (Timer "x" (FnUser 0) a).2 = MaxInt /\
  (Timer "y" (FnUser 0) (Timer "x" (FnUser 0) a).1).2 = (- 2 ^ 63)%Z.
Proof. split; reflexivity. Qed.

(** A target that drains its mailbox while a flush runs: the manager answers busy or
    not as the list says. *)
Definition flicker : Poster (list (nat * nat) * list bool) nat nat nat := {|
  fpost := fun w fr id q =>
    match w.2 with
    | true :: bs => ((w.1, bs), Some (ActorBusyError (Some (to_base id))))
    | bs => (((w.1 ++ [(id, q)])%list, tail bs), None)
    end;
  fcall := fun w fr id q => (w, (None, None));
  fmulticast := fun w fr ids q => (w, ([], None));
  fbroadcast := fun w fr q => (w, (0, None));
  wsleep := fun w d => w;
|}.

(** The comment of [APost] promises the order of the messages; when the target frees a
    slot between two attempts of one flush, the second message overtakes the first. *)
Remark postpone_overtakes :
  let s1 := (APost (Poster0 := flicker) ([], [true; true]) ctl0 1 5).1 in
  let s2 := (APost (Poster0 := flicker) s1.1 s1.2 1 6).1 in
  let s3 := postponeFlush (Poster0 := flicker) ([], [true; false]) s2.2 in
  s3.1.1 = [(1, 6)] /\ queued s3.2 = [(1, 5)].
Proof. split; reflexivity. Qed.

(** A flush timer that fires while the mailbox of its own actor is full is lost: the
    stub never runs, the timer stays registered and marked as armed, and no later
    message re-arms it although the queue is not empty. *)
Remark flush_timer_lost :
  let a := (APost busy1 ctl0 1 5).1.2 in
  let lost := (fire_timer 0 a).1 in
  let later := (APost busy1 lost 1 6).1.2 in
  queued later = [(1, 5); (1, 6)] /\ postponeTimer later = 1%Z /\ gotimers later = ∅.
Proof. split; [reflexivity|split; reflexivity]. Qed.
End ControlWitness.
