(* ===== verification/Registry.v ===== *)
(** * Handlers, registries and messages

    The registration phase (actor/registry_builder.go), handler entries
    (actor/handler.go), the requests of actor/types.go and the context handed to a
    handler (actor/actor_context.go). Go's generic instances are values of one
    universe: [I] holds every identifier, [U] every user request, [R] every reply,
    [S] every actor state; [T] are the Go request types, so that a type assertion is
    a comparison of types. *)

From S2P Require Import Prelude ActorTypes Control.

Local Open Scope string_scope.

(** The request types of a program: the type of a request, the string its [ReqType]
    method answers, and the zero identifier ([var id0 A]) of the actor type it is for. *)
Class Requests (T U I : Type) : Type := {
  Requests_eq_dec :: EqDecision T;
  user_type : U -> T;
  user_ReqType : T -> string;
  user_id0 : T -> I;
}.

(** A Go request type: [PanicReq], declared by the package, or a type of the user. *)
Inductive gotype (T : Type) := TPanicReq | TUser (t : T).
Arguments TPanicReq {T}.
Arguments TUser {T} t.

#[export] Instance gotype_eq_dec `{EqDecision T} : EqDecision (gotype T).
Proof. solve_decision. Defined.

(** A request value. *)
Inductive request (U : Type) := PanicReq (Err : option error) | UserReq (u : U).
Arguments PanicReq {U} Err.
Arguments UserReq {U} u.

Section requests.
Context {T U I : Type} `{!Requests T U I}.

Definition type_of (q : request U) : gotype T :=
  match q with
  | PanicReq _ => TPanicReq
  | UserReq u => TUser (user_type u)
  end.

Definition reqTypeOf (t : gotype T) : string :=
  match t with
  | TPanicReq => "__panic__"
  | TUser t => user_ReqType t
  end.
End requests.

(** ** Handlers

    Handler functions, OnSpawn functions, quit hooks and timer callbacks are user
    code: values of abstract types, run by the interface [UserCode]. *)
Record handlerEntry (T F : Type) := mkEntry {
  entry_type : gotype T;
  reqType : string;
  allow_spawn : bool;
  allow_query : bool;
  fn : F;
}.
Arguments mkEntry {T F} _ _ _ _ _.
Arguments entry_type {T F} _.
Arguments reqType {T F} _.
Arguments allow_spawn {T F} _.
Arguments allow_query {T F} _.
Arguments fn {T F} _.

Record RegistryBuilder (T F SF : Type) := mkBuilder {
  handlers : gmap string (handlerEntry T F);
  on_spawn : option SF;
}.
Arguments mkBuilder {T F SF} _ _.
Arguments handlers {T F SF} _.
Arguments on_spawn {T F SF} _.

Section registry.
Context {T U I F SF : Type} `{!Requests T U I}.
Implicit Types (b : RegistryBuilder T F SF) (t : gotype T).

Definition NewRegistryBuilder : RegistryBuilder T F SF := mkBuilder ∅ None.

Definition SetOnSpawn (f : option SF) b : RegistryBuilder T F SF := mkBuilder (handlers b) f.

(** [register]: the entry replaces an earlier one of the same [ReqType] string. *)
Definition register b (sp qu : bool) t (f : F) : RegistryBuilder T F SF :=
  mkBuilder (<[reqTypeOf t := mkEntry t (reqTypeOf t) sp qu f]> (handlers b)) (on_spawn b).

Definition RegisterSpawn b t f := register b true false t f.
Definition RegisterQuery b t f := register b false true t f.
Definition RegisterServe b t f := register b true true t f.

(** The [...Handler] variants register the method [Handle] of the request type; the
    [...Handler2] variants also return the typed nil they were given. *)
Definition RegisterSpawnHandler (Handle : gotype T -> F) b t := register b true false t (Handle t).
Definition RegisterQueryHandler (Handle : gotype T -> F) b t := register b false true t (Handle t).
Definition RegisterServeHandler (Handle : gotype T -> F) b t := register b true true t (Handle t).
Definition RegisterSpawnHandler2 (Handle : gotype T -> F) b t := (register b true false t (Handle t), t).
Definition RegisterQueryHandler2 (Handle : gotype T -> F) b t := (register b false true t (Handle t), t).
Definition RegisterServeHandler2 (Handle : gotype T -> F) b t := (register b true true t (Handle t), t).

(** [group.findHandler] *)
Definition findHandler (reg : gmap string (handlerEntry T F)) (rt : string) : option (handlerEntry T F) :=
  reg !! rt.

(** The entries of a registry sit under the [ReqType] string of their type. *)
Definition registry_wf (reg : gmap string (handlerEntry T F)) : Prop :=
  forall k h, reg !! k = Some h -> reqType h = k /\ reqTypeOf (entry_type h) = k.

Lemma registry_wf_empty : registry_wf ∅.
Proof. intros k h H. by rewrite lookup_empty in H. Qed.

Lemma register_wf b sp qu t f : registry_wf (handlers b) -> registry_wf (handlers (register b sp qu t f)).
Proof.
  intros H k h. simpl. intros [[<- <-]|[? Hk]]%lookup_insert_Some; [done|by apply H].
Qed.
End registry.

(** ** The context of an actor *)
Record ActorContext (I Q Hook CB S : Type) `{!ActorId I} := mkContext {
  ctx_id : I;
  ctrl : ActorControl I Q Hook CB;
  state : S;
}.
Arguments mkContext {I Q Hook CB S _} _ _ _.
Arguments ctx_id {I Q Hook CB S _} _.
Arguments ctrl {I Q Hook CB S _} _.
Arguments state {I Q Hook CB S _} _.

(** What a handler run ends in: a return, or a panic whose value is an error or not. *)
Inductive handler_end (R : Type) :=
  | HReturn (rep : option R) (err : option error)
  | HPanic (err : option error).
Arguments HReturn {R} rep err.
Arguments HPanic {R} err.

Section context.
Context {I Q Hook CB S : Type} `{!ActorId I}.
Implicit Types (c : ActorContext I Q Hook CB S).

Definition set_ctrl (a : ActorControl I Q Hook CB) c : ActorContext I Q Hook CB S :=
  mkContext (ctx_id c) a (state c).
Definition SetState (s : S) c : ActorContext I Q Hook CB S := mkContext (ctx_id c) (ctrl c) s.

(** The methods of the context that act on its control. *)
Definition ctx_Open c := set_ctrl (Open (ctrl c)) c.
Definition ctx_Quit c := set_ctrl (Quit (ctrl c)) c.
Definition ctx_Timer nm f c := let r := Timer nm f (ctrl c) in (set_ctrl r.1 c, r.2).
Definition ctx_StopTimer tid c := let r := StopTimer tid (ctrl c) in (set_ctrl r.1 c, r.2).

(** [ControlState] and [CIS]: a handler on control, identifier and state, wrapped. *)
Definition ControlState c := (ctrl c, ctx_id c, state c).

Definition CIS {W RQ R : Type}
    (cis : W -> ActorControl I Q Hook CB -> I -> S -> RQ -> bool ->
           W * (ActorControl I Q Hook CB * S) * handler_end R)
    : W -> ActorContext I Q Hook CB S -> RQ -> bool -> W * ActorContext I Q Hook CB S * handler_end R :=
  fun w a req spawning =>
    let '(c, i, s) := ControlState a in
    let '(w', (c', s'), e) := cis w c i s req spawning in
    (w', mkContext i c' s', e).

(** A fresh context ([newActorContext]): inactive, with the zero state. *)
Definition newActorContext (zero_state : S) (id : I) : ActorContext I Q Hook CB S :=
  mkContext id (new_control (actorNameOf id)) zero_state.

Definition is_active (c : option (ActorContext I Q Hook CB S)) : bool :=
  match c with Some c => active (ctrl c) | None => false end.
End context.
Arguments newActorContext : simpl never.

(** ** Messages *)

(** A reply on a channel. *)
Record result (R : Type) := mkResult { Rep : option R; RErr : option error }.
Arguments mkResult {R} _ _.
Arguments Rep {R} _.
Arguments RErr {R} _.

(** [invoke]: [ch] names the reply channel, [clean] says that the caller gave a
    function to release the reply with ([R.Close]). *)
Record invoke (T U F : Type) := mkInvoke {
  i_from : From;
  i_h : handlerEntry T F;
  i_req : request U;
  i_ch : option nat;
  i_clean : bool;
}.
Arguments mkInvoke {T U F} _ _ _ _ _.
Arguments i_from {T U F} _.
Arguments i_h {T U F} _.
Arguments i_req {T U F} _.
Arguments i_ch {T U F} _.
Arguments i_clean {T U F} _.

(** The implementations of [invokable]. *)
Inductive invokable (T U F CB : Type) :=
  | MInvoke (i : invoke T U F)
  | MTimer (i : timerStub CB)
  | MClose
  | MPanicDrop (err : option error).
Arguments MInvoke {T U F CB} i.
Arguments MTimer {T U F CB} i.
Arguments MClose {T U F CB}.
Arguments MPanicDrop {T U F CB} err.

(** The reply channel of a message. *)
Definition msg_ch {T U F CB} (m : invokable T U F CB) : option nat :=
  match m with MInvoke i => i_ch i | _ => None end.

(** [CanSpawn] and the decision of [Allow] (its reply on refusal is in Runtime). *)
Definition CanSpawn {T U F} (i : invoke T U F) : bool := allow_spawn (i_h i).

Definition allowed {T U F CB} (m : invokable T U F CB) (spawning : bool) : bool :=
  match m with
  | MInvoke i => negb ((spawning && negb (allow_spawn (i_h i))) || (negb spawning && negb (allow_query (i_h i))))
  | MTimer _ => negb spawning
  | MClose | MPanicDrop _ => true
  end.
