(* ===== verification/Runtime.v ===== *)
(** * The goroutine of an actor

    invokeBatch and the exit of run (actor/actor.go), the methods Allow, Invoke and
    Fail of the messages (actor/invoke.go, actor/timer.go, actor/close.go), the end of a
    context (clear of actor/actor_context.go) and the reply channels with the two ways
    to wait on them (waitResult and safeResult of actor/manager.go).

    The shared state of the group that this code touches is the idle counter; the
    world [W] stands for everything else: the other actors and the user's own data. *)

From S2P Require Import Prelude ActorTypes Control Registry.

Local Open Scope string_scope.

(** ** Control flow of a goroutine

    [Crashed]: a panic leaves the goroutine, which ends the process. [Blocked]: the
    goroutine waits for ever. *)
Inductive flow (X : Type) := Go (x : X) | Crashed | Blocked.
Arguments Go {X} x.
Arguments Crashed {X}.
Arguments Blocked {X}.

Definition fbind {X Y} (c : flow X) (k : X -> flow Y) : flow Y :=
  match c with Go x => k x | Crashed => Crashed | Blocked => Blocked end.

Notation "'do!' x ':=' c 'in' k" := (fbind c (fun x => k))
  (at level 10, x pattern, c at level 100, k at level 200,
   format "'do!'  x  ':='  c  'in' '//' k") : go_scope.

(** ** Reply channels: capacity 1 ([make(chan result, 1)]) *)
Record chan (R : Type) := mkChan { chbuf : option (result R); chclosed : bool }.
Arguments mkChan {R} _ _.
Arguments chbuf {R} _.
Arguments chclosed {R} _.

Definition make_chan {R} : chan R := mkChan None false.

Inductive sent (X : Type) := Sent (x : X) | SendPanic | SendBlock.
Arguments Sent {X} x.
Arguments SendPanic {X}.
Arguments SendBlock {X}.

(** [ch <- r]: a panic on a closed channel, for ever blocked on a full (or nil) one
    that nobody receives from. *)
Definition chan_send {R} (chans : gmap nat (chan R)) (c : nat) (r : result R) : sent (gmap nat (chan R)) :=
  match chans !! c with
  | None => SendBlock
  | Some ch =>
      if chclosed ch then SendPanic
      else match chbuf ch with
           | Some _ => SendBlock
           | None => Sent (<[c := mkChan (Some r) false]> chans)
           end
  end.

(** ** User code *)
Inductive spawn_end := SReturn (err : option error) | SPanic (err : option error).

Class UserCode (W I Q Hook CB St U R F SF : Type) `{!ActorId I} : Type := {
  run_handler : F -> W -> ActorContext I Q Hook CB St -> request U -> bool ->
                W * ActorContext I Q Hook CB St * handler_end R;
  run_spawn : SF -> W -> ActorContext I Q Hook CB St -> W * ActorContext I Q Hook CB St * spawn_end;
  run_hook : Hook -> W -> ActorContext I Q Hook CB St -> W * ActorContext I Q Hook CB St * bool;
  run_callback : CB -> W -> ActorContext I Q Hook CB St -> W * ActorContext I Q Hook CB St * bool;
  run_close : R -> W -> W;
  zero_state : St;
}.

Section Runtime.
Context {W I Q R : Type} `{!ActorId I} `{!Poster W I Q R}.
Context {Hook CB St T U F SF : Type} `{!Requests T U I} `{!UserCode W I Q Hook CB St U R F SF}.

Abbreviation ctx := (ActorContext I Q Hook CB St).
Abbreviation msg := (invokable T U F CB).

(** What the goroutine of an actor works on: the world, the idle counter of its group
    and the reply channels. *)
Record bstate := mkB { bw : W; bidle : Z; bchans : gmap nat (chan R) }.

Definition set_bw (w : W) b := mkB w (bidle b) (bchans b).

(** [actorIdle] and [actorWake]: an atomic.Int32. *)
Definition actorIdle b := mkB (bw b) (wrap32 (bidle b + 1)) (bchans b).
Definition actorWake b := mkB (bw b) (wrap32 (bidle b - 1)) (bchans b).

(** ** The end of a context *)

(** The composed quit hook: a panic skips the older hooks. *)
Fixpoint run_hooks (hs : list Hook) (w : W) (c : ctx) : W * ctx :=
  match hs with
  | [] => (w, c)
  | h :: hs =>
      let '(w1, c1, panics) := run_hook h w c in
      if panics then (w1, c1) else run_hooks hs w1 c1
  end.

(** [ActorContext.clear] *)
Definition ctx_clear (w : W) (c : ctx) : W :=
  let '(w1, a1, _) := clear w (ctrl c) in
  let c1 := set_ctrl a1 c in
  match OnQuit a1 with
  | [] => w1
  | hs => (run_hooks hs w1 (set_ctrl (invokeLogger (MakeFrom (ctx_id c) "OnQuit") a1) c1)).1
  end.

Definition bclear b (c : ctx) : bstate := set_bw (ctx_clear (bw b) c) b.

(** ** The methods of the messages *)

(** [Fail]: a message without a reply channel ignores the error. A send on a closed
    channel panics; no caller of [Fail] survives that (in [invokeBatch] it is the
    deferred function itself, or it is reached with a nil context). *)
Definition Fail_ (m : msg) (err : error) b : flow bstate :=
  match msg_ch m with
  | None => Go b
  | Some ch =>
      match chan_send (bchans b) ch (mkResult None (Some err)) with
      | Sent chans => Go (mkB (bw b) (bidle b) chans)
      | SendPanic => Crashed
      | SendBlock => Blocked
      end
  end.

(** The error [Allow] answers a refused message with. *)
Definition not_allowed (id : I) (m : msg) : error :=
  HandlerNotAllowedError (Some (to_base id)) match m with MInvoke i => reqType (i_h i) | _ => "" end.

(** [invoke.Invoke]: the last component is the value of a panic that leaves it. When
    the reply cannot be sent because the caller closed the channel, the deferred
    function releases the reply, if there is one and a way to; otherwise the panic
    leaves, and the [Fail] of the recovery panics again. *)
Definition Invoke (i : invoke T U F) b (c : ctx) (spawning : bool) : flow (bstate * ctx * option (option error)) :=
  let c0 := set_ctrl (invokeLogger (i_from i) (ctrl c)) c in
  let '(w, c1, e) := run_handler (fn (i_h i)) (bw b) c0 (i_req i) spawning in
  let b1 := set_bw w b in
  match e with
  | HPanic err => Go (b1, c1, Some err)
  | HReturn rep err =>
      match i_ch i with
      | None => Go (b1, c1, None)
      | Some ch =>
          match chan_send (bchans b1) ch (mkResult rep err) with
          | Sent chans => Go (mkB w (bidle b1) chans, c1, None)
          | SendPanic =>
              match rep with
              | Some r => if i_clean i then Go (set_bw (run_close r w) b1, c1, None) else Crashed
              | None => Crashed
              end
          | SendBlock => Blocked
          end
      end
  end.

(** [timerInvoke.Invoke]: a panic of the callback is recovered. *)
Definition timer_Invoke (i : timerStub CB) b (c : ctx) : bstate * ctx :=
  match take_timer i (ctrl c) with
  | None => (b, c)
  | Some a =>
      let a1 := invokeLogger (MakeFrom (ctx_id c) ("timer." +:+ pretty (stub_id i))) a in
      match stub_fn i with
      | FnUser cb =>
          let '(w, c1, _) := run_callback cb (bw b) (set_ctrl a1 c) in (set_bw w b, c1)
      | FnPostponeFlush =>
          let '(w, a2) := postponeFlush (bw b) a1 in (set_bw w b, set_ctrl a2 c)
      end
  end.

Definition msg_Invoke (m : msg) b (c : ctx) (spawning : bool) : flow (bstate * ctx * option (option error)) :=
  match m with
  | MInvoke i => Invoke i b c spawning
  | MTimer i => let '(b1, c1) := timer_Invoke i b c in Go (b1, c1, None)
  | MClose | MPanicDrop _ => Go (b, c, None)
  end.

(** ** [invokeBatch] *)
Section group.
Context (id : I) (registry : gmap string (handlerEntry T F)) (onSpawn : option SF).

(** The idle counter follows the change of [active] over one message. *)
Definition settle (prevActive : bool) (c : ctx) b : bstate :=
  if prevActive && negb (active (ctrl c)) then actorIdle b
  else if negb prevActive && active (ctrl c) then actorWake b
  else b.

(** How the loop leaves one message: with the context for the next one, or by a panic
    ([prevActive] is the value the deferred function sees). *)
Inductive msg_end := MsgDone (c : option ctx) | MsgPanic (prevActive : bool) (c : ctx) (err : option error).

(** The OnSpawn part of the body. *)
Inductive spawned := SpawnOk (c : ctx) | SpawnErr (c : ctx) (err : error) | SpawnPanic (c : ctx) (err : option error).

Definition do_spawn b (c : ctx) : bstate * spawned :=
  match onSpawn with
  | None => (b, SpawnOk c)
  | Some f =>
      let c0 := set_ctrl (invokeLogger (MakeFrom id "OnSpawn") (ctrl c)) c in
      let '(w, c1, e) := run_spawn f (bw b) c0 in
      (set_bw w b,
       match e with
       | SReturn None => SpawnOk c1
       | SReturn (Some err) => SpawnErr c1 err
       | SPanic err => SpawnPanic c1 err
       end)
  end.

(** The body of the loop of [invokeBatch] for the message [m]. *)
Definition batch_body (m : msg) b (nctx : option ctx) : flow (bstate * msg_end) :=
  let spawning := match nctx with None => true | Some _ => false end in
  if allowed m spawning then
    let c0 := match nctx with Some c => c | None => newActorContext zero_state id end in
    let prevActive := active (ctrl c0) in
    let '(b1, s) := if spawning then do_spawn b c0 else (b, SpawnOk c0) in
    match s with
    | SpawnErr c err => (do! b2 := Fail_ m err (bclear b1 c) in Go (b2, MsgDone None))%go
    | SpawnPanic c err => Go (b1, MsgPanic prevActive c err)
    | SpawnOk c =>
        (do! (b2, c2, p) := msg_Invoke m b1 c spawning in
         match p with
         | Some err => Go (b2, MsgPanic prevActive c2 err)
         | None =>
             let b3 := settle prevActive c2 b2 in
             if active (ctrl c2) then Go (b3, MsgDone (Some c2)) else Go (bclear b3 c2, MsgDone None)
         end)%go
    end
  else (do! b1 := Fail_ m (not_allowed id m) b in Go (b1, MsgDone nctx))%go.

Definition is_panic_invoke (m : msg) : bool :=
  match m with
  | MInvoke i => bool_decide (type_of (i_req i) = TPanicReq)
  | _ => false
  end.

(** The message that replaces one whose handler panicked. *)
Definition recovery (m : msg) (err : option error) : msg :=
  match findHandler registry "__panic__" with
  | Some h =>
      if bool_decide (entry_type h = TPanicReq) then
        if is_panic_invoke m then MPanicDrop err
        else MInvoke (mkInvoke (mkFrom "" "") h (PanicReq err) None false)
      else MPanicDrop err
  | None => MPanicDrop err
  end.

Definition call_error (err : option error) : error := HandlerCallError (Some (to_base id)) "" err.

(** The loop, from index [nx] on: [rest] are the messages from [nx] on. *)
Fixpoint batch_loop (rest : list msg) (nx : nat) (b : bstate) (nctx : option ctx)
    : flow (bstate * nat * msg_end) :=
  match rest with
  | [] => Go (b, nx, MsgDone nctx)
  | m :: rest =>
      (do! (b1, e) := batch_body m b nctx in
       match e with
       | MsgDone c => batch_loop rest (S nx) b1 c
       | MsgPanic _ _ _ => Go (b1, nx, e)
       end)%go
  end.

(** [invokeBatch]: the loop, and the deferred function when a panic ends it: the idle
    count is settled, the caller told, the message replaced in place. *)
Definition invokeBatch (buf : list msg) (x : nat) (c : option ctx) (b : bstate)
    : flow (bstate * list msg * nat * option ctx) :=
  (do! (b1, nx, e) := batch_loop (drop x buf) x b c in
   match e with
   | MsgDone c' => Go (b1, buf, nx, c')
   | MsgPanic prevActive c' err =>
       match buf !! nx with
       | None => Crashed
       | Some m =>
           do! b2 := Fail_ m (call_error err) (settle prevActive c' b1) in
           Go (b2, <[nx := recovery m err]> buf, nx, Some c')
       end
   end)%go.

(** ** [run] *)

(** The loop [for x < len(buf)]: [is_closed] reads the flag [a.closed] in the world.
    Ends with the messages left over when the actor was closed ([Some]), or [None]. *)
Fixpoint run_buf (is_closed : W -> bool) (fuel : nat) (buf : list msg) (x : nat) (c : option ctx) (b : bstate)
    : option (flow (bstate * option (list msg) * option ctx)) :=
  match fuel with
  | O => None
  | S fuel =>
      if (x <? length buf)%nat then
        if is_closed (bw b) then Some (Go (b, Some (drop x buf), c))
        else match invokeBatch buf x c b with
             | Go (b1, buf1, x1, c1) => run_buf is_closed fuel buf1 x1 c1 b1
             | Crashed => Some Crashed
             | Blocked => Some Blocked
             end
      else Some (Go (b, None, c))
  end.

Definition closeErr : error := ActorClosedError (Some (to_base id)).

Fixpoint fail_all (ms : list msg) (err : error) b : flow bstate :=
  match ms with
  | [] => Go b
  | m :: ms => (do! b1 := Fail_ m err b in fail_all ms err b1)%go
  end.

(** The code after [MainLoop]: [buf] is what is left of the buffer and [mail] what the
    closed mailbox still holds. The second [ctx.clear] is dead: [ctx] is nil by then. *)
Definition run_exit (c : option ctx) (buf mail : list msg) b : flow bstate :=
  let b1 := match c with None => actorWake b | Some c => bclear b c end in
  (do! b2 := fail_all buf closeErr b1 in fail_all mail closeErr b2)%go.

End group.

(** ** Waiting for a reply *)

(** [waitResult], when the channel wins the select, and when the context is done. *)
Definition waitResult (chans : gmap nat (chan R)) (c : nat) (done : option error)
    : gmap nat (chan R) * option (option R * option error) :=
  match done with
  | Some e => (chans, Some (None, Some e))
  | None =>
      match chans !! c with
      | Some ch =>
          match chbuf ch with
          | Some r => (<[c := mkChan None (chclosed ch)]> chans, Some (Rep r, RErr r))
          | None => (chans, if chclosed ch then Some (None, None) else None)
          end
      | None => (chans, None)
      end
  end.

(** [safeResult]: when the context is done, the channel is closed and what it holds
    is released. *)
Definition safeResult (chans : gmap nat (chan R)) (c : nat) (done : option error) (w : W)
    : gmap nat (chan R) * W * option (option R * option error) :=
  match done with
  | None => let '(chans', r) := waitResult chans c None in (chans', w, r)
  | Some e =>
      let w' := match chans !! c with
                | Some (mkChan (Some (mkResult (Some r) _)) _) => run_close r w
                | _ => w
                end in
      (<[c := mkChan None true]> chans, w', Some (None, Some e))
  end.

End Runtime.

Arguments bstate W R : clear implicits.
Arguments mkB {W R} _ _ _.
Arguments Fail_ : simpl never.
