(* ===== verification/RuntimeSpec.v ===== *)
(** * Properties of the goroutine of an actor

    [invokeBatch] with its in-place replacement and restart is the sequential handling
    of the messages one after the other; every message gets exactly one answer; the
    idle counter follows the contexts; a life of an actor ends with every message
    answered. *)

From S2P Require Import Prelude ActorTypes Control ControlSpec Registry Runtime.

Section spec.
Context {W I Q R : Type} `{!ActorId I} `{!Poster W I Q R}.
Context {Hook CB St T U F SF : Type} `{!Requests T U I} `{!UserCode W I Q Hook CB St U R F SF}.
Context (id : I) (registry : gmap string (handlerEntry T F)) (onSpawn : option SF).

Abbreviation ctx := (ActorContext I Q Hook CB St).
Abbreviation msg := (invokable T U F CB).
Abbreviation body := (batch_body (U := U) id onSpawn).
Abbreviation recover := (recovery (U := U) (CB := CB) registry).
Implicit Types (b : bstate W R) (m : msg) (ms rest pre buf : list msg).

(** ** The reference semantics: one message after the other

    A message whose handling panics is answered with the error and handled again as
    its recovery message, before the next one; [k] bounds the number of panics. *)
Fixpoint handle (k : nat) m b (c : option ctx) : option (flow (bstate W R * option ctx)) :=
  match body m b c with
  | Go (b1, MsgDone c1) => Some (Go (b1, c1))
  | Go (b1, MsgPanic p c1 err) =>
      match k with
      | O => None
      | S k =>
          match Fail_ m (call_error id err) (settle p c1 b1) with
          | Go b2 => handle k (recover m err) b2 (Some c1)
          | Crashed => Some Crashed
          | Blocked => Some Blocked
          end
      end
  | Crashed => Some Crashed
  | Blocked => Some Blocked
  end.

Fixpoint handle_all ms b (c : option ctx) : option (flow (bstate W R * option ctx)) :=
  match ms with
  | [] => Some (Go (b, c))
  | m :: ms =>
      match handle 2 m b c with
      | Some (Go (b1, c1)) => handle_all ms b1 c1
      | r => r
      end
  end.

(** ** How many more panics a message can cause *)
Definition rank m (c : option ctx) : nat :=
  if is_panic_invoke m then 1
  else match m, c with
       | MInvoke _, _ | _, None => 2
       | _, Some _ => 0
       end.

Lemma rank_le m c : rank m c <= 2.
Proof. unfold rank. destruct (is_panic_invoke m), m, c; lia. Qed.

Lemma body_panic_rank m b c b1 p c1 err :
  body m b c = Go (b1, MsgPanic p c1 err) -> 0 < rank m c.
Proof.
  unfold rank, batch_body. destruct (is_panic_invoke m) eqn:E; [lia|].
  destruct m as [i|i| |e]; try lia; destruct c as [c|]; try lia; simpl; try done.
  - destruct (timer_Invoke i b c) as [b2 c2]. simpl.
    destruct (active (ctrl c2)); congruence.
  - destruct (active (ctrl c)); congruence.
  - destruct (active (ctrl c)); congruence.
Qed.

Lemma recovery_rank m err c b b1 p c1 e :
  body m b c = Go (b1, MsgPanic p c1 e) -> rank (recover m err) (Some c1) < rank m c.
Proof.
  intros H. apply body_panic_rank in H. unfold recovery.
  destruct (findHandler registry "__panic__") as [h|]; [|exact H].
  case_bool_decide; [|exact H].
  unfold rank in *. destruct (is_panic_invoke m) eqn:E; simpl; [lia|].
  destruct m, c; simpl in *; lia.
Qed.

(** ** One round of the loop, message by message *)
Abbreviation loop := (run_buf (U := U) id registry onSpawn).

Lemma drop_app_cons {X} (pre : list X) x (rest : list X) : drop (length pre) (pre ++ x :: rest) = x :: rest.
Proof. by rewrite drop_app_length. Qed.

Lemma drop_S_app_cons {X} (pre : list X) x (rest : list X) : drop (S (length pre)) (pre ++ x :: rest) = rest.
Proof. rewrite <- Nat.add_1_r, <- drop_drop, drop_app_cons. done. Qed.

Lemma ltb_app_cons {X} (pre : list X) x (rest : list X) : (length pre <? length (pre ++ x :: rest)) = true.
Proof. apply Nat.ltb_lt. rewrite length_app. simpl. lia. Qed.

Lemma batch_loop_nx rest nx b c b1 nx1 e :
  batch_loop id onSpawn rest nx b c = Go (b1, nx1, e) -> nx <= nx1 <= nx + length rest.
Proof.
  revert nx b c. induction rest as [|m rest IH]; intros nx b c; simpl; [intros [= _ -> _]; lia|].
  destruct (body m b c) as [[b2 [c2|p c2 err]]| |]; simpl; try done.
  - intros H%IH. lia.
  - intros [= _ <- _]. lia.
Qed.

Lemma loop_end cl fuel buf c b : loop cl (S fuel) buf (length buf) c b = Some (Go (b, None, c)).
Proof. simpl. by rewrite Nat.ltb_irrefl. Qed.

Lemma loop_done fuel pre m rest c b b1 c1 :
  body m b c = Go (b1, MsgDone c1) ->
  loop (fun _ => false) (S (S fuel)) (pre ++ m :: rest) (length pre) c b =
  loop (fun _ => false) (S (S fuel)) (pre ++ m :: rest) (S (length pre)) c1 b1.
Proof.
  intros H. remember (S fuel) as f. cbn [run_buf]. rewrite ltb_app_cons.
  unfold invokeBatch at 1. rewrite drop_app_cons. cbn [batch_loop fbind]. rewrite H. cbn [fbind].
  destruct rest as [|m' rest].
  - cbn [batch_loop fbind]. subst f.
    replace (S (length pre)) with (length (pre ++ [m])) by (rewrite length_app; simpl; lia).
    rewrite loop_end. by rewrite Nat.ltb_irrefl.
  - replace (S (length pre) <? length (pre ++ m :: m' :: rest)) with true
      by (symmetry; apply Nat.ltb_lt; rewrite length_app; simpl; lia).
    unfold invokeBatch. by rewrite drop_S_app_cons.
Qed.

Lemma loop_panic fuel pre m rest c b b1 p c1 err :
  body m b c = Go (b1, MsgPanic p c1 err) ->
  loop (fun _ => false) (S fuel) (pre ++ m :: rest) (length pre) c b =
  match Fail_ m (call_error id err) (settle p c1 b1) with
  | Go b2 => loop (fun _ => false) fuel (pre ++ recover m err :: rest) (length pre) (Some c1) b2
  | Crashed => Some Crashed
  | Blocked => Some Blocked
  end.
Proof.
  intros H. cbn [run_buf]. rewrite ltb_app_cons.
  unfold invokeBatch. rewrite drop_app_cons. cbn [batch_loop fbind]. rewrite H. cbn [fbind].
  rewrite list_lookup_middle by done.
  destruct (Fail_ _ _ _); cbn [fbind]; try done.
  by rewrite insert_app_r_alt, Nat.sub_diag by lia.
Qed.

Lemma loop_stuck fuel pre m rest c b r :
  body m b c = r -> (r = Crashed \/ r = Blocked) ->
  loop (fun _ => false) (S fuel) (pre ++ m :: rest) (length pre) c b =
  Some match r with Blocked => Blocked | _ => Crashed end.
Proof.
  intros H Hr. cbn [run_buf]. rewrite ltb_app_cons.
  unfold invokeBatch. rewrite drop_app_cons. cbn [batch_loop fbind].
  destruct Hr as [-> | ->]; by rewrite H.
Qed.

Definition no_rest (r : flow (bstate W R * option ctx)) : flow (bstate W R * option (list msg) * option ctx) :=
  match r with Go (b, c) => Go (b, None, c) | Crashed => Crashed | Blocked => Blocked end.

(** One message, with [k] panics to come at most and the rest as the hypothesis says. *)
Lemma loop_message rest fuel k pre m c b :
  rank m c <= k -> k <= fuel ->
  (forall fuel pre c b, 2 * length rest + 2 <= fuel ->
     exists r, handle_all rest b c = Some r /\
     loop (fun _ => false) fuel (pre ++ rest) (length pre) c b = Some (no_rest r)) ->
  exists r,
    match handle k m b c with
    | Some (Go (b1, c1)) => handle_all rest b1 c1
    | r => r
    end = Some r /\
    loop (fun _ => false) (fuel + 2 * length rest + 2) (pre ++ m :: rest) (length pre) c b = Some (no_rest r).
Proof.
  intros Hr Hk IH. revert fuel m c b Hr Hk. induction k as [|k IHk]; intros fuel m c b Hr Hk;
    cbn [handle]; destruct (body m b c) as [[b1 [c1|p c1 err]]| |] eqn:E.
  2: { apply body_panic_rank in E. lia. }
  5: { destruct fuel as [|fuel]; [lia|]. cbn [Nat.add]. rewrite (loop_panic _ _ _ _ _ _ _ _ _ _ E).
    pose proof (recovery_rank m err _ _ _ _ _ _ E).
    destruct (Fail_ _ _ _) as [b2| |]; [|by exists Crashed|by exists Blocked].
    apply IHk; lia. }
  1, 4: replace (fuel + 2 * length rest + 2) with (S (S (fuel + 2 * length rest))) by lia;
    rewrite (loop_done _ _ _ _ _ _ _ _ E), cons_middle, app_assoc;
    replace (S (length pre)) with (length (pre ++ [m])) by (rewrite length_app; simpl; lia);
    apply IH; lia.
  all: rewrite Nat.add_succ_r, (loop_stuck _ _ _ _ _ _ _ E) by auto; eexists; by split.
Qed.

Lemma loop_handle_all ms fuel pre c b :
  2 * length ms + 2 <= fuel ->
  exists r, handle_all ms b c = Some r /\
  loop (fun _ => false) fuel (pre ++ ms) (length pre) c b = Some (no_rest r).
Proof.
  revert fuel pre c b. induction ms as [|m ms IH]; intros fuel pre c b Hf.
  { destruct fuel; [simpl in Hf; lia|]. exists (Go (b, c)). split; [done|].
    rewrite app_nil_r. apply loop_end. }
  cbn [handle_all]. pose proof (rank_le m c).
  replace fuel with ((fuel - 2 * length ms - 2) + 2 * length ms + 2) by (simpl in Hf; lia).
  apply loop_message; [done|simpl in Hf; lia|done].
Qed.

(** ** What a piece of the goroutine does to the reply channels and the idle counter *)
Definition chs ms : list nat := omap msg_ch ms.

Definition fresh b (ch : nat) : Prop := bchans b !! ch = Some make_chan.
Definition answered b (ch : nat) : Prop := exists r, bchans b !! ch = Some (mkChan (Some r) false).

(** What the context of an actor adds to the idle counter. *)
Definition idles (c : option ctx) : Z := if is_active c then 0 else 1.

(** From [b] to [b'] exactly the channels [A] got an answer, and the counter moved by [d]. *)
Definition effect b b' (A : list nat) (d : Z) : Prop :=
  (forall ch, ch ∈ A -> answered b' ch) /\
  (forall ch, ch ∉ A -> bchans b' !! ch = bchans b !! ch) /\
  wrap32 (bidle b') = wrap32 (bidle b + d).

Lemma effect_refl b b' : bchans b' = bchans b -> bidle b' = bidle b -> effect b b' [] 0.
Proof.
  intros Hc Hi. split; [intros ch H; by apply elem_of_nil in H|]. rewrite Hc, Hi, Z.add_0_r. done.
Qed.

Lemma effect_trans b b1 b2 A1 A2 d1 d2 :
  effect b b1 A1 d1 -> effect b1 b2 A2 d2 -> effect b b2 (A1 ++ A2) (d1 + d2).
Proof.
  intros (H1 & H2 & H3) (G1 & G2 & G3). split; [|split].
  - intros ch Hin. destruct (decide (ch ∈ A2)) as [Hi|Hn]; [by apply G1|].
    apply elem_of_app in Hin as [Hi|Hi]; [|done].
    destruct (H1 ch Hi) as [r Hr]. exists r. by rewrite (G2 ch Hn).
  - intros ch Hn. rewrite G2, H2 by set_solver. done.
  - rewrite G3. rewrite Z.add_assoc. by apply wrap32_cong.
Qed.

Lemma effect_fresh b b' A d ch : effect b b' A d -> ch ∉ A -> fresh b ch -> fresh b' ch.
Proof. intros (_ & H & _) Hn Hf. unfold fresh. by rewrite H. Qed.

Lemma effect_eq b b' A A' d d' : effect b b' A d -> A = A' -> d = d' -> effect b b' A' d'.
Proof. by intros ? <- <-. Qed.

Lemma chan_send_fresh b ch r w i :
  fresh b ch -> exists chans, chan_send (bchans b) ch r = Sent chans /\
    effect b (mkB w i chans) [ch] (i - bidle b).
Proof.
  intros Hf. unfold chan_send. rewrite Hf. simpl. eexists. split; [done|]. split; [|split]; simpl.
  - intros ch' ->%list_elem_of_singleton. exists r. simpl. by rewrite lookup_insert_eq.
  - intros ch' Hn. rewrite lookup_insert_ne; [done|]. intros ->. apply Hn. by apply list_elem_of_singleton.
  - f_equal. lia.
Qed.

Lemma Fail_effect m err b :
  (forall ch, msg_ch m = Some ch -> fresh b ch) ->
  exists b1, Fail_ m err b = Go b1 /\ effect b b1 (chs [m]) 0.
Proof.
  intros Hf. unfold Fail_, chs. cbn [omap list_omap].
  destruct (msg_ch m) as [ch|].
  - destruct (chan_send_fresh b ch (mkResult None (Some err)) (bw b) (bidle b) (Hf ch eq_refl))
      as (chans & -> & He).
    eexists. split; [done|]. eapply effect_eq; [exact He|done|lia].
  - exists b. split; [done|]. by apply effect_refl.
Qed.

Lemma settle_effect p (c : ctx) b :
  effect b (settle p c b) [] (idles (Some c) - (if p then 0 else 1)).
Proof.
  unfold settle, idles, actorIdle, actorWake. simpl.
  destruct p, (active (ctrl c)); simpl; try (by apply effect_refl);
    (split; [intros ch H; by apply elem_of_nil in H|]; split; [done|]; simpl; by rewrite wrap32_idem).
Qed.

Lemma Invoke_effect (i : invoke T U F) b (c : ctx) sp :
  (forall ch, i_ch i = Some ch -> fresh b ch) ->
  exists b1 c1 p, Invoke i b c sp = Go (b1, c1, p) /\
    match p with
    | None => effect b b1 (option_list (i_ch i)) 0
    | Some _ => effect b b1 [] 0
    end.
Proof.
  intros Hf. unfold Invoke.
  destruct (run_handler _ _ _ _ _) as [[w c1] [rep err|err]].
  2: { eexists _, _, _. split; [done|]. by apply effect_refl. }
  destruct (i_ch i) as [ch|]; simpl.
  - destruct (chan_send_fresh b ch (mkResult rep err) w (bidle b) (Hf ch eq_refl)) as (chans & -> & He).
    eexists _, _, _. split; [done|]. simpl. eapply effect_eq; [exact He|done|lia].
  - eexists _, _, _. split; [done|]. by apply effect_refl.
Qed.

Lemma msg_Invoke_effect m b (c : ctx) sp :
  (forall ch, msg_ch m = Some ch -> fresh b ch) ->
  exists b1 c1 p, msg_Invoke m b c sp = Go (b1, c1, p) /\
    match p with
    | None => effect b b1 (chs [m]) 0
    | Some _ => effect b b1 [] 0
    end.
Proof.
  intros Hf. destruct m as [i|i| |e]; simpl.
  - destruct (Invoke_effect i b c sp Hf) as (b1 & c1 & p & -> & H).
    exists b1, c1, p. split; [done|]. destruct p; [done|]. unfold chs. simpl. by destruct (i_ch i).
  - destruct (timer_Invoke i b c) as [b1 c1] eqn:E. exists b1, c1, None. split; [done|].
    unfold timer_Invoke in E.
    destruct (take_timer i (ctrl c)); [|simplify_eq; by apply effect_refl].
    destruct (stub_fn i).
    + destruct (run_callback _ _ _) as [[w c2] ?]. simplify_eq. by apply effect_refl.
    + destruct (postponeFlush _ _) as [w a2]. simplify_eq. by apply effect_refl.
  - eexists _, _, _. split; [done|]. by apply effect_refl.
  - eexists _, _, _. split; [done|]. by apply effect_refl.
Qed.

Lemma bclear_effect b b' (c : ctx) A d : effect b b' A d -> effect b (bclear b' c) A d.
Proof.
  intros H. eapply effect_eq; [eapply effect_trans; [exact H|by apply (effect_refl _ (bclear b' c))]|..].
  - apply app_nil_r.
  - lia.
Qed.

Lemma do_spawn_effect b (c : ctx) : effect b (do_spawn id onSpawn b c).1 [] 0.
Proof.
  unfold do_spawn. destruct onSpawn; [|by apply effect_refl].
  destruct (run_spawn _ _ _) as [[w c1] e]. by apply effect_refl.
Qed.

(** The body after OnSpawn: [prev] is the active flag at its beginning. *)
Lemma body_effect m b c :
  (forall ch, msg_ch m = Some ch -> fresh b ch) ->
  exists b1 e, body m b c = Go (b1, e) /\
    match e with
    | MsgDone c1 => effect b b1 (chs [m]) (idles c1 - idles c)
    | MsgPanic p _ _ => effect b b1 [] 0 /\ p = is_active c
    end.
Proof.
  intros Hf. unfold batch_body.
  set (sp := match c with None => true | Some _ => false end).
  destruct (allowed m sp).
  2: { destruct (Fail_effect m (not_allowed id m) b Hf) as (b1 & -> & H).
    eexists _, _. split; [done|]. simpl. eapply effect_eq; [exact H|done|lia]. }
  set (c0 := match c with Some c => c | None => newActorContext zero_state id end).
  assert (active (ctrl c0) = is_active c) as Ha by (by destruct c).
  assert (exists b1 s, (if sp then do_spawn id onSpawn b c0 else (b, SpawnOk c0)) = (b1, s) /\
    effect b b1 [] 0 /\ (sp = false -> s = SpawnOk c0)) as (b1 & s & -> & He & Hs).
  { destruct sp; [|by eexists _, _; split; [done|]; split; [by apply effect_refl|]].
    destruct (do_spawn id onSpawn b c0) as [b1 s] eqn:E. exists b1, s. split; [done|]. split; [|done].
    replace b1 with (do_spawn id onSpawn b c0).1 by (by rewrite E). apply do_spawn_effect. }
  assert (forall ch, msg_ch m = Some ch -> fresh b1 ch) as Hf1.
  { intros ch Hc. eapply effect_fresh; [exact He| |by apply Hf]. apply not_elem_of_nil. }
  rewrite Ha. destruct s as [c2|c2 err|c2 err].
  - destruct (msg_Invoke_effect m b1 c2 sp Hf1) as (b2 & c3 & p & -> & H). cbn [fbind].
    destruct p as [err|].
    { eexists _, _. split; [done|]. split; [|done].
      eapply effect_eq; [eapply effect_trans; [exact He|exact H]|done|lia]. }
    assert (effect b (settle (is_active c) c3 b2) (chs [m]) (idles (Some c3) - idles c)) as G.
    { eapply effect_eq; [eapply effect_trans; [exact He|eapply effect_trans; [exact H|apply settle_effect]]|..].
      - by rewrite app_nil_r.
      - unfold idles. lia. }
    destruct (active (ctrl c3)) eqn:E3; (eexists _, _; split; [done|]; simpl); [done|].
    apply bclear_effect. eapply effect_eq; [exact G|done|]. unfold idles. simpl. rewrite E3. lia.
  - assert (sp = true) as Hsp by (destruct sp; [done|]; specialize (Hs eq_refl); congruence).
    assert (c = None) as -> by (unfold sp in Hsp; by destruct c).
    destruct (Fail_effect m err (bclear b1 c2) Hf1) as (b2 & -> & H).
    eexists _, _. split; [done|]. simpl.
    eapply effect_eq; [eapply effect_trans; [apply bclear_effect; exact He|exact H]|done|lia].
  - eexists _, _. split; [done|]. done.
Qed.

(** The fuel a buffer needs. *)
Definition cost ms c : nat :=
  match ms with [] => 0 | m :: ms => rank m c + 2 * length ms end.

Lemma cost_le ms c : cost ms c <= 2 * length ms.
Proof. destruct ms as [|m ms]; simpl; [lia|]. pose proof (rank_le m c). lia. Qed.

Lemma chs_app ms ms' : chs (ms ++ ms') = chs ms ++ chs ms'.
Proof. apply omap_app. Qed.

Lemma chs_cons m ms : chs (m :: ms) = chs [m] ++ chs ms.
Proof. apply (chs_app [m] ms). Qed.

Lemma chs_one m ch : msg_ch m = Some ch -> ch ∈ chs [m].
Proof. intros H. unfold chs. simpl. rewrite H. by apply list_elem_of_here. Qed.

Lemma chs_recover m err ms : chs (recover m err :: ms) = chs ms.
Proof.
  rewrite chs_cons. unfold recovery.
  destruct (findHandler registry "__panic__"); [|done]. case_bool_decide; [|done].
  by destruct (is_panic_invoke m).
Qed.

(** The messages of [ms] can be answered. *)
Definition answerable b ms : Prop := NoDup (chs ms) /\ forall ch, ch ∈ chs ms -> fresh b ch.

Lemma answerable_step b b1 ms ms' d :
  answerable b (ms ++ ms') -> effect b b1 (chs ms) d -> answerable b1 ms'.
Proof.
  intros [Hn Hf] He. rewrite chs_app in Hn, Hf. apply NoDup_app in Hn as (_ & Hd & Hn).
  split; [done|]. intros ch Hc. eapply effect_fresh; [exact He| |apply Hf; set_solver].
  intros Hc'. by apply (Hd ch).
Qed.

Lemma answerable_head b m ms ch : answerable b (m :: ms) -> msg_ch m = Some ch -> fresh b ch.
Proof.
  intros [_ Hf] Hc. apply Hf. rewrite chs_cons. apply elem_of_app. left. by apply chs_one.
Qed.

Lemma batch_loop_effect rest nx b c :
  answerable b rest ->
  exists b1 j e, batch_loop id onSpawn rest nx b c = Go (b1, nx + j, e) /\
    match e with
    | MsgDone c1 => j = length rest /\ effect b b1 (chs rest) (idles c1 - idles c)
    | MsgPanic p c1 err => exists pre m post, rest = pre ++ m :: post /\ length pre = j /\
        effect b b1 (chs pre) ((if p then 0 else 1) - idles c) /\
        cost (recover m err :: post) (Some c1) < cost rest c
    end.
Proof.
  revert nx b c. induction rest as [|m rest IH]; intros nx b c Ha; cbn [batch_loop].
  { exists b, 0, (MsgDone c). rewrite Nat.add_0_r. split; [done|]. split; [done|].
    eapply effect_eq; [by apply effect_refl|done|lia]. }
  destruct (body_effect m b c) as (b1 & e & E & He); [intros ch; by apply (answerable_head _ _ rest)|].
  rewrite E. cbn [fbind]. destruct e as [c1|p c1 err].
  - destruct (IH (S nx) b1 c1) as (b2 & j & e & -> & H).
    { by eapply (answerable_step _ _ [m]). }
    exists b2, (S j), e. split; [by rewrite Nat.add_succ_r|]. destruct e as [c2|p c2 err].
    + destruct H as [-> H]. split; [done|]. rewrite chs_cons.
      eapply effect_eq; [eapply effect_trans; [exact He|exact H]|done|lia].
    + destruct H as (pre & m' & post & -> & <- & H & Hc). exists (m :: pre), m', post.
      split; [done|]. split; [done|]. split.
      * rewrite chs_cons. eapply effect_eq; [eapply effect_trans; [exact He|exact H]|done|lia].
      * eapply Nat.lt_le_trans; [exact Hc|]. etransitivity; [apply cost_le|]. simpl. lia.
  - exists b1, 0, (MsgPanic p c1 err). rewrite Nat.add_0_r. split; [done|].
    destruct He as [He ->]. exists [], m, rest. split; [done|]. split; [done|]. split.
    + eapply effect_eq; [exact He|done|]. unfold idles. lia.
    + pose proof (recovery_rank m err _ _ _ _ _ _ E). simpl. lia.
Qed.

Lemma invokeBatch_effect pre rest c b :
  answerable b rest -> rest <> [] ->
  exists b1 buf' x' c1, invokeBatch id registry onSpawn (pre ++ rest) (length pre) c b = Go (b1, buf', x', c1) /\
  exists pre' rest' A, buf' = pre' ++ rest' /\ x' = length pre' /\
    effect b b1 A (idles c1 - idles c) /\ chs rest = A ++ chs rest' /\
    (rest' = [] \/ cost rest' c1 < cost rest c).
Proof.
  intros Ha Hne. unfold invokeBatch. rewrite drop_app_length.
  destruct (batch_loop_effect rest (length pre) b c Ha) as (b1 & j & e & -> & H). cbn [fbind].
  destruct e as [c1|p c1 err].
  - destruct H as [-> H]. eexists _, _, _, _. split; [done|]. exists (pre ++ rest), [], (chs rest).
    rewrite !app_nil_r, length_app. split_and!; try done. by left.
  - destruct H as (done_ & m & post & -> & <- & H & Hc).
    rewrite lookup_app_r, Nat.add_comm, Nat.add_sub by lia.
    rewrite list_lookup_middle by done.
    assert (answerable b1 (m :: post)) as Ha1 by (by eapply answerable_step).
    destruct (Fail_effect m (call_error id err) (settle p c1 b1)) as (b2 & -> & H2).
    { intros ch Hc'. eapply effect_fresh; [apply settle_effect|apply not_elem_of_nil|].
      by apply (answerable_head _ _ _ _ Ha1). }
    cbn [fbind]. eexists _, _, _, _. split; [done|].
    exists (pre ++ done_), (recover m err :: post), (chs done_ ++ chs [m]).
    rewrite insert_app_r_alt, Nat.add_sub by lia.
    rewrite insert_app_r_alt, Nat.sub_diag by lia. cbn [insert list_insert].
    split; [by rewrite app_assoc|]. split; [rewrite length_app; lia|]. split; [|split].
    + eapply effect_eq; [eapply effect_trans; [exact H|eapply effect_trans; [apply settle_effect|exact H2]]|done|].
      unfold idles. simpl. lia.
    + rewrite chs_recover, chs_app, <- app_assoc. f_equal. by rewrite chs_cons.
    + by right.
Qed.

Lemma run_buf_effect cl fuel pre rest c b :
  answerable b rest -> cost rest c + 2 <= fuel ->
  exists b1 left_ c1 A, loop cl fuel (pre ++ rest) (length pre) c b = Some (Go (b1, left_, c1)) /\
    effect b b1 A (idles c1 - idles c) /\ chs rest = A ++ chs (default [] left_).
Proof.
  revert pre rest c b. induction fuel as [|fuel IH]; intros pre rest c b Ha Hf; [lia|].
  destruct rest as [|m rest].
  { rewrite app_nil_r, loop_end. eexists _, _, _, []. split; [done|]. split; [|done].
    eapply effect_eq; [by apply effect_refl|done|lia]. }
  cbn [run_buf]. rewrite ltb_app_cons. destruct (cl (bw b)).
  { eexists _, _, _, []. split; [done|]. split; [eapply effect_eq; [by apply effect_refl|done|lia]|].
    simpl. by rewrite drop_app_cons. }
  destruct (invokeBatch_effect pre (m :: rest) c b Ha) as (b1 & buf' & x' & c1 & -> & H); [done|].
  destruct H as (pre' & rest' & A & -> & -> & He & Hc & Hd).
  destruct Hd as [-> | Hd].
  - destruct fuel as [|fuel]; [lia|]. rewrite app_nil_r, loop_end.
    eexists _, _, _, A. split; [done|]. split; [done|]. by rewrite Hc.
  - destruct (IH pre' rest' c1 b1) as (b2 & left_ & c2 & A2 & -> & He2 & Hc2).
    + destruct Ha as [Hn Hfr]. rewrite Hc in Hn, Hfr. apply NoDup_app in Hn as (_ & Hdis & Hn).
      split; [done|]. intros ch Hch. eapply effect_fresh; [exact He| |apply Hfr; set_solver].
      intros Hch'. by apply (Hdis ch).
    + lia.
    + eexists _, _, _, (A ++ A2). split; [done|]. split.
      * eapply effect_eq; [eapply effect_trans; [exact He|exact He2]|done|lia].
      * by rewrite Hc, Hc2, app_assoc.
Qed.

Lemma fail_all_effect ms err b :
  answerable b ms -> exists b1, fail_all ms err b = Go b1 /\ effect b b1 (chs ms) 0.
Proof.
  revert b. induction ms as [|m ms IH]; intros b Ha; cbn [fail_all].
  { exists b. split; [done|]. by apply effect_refl. }
  destruct (Fail_effect m err b) as (b1 & -> & H1); [intros ch; by apply (answerable_head _ _ ms)|].
  cbn [fbind]. destruct (IH b1) as (b2 & -> & H2); [by eapply (answerable_step _ _ [m])|].
  exists b2. split; [done|]. rewrite chs_cons.
  eapply effect_eq; [eapply effect_trans; [exact H1|exact H2]|done|lia].
Qed.

(** C6 The loop of [run] over its buffer, with messages replaced in place and
    [invokeBatch] restarted after every panic, is the plain handling of the messages one
    after the other, in their order, each with its recovery before the next; it ends
    within two restarts per message. *)
Theorem run_buf_sequential buf c b :
  exists r, handle_all buf b c = Some r /\
    run_buf id registry onSpawn (fun _ => false) (2 * length buf + 2) buf 0 c b = Some (no_rest r).
Proof. apply (loop_handle_all buf _ [] c b). lia. Qed.

(** What stays in the idle count after the actor has left: nothing, except for a context
    that was left inactive. *)
Definition idle_leak (c : option ctx) : Z :=
  match c with Some c => if active (ctrl c) then 0 else 1 | None => 0 end.

Lemma answerable_app_l b ms ms' : answerable b (ms ++ ms') -> answerable b ms.
Proof.
  intros [Hn Hf]. rewrite chs_app in Hn, Hf. apply NoDup_app in Hn as (Hn & _ & _).
  split; [done|]. intros ch Hch. apply Hf. set_solver.
Qed.

(** A round and the exit of the goroutine, together. *)
Lemma round_exit_effect cl buf mail c b :
  answerable b (buf ++ mail) ->
  exists b1 left_ c1 b2,
    run_buf id registry onSpawn cl (2 * length buf + 2) buf 0 c b = Some (Go (b1, left_, c1)) /\
    wrap32 (bidle b1) = wrap32 (bidle b + idles c1 - idles c) /\
    run_exit id c1 (default [] left_) mail b1 = Go b2 /\
    effect b b2 (chs (buf ++ mail)) (idle_leak c1 - idles c).
Proof.
  intros Ha. pose proof (cost_le buf c). pose proof (answerable_app_l _ _ _ Ha) as Hb.
  destruct (run_buf_effect cl (2 * length buf + 2) [] buf c b Hb) as (b1 & left_ & c1 & A & E & He & Hc); [lia|].
  exists b1, left_, c1.
  assert (effect b (match c1 with None => actorWake b1 | Some c => bclear b1 c end) A
    (idle_leak c1 - idles c)) as He1.
  { unfold idle_leak. destruct c1 as [c1|]; [by apply bclear_effect|].
    eapply effect_eq; [eapply effect_trans; [exact He|]|by rewrite app_nil_r|].
    - split; [intros ch H'; by apply elem_of_nil in H'|]. split; [done|]. apply wrap32_idem.
    - unfold idles. simpl. lia. }
  assert (answerable (match c1 with None => actorWake b1 | Some c => bclear b1 c end)
    (default [] left_ ++ mail)) as Ha1.
  { destruct Ha as [Hn Hf]. rewrite chs_app, Hc, <- app_assoc in Hn, Hf.
    apply NoDup_app in Hn as (_ & HdA & Hn). split; rewrite chs_app; [done|].
    intros ch Hch. eapply effect_fresh; [exact He1| |apply Hf, elem_of_app; by right].
    intros Hch'. by apply (HdA ch). }
  destruct (fail_all_effect (default [] left_) (closeErr id) _ (answerable_app_l _ _ _ Ha1)) as (b2 & E2 & He2).
  destruct (fail_all_effect mail (closeErr id) b2) as (b3 & E3 & He3); [by eapply answerable_step|].
  exists b3. split; [exact E|]. split; [destruct He as (_ & _ & ->); f_equal; lia|]. split.
  - unfold run_exit. rewrite E2. cbn [fbind]. exact E3.
  - eapply effect_eq; [exact (effect_trans _ _ _ _ _ _ _ He1 (effect_trans _ _ _ _ _ _ _ He2 He3))|..].
    + by rewrite chs_app, Hc, <- app_assoc.
    + lia.
Qed.

(** C7 Whatever the handlers do (panics included) and whenever the actor is closed, every
    message of the buffer and of the mailbox gets exactly one answer: a round followed by
    the exit code of [run] neither crashes nor blocks, fills the reply channel of every
    message and touches no other channel. *)
Theorem every_message_answered cl buf mail c b :
  answerable b (buf ++ mail) ->
  exists b1 left_ c1 b2,
    run_buf id registry onSpawn cl (2 * length buf + 2) buf 0 c b = Some (Go (b1, left_, c1)) /\
    run_exit id c1 (default [] left_) mail b1 = Go b2 /\
    (forall ch, ch ∈ chs (buf ++ mail) -> answered b2 ch) /\
    (forall ch, ch ∉ chs (buf ++ mail) -> bchans b2 !! ch = bchans b !! ch).
Proof.
  intros Ha. destruct (round_exit_effect cl buf mail c b Ha) as (b1 & l & c1 & b2 & E1 & _ & E2 & G1 & G2 & _).
  by exists b1, l, c1, b2.
Qed.

(** C8 The idle count of the group: a round moves it by the change in what the context of
    the actor stands for (1 without a context or with an inactive one, 0 when it is
    active), whatever the messages, panics and failed spawns in it; the exit then takes
    the actor out of the count, unless its context was left inactive (after a panic),
    when its 1 stays behind. *)
Theorem idle_settled cl buf mail c b :
  answerable b (buf ++ mail) ->
  exists b1 left_ c1 b2,
    run_buf id registry onSpawn cl (2 * length buf + 2) buf 0 c b = Some (Go (b1, left_, c1)) /\
    wrap32 (bidle b1) = wrap32 (bidle b + idles c1 - idles c) /\
    run_exit id c1 (default [] left_) mail b1 = Go b2 /\
    wrap32 (bidle b2) = wrap32 (bidle b - idles c + idle_leak c1).
Proof.
  intros Ha. destruct (round_exit_effect cl buf mail c b Ha) as (b1 & l & c1 & b2 & E1 & Hi & E2 & _ & _ & G).
  exists b1, l, c1, b2. split_and!; [done..|]. rewrite G. f_equal. lia.
Qed.

(** ** Releasable replies *)

(** SafeCall neither leaks nor doubles a reply: a handler that returns a reply on the
    path of SafeCall has it delivered to the caller and not released, when the caller
    waits; and released exactly once and not delivered, when the caller gave up, be it
    before or after the reply was sent. *)
Theorem safe_reply_once (i : invoke T U F) b (c c1 : ctx) sp ch w1 rep err e :
  i_ch i = Some ch -> i_clean i = true -> fresh b ch ->
  run_handler (fn (i_h i)) (bw b) (set_ctrl (invokeLogger (i_from i) (ctrl c)) c) (i_req i) sp =
    (w1, c1, HReturn (Some rep) err) ->
  (* the reply is sent, then received *)
  (exists b1, Invoke i b c sp = Go (b1, c1, None) /\ bw b1 = w1 /\
     (safeResult (bchans b1) ch None (bw b1)).1.2 = w1 /\
     (safeResult (bchans b1) ch None (bw b1)).2 = Some (Some rep, err)) /\
  (* the reply is sent, then the caller gives up *)
  (exists b1, Invoke i b c sp = Go (b1, c1, None) /\
     (safeResult (bchans b1) ch (Some e) (bw b1)).1.2 = run_close rep w1 /\
     (safeResult (bchans b1) ch (Some e) (bw b1)).2 = Some (None, Some e)) /\
  (* the caller gives up, then the reply is sent *)
  (let '(chans, w, r) := safeResult (bchans b) ch (Some e) (bw b) in
   r = Some (None, Some e) /\ w = bw b /\
   exists b2, Invoke i (mkB w (bidle b) chans) c sp = Go (b2, c1, None) /\ bw b2 = run_close rep w1).
Proof.
  intros Hch Hcl Hf Hh. unfold fresh in Hf. unfold Invoke, chan_send, safeResult, waitResult.
  rewrite Hch, Hcl, Hh. cbn [set_bw bchans bw bidle]. rewrite Hf. cbn [chclosed chbuf make_chan].
  split; [|split].
  - eexists. split; [done|]. cbn [bchans bw]. by rewrite lookup_insert_eq.
  - eexists. split; [done|]. cbn [bchans bw]. by rewrite lookup_insert_eq.
  - split; [done|]. split; [done|]. rewrite Hh. cbn [set_bw bchans bw bidle].
    rewrite lookup_insert_eq. cbn [chclosed]. eexists. split; [done|]. done.
Qed.
End spec.

(** ** Concrete runs *)
Module RuntimeWitness.
Import ControlSpec.ToyManager.

(** A handler of the examples: opens the actor if told so, then replies, fails or panics. *)
Inductive act := Reply (open : bool) (n : nat) | Refuse | Explode.

#[export] Instance toy_requests : Requests unit act nat :=
  {| user_type := fun _ => tt; user_ReqType := fun _ => "act"%string; user_id0 := fun _ => 0 |}.

Definition run_act (a : act) (w : toy) (c : ActorContext nat nat nat nat nat)
    : toy * ActorContext nat nat nat nat nat * handler_end nat :=
  match a with
  | Reply open n =>
      let w' := mkToy (tw_log w ++ [(9, n)]) (tw_full w) in
      (w', if open then ctx_Open c else c, HReturn (Some n) None)
  | Refuse => (w, c, HReturn None (Some (ErrNew "refused")))
  | Explode => (w, c, HPanic None)
  end.

(** Handlers run the request itself; a released reply is logged. *)
#[export] Instance toy_code : UserCode toy nat nat nat nat nat act nat unit unit := {|
  run_handler := fun _ w c q _ =>
    match q with UserReq a => run_act a w c | PanicReq _ => (w, c, HReturn None None) end;
  run_spawn := fun _ w c => (w, c, SReturn None);
  run_hook := fun _ w c => (w, c, false);
  run_callback := fun _ w c => (w, c, false);
  run_close := fun r w => mkToy (tw_log w ++ [(8, r)]) (tw_full w);
  zero_state := 0;
|}.

Definition serve : handlerEntry unit unit := mkEntry (TUser tt) "act" true true tt.

Definition ask (a : act) (ch : option nat) : invokable unit act unit nat :=
  MInvoke (mkInvoke (mkFrom "" "") serve (UserReq a) ch true).

Definition b0 : bstate toy nat :=
  mkB (mkToy [] []) 1 (list_to_map ((fun k => (k, make_chan)) <$> seq 0 4)).

Definition buf0 := [ask (Reply true 5) (Some 0); ask Explode (Some 1); ask (Reply false 6) (Some 2)].
Definition mail0 := [ask Refuse (Some 3)].

Lemma buf0_answerable : answerable b0 (buf0 ++ mail0).
Proof.
  split.
  - apply (bool_decide_unpack (NoDup (chs (buf0 ++ mail0)))). vm_compute. exact I.
  - intros ch Hch. unfold chs in Hch. simpl in Hch.
    repeat (apply elem_of_cons in Hch as [-> | Hch]; [reflexivity|]). by apply elem_of_nil in Hch.
Qed.

Lemma every_message_answered_witness :
  exists b1 left_ c1 b2,
    run_buf 0 ∅ None (fun _ => false) 8 buf0 0 None b0 = Some (Go (b1, left_, c1)) /\
    run_exit 0 c1 (default [] left_) mail0 b1 = Go b2 /\ answered b2 1 /\ answered b2 3.
Proof.
  destruct (every_message_answered 0 ∅ None (fun _ => false) buf0 mail0 None b0 buf0_answerable)
    as (b1 & l & c1 & b2 & E1 & E2 & H & _).
  exists b1, l, c1, b2. split; [exact E1|]. split; [exact E2|].
  split; apply H; vm_compute; repeat constructor.
Defined.

Lemma idle_settled_witness :
  exists b1 left_ c1 b2,
    run_buf 0 ∅ None (fun _ => false) 8 buf0 0 None b0 = Some (Go (b1, left_, c1)) /\
    run_exit 0 c1 (default [] left_) mail0 b1 = Go b2 /\
    wrap32 (bidle b2) = wrap32 (idle_leak c1).
Proof.
  destruct (idle_settled 0 ∅ None (fun _ => false) buf0 mail0 None b0 buf0_answerable)
    as (b1 & l & c1 & b2 & E1 & _ & E2 & H).
  exists b1, l, c1, b2. split; [exact E1|]. split; [exact E2|]. exact H.
Defined.

Definition ctx0 : ActorContext nat nat nat nat nat := newActorContext 0 0.
Definition ctx0' := set_ctrl (invokeLogger (mkFrom "" "") (ctrl ctx0)) ctx0.

Lemma safe_reply_once_witness :
  exists b1, Invoke (mkInvoke (mkFrom "" "") serve (UserReq (Reply false 5)) (Some 0) true) b0 ctx0 false
    = Go (b1, set_ctrl (invokeLogger (mkFrom "" "") (ctrl ctx0)) ctx0, None) /\
  (safeResult (bchans b1) 0 (Some CtxCanceled) (bw b1)).1.2 = mkToy [(9, 5); (8, 5)] [].
Proof.
  destruct (safe_reply_once (UserCode0 := toy_code) (mkInvoke (mkFrom "" "") serve (UserReq (Reply false 5)) (Some 0) true)
    b0 ctx0 (set_ctrl (invokeLogger (mkFrom "" "") (ctrl ctx0)) ctx0) false 0 (mkToy [(9, 5)] []) 5 None
    CtxCanceled eq_refl eq_refl eq_refl eq_refl) as (_ & (b1 & H1 & H2 & _) & _).
  exists b1. split; [exact H1|]. exact H2.
Defined.

(** A caller of SafeCall that gives up before its handler returns an error brings the
    process down: the handler's goroutine sends on the closed channel, and so does the
    recovery of its panic. *)
Remark SafeCall_cancel_crashes :
  let chans := (safeResult (bchans b0) 0 (Some CtxCanceled) (bw b0)).1.1 in
  invokeBatch 0 ∅ None [ask Refuse (Some 0)] 0 (Some ctx0) (mkB (bw b0) 0 chans) = Crashed.
Proof. reflexivity. Qed.

(** A handler that panics before the actor was opened leaves an inactive context; if the
    actor is closed before the recovery message runs, its idle mark stays in the count. *)
Remark panic_close_leaks_idle :
  exists b2,
    invokeBatch 0 ∅ None [ask Explode None] 0 None (mkB (mkToy [] []) 1 ∅)
      = Go (b2, [MPanicDrop None], 0, Some ctx0') /\
    exists b3, run_exit 0 (Some ctx0') [MPanicDrop (T := unit) (U := act) (F := unit) None] [] b2 = Go b3 /\
    bidle b3 = 1%Z.
Proof. eexists. split; [reflexivity|]. eexists. split; reflexivity. Qed.
End RuntimeWitness.
