(* ===== verification/Group.v ===== *)
(** * Groups of actors

    The shared part of an actor (actorRuntime of actor/actor.go: reference count,
    mailbox, closing) and the group with its operations (actor/group.go), which the
    handler entries (actor/handler.go) and direct references (actor/ref.go) send through.
    Each operation is one atomic step under the lock of the group; how the steps of
    several goroutines interleave is in Lifecycle. *)

From S2P Require Import Prelude ActorTypes Control Registry Runtime.

Local Open Scope go_scope.

Section Group.
Context {I : Type} `{!ActorId I}.
Context {CB T U F SF : Type} `{!Requests T U I}.
Abbreviation msg := (invokable T U F CB).

(** ** The shared part of an actor

    Pointers to actors are indices into [heap]. [waiting]: the goroutine is blocked on the
    receive of [run]; [done_]: [doneCh] is closed. *)
Record actorRuntime := mkActor {
  a_id : I;
  a_canceled : bool;
  closed : bool;
  mailbox : list msg;
  mb_closed : bool;
  waiting : bool;
  done_ : bool;
  holder : Z;
}.

Record group := mkGroup {
  options : Options;
  stopping : bool;
  g_canceled : bool;
  registry : gmap string (handlerEntry T F);
  onSpawn : option SF;
  actors : gmap I nat;
  idle : Z;
  heap : list actorRuntime;
}.

Definition set_heap h (g : group) := mkGroup (options g) (stopping g) (g_canceled g) (registry g)
  (onSpawn g) (actors g) (idle g) h.
Definition set_actors m n (g : group) := mkGroup (options g) (stopping g) (g_canceled g) (registry g)
  (onSpawn g) m n (heap g).
Definition set_stopping (g : group) := mkGroup (options g) true true (registry g)
  (onSpawn g) (actors g) (idle g) (heap g).

Definition set_closed a := mkActor (a_id a) (a_canceled a) true (mailbox a) (mb_closed a) (waiting a) (done_ a) (holder a).
Definition set_cancel a := mkActor (a_id a) true (closed a) (mailbox a) (mb_closed a) (waiting a) (done_ a) (holder a).
Definition set_holder n a := mkActor (a_id a) (a_canceled a) (closed a) (mailbox a) (mb_closed a) (waiting a) (done_ a) n.
Definition set_mailbox l a := mkActor (a_id a) (a_canceled a) (closed a) l (mb_closed a) (waiting a) (done_ a) (holder a).
Definition set_mb_closed a := mkActor (a_id a) (a_canceled a) (closed a) (mailbox a) true (waiting a) (done_ a) (holder a).
Definition set_waiting b a := mkActor (a_id a) (a_canceled a) (closed a) (mailbox a) (mb_closed a) b (done_ a) (holder a).
Definition set_done a := mkActor (a_id a) true (closed a) (mailbox a) (mb_closed a) false true (holder a).

(** [newActor]: its context is derived from that of the group. *)
Definition newActor (id : I) (g : group) : actorRuntime :=
  mkActor id (g_canceled g) false [] false false false 0.

(** [newGroup] *)
Definition newGroup (canceled : bool) (reg : gmap string (handlerEntry T F)) (sp : option SF) (o : Options) : group :=
  mkGroup o false canceled reg sp ∅ 0 [].

(** ** Operations of an actor *)
Definition hold (a : actorRuntime) : actorRuntime := set_holder (wrap32 (holder a + 1)) a.

(** [unhold]: closing a channel twice panics. *)
Definition unhold (a : actorRuntime) : flow actorRuntime :=
  let a1 := set_holder (wrap32 (holder a - 1)) a in
  if (holder a1 =? 0)%Z then (if mb_closed a1 then Crashed else Go (set_mb_closed a1)) else Go a1.

(** [send]: the select with a default case. A buffered mailbox takes the message if it
    has room; an unbuffered one only if the goroutine is waiting for it. *)
Definition has_room (cap : nat) (a : actorRuntime) : bool :=
  (length (mailbox a) <? cap)%nat ||
  (waiting a && match mailbox a with [] => true | _ => false end).

Definition send (cap : nat) (m : msg) (a : actorRuntime) : flow (actorRuntime * option error) :=
  if mb_closed a then Crashed
  else if has_room cap a then Go (set_mailbox (mailbox a ++ [m]) a, None)
  else Go (a, Some (ActorBusyError (Some (to_base (a_id a))))).

Definition requestClose (a : actorRuntime) : flow actorRuntime :=
  if closed a then Go a else unhold (set_closed a).

Definition kill (a : actorRuntime) : flow actorRuntime := requestClose (set_cancel a).

(** [pumpMailbox] *)
Definition pumpMailbox (buf : list msg) (a : actorRuntime) : list msg * actorRuntime :=
  (buf ++ mailbox a, set_mailbox [] a)%list.

(** ** Access through a pointer: the nil pointer panics *)
Definition with_actor {X} (p : nat) (f : actorRuntime -> flow (actorRuntime * X)) (g : group) : flow (group * X) :=
  match heap g !! p with
  | None => Crashed
  | Some a => do! (a', x) := f a in Go (set_heap (<[p := a']> (heap g)) g, x)
  end.

Definition on_actor (p : nat) (f : actorRuntime -> flow actorRuntime) (g : group) : flow group :=
  do! (g', _) := with_actor p (fun a => do! a' := f a in Go (a', tt)) g in Go g'.

Definition g_send (p : nat) (m : msg) (g : group) : flow (group * option error) :=
  with_actor p (send (BufMails (options g)) m) g.
Definition g_hold (p : nat) (g : group) : flow group := on_actor p (fun a => Go (hold a)) g.
Definition g_unhold (p : nat) (g : group) : flow group := on_actor p unhold g.

Definition is_closed (g : group) (p : nat) : bool :=
  match heap g !! p with Some a => closed a | None => false end.
Definition is_done (g : group) (p : nat) : bool :=
  match heap g !! p with Some a => done_ a | None => false end.

(** ** Looking actors up *)

(** The entry of an identifier that is not closed. *)
Definition live (g : group) (id : I) : option nat :=
  match actors g !! id with
  | Some p => if is_closed g p then None else Some p
  | None => None
  end.

Definition holdActor (id : I) (g : group) : flow (group * option nat) :=
  match live g id with
  | None => Go (g, None)
  | Some p => do! g' := g_hold p g in Go (g', Some p)
  end.

Definition holdActorForRef (id : I) (g : group) : flow (group * option nat) := holdActor id g.

(** [spawnActor]. The wait for an old actor that is closed but not done happens with the
    lock held: [Blocked] until another goroutine closes [doneCh] (see Lifecycle). *)
Definition insert_new (id : I) (g : group) : group * nat :=
  let p := length (heap g) in
  let a := set_holder 2 (newActor id g) in
  (set_actors (<[id := p]> (actors g)) (wrap32 (idle g + 1)) (set_heap (heap g ++ [a])%list g), p).

Definition spawnActor (id : I) (g : group) : flow (group * option nat * bool) :=
  if stopping g then Go (g, None, false)
  else match actors g !! id with
       | Some old =>
           if is_closed g old then
             if is_done g old then let '(g', p) := insert_new id g in Go (g', Some p, true)
             else Blocked
           else do! g' := g_hold old g in Go (g', Some old, false)
       | None => let '(g', p) := insert_new id g in Go (g', Some p, true)
       end.

(** [resolveActor]: the flag says that the goroutine of a new actor is started. The
    identifier may resolve to no actor and no error, when the group stops between the
    check and [spawnActor]: [between] is what the other goroutines do there. *)
Definition resolveActor (between : group -> group) (id : I) (allow : bool) (g : group)
    : flow (group * option nat * option error * bool) :=
  if stopping g then Go (g, None, Some (GroupClosedError (Some (to_base id))), false)
  else
    do! (g1, a) := holdActor id g in
    match a with
    | Some p => Go (g1, Some p, None, false)
    | None =>
        if allow then
          do! (g2, p, spawn) := spawnActor id (between g1) in Go (g2, p, None, spawn)
        else Go (g1, None, Some (ActorNotFoundError (Some (to_base id))), false)
    end.

(** ** Sending to one actor *)

(** Sends to a held actor and releases it; a nil actor panics. *)
Definition send_release (p : option nat) (m : msg) (g : group) : flow (group * option error) :=
  match p with
  | None => Crashed
  | Some p => do! (g1, err) := g_send p m g in do! g2 := g_unhold p g1 in Go (g2, err)
  end.

(** [handlerPost], [handlerCall]: the last component is the actor whose goroutine starts. *)
Definition handler_send (between : group -> group) (h : handlerEntry T F) (m : msg) (id : I) (g : group)
    : flow (group * option error * option nat) :=
  do! (g1, p, err, spawn) := resolveActor between id (allow_spawn h) g in
  match err with
  | Some e => Go (g1, Some e, None)
  | None =>
      do! (g2, e) := send_release p m g1 in
      Go (g2, e, if spawn then p else None)
  end.

Definition handlerPost between (fr : From) (h : handlerEntry T F) (id : I) (req : request U) (g : group) :=
  handler_send between h (MInvoke (mkInvoke fr h req None false)) id g.

(** [ch] is the channel made for the reply; it is returned unless there is an error. *)
Definition handlerCall between (fr : From) (h : handlerEntry T F) (id : I) (req : request U) (ch : nat) (clean : bool)
    (g : group) : flow (group * (option nat * option error) * option nat) :=
  do! (g1, err, sp) := handler_send between h (MInvoke (mkInvoke fr h req (Some ch) clean)) id g in
  Go (g1, (match err with None => Some ch | Some _ => None end, err), sp).

(** ** Sending to many *)

(** [holdActors]: the live ones, held, and the identifiers without one, in order. *)
Fixpoint holdActors (ids : list I) (g : group) : flow (group * list nat * list I) :=
  match ids with
  | [] => Go (g, [], [])
  | id :: ids =>
      match live g id with
      | Some p =>
          do! g1 := g_hold p g in
          do! (g2, ps, nf) := holdActors ids g1 in Go (g2, p :: ps, nf)
      | None => do! (g2, ps, nf) := holdActors ids g in Go (g2, ps, id :: nf)
      end
  end.

Fixpoint unhold_all (ps : list nat) (g : group) : flow group :=
  match ps with
  | [] => Go g
  | p :: ps => do! g1 := g_unhold p g in unhold_all ps g1
  end.

Definition ptr_id (g : group) (p : nat) : I :=
  match heap g !! p with Some a => a_id a | None => zero_id end.

Fixpoint send_each (ps : list nat) (m : msg) (g : group) : flow (group * list (IdErr I)) :=
  match ps with
  | [] => Go (g, [])
  | p :: ps =>
      do! (g1, err) := g_send p m g in
      do! (g2, l) := send_each ps m g1 in Go (g2, mkIdErr (ptr_id g p) err :: l)
  end.

(** [holdAllActors] holds the actors of the map in the order Go ranges over it. *)
Definition live_ids (g : group) : list I := (map_to_list (actors g)).*1.

(** The body of [handlerBroadcast] and [handlerMulticast]. *)
Definition broadcast (m : msg) (g : group) : flow (group * (nat * option error)) :=
  if stopping g then Go (g, (0, Some (GroupClosedError None)))
  else
    do! (g1, ps, _) := holdActors (live_ids g) g in
    do! (g2, l) := send_each ps m g1 in
    do! g3 := unhold_all ps g2 in Go (g3, (CountNoErr l, None)).

Definition not_found (id : I) : IdErr I := mkIdErr id (Some (ActorNotFoundError (Some (to_base id)))).

Definition multicast (ids : list I) (m : msg) (g : group) : flow (group * (list (IdErr I) * option error)) :=
  if stopping g then Go (g, ([], Some (GroupClosedError None)))
  else
    do! (g1, ps, nf) := holdActors ids g in
    do! (g2, l) := send_each ps m g1 in
    do! g3 := unhold_all ps g2 in Go (g3, ((l ++ (not_found <$> nf))%list, None)).

Definition handlerBroadcast (fr : From) (h : handlerEntry T F) (req : request U) (g : group) :=
  broadcast (MInvoke (mkInvoke fr h req None false)) g.
Definition handlerMulticast (fr : From) (h : handlerEntry T F) (ids : list I) (req : request U) (g : group) :=
  multicast ids (MInvoke (mkInvoke fr h req None false)) g.

(** ** Counting and closing *)

(** [count]: [idle] is read as an int32. *)
Definition count (g : group) : Z := Z.of_nat (size (actors g)) - wrap32 (idle g).

Fixpoint close_each (ps : list nat) (g : group) : flow group :=
  match ps with
  | [] => Go g
  | p :: ps => do! g1 := on_actor p requestClose g in close_each ps g1
  end.

Definition closeGroup (g : group) : flow group :=
  if stopping g then Go g
  else close_each (map_to_list (actors g)).*2
         (set_heap (set_cancel <$> heap g) (set_stopping g)).

(** [joinGroup] and [joinActor] wait; they change nothing. *)
Definition joinGroup (g : group) : flow unit :=
  if forallb (is_done g) (map_to_list (actors g)).*2 then Go tt else Blocked.

Definition closeActor (id : I) (g : group) : flow (group * bool) :=
  match actors g !! id with
  | None => Go (g, false)
  | Some p => do! g1 := on_actor p requestClose g in Go (g1, true)
  end.

Definition killActor (id : I) (g : group) : flow (group * bool) :=
  match actors g !! id with
  | None => Go (g, false)
  | Some p => do! g1 := on_actor p kill g in Go (g1, true)
  end.

Definition joinActor (id : I) (g : group) : flow bool :=
  match actors g !! id with
  | None => Go false
  | Some p => if is_done g p then Go true else Blocked
  end.

(** [actorQuit]: an idle actor with an empty mailbox that nobody holds closes itself. *)
Definition actorQuit (p : nat) (buf : list msg) (g : group) : flow (group * (list msg * bool)) :=
  with_actor p (fun a =>
    if closed a then Go (a, (buf, false))
    else if (1 <? holder a)%Z then Go (a, (buf, false))
    else
      let '(buf1, a1) := pumpMailbox buf a in
      match buf1 with
      | [] => do! a2 := requestClose a1 in Go (a2, ([], true))
      | _ => Go (a1, (buf1, false))
      end) g.

(** [removeActor]: only its own entry. *)
Definition removeActor (p : nat) (g : group) : group :=
  match heap g !! p with
  | Some a => if bool_decide (actors g !! a_id a = Some p)
              then set_actors (delete (a_id a) (actors g)) (idle g) g else g
  | None => g
  end.

(** ** Direct references

    [ActorRef]: the pointer it holds, or nil once released. *)
Definition Release (r : option nat) (g : group) : flow (group * option nat) :=
  match r with
  | None => Go (g, None)
  | Some p => do! g1 := g_unhold p g in Go (g1, None)
  end.

(** [ActorContext.Ref]: a reference to an actor of the same group, which is not spawned. *)
Definition Ref (id : I) (g : group) : flow (group * option nat) := holdActorForRef id g.

(** [Id] reads through the pointer: it crashes once the reference is released. *)
Definition Ref_Id (r : option nat) (g : group) : flow I :=
  match r with Some p => Go (ptr_id g p) | None => Crashed end.

Definition Valid (r : option nat) (g : group) : bool :=
  match r with Some p => negb (is_closed g p) | None => false end.

(** The part [RefPost], [RefCall] and [RefSafeCall] share, after the check of the
    handler [h] (or the error of findHandler); a released reference panics. *)
Definition ref_send (r : option nat) (h : error + handlerEntry T F)
    (mk : handlerEntry T F -> msg) (g : group) : flow (group * option error) :=
  match r with
  | None => Crashed
  | Some p =>
      if is_closed g p then Go (g, Some (ActorClosedError (Some (to_base (ptr_id g p)))))
      else match h with
           | inl e => Go (g, Some e)
           | inr h => g_send p (mk h) g
           end
  end.

Definition RefPost r h req g := ref_send r h (fun h => MInvoke (mkInvoke (mkFrom "" "") h req None false)) g.
Definition RefCall r h req ch g :=
  ref_send r h (fun h => MInvoke (mkInvoke (mkFrom "" "") h req (Some ch) false)) g.
Definition RefSafeCall r h req ch g :=
  ref_send r h (fun h => MInvoke (mkInvoke (mkFrom "" "") h req (Some ch) true)) g.
End Group.

Arguments actorRuntime I CB T U F : clear implicits.
Arguments group I {_} CB T U F SF.
