(* ===== verification/GroupSpec.v ===== *)
(** * Properties of the operations of a group

    What a caller learns from the result of a send, for one target and for many, and
    that the references a call takes are given back. *)

From S2P Require Import Prelude ActorTypes Control Registry Runtime Group.

Section spec.
Context {I : Type} `{!ActorId I}.
Context {CB T U F SF : Type} `{!Requests T U I}.
Abbreviation msg := (invokable T U F CB).
Abbreviation group := (group I CB T U F SF).
Abbreviation actor := (actorRuntime I CB T U F).
Implicit Types (g : group) (a : actor) (m : msg) (p : nat) (ps : list nat).

(** The mailbox and the reference count behind a pointer. *)
Definition mbox g p : list msg := match heap g !! p with Some a => mailbox a | None => [] end.
Definition refcount g p : Z := match heap g !! p with Some a => holder a | None => 0 end.

(** The map of the group points to actors of the right identifier. *)
Definition map_ok g : Prop :=
  forall id p, actors g !! id = Some p -> exists a, heap g !! p = Some a /\ a_id a = id.

(** ** Changes of one actor *)
Lemma with_actor_go {X} p (f : actor -> flow (actor * X)) g g' x :
  with_actor p f g = Go (g', x) ->
  exists a a', heap g !! p = Some a /\ f a = Go (a', x) /\ g' = set_heap (<[p := a']> (heap g)) g.
Proof.
  unfold with_actor. destruct (heap g !! p) as [a|]; [|done].
  destruct (f a) as [[a' y]| |] eqn:E; simpl; try done. intros [= <- <-]. by exists a, a'.
Qed.

Lemma on_actor_go p (f : actor -> flow actor) g g' :
  on_actor p f g = Go g' ->
  exists a a', heap g !! p = Some a /\ f a = Go a' /\ g' = set_heap (<[p := a']> (heap g)) g.
Proof.
  unfold on_actor. destruct (with_actor _ _ _) as [[g1 []]| |] eqn:E; simpl; try done.
  intros [= <-]. apply with_actor_go in E as (a & a' & H1 & H2 & ->).
  exists a, a'. destruct (f a); simpl in H2; try done. by simplify_eq.
Qed.

(** A step on one actor keeps the map, the identifiers and the other actors. *)
Record one_changed g g' p (fm : list msg -> list msg) (dh : Z) : Prop := {
  oc_map : actors g' = actors g;
  oc_opt : options g' = options g;
  oc_stop : stopping g' = stopping g;
  oc_mbox : forall q, mbox g' q = if decide (q = p) then fm (mbox g p) else mbox g q;
  oc_ref : forall q, refcount g' q = if decide (q = p) then wrap32 (refcount g p + dh) else refcount g q;
  oc_id : forall q, a_id <$> (heap g' !! q) = a_id <$> (heap g !! q);
  oc_closed : forall q, closed <$> (heap g' !! q) = closed <$> (heap g !! q);
}.

Lemma insert_changed g p a a' fm dh :
  heap g !! p = Some a -> mailbox a' = fm (mailbox a) -> holder a' = wrap32 (holder a + dh) ->
  a_id a' = a_id a -> closed a' = closed a ->
  one_changed g (set_heap (<[p := a']> (heap g)) g) p fm dh.
Proof.
  intros Ha Hm Hh Hi Hc. assert (p < length (heap g)) as Hlt by (by eapply lookup_lt_Some).
  assert (forall q, heap (set_heap (<[p := a']> (heap g)) g) !! q = if decide (q = p) then Some a' else heap g !! q) as E.
  { intros q. simpl. destruct (decide (q = p)) as [->|Hne]; [by apply list_lookup_insert_eq|].
    by apply list_lookup_insert_ne. }
  split; try done; intros q; unfold mbox, refcount; rewrite E; destruct (decide (q = p)) as [->|]; try done;
    rewrite Ha; simpl; congruence.
Qed.

Lemma g_hold_changed g g' p : g_hold p g = Go g' -> one_changed g g' p (fun l => l) 1.
Proof. intros (a & a' & Ha & [= <-] & ->)%on_actor_go. by eapply insert_changed. Qed.

Lemma unhold_fields a a' : unhold a = Go a' ->
  mailbox a' = mailbox a /\ holder a' = wrap32 (holder a - 1) /\ a_id a' = a_id a /\ closed a' = closed a.
Proof.
  unfold unhold. simpl. destruct (_ =? _)%Z; [|by intros [= <-]].
  destruct (mb_closed a); [done|]. by intros [= <-].
Qed.

Lemma g_unhold_changed g g' p : g_unhold p g = Go g' -> one_changed g g' p (fun l => l) (-1).
Proof.
  intros (a & a' & Ha & Hf & ->)%on_actor_go. apply unhold_fields in Hf as (H1 & H2 & H3 & H4).
  by apply (insert_changed g p a).
Qed.

Lemma wrap32_0 (z : Z) : (- 2 ^ 31 <= z < 2 ^ 31)%Z -> wrap32 (z + 0) = z.
Proof. intros H. rewrite Z.add_0_r. by apply wrap32_small. Qed.

(** [Ref] gives a valid reference to the actor of the identifier, held once more, or none;
    nobody is spawned. *)
Theorem Ref_valid id g g' r : map_ok g -> Ref id g = Go (g', r) ->
  actors g' = actors g /\
  match r with
  | Some p => actors g !! id = Some p /\ Valid (Some p) g' = true /\ Ref_Id (Some p) g' = Go id
  | None => g' = g /\ live g id = None
  end.
Proof.
  intros Hok. unfold Ref, holdActorForRef, holdActor. destruct (live g id) as [p|] eqn:El; [|by intros [= <- <-]].
  unfold live in El. destruct (actors g !! id) as [q|] eqn:Eq; [|done]. destruct (is_closed g q) eqn:Ec; [done|].
  injection El as ->. destruct (Hok id p Eq) as (a & Ha & Hid).
  unfold g_hold. destruct (on_actor p _ g) as [g1| |] eqn:Eo; [|done|done]. intros [= <- <-].
  apply on_actor_go in Eo as (b & b' & Hb & Hf & ->). rewrite Ha in Hb. injection Hb as <-. injection Hf as <-.
  unfold is_closed in Ec. rewrite Ha in Ec. split; [done|]. split; [done|].
  unfold Valid, Ref_Id, is_closed, ptr_id. simpl.
  rewrite list_lookup_insert_eq by (by eapply lookup_lt_Some). simpl. by rewrite Ec, Hid.
Qed.

(** [send]: the message is appended exactly when there is no error; otherwise the
    target was busy. *)
Lemma g_send_changed g g' p m err :
  g_send p m g = Go (g', err) ->
  match err with
  | None => forall q, mbox g' q = if decide (q = p) then mbox g p ++ [m] else mbox g q
  | Some e => e = ActorBusyError (Some (to_base (ptr_id g p))) /\ forall q, mbox g' q = mbox g q
  end /\
  actors g' = actors g /\ options g' = options g /\ stopping g' = stopping g /\
  (forall q, refcount g' q = refcount g q) /\ (forall q, a_id <$> (heap g' !! q) = a_id <$> (heap g !! q)).
Proof.
  intros (a & a' & Ha & Hf & ->)%with_actor_go. unfold send in Hf.
  assert (p < length (heap g)) as Hlt by (by eapply lookup_lt_Some).
  destruct (mb_closed a); [done|]. unfold mbox, refcount, ptr_id. simpl.
  destruct (has_room _ a); simplify_eq.
  - split_and!; try done; intros q; destruct (decide (q = p)) as [->|];
      rewrite ?list_lookup_insert_eq by done; rewrite ?list_lookup_insert_ne by done; by rewrite ?Ha.
  - rewrite (list_insert_id (heap g) p a') by done. by rewrite Ha.
Qed.

(** ** A send to one actor *)

Lemma insert_new_fields id g g' p :
  insert_new id g = (g', p) ->
  p = length (heap g) /\ actors g' = <[id := p]> (actors g) /\ options g' = options g /\
  (forall q, mbox g' q = mbox g q) /\ heap g' = heap g ++ [set_holder 2 (newActor id g)].
Proof.
  intros [= <- <-]. simpl. split_and!; try done.
  intros q. unfold mbox. simpl. destruct (decide (q < length (heap g))).
  - by rewrite lookup_app_l.
  - rewrite lookup_app_r, (lookup_ge_None_2 (heap g)) by lia.
    destruct (q - length (heap g)) as [|k]; [done|]. simpl. done.
Qed.

Lemma resolve_found between id allow g g' (p : option nat) (err : option error) (sp : bool) :
  resolveActor between id allow g = Go (g', p, err, sp) -> (forall g, between g = g) ->
  (forall q, mbox g' q = mbox g q) /\
  (err = None -> p = None \/ exists q, p = Some q /\ actors g' !! id = Some q).
Proof.
  intros H Hb. unfold resolveActor in H. destruct (stopping g); [by simplify_eq|].
  assert (forall g1 q, g_hold q g = Go g1 -> (forall r, mbox g1 r = mbox g r) /\ actors g1 = actors g) as Hh.
  { intros g1 q Hq%g_hold_changed. split; [|apply Hq]. intros r. rewrite (oc_mbox _ _ _ _ _ Hq).
    by destruct (decide (r = q)) as [->|]. }
  unfold holdActor, live in H. destruct (actors g !! id) as [q|] eqn:El.
  - destruct (is_closed g q) eqn:Ec; cbn [fbind] in H.
    + destruct allow; [|by simplify_eq]. rewrite Hb in H. unfold spawnActor in H.
      destruct (stopping g); cbn [fbind] in H; [simplify_eq; by auto|]. rewrite El, Ec in H.
      destruct (is_done g q); [|done]. destruct (insert_new id g) as [g2 p2] eqn:En. cbn [fbind] in H.
      apply insert_new_fields in En as (-> & Ea & _ & Em & _). simplify_eq. split; [exact Em|]. intros _. right. eexists.
      split; [done|]. by rewrite Ea, lookup_insert_eq.
    + destruct (g_hold q g) as [g1| |] eqn:Eh; cbn [fbind] in H; simplify_eq.
      destruct (Hh _ _ Eh) as [Hm Ha]. split; [done|]. intros _. right. eexists. by rewrite Ha.
  - cbn [fbind] in H. destruct allow; [|by simplify_eq]. rewrite Hb in H. unfold spawnActor in H.
    destruct (stopping g); cbn [fbind] in H; [simplify_eq; by auto|]. rewrite El in H.
    destruct (insert_new id g) as [g2 p2] eqn:En. cbn [fbind] in H.
    apply insert_new_fields in En as (-> & Ea & _ & Em & _). simplify_eq. split; [exact Em|]. intros _. right. eexists.
    split; [done|]. by rewrite Ea, lookup_insert_eq.
Qed.

(** What [handlerPost] and [handlerCall] do with the message. *)
Lemma handler_send_delivers h m id g g' err sp :
  handler_send (fun g => g) h m id g = Go (g', err, sp) ->
  match err with
  | None => exists p, actors g' !! id = Some p /\ mbox g' p = mbox g p ++ [m] /\
              forall q, q <> p -> mbox g' q = mbox g q
  | Some _ => forall q, mbox g' q = mbox g q
  end.
Proof.
  unfold handler_send. destruct (resolveActor _ _ _ _) as [[[[g1 p] e1] s1]| |] eqn:Er; simpl; try done.
  destruct (resolve_found _ _ _ _ _ _ _ _ Er) as [Hm Hp]; [done|].
  destruct e1 as [e|]; [by intros [= <- <- _]|]. destruct (Hp eq_refl) as [-> | (q & -> & Hq)]; [done|].
  simpl. destruct (g_send q m g1) as [[g2 e2]| |] eqn:Es; simpl; try done.
  destruct (g_unhold q g2) as [g3| |] eqn:Eu; simpl; try done. intros [= <- <- _].
  apply g_send_changed in Es as (Hs & Ha & _). apply g_unhold_changed in Eu.
  assert (forall r, mbox g3 r = mbox g2 r) as Hm3.
  { intros r. rewrite (oc_mbox _ _ _ _ _ Eu). by destruct (decide (r = q)) as [->|]. }
  destruct e2 as [e|].
  - intros r. destruct Hs as [_ Hs]. by rewrite Hm3, Hs, Hm.
  - exists q. split; [by rewrite (oc_map _ _ _ _ _ Eu), Ha|]. split.
    + by rewrite Hm3, Hs, decide_True, Hm by done.
    + intros r Hr. by rewrite Hm3, Hs, decide_False, Hm by done.
Qed.

(** ** Sends to many *)

Definition same_ids g g' : Prop := forall q, a_id <$> (heap g' !! q) = a_id <$> (heap g !! q).

Lemma same_ids_ptr g g' p : same_ids g g' -> ptr_id g' p = ptr_id g p.
Proof. intros H. specialize (H p). unfold ptr_id. destruct (heap g !! p), (heap g' !! p); simplify_eq/=; done. Qed.

Lemma map_ok_same g g' : actors g' = actors g -> same_ids g g' -> map_ok g -> map_ok g'.
Proof.
  intros Ha Hi Hok id p Hp. rewrite Ha in Hp. destruct (Hok id p Hp) as (a & Haa & Hid).
  specialize (Hi p). rewrite Haa in Hi. destruct (heap g' !! p) as [b|]; simplify_eq/=. by exists b.
Qed.

(** [holdActors]: the held pointers and the missing identifiers are those asked for, the
    mailboxes are untouched, the counts grow by one per pointer. *)
Lemma holdActors_spec ids g g' ps nf :
  map_ok g -> holdActors ids g = Go (g', ps, nf) ->
  ((ptr_id g <$> ps) ++ nf) ≡ₚ ids /\ (forall p, p ∈ ps -> actors g !! ptr_id g p = Some p) /\
  actors g' = actors g /\ options g' = options g /\ same_ids g g' /\
  (forall q, mbox g' q = mbox g q) /\
  (forall q, wrap32 (refcount g' q) = wrap32 (refcount g q + Z.of_nat (countb (Nat.eqb q) ps))).
Proof.
  revert g g' ps nf. induction ids as [|id ids IH]; intros g g' ps nf Hok H; simpl in H.
  { simplify_eq. split_and!; try done; [by intros p ?%elem_of_nil|]. intros q. by rewrite Z.add_0_r. }
  unfold live in H. destruct (actors g !! id) as [p|] eqn:Ep.
  - destruct (is_closed g p) eqn:Ec.
    { destruct (holdActors ids g) as [[[g2 ps2] nf2]| |] eqn:E; simpl in H; simplify_eq.
      destruct (IH _ _ _ _ Hok E) as (H1 & H2). split; [|done]. rewrite <- H1. by rewrite Permutation_middle. }
    destruct (g_hold p g) as [g1| |] eqn:Eh; simpl in H; try done.
    destruct (holdActors ids g1) as [[[g2 ps2] nf2]| |] eqn:E; simpl in H; simplify_eq.
    apply g_hold_changed in Eh. pose proof (oc_id _ _ _ _ _ Eh) as Hi.
    destruct (IH _ _ _ _ (map_ok_same _ _ (oc_map _ _ _ _ _ Eh) Hi Hok) E) as (H1 & H0 & H2 & H3 & H4 & H5 & H6).
    split_and!.
    + rewrite fmap_cons. cbn [app]. destruct (Hok id p Ep) as (a & Ha & Hid). unfold ptr_id at 1. rewrite Ha, Hid.
      assert ((ptr_id g <$> ps2) = (ptr_id g1 <$> ps2)) as ->; [|by constructor].
      apply list_fmap_ext. intros i x _. symmetry. by apply same_ids_ptr.
    + intros x [->|Hx]%elem_of_cons.
      * destruct (Hok id p Ep) as (a & Ha & Hid). unfold ptr_id. by rewrite Ha, Hid.
      * rewrite <- (same_ids_ptr _ _ x Hi), <- (oc_map _ _ _ _ _ Eh). by apply H0.
    + by rewrite H2, (oc_map _ _ _ _ _ Eh).
    + by rewrite H3, (oc_opt _ _ _ _ _ Eh).
    + intros q. by rewrite H4, Hi.
    + intros q. rewrite H5, (oc_mbox _ _ _ _ _ Eh). by destruct (decide (q = p)) as [->|].
    + intros q. rewrite H6, (oc_ref _ _ _ _ _ Eh). simpl.
      destruct (decide (q = p)) as [->|Hne].
      * rewrite Nat.eqb_refl, wrap32_add. f_equal. lia.
      * by rewrite (proj2 (Nat.eqb_neq q p)).
  - destruct (holdActors ids g) as [[[g2 ps2] nf2]| |] eqn:E; simpl in H; simplify_eq.
    destruct (IH _ _ _ _ Hok E) as (H1 & H2). split; [|done]. rewrite <- H1. by rewrite Permutation_middle.
Qed.

(** The entries of a result list that report a delivery to [q]. *)
Definition sent_to (q : nat) (ps : list nat) (l : list (IdErr I)) : nat :=
  countb (fun px => (px.1 =? q) && match IErr px.2 with None => true | Some _ => false end) (zip ps l).

Lemma send_each_spec ps m g g' l :
  send_each ps m g = Go (g', l) ->
  (Id <$> l) = (ptr_id g <$> ps) /\ actors g' = actors g /\ same_ids g g' /\
  (forall q, refcount g' q = refcount g q) /\
  (forall x, x ∈ l -> IErr x = None \/ IErr x = Some (ActorBusyError (Some (to_base (Id x))))) /\
  (forall q, mbox g' q = mbox g q ++ replicate (sent_to q ps l) m).
Proof.
  revert g l. induction ps as [|p ps IH]; intros g l H; simpl in H.
  { simplify_eq. split_and!; try done; [by intros x ?%elem_of_nil|]. intros q. by rewrite app_nil_r. }
  destruct (g_send p m g) as [[g1 err]| |] eqn:E; simpl in H; try done.
  destruct (send_each ps m g1) as [[g2 l2]| |] eqn:E2; simpl in H; simplify_eq.
  apply g_send_changed in E as (Hs & Ha & _ & _ & Hr & Hi).
  destruct (IH _ _ E2) as (H1 & H2 & H3 & H4 & H5 & H6). split_and!.
  - rewrite !fmap_cons, H1. cbn [Id]. f_equal. apply list_fmap_ext. intros i x _. by apply same_ids_ptr.
  - by rewrite H2.
  - intros q. by rewrite H3, Hi.
  - intros q. by rewrite H4, Hr.
  - intros x [->|Hx]%elem_of_cons; [|by apply H5]. simpl. destruct err as [e|]; [|by left].
    right. destruct Hs as [-> _]. done.
  - intros q. rewrite H6. unfold sent_to. simpl. destruct err as [e|].
    + destruct Hs as [_ Hs]. by rewrite Hs, andb_false_r.
    + rewrite Hs. destruct (decide (q = p)) as [->|Hne].
      * by rewrite Nat.eqb_refl, <- app_assoc.
      * by rewrite (proj2 (Nat.eqb_neq p q)).
Qed.

Lemma unhold_all_spec ps g g' :
  unhold_all ps g = Go g' ->
  actors g' = actors g /\ same_ids g g' /\ (forall q, mbox g' q = mbox g q) /\
  (forall q, wrap32 (refcount g' q) = wrap32 (refcount g q - Z.of_nat (countb (Nat.eqb q) ps))).
Proof.
  revert g. induction ps as [|p ps IH]; intros g H; simpl in H.
  { simplify_eq. split_and!; try done. intros q. by rewrite Z.sub_0_r. }
  destruct (g_unhold p g) as [g1| |] eqn:E; simpl in H; try done.
  apply g_unhold_changed in E. destruct (IH _ H) as (H1 & H2 & H3 & H4). split_and!.
  - by rewrite H1, (oc_map _ _ _ _ _ E).
  - intros q. by rewrite H2, (oc_id _ _ _ _ _ E).
  - intros q. rewrite H3, (oc_mbox _ _ _ _ _ E). by destruct (decide (q = p)) as [->|].
  - intros q. rewrite H4, (oc_ref _ _ _ _ _ E). simpl. destruct (decide (q = p)) as [->|Hne].
    + rewrite Nat.eqb_refl, <- Z.add_opp_r, wrap32_add. f_equal. lia.
    + by rewrite (proj2 (Nat.eqb_neq q p)).
Qed.

Lemma multicast_inv ids m g g' l :
  map_ok g -> multicast ids m g = Go (g', (l, None)) ->
  exists g1 g2 ps nf l1,
    holdActors ids g = Go (g1, ps, nf) /\ send_each ps m g1 = Go (g2, l1) /\ unhold_all ps g2 = Go g' /\
    l = l1 ++ (not_found <$> nf).
Proof.
  intros Hok H. unfold multicast in H. destruct (stopping g); [done|].
  destruct (holdActors ids g) as [[[g1 ps] nf]| |]; simpl in H; try done.
  destruct (send_each ps m g1) as [[g2 l1]| |] eqn:E2; simpl in H; try done.
  destruct (unhold_all ps g2) as [g3| |] eqn:E3; simpl in H; simplify_eq. by eexists _, _, _, _, _.
Qed.

Lemma sent_to_id g q id ps (l : list (IdErr I)) :
  actors g !! id = Some q -> ptr_id g q = id ->
  (forall p, p ∈ ps -> actors g !! ptr_id g p = Some p) -> (Id <$> l) = (ptr_id g <$> ps) ->
  sent_to q ps l =
  countb (fun x => bool_decide (Id x = id) && match IErr x with None => true | Some _ => false end) l.
Proof.
  intros Hq Hid. revert l. induction ps as [|p ps IH]; intros [|x l] Hps Hl; try discriminate; [done|].
  rewrite !fmap_cons in Hl. injection Hl as Hx Hl.
  unfold sent_to. simpl. unfold sent_to in IH. rewrite IH; [|intros y Hy; apply Hps; by apply list_elem_of_further|done].
  assert ((p =? q) = bool_decide (Id x = id)) as ->; [|done].
  rewrite Hx. specialize (Hps p ltac:(by apply list_elem_of_here)).
  destruct (Nat.eqb_spec p q) as [->|Hne]; [by rewrite bool_decide_true|].
  rewrite bool_decide_false; [done|]. congruence.
Qed.

(** A multicast answers for every identifier once, and truthfully: the identifiers of
    the result are those asked for; each entry is a delivery, "busy", or "not found"; the
    mailbox of each actor grew by exactly the deliveries reported for it, and every
    reference taken is given back. *)
Theorem multicast_exact ids m g g' l :
  map_ok g -> multicast ids m g = Go (g', (l, None)) ->
  (Id <$> l) ≡ₚ ids /\
  (forall x, x ∈ l -> IErr x = None \/ IErr x = Some (ActorBusyError (Some (to_base (Id x)))) \/
     IErr x = Some (ActorNotFoundError (Some (to_base (Id x))))) /\
  (forall id p, actors g !! id = Some p -> mbox g' p = mbox g p ++
     replicate (countb (fun x => bool_decide (Id x = id) && match IErr x with None => true | Some _ => false end) l) m) /\
  (forall p, wrap32 (refcount g' p) = wrap32 (refcount g p)).
Proof.
  intros Hok (g1 & g2 & ps & nf & l1 & E1 & E2 & E3 & ->)%multicast_inv; [|done].
  destruct (holdActors_spec _ _ _ _ _ Hok E1) as (A1 & A2 & A3 & _ & A5 & A6 & A7).
  destruct (send_each_spec _ _ _ _ _ E2) as (B1 & _ & _ & B4 & B5 & B6).
  destruct (unhold_all_spec _ _ _ E3) as (_ & _ & C3 & C4).
  assert ((ptr_id g1 <$> ps) = (ptr_id g <$> ps)) as Ep.
  { apply list_fmap_ext. intros i x _. by apply same_ids_ptr. }
  assert ((Id <$> (not_found <$> nf)) = nf) as Enf by (rewrite <- list_fmap_compose; apply list_fmap_id).
  split; [|split; [|split]].
  - by rewrite fmap_app, B1, Ep, Enf.
  - intros x [Hx|Hx]%elem_of_app; [destruct (B5 x Hx); auto|].
    apply list_elem_of_fmap in Hx as (id & -> & _). by right; right.
  - intros id p Hp. rewrite C3, B6, A6. f_equal. f_equal.
    destruct (Hok id p Hp) as (a & Ha & Hid).
    rewrite (sent_to_id g p id ps l1), countb_app; [|done|by unfold ptr_id; rewrite Ha|done|by rewrite B1].
    rewrite (proj2 (countb_zero _ (not_found <$> nf))); [lia|].
    intros x (i & -> & _)%list_elem_of_fmap. simpl. by rewrite andb_false_r.
  - intros p. rewrite C4, <- Z.add_opp_r, B4.
    rewrite (wrap32_cong _ _ _ (A7 p)). f_equal. lia.
Qed.

(** A post tells the truth: when [handlerPost] or [handlerCall] returns no error, the
    message is the last one in the mailbox of the actor the group has under the
    identifier (spawned if need be) and no other mailbox changed; when it returns an
    error, no mailbox changed. *)
Theorem post_exact h m id g g' err sp :
  handler_send (fun g => g) h m id g = Go (g', err, sp) ->
  match err with
  | None => exists p, actors g' !! id = Some p /\ mbox g' p = mbox g p ++ [m] /\
              forall q, q <> p -> mbox g' q = mbox g q
  | Some _ => forall q, mbox g' q = mbox g q
  end.
Proof. apply handler_send_delivers. Qed.
End spec.
