(* ===== verification/Lifecycle.v ===== *)
(** * The life of actors under concurrency

    The goroutines of a group as a step relation: callers that look actors up, spawn,
    send, release and close (the operations of Group, each under the lock of the group),
    and the [run] loop of every actor (actor/actor.go), one transition per receive, round,
    or lock. [wlock] is a caller inside [spawnActor] that holds the write lock while it
    waits for an old actor. *)

From S2P Require Import Prelude ActorTypes Control Registry Runtime RuntimeSpec Group.

Section Lifecycle.
Context {W I Q R : Type} `{!ActorId I} `{!Poster W I Q R}.
Context {Hook CB St T U F SF : Type} `{!Requests T U I} `{!UserCode W I Q Hook CB St U R F SF}.
Abbreviation ctx := (ActorContext I Q Hook CB St).
Abbreviation msg := (invokable T U F CB).
Abbreviation group := (group I CB T U F SF).
Abbreviation actor := (actorRuntime I CB T U F).

(** ** The goroutine of an actor

    Where [run] is: the top of [MainLoop], the receives (a blocked one has an empty
    buffer), the round over the buffer, the check after it, the code after the loop,
    the drain of the closed mailbox, between the two deferred calls, returned. *)
Inductive pc :=
  | RTop (buf : list msg)
  | RPump (buf : list msg)
  | RBatch (buf : list msg)
  | RAfter
  | RExit (buf : list msg)
  | RDrain
  | RLeave
  | RGone.

(** [gctx] is the context ([ctx] of [run]), kept as it was once the loop is left;
    [accepted] and [taken] record the messages sent to the mailbox and received from it. *)
Record gor := mkGor { at_ : pc; gctx : option ctx; accepted : list msg; taken : list msg }.

Definition new_gor : gor := mkGor (RTop []) None [] [].
Definition go_to q r := mkGor q (gctx r) (accepted r) (taken r).
Definition go_ctx q c r := mkGor q c (accepted r) (taken r).
Definition take_msgs l r := mkGor (at_ r) (gctx r) (accepted r) (taken r ++ l).
Definition accept m r := mkGor (at_ r) (gctx r) (accepted r ++ [m]) (taken r).

Record sys := mkSys {
  sg : group;
  gors : list gor;
  held : list nat;
  wlock : option (I * nat);
}.

Definition set_idle n (g : group) : group := set_actors (actors g) n g.
Definition upd (p : nat) (f : actor -> actor) (g : group) : group :=
  set_heap (alter f p (heap g)) g.

(** Removes one reference from those held. *)
Fixpoint remove1 (p : nat) (l : list nat) : list nat :=
  match l with
  | [] => []
  | q :: l => if (p =? q)%nat then l else q :: remove1 p l
  end.

Inductive step : sys -> sys -> Prop :=
  (* callers *)
  | step_hold g rs hs id g' p :
      holdActor id g = Go (g', Some p) ->
      step (mkSys g rs hs None) (mkSys g' rs (p :: hs) None)
  | step_spawn_old g rs hs id g' p :
      spawnActor id g = Go (g', Some p, false) ->
      step (mkSys g rs hs None) (mkSys g' rs (p :: hs) None)
  | step_spawn_new g rs hs id g' p :
      spawnActor id g = Go (g', Some p, true) ->
      step (mkSys g rs hs None) (mkSys g' (rs ++ [new_gor]) (p :: hs) None)
  | step_spawn_wait g rs hs id old :
      spawnActor id g = Blocked -> actors g !! id = Some old ->
      step (mkSys g rs hs None) (mkSys g rs hs (Some (id, old)))
  | step_spawn_resume g rs hs id old :
      is_done g old = true ->
      step (mkSys g rs hs (Some (id, old)))
           (mkSys (insert_new id g).1 (rs ++ [new_gor]) ((insert_new id g).2 :: hs) None)
  | step_send g rs hs l p m g' :
      p ∈ hs -> g_send p m g = Go (g', None) ->
      step (mkSys g rs hs l) (mkSys g' (alter (accept m) p rs) hs l)
  | step_release g rs hs l p g' :
      p ∈ hs -> g_unhold p g = Go g' ->
      step (mkSys g rs hs l) (mkSys g' rs (remove1 p hs) l)
  | step_close g rs hs id g' :
      closeActor id g = Go (g', true) ->
      step (mkSys g rs hs None) (mkSys g' rs hs None)
  | step_kill g rs hs l p g' :
      on_actor p kill g = Go g' ->
      step (mkSys g rs hs l) (mkSys g' rs hs l)
  | step_stop g rs hs l :
      step (mkSys g rs hs l) (mkSys (set_heap (set_cancel <$> heap g) (set_stopping g)) rs hs l)
  (* the goroutine of an actor *)
  | run_top_closed g rs hs l p r a buf :
      rs !! p = Some r -> heap g !! p = Some a -> at_ r = RTop buf -> closed a = true ->
      step (mkSys g rs hs l) (mkSys g (<[p := go_to (RExit buf) r]> rs) hs l)
  | run_top_open g rs hs l p r a buf :
      rs !! p = Some r -> heap g !! p = Some a -> at_ r = RTop buf -> closed a = false ->
      step (mkSys g rs hs l) (mkSys g (<[p := go_to (RPump buf) r]> rs) hs l)
  | run_receive g rs hs l p r a buf m ms :
      rs !! p = Some r -> heap g !! p = Some a -> at_ r = RPump buf -> mailbox a = m :: ms ->
      step (mkSys g rs hs l)
           (mkSys (upd p (fun a => set_waiting false (set_mailbox ms a)) g)
                  (<[p := take_msgs [m] (go_to (RPump (buf ++ [m])) r)]> rs) hs l)
  | run_wait g rs hs l p r a :
      rs !! p = Some r -> heap g !! p = Some a -> at_ r = RPump [] -> mailbox a = [] ->
      mb_closed a = false ->
      step (mkSys g rs hs l) (mkSys (upd p (set_waiting true) g) rs hs l)
  | run_pumped g rs hs l p r a m buf :
      rs !! p = Some r -> heap g !! p = Some a -> at_ r = RPump (m :: buf) -> mailbox a = [] ->
      step (mkSys g rs hs l) (mkSys g (<[p := go_to (RBatch (m :: buf)) r]> rs) hs l)
  | run_no_more g rs hs l p r a :
      rs !! p = Some r -> heap g !! p = Some a -> at_ r = RPump [] -> mailbox a = [] ->
      mb_closed a = true ->
      step (mkSys g rs hs l) (mkSys g (<[p := go_to (RExit []) r]> rs) hs l)
  | run_batch g rs hs l p r a buf (b b1 : bstate W R) cl left_ c1 :
      rs !! p = Some r -> heap g !! p = Some a -> at_ r = RBatch buf ->
      bidle b = idle g -> (answerable b buf \/ forall w, cl w = true) ->
      run_buf (a_id a) (registry g) (onSpawn g) cl (2 * length buf + 2) buf 0 (gctx r) b = Some (Go (b1, left_, c1)) ->
      (left_ <> None -> closed a = true) ->
      step (mkSys g rs hs l)
           (mkSys (set_idle (bidle b1) g)
                  (<[p := go_ctx match left_ with None => RAfter | Some buf => RExit buf end c1 r]> rs) hs l)
  | run_stay g rs hs l p r c :
      rs !! p = Some r -> at_ r = RAfter -> gctx r = Some c ->
      step (mkSys g rs hs l) (mkSys g (<[p := go_to (RTop []) r]> rs) hs l)
  | run_quit g rs hs p r g' buf ok :
      rs !! p = Some r -> at_ r = RAfter -> gctx r = None ->
      actorQuit p [] g = Go (g', (buf, ok)) ->
      step (mkSys g rs hs None)
           (mkSys g' (<[p := take_msgs buf (go_to (if ok then RExit [] else RTop buf) r)]> rs) hs None)
  | run_exited g rs hs l p r buf :
      rs !! p = Some r -> at_ r = RExit buf ->
      step (mkSys g rs hs l)
           (mkSys (set_idle match gctx r with None => wrap32 (idle g - 1) | Some _ => idle g end g)
                  (<[p := go_to RDrain r]> rs) hs l)
  | run_drain g rs hs l p r a m ms :
      rs !! p = Some r -> heap g !! p = Some a -> at_ r = RDrain -> mailbox a = m :: ms ->
      step (mkSys g rs hs l)
           (mkSys (upd p (set_mailbox ms) g) (<[p := take_msgs [m] r]> rs) hs l)
  | run_done g rs hs l p r a :
      rs !! p = Some r -> heap g !! p = Some a -> at_ r = RDrain -> mailbox a = [] ->
      mb_closed a = true ->
      step (mkSys g rs hs l) (mkSys (upd p set_done g) (<[p := go_to RLeave r]> rs) hs l)
  | run_remove g rs hs p r :
      rs !! p = Some r -> at_ r = RLeave ->
      step (mkSys g rs hs None) (mkSys (removeActor p g) (<[p := go_to RGone r]> rs) hs None).

(** A group as [newGroup] makes it, with nobody in it. *)
Definition initial (s : sys) : Prop :=
  exists canceled reg sp o, s = mkSys (newGroup canceled reg sp o) [] [] None.

(** ** The invariant *)

Definition exiting (q : pc) : bool :=
  match q with RExit _ | RDrain | RLeave | RGone => true | _ => false end.
Definition left_pc (q : pc) : bool := match q with RLeave | RGone => true | _ => false end.
Definition drained_pc (q : pc) : bool := match q with RDrain | RLeave | RGone => true | _ => false end.

(** What the goroutine stands for in the idle count. *)
Definition contrib (r : gor) : Z :=
  if drained_pc (at_ r) then idle_leak (gctx r) else idles (gctx r).

Definition sum_contrib (rs : list gor) : Z := foldr (fun r n => contrib r + n)%Z 0%Z rs.

Definition refs (p : nat) (hs : list nat) : nat := countb (Nat.eqb p) hs.

(** One actor with its goroutine; [present] says that it is its group's entry. *)
Record actor_ok (present : bool) (k : nat) (a : actor) (r : gor) : Prop := {
  ok_holder : holder a = ((if closed a then 0 else 1) + Z.of_nat k)%Z;
  ok_mb : mb_closed a = bool_decide (holder a = 0)%Z;
  ok_done : done_ a = left_pc (at_ r);
  ok_exit : exiting (at_ r) = true -> closed a = true;
  ok_left : left_pc (at_ r) = true -> mailbox a = [] /\ holder a = 0%Z;
  ok_log : accepted r = taken r ++ mailbox a;
  ok_present : done_ a = false -> present = true;
  ok_gone : at_ r = RGone -> present = false;
}.

Definition present (g : group) (p : nat) (a : actor) : bool := bool_decide (actors g !! a_id a = Some p).

(** [n] bounds the references held, so that the counters do not wrap. *)
Record sys_ok (n : nat) (s : sys) : Prop := {
  ok_len : length (gors s) = length (heap (sg s));
  ok_bound : length (held s) <= n;
  ok_held : forall p, p ∈ held s -> p < length (heap (sg s));
  ok_map : forall id p, actors (sg s) !! id = Some p ->
    exists a, heap (sg s) !! p = Some a /\ a_id a = id;
  ok_actor : forall p a r, heap (sg s) !! p = Some a -> gors s !! p = Some r ->
    actor_ok (present (sg s) p a) (refs p (held s)) a r;
  ok_idle : wrap32 (idle (sg s)) = wrap32 (sum_contrib (gors s));
  ok_wlock : forall id old, wlock s = Some (id, old) -> actors (sg s) !! id = Some old /\ is_closed (sg s) old = true;
}.
End Lifecycle.
