(* ===== verification/LifecycleSpec.v ===== *)
(** * Properties of the life of actors

    No operation sends on or closes a closed mailbox, an identifier has at most one
    goroutine at a time, no accepted message is lost, the idle count is exact, and a
    closed actor whose references are released ends. *)

From S2P Require Import Prelude ActorTypes Control Registry Runtime RuntimeSpec Group Lifecycle.

Section spec.
Context {W I Q R : Type} `{!ActorId I} `{!Poster W I Q R}.
Context {Hook CB St T U F SF : Type} `{!Requests T U I} `{!UserCode W I Q Hook CB St U R F SF}.
Abbreviation ctx := (ActorContext I Q Hook CB St).
Abbreviation msg := (invokable T U F CB).
Abbreviation group := (group I CB T U F SF).
Abbreviation actor := (actorRuntime I CB T U F).
Abbreviation gor := (gor (I := I) (Q := Q) (Hook := Hook) (CB := CB) (St := St) (T := T) (U := U) (F := F)).
Abbreviation sys := (sys (I := I) (Q := Q) (Hook := Hook) (CB := CB) (St := St) (T := T) (U := U) (F := F) (SF := SF)).
Abbreviation step := (step (W := W) (I := I) (Q := Q) (R := R) (Hook := Hook) (CB := CB) (St := St) (T := T) (U := U) (F := F) (SF := SF)).
Implicit Types (a : actor) (r : gor) (rs : list gor) (g : group) (s : sys) (p : nat) (k : nat).

(** ** One actor *)

Lemma wrap32_holder (z : Z) : (- 1 <= z < 2 ^ 31)%Z -> wrap32 z = z.
Proof. intros H. apply wrap32_small. lia. Qed.

Lemma hold_ok b k a r :
  actor_ok b k a r -> closed a = false -> (Z.of_nat k + 2 < 2 ^ 31)%Z -> actor_ok b (S k) (hold a) r.
Proof.
  intros [H1 H2 H3 H4 H5 H6 H7 H8] Hc Hk. rewrite Hc in *.
  assert (holder (hold a) = 1 + Z.of_nat (S k))%Z as Hh.
  { unfold hold. simpl. rewrite wrap32_holder; lia. }
  split; simpl; try done.
  - rewrite Hc. exact Hh.
  - rewrite H2. change (wrap32 (holder a + 1)) with (holder (hold a)). rewrite Hh.
    rewrite !bool_decide_eq_false_2; [done|lia|lia].
  - by intros ?%H4.
  - intros Hl. exfalso. assert (exiting (at_ r) = true) as ?%H4; [by destruct (at_ r)|done].
Qed.

Lemma unhold_ok b k a r :
  actor_ok b (S k) a r -> (Z.of_nat k + 2 < 2 ^ 31)%Z ->
  exists a', unhold a = Go a' /\ actor_ok b k a' r /\ a_id a' = a_id a /\ closed a' = closed a.
Proof.
  intros [H1 H2 H3 H4 H5 H6 H7 H8] Hk.
  assert (wrap32 (holder a - 1) = (if closed a then 0 else 1) + Z.of_nat k)%Z as Hh.
  { rewrite wrap32_holder; destruct (closed a); lia. }
  assert (mb_closed a = false) as Hm by (rewrite H2; apply bool_decide_eq_false_2; destruct (closed a); lia).
  assert (left_pc (at_ r) = false) as Hl.
  { destruct (left_pc (at_ r)) eqn:E; [|done]. destruct (H5 eq_refl). destruct (closed a); lia. }
  unfold unhold. simpl. rewrite Hm.
  destruct (_ =? _)%Z eqn:E; (eexists; split; [reflexivity|]; split; [|done]); split; simpl; try done;
    rewrite ?Hl; try done.
  - symmetry. apply bool_decide_eq_true_2. lia.
  - rewrite Hm. symmetry. apply bool_decide_eq_false_2. lia.
Qed.

Lemma send_ok cap m b k a r :
  actor_ok b (S k) a r ->
  send cap m a <> Crashed /\
  forall a', send cap m a = Go (a', None) -> actor_ok b (S k) a' (accept m r) /\ a_id a' = a_id a /\ closed a' = closed a.
Proof.
  intros [H1 H2 H3 H4 H5 H6 H7 H8].
  assert (mb_closed a = false) as Hm by (rewrite H2; apply bool_decide_eq_false_2; destruct (closed a); lia).
  unfold send. rewrite Hm. destruct (has_room cap a); split; try done.
  intros a' [= <-]. split; [|done]. split; simpl; try done.
  - intros Hl. destruct (H5 Hl). destruct (closed a); lia.
  - by rewrite H6, app_assoc.
Qed.

Lemma set_closed_ok b k a r : actor_ok b k a r -> closed a = false -> actor_ok b (S k) (set_closed a) r.
Proof.
  intros [H1 H2 H3 H4 H5 H6 H7 H8] Hc. rewrite Hc in *. split; simpl; try done. lia.
Qed.

Lemma requestClose_ok b k a r :
  actor_ok b k a r -> (Z.of_nat k + 2 < 2 ^ 31)%Z ->
  exists a', requestClose a = Go a' /\ actor_ok b k a' r /\ a_id a' = a_id a /\ closed a' = true.
Proof.
  intros H Hk. unfold requestClose. destruct (closed a) eqn:Hc; [by exists a|].
  destruct (unhold_ok b k (set_closed a) r) as (a' & -> & H1 & H2 & H3); [by apply set_closed_ok|done|].
  by exists a'.
Qed.

Lemma set_cancel_ok b k a r : actor_ok b k a r -> actor_ok b k (set_cancel a) r.
Proof. by intros []. Qed.

Lemma kill_ok b k a r :
  actor_ok b k a r -> (Z.of_nat k + 2 < 2 ^ 31)%Z ->
  exists a', kill a = Go a' /\ actor_ok b k a' r /\ a_id a' = a_id a /\ closed a' = true.
Proof. intros H Hk. by apply (requestClose_ok b k (set_cancel a) r); [apply set_cancel_ok|]. Qed.

(** ** One actor within its group *)

Lemma sum_contrib_insert (rs : list gor) p r r' :
  rs !! p = Some r -> sum_contrib (<[p := r']> rs) = (sum_contrib rs + contrib r' - contrib r)%Z.
Proof.
  revert p. induction rs as [|q rs IH]; intros [|p] H; simplify_eq/=; [lia|].
  rewrite (IH p H). lia.
Qed.

Lemma sum_contrib_app (rs rs' : list gor) : sum_contrib (rs ++ rs') = (sum_contrib rs + sum_contrib rs')%Z.
Proof. induction rs as [|q rs IH]; simpl; [done|]. rewrite IH. lia. Qed.

Lemma refs_cons q p hs : refs q (p :: hs) = (if (q =? p)%nat then 1 else 0) + refs q hs.
Proof. done. Qed.

Lemma refs_remove1 q p hs :
  p ∈ hs -> (refs q (remove1 p hs) + if (q =? p)%nat then 1 else 0) = refs q hs.
Proof.
  unfold refs. induction hs as [|x hs IH]; simpl; [by intros ?%elem_of_nil|]. intros H.
  destruct (p =? x)%nat eqn:E; [apply Nat.eqb_eq in E as <-; lia|].
  apply Nat.eqb_neq in E. apply elem_of_cons in H as [->|H]; [done|].
  simpl. specialize (IH H). lia.
Qed.

Lemma remove1_subset p q hs : q ∈ remove1 p hs -> q ∈ hs.
Proof.
  induction hs as [|x hs IH]; simpl; [done|]. case_match; [intros; by apply list_elem_of_further|].
  intros [->|H1]%elem_of_cons; [by apply list_elem_of_here|apply list_elem_of_further; auto].
Qed.

Lemma remove1_length p hs : length (remove1 p hs) <= length hs.
Proof. induction hs as [|x hs IH]; simpl; [done|]. case_match; simpl; lia. Qed.

Lemma refs_length p hs : refs p hs <= length hs.
Proof. unfold refs. induction hs as [|x hs IH]; simpl; [done|]. case_match; lia. Qed.

Lemma refs_pos p hs : p ∈ hs -> exists k, refs p hs = S k.
Proof.
  intros H. pose proof (refs_remove1 p p hs H) as E. rewrite Nat.eqb_refl in E.
  exists (refs p (remove1 p hs)). lia.
Qed.

(** Replacing one actor and its goroutine. *)
Lemma sys_ok_local n n' g rs hs l p a a' r r' hs' i :
  sys_ok n (mkSys g rs hs l) -> heap g !! p = Some a -> rs !! p = Some r ->
  a_id a' = a_id a -> (closed a = true -> closed a' = true) ->
  length hs' <= n' -> (forall q, q ∈ hs' -> q ∈ hs \/ q = p) ->
  (forall q, q <> p -> refs q hs' = refs q hs) ->
  (actor_ok (present g p a) (refs p hs) a r -> actor_ok (present g p a) (refs p hs') a' r') ->
  wrap32 i = wrap32 (idle g + contrib r' - contrib r) ->
  sys_ok n' (mkSys (set_idle i (set_heap (<[p := a']> (heap g)) g)) (<[p := r']> rs) hs' l).
Proof.
  intros [H1 H2 H3 H4 H5 H6 H7] Ha Hr Hid Hcl Hl Hin Hrefs Hok Hi. cbn [sg gors held wlock] in *.
  split; cbn [sg gors held wlock heap actors idle set_idle set_actors set_heap].
  - by rewrite !length_insert.
  - done.
  - intros q Hq. rewrite length_insert. apply Hin in Hq as [Hq|Hq]; [by apply H3|].
    subst q. by eapply lookup_lt_Some.
  - intros id q Hq. destruct (H4 id q Hq) as (b & Hb & Hbi).
    destruct (decide (q = p)) as [->|Hne].
    + exists a'. rewrite list_lookup_insert_eq by (by eapply lookup_lt_Some). split; [done|].
      rewrite Hid. by simplify_eq.
    + exists b. by rewrite list_lookup_insert_ne.
  - intros q b rb Hb Hrb. destruct (decide (q = p)) as [->|Hne].
    + rewrite list_lookup_insert_eq in Hb by (by eapply lookup_lt_Some).
      rewrite list_lookup_insert_eq in Hrb by (by eapply lookup_lt_Some). simplify_eq.
      unfold present. simpl. rewrite Hid. apply Hok. by apply H5.
    + rewrite list_lookup_insert_ne in Hb by done. rewrite list_lookup_insert_ne in Hrb by done.
      rewrite Hrefs by done. by apply H5.
  - rewrite (sum_contrib_insert _ _ _ _ Hr), Hi.
    apply (wrap32_cong _ _ (contrib r' - contrib r)) in H6.
    rewrite !Z.add_sub_assoc in H6. exact H6.
  - intros id old Hw. destruct (H7 id old Hw) as [? Ho]. split; [done|].
    unfold is_closed in *. simpl. destruct (decide (old = p)) as [->|Hne].
    + rewrite list_lookup_insert_eq by (by eapply lookup_lt_Some). rewrite Ha in Ho. auto.
    + by rewrite list_lookup_insert_ne.
Qed.

Lemma set_heap_id g : set_heap (heap g) g = g.
Proof. by destruct g. Qed.

Lemma set_idle_id g : set_idle (idle g) g = g.
Proof. by destruct g. Qed.

Lemma with_actor_inv {X} p (f : actor -> flow (actor * X)) g g' x :
  with_actor p f g = Go (g', x) ->
  exists a a', heap g !! p = Some a /\ f a = Go (a', x) /\ g' = set_heap (<[p := a']> (heap g)) g.
Proof.
  unfold with_actor. destruct (heap g !! p) as [a|]; [|done].
  destruct (f a) as [[a' y]| |] eqn:E; simpl; try done. intros [= <- <-]. by exists a, a'.
Qed.

Lemma on_actor_inv p (f : actor -> flow actor) g g' :
  on_actor p f g = Go g' ->
  exists a a', heap g !! p = Some a /\ f a = Go a' /\ g' = set_heap (<[p := a']> (heap g)) g.
Proof.
  unfold on_actor. destruct (with_actor _ _ _) as [[g1 []]| |] eqn:E; simpl; try done.
  intros [= <-]. apply with_actor_inv in E as (a & a' & H1 & H2 & ->).
  exists a, a'. destruct (f a); simpl in H2; try done. by simplify_eq.
Qed.

Lemma gor_of n s p a : sys_ok n s -> heap (sg s) !! p = Some a -> exists r, gors s !! p = Some r.
Proof.
  intros H Ha. apply lookup_lt_is_Some_2. rewrite (ok_len _ _ H). by eapply lookup_lt_Some.
Qed.

(** The change of one actor with nothing else, in the form the steps have. *)
Lemma local_step n n' g rs hs l p a a' r r' hs' s' :
  sys_ok n (mkSys g rs hs l) -> heap g !! p = Some a -> rs !! p = Some r ->
  a_id a' = a_id a -> (closed a = true -> closed a' = true) -> contrib r' = contrib r ->
  length hs' <= n' -> (forall q, q ∈ hs' -> q ∈ hs \/ q = p) ->
  (forall q, q <> p -> refs q hs' = refs q hs) ->
  (actor_ok (present g p a) (refs p hs) a r -> actor_ok (present g p a) (refs p hs') a' r') ->
  s' = mkSys (set_heap (<[p := a']> (heap g)) g) (<[p := r']> rs) hs' l ->
  sys_ok n' s'.
Proof.
  intros Hs Ha Hr Hid Hcl Hc Hl Hin Hrefs Hok ->.
  apply (sys_ok_local n n' g rs hs l p a a' r r' hs' (idle g)); try done. f_equal. lia.
Qed.

(** A change of an actor by its callers: the references held change at [p] only. *)
Lemma caller_step n n' g rs hs l p a a' hs' s' :
  sys_ok n (mkSys g rs hs l) -> heap g !! p = Some a ->
  a_id a' = a_id a -> (closed a = true -> closed a' = true) ->
  length hs' <= n' -> (forall q, q ∈ hs' -> q ∈ hs \/ q = p) ->
  (forall q, q <> p -> refs q hs' = refs q hs) ->
  (forall r b, actor_ok b (refs p hs) a r -> actor_ok b (refs p hs') a' r) ->
  s' = mkSys (set_heap (<[p := a']> (heap g)) g) rs hs' l ->
  sys_ok n' s'.
Proof.
  intros Hs Ha Hid Hcl Hl Hin Hrefs Hok ->.
  destruct (gor_of _ _ _ _ Hs Ha) as [r Hr]. simpl in Hr.
  eapply (local_step n n' g rs hs l p a a' r r hs'); try done; [by apply Hok|].
  by rewrite (list_insert_id rs p r).
Qed.

Lemma hold_step n g rs hs l p a :
  sys_ok n (mkSys g rs hs l) -> (Z.of_nat n + 2 < 2 ^ 31)%Z ->
  heap g !! p = Some a -> closed a = false ->
  sys_ok (S n) (mkSys (set_heap (<[p := hold a]> (heap g)) g) rs (p :: hs) l).
Proof.
  intros Hs Hn Ha Hc. pose proof (ok_bound _ _ Hs) as Hb. simpl in Hb.
  pose proof (refs_length p hs).
  eapply (caller_step n (S n) g rs hs l p a (hold a) (p :: hs)); try done.
  - simpl. lia.
  - intros q [->|Hq]%elem_of_cons; auto.
  - intros q Hq. rewrite refs_cons. rewrite (proj2 (Nat.eqb_neq q p)) by done. done.
  - intros r b Hr. rewrite refs_cons, Nat.eqb_refl. apply hold_ok; [done|done|lia].
Qed.

Lemma live_inv n g rs hs l id p :
  sys_ok n (mkSys g rs hs l) -> live g id = Some p ->
  actors g !! id = Some p /\ exists a, heap g !! p = Some a /\ closed a = false.
Proof.
  intros Hs. unfold live. destruct (actors g !! id) as [q|] eqn:E; [|done].
  destruct (ok_map _ _ Hs id q E) as (a & Ha & _). simpl in Ha.
  unfold is_closed. rewrite Ha. destruct (closed a) eqn:Hc; [done|]. intros [= <-]. by eauto.
Qed.

Lemma g_hold_inv p g g' : g_hold p g = Go g' ->
  exists a, heap g !! p = Some a /\ g' = set_heap (<[p := hold a]> (heap g)) g.
Proof. intros (a & a' & Ha & [= <-] & ->)%on_actor_inv. by exists a. Qed.

(** A new actor under an identifier that has none, or one that is done. *)
Lemma insert_new_ok n g rs hs l id :
  sys_ok n (mkSys g rs hs l) ->
  (forall old, actors g !! id = Some old -> is_done g old = true) ->
  sys_ok (S n) (mkSys (insert_new id g).1 (rs ++ [new_gor]) ((insert_new id g).2 :: hs) None).
Proof.
  intros [H1 H2 H3 H4 H5 H6 H7] Hold. cbn [sg gors held wlock] in *.
  assert (refs (length (heap g)) hs = 0) as Hz.
  { unfold refs. apply countb_zero. intros q Hq. apply Nat.eqb_neq. apply H3 in Hq. lia. }
  split; cbn [sg gors held wlock heap actors idle set_heap set_actors insert_new fst snd].
  - rewrite !length_app. simpl. lia.
  - simpl. lia.
  - intros q Hq. rewrite length_app. simpl. apply elem_of_cons in Hq as [->|Hq]; [lia|]. apply H3 in Hq. lia.
  - intros id' q Hq. apply lookup_insert_Some in Hq as [[<- <-]|[Hne Hq]].
    + eexists. rewrite list_lookup_middle by done. by split.
    + destruct (H4 id' q Hq) as (a & Ha & Hid). exists a. by rewrite (lookup_app_l_Some _ _ _ _ Ha).
  - intros q a r Ha Hr.
    destruct (decide (q = length (heap g))) as [->|Hne].
    + rewrite list_lookup_middle in Ha by done. rewrite <- H1, list_lookup_middle in Hr by done.
      injection Ha as <-. injection Hr as <-. rewrite refs_cons, Nat.eqb_refl, Hz.
      split; simpl; try done. intros _. unfold present. simpl.
      apply bool_decide_eq_true_2. by rewrite lookup_insert_eq.
    + assert (q < length (heap g)) as Hlt.
      { apply lookup_lt_Some in Ha. rewrite length_app in Ha. simpl in Ha. lia. }
      rewrite lookup_app_l in Ha by done. rewrite lookup_app_l in Hr by lia.
      rewrite refs_cons, (proj2 (Nat.eqb_neq _ _)) by done. destruct (H5 q a r Ha Hr) as [G1 G2 G3 G4 G5 G6 G7 G8].
      split; try done; unfold present in *; cbn [actors set_actors].
      * intros Hd. specialize (G7 Hd). apply bool_decide_eq_true in G7. apply bool_decide_eq_true_2.
        rewrite lookup_insert_ne; [done|]. intros Heq. rewrite <- Heq in G7.
        apply Hold in G7. unfold is_done in G7. rewrite Ha in G7. congruence.
      * intros Hg%G8. apply bool_decide_eq_false in Hg. apply bool_decide_eq_false_2.
        intros [[_ ?]|[_ ?]]%lookup_insert_Some; congruence.
  - rewrite sum_contrib_app. simpl. rewrite wrap32_idem. by apply wrap32_cong.
  - done.
Qed.

(** The entry of an actor that is done is taken out. *)
Lemma removeActor_spec n g rs hs l p a :
  sys_ok n (mkSys g rs hs l) -> heap g !! p = Some a ->
  heap (removeActor p g) = heap g /\ idle (removeActor p g) = idle g /\
  forall id q, actors (removeActor p g) !! id = Some q <-> actors g !! id = Some q /\ q <> p.
Proof.
  intros Hs Ha. assert (forall id, actors g !! id = Some p -> id = a_id a) as Hp.
  { intros id Hid. destruct (ok_map _ _ Hs id p Hid) as (b & Hb & <-). simpl in Hb. by simplify_eq. }
  unfold removeActor. rewrite Ha. case_bool_decide as Hb; (split; [done|]; split; [done|]); intros id q; simpl.
  - rewrite lookup_delete_Some. split; intros [H1 H2]; [|by split; [intros <-; congruence|]].
    split; [done|]. intros ->. by rewrite (Hp id) in H1.
  - split; [|by intros []]. intros Hid. split; [done|]. intros ->. by rewrite <- (Hp id Hid) in Hb.
Qed.

Lemma remove_ok n g rs hs p r :
  sys_ok n (mkSys g rs hs None) -> rs !! p = Some r -> at_ r = RLeave ->
  sys_ok n (mkSys (removeActor p g) (<[p := go_to RGone r]> rs) hs None).
Proof.
  intros Hs Hr Hpc. assert (exists a, heap g !! p = Some a) as [a Ha].
  { apply lookup_lt_is_Some_2. pose proof (ok_len _ _ Hs) as Hlen. simpl in Hlen. rewrite <- Hlen.
    by eapply lookup_lt_Some. }
  destruct (removeActor_spec n g rs hs None p a Hs Ha) as (Eh & Ei & Em).
  destruct Hs as [H1 H2 H3 H4 H5 H6 H7].
  split; cbn [sg gors held wlock] in *; rewrite ?Eh, ?Ei; try done.
  - by rewrite length_insert.
  - intros id q [Hq _]%Em. by apply H4.
  - intros q b rb Hb Hrb. unfold present. destruct (decide (q = p)) as [->|Hne].
    + rewrite list_lookup_insert_eq in Hrb by (by eapply lookup_lt_Some). simplify_eq.
      destruct (H5 p a r Ha Hr) as [G1 G2 G3 G4 G5 G6 G7 G8]. rewrite Hpc in *. split; try done.
      * intros Hd. by rewrite G3 in Hd.
      * intros _. apply bool_decide_eq_false_2. by intros []%Em.
    + rewrite list_lookup_insert_ne in Hrb by done.
      destruct (H5 q b rb Hb Hrb) as [G1 G2 G3 G4 G5 G6 G7 G8]. unfold present in *.
      rewrite (bool_decide_ext (actors (removeActor p g) !! a_id b = Some q) (actors g !! a_id b = Some q)).
      { by split. }
      rewrite Em. by split; [intros []|].
  - rewrite (sum_contrib_insert _ _ _ _ Hr), H6. f_equal. unfold contrib. rewrite Hpc. simpl. lia.
Qed.

Lemma stop_ok n g rs hs l :
  sys_ok n (mkSys g rs hs l) ->
  sys_ok n (mkSys (set_heap (set_cancel <$> heap g) (set_stopping g)) rs hs l).
Proof.
  intros [H1 H2 H3 H4 H5 H6 H7]. cbn [sg gors held wlock] in *.
  split; cbn [sg gors held wlock heap actors idle set_heap set_stopping]; try done.
  - by rewrite length_fmap.
  - intros p. rewrite length_fmap. apply H3.
  - intros id p Hp. destruct (H4 id p Hp) as (a & Ha & Hi). exists (set_cancel a).
    by rewrite list_lookup_fmap, Ha.
  - intros p a r Ha Hr. rewrite list_lookup_fmap in Ha. destruct (heap g !! p) as [b|] eqn:Hb; [|done].
    injection Ha as <-. apply set_cancel_ok. by apply (H5 p b r).
  - intros id old Hw. destruct (H7 id old Hw) as [? Ho]. split; [done|].
    unfold is_closed in *. cbn [heap set_heap]. rewrite list_lookup_fmap. by destruct (heap g !! old).
Qed.

(** ** The steps of a goroutine *)

(** A goroutine moves on, its actor unchanged but for what the step receives. *)
Lemma gor_step n g rs hs l p a a' r r' s' :
  sys_ok n (mkSys g rs hs l) -> heap g !! p = Some a -> rs !! p = Some r ->
  a_id a' = a_id a -> closed a' = closed a -> contrib r' = contrib r ->
  (forall b k, actor_ok b k a r -> actor_ok b k a' r') ->
  s' = mkSys (set_heap (<[p := a']> (heap g)) g) (<[p := r']> rs) hs l ->
  sys_ok (S n) s'.
Proof.
  intros Hs Ha Hr Hid Hcl Hc Hok ->. pose proof (ok_bound _ _ Hs) as Hb. simpl in Hb.
  eapply (local_step n (S n) g rs hs l p a a' r r' hs); try done; auto.
  by rewrite Hcl.
Qed.

Lemma gor_step1 n g rs hs l p a a' r r' :
  sys_ok n (mkSys g rs hs l) -> heap g !! p = Some a -> rs !! p = Some r ->
  a_id a' = a_id a -> closed a' = closed a -> contrib r' = contrib r ->
  (forall b k, actor_ok b k a r -> actor_ok b k a' r') ->
  sys_ok (S n) (mkSys (set_heap (<[p := a']> (heap g)) g) (<[p := r']> rs) hs l).
Proof. intros. by eapply gor_step. Qed.

Lemma goto_step n g rs hs l p a r q :
  sys_ok n (mkSys g rs hs l) -> heap g !! p = Some a -> rs !! p = Some r ->
  left_pc q = false -> left_pc (at_ r) = false -> drained_pc q = drained_pc (at_ r) ->
  (exiting q = true -> forall k b, actor_ok b k a r -> closed a = true) ->
  sys_ok (S n) (mkSys g (<[p := go_to q r]> rs) hs l).
Proof.
  intros Hs Ha Hr Hq Hp Hd He.
  eapply (gor_step n g rs hs l p a a r (go_to q r)); try done.
  - unfold contrib. simpl. by rewrite Hd.
  - intros b k Hok. pose proof (fun H => He H k b Hok) as He'. destruct Hok as [H1 H2 H3 H4 H5 H6 H7 H8].
    split; simpl; try done; rewrite ?Hq; [by rewrite H3|done|by intros ->].
  - by rewrite (list_insert_id (heap g) p a), set_heap_id.
Qed.

Lemma alter_insert_eq {X} (f : X -> X) i (l : list X) x : l !! i = Some x -> alter f i l = <[i := f x]> l.
Proof.
  revert i. induction l as [|y l IH]; intros [|i] H; simplify_eq/=; [done|].
  f_equal. by apply IH.
Qed.

Lemma upd_eq p (f : actor -> actor) g a :
  heap g !! p = Some a -> upd p f g = set_heap (<[p := f a]> (heap g)) g.
Proof. intros H. unfold upd. by rewrite (alter_insert_eq _ _ _ _ H). Qed.

Lemma receive_ok ms m b k a r q a' :
  actor_ok b k a r -> mailbox a = m :: ms -> left_pc q = false -> left_pc (at_ r) = false ->
  (exiting q = true -> exiting (at_ r) = true) ->
  a' = set_mailbox ms a \/ a' = set_waiting false (set_mailbox ms a) ->
  actor_ok b k a' (take_msgs [m] (go_to q r)).
Proof.
  intros [H1 H2 H3 H4 H5 H6 H7 H8] Hm Hq Hp He [-> | ->]; split; simpl; try done; rewrite ?Hq; try done;
    try (by rewrite H3); try (by intros ?%He%H4); first [by intros -> | by rewrite H6, Hm, <- app_assoc].
Qed.

(** The idle count over a round ([run_batch]) and at the exit. *)
Lemma batch_step n g rs hs l p a r buf (b1 : bstate W R) left_ c1 :
  sys_ok n (mkSys g rs hs l) -> rs !! p = Some r -> heap g !! p = Some a -> at_ r = RBatch buf ->
  wrap32 (bidle b1) = wrap32 (idle g + idles c1 - idles (gctx r)) ->
  (left_ <> None -> closed a = true) ->
  sys_ok (S n) (mkSys (set_idle (bidle b1) g)
    (<[p := go_ctx match left_ with None => RAfter | Some buf => RExit buf end c1 r]> rs) hs l).
Proof.
  intros Hs Hr Ha Hpc Hi Hleft. pose proof (ok_bound _ _ Hs) as Hb. simpl in Hb.
  set (r' := go_ctx _ c1 r).
  assert (sys_ok (S n) (mkSys (set_idle (bidle b1) (set_heap (<[p := a]> (heap g)) g)) (<[p := r']> rs) hs l)) as H.
  { eapply (sys_ok_local n (S n) g rs hs l p a a r r' hs (bidle b1)); try done; auto.
    - intros [H1 H2 H3 H4 H5 H6 H7 H8]. rewrite Hpc in *. subst r'.
      destruct left_; split; simpl; try done. intros _. by apply Hleft.
    - rewrite Hi. f_equal. unfold contrib. rewrite Hpc. subst r'. by destruct left_; simpl; lia. }
  by rewrite (list_insert_id (heap g) p a), set_heap_id in H.
Qed.

Lemma exit_step n g rs hs l p r buf :
  sys_ok n (mkSys g rs hs l) -> rs !! p = Some r -> at_ r = RExit buf ->
  sys_ok (S n) (mkSys (set_idle match gctx r with None => wrap32 (idle g - 1) | Some _ => idle g end g)
    (<[p := go_to RDrain r]> rs) hs l).
Proof.
  intros Hs Hr Hpc. pose proof (ok_bound _ _ Hs) as Hb. simpl in Hb.
  assert (exists a, heap g !! p = Some a) as [a Ha].
  { apply lookup_lt_is_Some_2. pose proof (ok_len _ _ Hs) as Hl. simpl in Hl. rewrite <- Hl.
    by eapply lookup_lt_Some. }
  set (i := match gctx r with None => _ | Some _ => _ end).
  assert (sys_ok (S n) (mkSys (set_idle i (set_heap (<[p := a]> (heap g)) g)) (<[p := go_to RDrain r]> rs) hs l)) as H.
  { eapply (sys_ok_local n (S n) g rs hs l p a a r _ hs i); try done; auto.
    - intros [H1 H2 H3 H4 H5 H6 H7 H8]. rewrite Hpc in *. by split.
    - unfold i, contrib, idles, idle_leak. rewrite Hpc. simpl.
      destruct (gctx r) as [c|]; simpl; [f_equal; destruct (active (ctrl c)); lia|].
      rewrite wrap32_idem. f_equal. lia. }
  by rewrite (list_insert_id (heap g) p a), set_heap_id in H.
Qed.

Lemma quit_ok b k a r buf ok a' :
  actor_ok b k a r -> at_ r = RAfter -> (Z.of_nat k + 2 < 2 ^ 31)%Z ->
  (if closed a then Go (a, ([], false))
   else if (1 <? holder a)%Z then Go (a, ([], false))
   else let '(buf1, a1) := pumpMailbox [] a in
        match buf1 with
        | [] => fbind (requestClose a1) (fun a2 => Go (a2, ([], true)))
        | _ => Go (a1, (buf1, false))
        end) = Go (a', (buf, ok)) ->
  actor_ok b k a' (take_msgs buf (go_to (if ok then RExit [] else RTop buf) r)) /\ a_id a' = a_id a /\
  (closed a = true -> closed a' = true).
Proof.
  intros Hok Hpc Hk. pose proof Hok as [H1 H2 H3 H4 H5 H6 H7 H8]. rewrite Hpc in *.
  destruct (closed a) eqn:Hc.
  { intros [= <- <- <-]. split; [|done]. split; simpl; try done; [by rewrite Hc|]. by rewrite app_nil_r. }
  destruct (1 <? holder a)%Z eqn:Hh.
  { intros [= <- <- <-]. split; [|done]. split; simpl; try done; [by rewrite Hc|]. by rewrite app_nil_r. }
  unfold pumpMailbox. simpl app. destruct (mailbox a) as [|m ms] eqn:Hm.
  2: { intros [= <- <- <-]. split; [|done]. split; simpl; try done; [by rewrite Hc|]. by rewrite H6, app_nil_r. }
  assert (set_mailbox [] a = a) as -> by (destruct a; simpl in *; by rewrite Hm).
  destruct (requestClose_ok b k a r Hok Hk) as (a2 & E2 & [G1 G2 G3 G4 G5 G6 G7 G8] & Hi & Hc2).
  rewrite E2. simpl. intros [= <- <- <-]. rewrite Hpc in *. split; [|done].
  split; simpl; try done. rewrite app_nil_r. done.
Qed.

(** Callers. *)
Lemma send_step n g rs hs l p m g' :
  sys_ok n (mkSys g rs hs l) -> p ∈ hs -> g_send p m g = Go (g', None) ->
  sys_ok (S n) (mkSys g' (alter (accept m) p rs) hs l).
Proof.
  intros Hs Hp (a & a' & Ha & Hf & ->)%with_actor_inv. pose proof (ok_bound _ _ Hs) as Hb. simpl in Hb.
  destruct (gor_of _ _ _ _ Hs Ha) as [r Hr]. simpl in Hr.
  destruct (refs_pos p hs Hp) as [k Hk].
  pose proof (ok_actor _ _ Hs p a r Ha Hr) as Hok. simpl in Hok. rewrite Hk in Hok.
  destruct (send_ok (BufMails (options g)) m _ k a r Hok) as [_ H].
  destruct (H a' Hf) as (Hok' & Hid & Hcl).
  rewrite (alter_insert_eq _ _ _ _ Hr).
  eapply (gor_step n g rs hs l p a a' r (accept m r)); try done.
  intros b k' Hbk. unfold send in Hf. destruct (mb_closed a); [done|].
  destruct (has_room _ a); simplify_eq/=. destruct Hbk as [G1 G2 G3 G4 G5 G6 G7 G8].
  split; simpl; try done; [|by rewrite G6, app_assoc].
  intros Hl%G5. destruct Hl as [_ Hl]. rewrite (ok_holder _ _ _ _ Hok) in Hl. destruct (closed a); lia.
Qed.

Lemma release_step n g rs hs l p g' :
  sys_ok n (mkSys g rs hs l) -> (Z.of_nat n + 2 < 2 ^ 31)%Z -> p ∈ hs -> g_unhold p g = Go g' ->
  sys_ok (S n) (mkSys g' rs (remove1 p hs) l).
Proof.
  intros Hs Hn Hp (a & a' & Ha & Hf & ->)%on_actor_inv. pose proof (ok_bound _ _ Hs) as Hb. simpl in Hb.
  destruct (gor_of _ _ _ _ Hs Ha) as [r Hr]. simpl in Hr.
  pose proof (refs_remove1 p p hs Hp) as Hk. rewrite Nat.eqb_refl in Hk.
  pose proof (refs_length p hs). pose proof (remove1_length p hs).
  assert (forall r b, actor_ok b (refs p hs) a r ->
    actor_ok b (refs p (remove1 p hs)) a' r /\ a_id a' = a_id a /\ closed a' = closed a) as Hun.
  { intros r' b Hok. replace (refs p hs) with (S (refs p (remove1 p hs))) in Hok by lia.
    destruct (unhold_ok b _ a r' Hok) as (a2 & E & G); [lia|]. rewrite Hf in E. by injection E as <-. }
  destruct (Hun r _ (ok_actor _ _ Hs p a r Ha Hr)) as (_ & Hid & Hcl).
  eapply (caller_step n (S n) g rs hs l p a a' (remove1 p hs)); try done.
  - by rewrite Hcl.
  - lia.
  - intros q Hq. left. by eapply remove1_subset.
  - intros q Hq. pose proof (refs_remove1 q p hs Hp) as E. rewrite (proj2 (Nat.eqb_neq q p)) in E by done. lia.
  - intros r' b Hok. by apply Hun.
Qed.

(** Closing, by [requestClose] or [kill]. *)
Lemma close_step n g rs hs l p f g' :
  sys_ok n (mkSys g rs hs l) -> (Z.of_nat n + 2 < 2 ^ 31)%Z -> on_actor p f g = Go g' ->
  f = requestClose \/ f = kill -> sys_ok (S n) (mkSys g' rs hs l).
Proof.
  intros Hs Hn (a & a' & Ha & Hf & ->)%on_actor_inv Hff. pose proof (ok_bound _ _ Hs) as Hb. simpl in Hb.
  destruct (gor_of _ _ _ _ Hs Ha) as [r Hr]. simpl in Hr. pose proof (refs_length p hs).
  assert (forall r b, actor_ok b (refs p hs) a r ->
    actor_ok b (refs p hs) a' r /\ a_id a' = a_id a /\ closed a' = true) as Hcl.
  { intros r' b Hok. destruct Hff as [-> | ->].
    - destruct (requestClose_ok b _ a r' Hok) as (a2 & E & G); [lia|]. rewrite Hf in E. by injection E as <-.
    - destruct (kill_ok b _ a r' Hok) as (a2 & E & G); [lia|]. rewrite Hf in E. by injection E as <-. }
  destruct (Hcl r _ (ok_actor _ _ Hs p a r Ha Hr)) as (_ & Hid & Hc).
  eapply (caller_step n (S n) g rs hs l p a a' hs); try done; auto.
  intros r' b Hok. by apply Hcl.
Qed.

Lemma quit_step n g rs hs p r g' buf ok :
  sys_ok n (mkSys g rs hs None) -> (Z.of_nat n + 2 < 2 ^ 31)%Z ->
  rs !! p = Some r -> at_ r = RAfter -> gctx r = None -> actorQuit p [] g = Go (g', (buf, ok)) ->
  sys_ok (S n) (mkSys g' (<[p := take_msgs buf (go_to (if ok then RExit [] else RTop buf) r)]> rs) hs None).
Proof.
  intros Hs Hn Hr Hpc Hctx (a & a' & Ha & Hf & ->)%with_actor_inv.
  pose proof (ok_bound _ _ Hs) as Hb. simpl in Hb. pose proof (refs_length p hs).
  assert (forall b, actor_ok b (refs p hs) a r ->
    actor_ok b (refs p hs) a' (take_msgs buf (go_to (if ok then RExit [] else RTop buf) r)) /\ a_id a' = a_id a /\
    (closed a = true -> closed a' = true)) as Hq.
  { intros b Hok. eapply quit_ok; try done. lia. }
  destruct (Hq _ (ok_actor _ _ Hs p a r Ha Hr)) as (_ & Hid & Hcl).
  eapply (local_step n (S n) g rs hs None p a a' r
    (take_msgs buf (go_to (if ok then RExit [] else RTop buf) r)) hs); try done; auto.
  - unfold contrib. rewrite Hpc. by destruct ok.
  - intros Hok. by apply Hq.
Qed.

Lemma batch_idle id reg os cl buf c (b b1 : bstate W R) left_ c1 i :
  bidle b = i -> (answerable b buf \/ forall w, cl w = true) ->
  run_buf id reg os cl (2 * length buf + 2) buf 0 c b = Some (Go (b1, left_, c1)) ->
  wrap32 (bidle b1) = wrap32 (i + idles c1 - idles c).
Proof.
  intros <- [Ha|Hcl] E.
  - rewrite <- (app_nil_r buf) in Ha.
    destruct (round_exit_effect id reg os cl buf [] c b Ha) as (b2 & l & c2 & b3 & E2 & Hi & _).
    rewrite E in E2. by injection E2 as <- <- <-.
  - rewrite Nat.add_comm in E. cbn [run_buf Nat.add] in E.
    destruct (0 <? length buf); rewrite ?Hcl in E; injection E as <- <- <-; f_equal; lia.
Qed.

(** The steps of a caller that looks an actor up or spawns it. *)
Lemma holdActor_ok n g rs hs id g' p :
  sys_ok n (mkSys g rs hs None) -> (Z.of_nat n + 2 < 2 ^ 31)%Z -> holdActor id g = Go (g', Some p) ->
  sys_ok (S n) (mkSys g' rs (p :: hs) None).
Proof.
  intros Hs Hn H. unfold holdActor in H. destruct (live g id) as [q|] eqn:El; [|done].
  destruct (live_inv _ _ _ _ _ _ _ Hs El) as (_ & a & Ha & Hc).
  destruct (g_hold q g) as [g1| |] eqn:Eh; simplify_eq/=.
  apply g_hold_inv in Eh as (a1 & Ha1 & ->). simplify_eq. by apply hold_step.
Qed.

Lemma spawn_old_ok n g rs hs id g' p :
  sys_ok n (mkSys g rs hs None) -> (Z.of_nat n + 2 < 2 ^ 31)%Z -> spawnActor id g = Go (g', Some p, false) ->
  sys_ok (S n) (mkSys g' rs (p :: hs) None).
Proof.
  intros Hs Hn H. unfold spawnActor in H. destruct (stopping g); [done|].
  destruct (actors g !! id) as [old|] eqn:Eo; [|by destruct (insert_new id g)].
  destruct (is_closed g old) eqn:Ec.
  { destruct (is_done g old); [|done]. by destruct (insert_new id g). }
  destruct (g_hold old g) as [g1| |] eqn:Eh; simplify_eq/=.
  apply g_hold_inv in Eh as (a1 & Ha1 & ->). unfold is_closed in Ec. rewrite Ha1 in Ec. by apply hold_step.
Qed.

Lemma spawn_new_ok n g rs hs id g' p :
  sys_ok n (mkSys g rs hs None) -> spawnActor id g = Go (g', Some p, true) ->
  sys_ok (S n) (mkSys g' (rs ++ [new_gor]) (p :: hs) None).
Proof.
  intros Hs H. assert ((forall old, actors g !! id = Some old -> is_done g old = true) /\
    insert_new id g = (g', p)) as [Hold E].
  { unfold spawnActor in H. destruct (stopping g); [done|].
    destruct (actors g !! id) as [old|] eqn:Eo.
    - destruct (is_closed g old) eqn:Ec; [|destruct (g_hold old g); simplify_eq/=].
      destruct (is_done g old) eqn:Ed; [|done]. destruct (insert_new id g). simplify_eq.
      split; [|done]. intros ? [= <-]. done.
    - destruct (insert_new id g). simplify_eq. split; [|done]. done. }
  pose proof (insert_new_ok n g rs hs None id Hs Hold) as G. by rewrite E in G.
Qed.

Lemma spawn_wait_ok n g rs hs id old :
  sys_ok n (mkSys g rs hs None) -> spawnActor id g = Blocked -> actors g !! id = Some old ->
  sys_ok (S n) (mkSys g rs hs (Some (id, old))).
Proof.
  intros [H1 H2 H3 H4 H5 H6 H7] H H0. split; try done; [simpl in *; lia|].
  simpl in *. intros ? ? [= <- <-]. split; [done|].
  unfold spawnActor in H. destruct (stopping g); [done|]. rewrite H0 in H.
  destruct (is_closed g old) eqn:Ec; [done|].
  destruct (H4 id old H0) as (a & Ha & _). unfold g_hold, on_actor, with_actor in H. by rewrite Ha in H.
Qed.

(** Every step keeps the invariant; [n] grows with the references. *)
Lemma step_ok n s s' :
  sys_ok n s -> (Z.of_nat n + 2 < 2 ^ 31)%Z -> step s s' -> sys_ok (S n) s'.
Proof.
  intros Hs Hn Hstep. pose proof (ok_bound _ _ Hs) as Hb. destruct Hstep; simpl in Hb.
  - by eapply holdActor_ok.
  - by eapply spawn_old_ok.
  - by eapply spawn_new_ok.
  - by eapply spawn_wait_ok.
  - apply (insert_new_ok n g rs hs (Some (id, old)) id Hs).
    destruct (ok_wlock _ _ Hs id old eq_refl) as [Ho _]. simpl in Ho. rewrite Ho. by intros ? [= <-].
  - by eapply send_step.
  - by eapply release_step.
  - unfold closeActor in H. destruct (actors g !! id) as [p|]; [|done].
    destruct (on_actor p requestClose g) eqn:E; simplify_eq/=. eapply (close_step _ _ _ _ _ p requestClose); eauto.
  - eapply (close_step _ _ _ _ _ p kill); eauto.
  - apply stop_ok in Hs. destruct Hs; split; try done. simpl in *; lia.
  - eapply goto_step; try done; by rewrite H1.
  - eapply goto_step; try done; by rewrite H1.
  - rewrite (upd_eq _ _ _ _ H0). eapply gor_step1; try done.
    + unfold contrib. simpl. by rewrite H1.
    + intros c k Hok. eapply (receive_ok ms m); try done; [by rewrite H1|by right].
  - rewrite (upd_eq _ _ _ _ H0). eapply (gor_step n g rs hs l p a (set_waiting true a) r r); try done.
    + by intros b k [].
    + by rewrite (list_insert_id rs p r).
  - eapply goto_step; try done; by rewrite H1.
  - eapply goto_step; try done; rewrite ?H1; try done. intros _ k b [G1 G2 G3 G4 G5 G6 G7 G8].
    rewrite H3 in G2. symmetry in G2. apply bool_decide_eq_true in G2. destruct (closed a); [done|lia].
  - eapply batch_step; try done. by eapply batch_idle.
  - assert (exists a, heap g !! p = Some a) as [a Ha].
    { apply lookup_lt_is_Some_2. pose proof (ok_len _ _ Hs) as Hl. simpl in Hl. rewrite <- Hl.
      by eapply lookup_lt_Some. }
    eapply goto_step; try done; by rewrite H0.
  - by eapply quit_step.
  - by eapply exit_step.
  - rewrite (upd_eq _ _ _ _ H0). eapply gor_step1; try done.
    intros c k Hok. assert (take_msgs [m] r = take_msgs [m] (go_to (at_ r) r)) as -> by (by destruct r).
    eapply (receive_ok ms m); try done; [by rewrite H1..|by left].
  - rewrite (upd_eq _ _ _ _ H0). eapply gor_step1; try done.
    + unfold contrib. simpl. by rewrite H1.
    + intros c k [G1 G2 G3 G4 G5 G6 G7 G8]. split; simpl; try done.
      * intros _. apply G4. by rewrite H1.
      * intros _. split; [done|]. rewrite H3 in G2. symmetry in G2. by apply bool_decide_eq_true in G2.
  - pose proof (remove_ok n g rs hs p r Hs H H0) as [G1 G2 G3 G4 G5 G6 G7]. split; try done. simpl in *; lia.
Qed.

(** ** Reachable states *)
Definition reachable (n : nat) s : Prop := exists s0, initial s0 /\ nsteps step n s0 s.

Lemma initial_ok s : initial s -> sys_ok 0 s.
Proof.
  intros (c & reg & sp & o & ->). split; simpl; try done.
  intros p Hp. by apply elem_of_nil in Hp.
Qed.

Lemma reachable_ok n s : reachable n s -> (Z.of_nat n + 2 < 2 ^ 31)%Z -> sys_ok n s /\ length (gors s) <= n.
Proof.
  intros (s0 & Hi & Hn) Hb.
  assert (forall m k s1, sys_ok m s1 -> length (gors s1) <= m -> nsteps step k s1 s -> (Z.of_nat (m + k) + 2 < 2 ^ 31)%Z ->
    sys_ok (m + k) s /\ length (gors s) <= m + k) as H.
  { intros m k. revert m. induction k as [|k IH]; intros m s1 H1 Hl Hs Hk.
    - inversion Hs; subst. by rewrite Nat.add_0_r.
    - inversion Hs as [|? ? s2 ? Hst Hrest]; subst. rewrite Nat.add_succ_r in *.
      apply (IH (S m) s2); [|..|done|simpl; lia].
      + eapply step_ok; [done|lia|done].
      + destruct Hst; simpl in *; rewrite ?length_app, ?length_insert, ?length_alter; simpl; lia. }
  apply (H 0 n s0); try done; [by apply initial_ok|]. destruct Hi as (? & ? & ? & ? & ->). simpl. lia.
Qed.


(** C2 An identifier is active at most once: of the actors ever made under one
    identifier at most one has a goroutine that has not finished, and it is the one the
    group knows. *)
Theorem single_activation n s p q a b :
  reachable n s -> (Z.of_nat n + 2 < 2 ^ 31)%Z ->
  heap (sg s) !! p = Some a -> heap (sg s) !! q = Some b -> a_id a = a_id b ->
  done_ a = false -> done_ b = false -> p = q /\ actors (sg s) !! a_id a = Some p.
Proof.
  intros Hr Hn Ha Hb Hid Hda Hdb. destruct (reachable_ok n s Hr Hn) as [Hs _].
  destruct (gor_of _ _ _ _ Hs Ha) as [ra Hra]. destruct (gor_of _ _ _ _ Hs Hb) as [rb Hrb].
  pose proof (ok_present _ _ _ _ (ok_actor _ _ Hs p a ra Ha Hra) Hda) as Hpa.
  pose proof (ok_present _ _ _ _ (ok_actor _ _ Hs q b rb Hb Hrb) Hdb) as Hpb.
  unfold present in *. apply bool_decide_eq_true in Hpa, Hpb. rewrite <- Hid in Hpb.
  split; [congruence|done].
Qed.

(** C3 No accepted message is lost, doubled or reordered: what the goroutine of an actor
    has received is, in order, what its mailbox accepted, up to what is still in the
    mailbox; when the goroutine has ended, it has received everything. *)
Theorem mailbox_fifo n s p a r :
  reachable n s -> (Z.of_nat n + 2 < 2 ^ 31)%Z ->
  heap (sg s) !! p = Some a -> gors s !! p = Some r ->
  accepted r = taken r ++ mailbox a /\ (left_pc (at_ r) = true -> taken r = accepted r).
Proof.
  intros Hr Hn Ha Hgr. destruct (reachable_ok n s Hr Hn) as [Hs _].
  pose proof (ok_actor _ _ Hs p a r Ha Hgr) as Hok. split; [apply Hok|].
  intros Hl. destruct (ok_left _ _ _ _ Hok Hl) as [Hm _].
  by rewrite (ok_log _ _ _ _ Hok), Hm, app_nil_r.
Qed.

(** ** Counting *)

Lemma contrib_range r : (0 <= contrib r <= 1)%Z.
Proof.
  unfold contrib, idle_leak, idles, is_active.
  destruct (drained_pc (at_ r)), (gctx r) as [c|]; simpl; try lia; by destruct (active (ctrl c)).
Qed.

Lemma sum_contrib_range rs : (0 <= sum_contrib rs <= Z.of_nat (length rs))%Z.
Proof. induction rs as [|r rs IH]; simpl; [lia|]. pose proof (contrib_range r). lia. Qed.

Lemma idle_sum n s : reachable n s -> (Z.of_nat n + 2 < 2 ^ 31)%Z -> wrap32 (idle (sg s)) = sum_contrib (gors s).
Proof.
  intros Hr Hn. destruct (reachable_ok n s Hr Hn) as [Hs Hl].
  rewrite (ok_idle _ _ Hs). pose proof (sum_contrib_range (gors s)). apply wrap32_small. lia.
Qed.

(** The entries of the map, counted over the heap. *)
Definition entry g (p : nat) : bool :=
  match heap g !! p with Some a => present g p a | None => false end.

Lemma size_entries n s :
  sys_ok n s -> size (actors (sg s)) = countb (entry (sg s)) (seq 0 (length (heap (sg s)))).
Proof.
  intros Hs. set (g := sg s).
  assert (forall l, countb (entry g) l = length (filter (fun p => entry g p = true) l)) as ->.
  { induction l as [|p l IH]; [done|]. rewrite filter_cons. simpl. rewrite IH.
    destruct (entry g p) eqn:E; [rewrite decide_True by done|rewrite decide_False by congruence]; done. }
  rewrite <- length_map_to_list, <- (length_fmap snd). apply Permutation_length, NoDup_Permutation.
  - apply NoDup_fmap_2_strong; [|apply NoDup_map_to_list].
    intros [i p] [j q] Hi Hj Heq. simpl in Heq. subst q.
    apply elem_of_map_to_list in Hi, Hj.
    destruct (ok_map _ _ Hs i p Hi) as (a & Ha & <-). destruct (ok_map _ _ Hs j p Hj) as (b & Hb & <-).
    simpl in *. congruence.
  - apply NoDup_filter, NoDup_seq.
  - intros p. rewrite list_elem_of_filter, elem_of_seq, list_elem_of_fmap. unfold entry. split.
    + intros ([id q] & -> & Hq). apply elem_of_map_to_list in Hq.
      destruct (ok_map _ _ Hs id q Hq) as (a & Ha & <-). simpl. fold g in Ha. rewrite Ha.
      split; [by apply bool_decide_eq_true_2|]. apply lookup_lt_Some in Ha. lia.
    + intros [He _]. destruct (heap g !! p) as [a|]; [|done]. apply bool_decide_eq_true in He.
      exists (a_id a, p). split; [done|]. by apply elem_of_map_to_list.
Qed.

(** The goroutines [Count] stands for: the active ones, and those that have left the loop
    but are still in the map. *)
Definition counted g (p : nat) r : bool :=
  if drained_pc (at_ r) then entry g p else is_active (gctx r).

Definition count_from g (k : nat) rs : nat :=
  countb (fun x => x) (imap (fun i r => counted g (k + i) r) rs).

(** C5 [Count] is exact: unless a context was left inactive at the exit (after a panic),
    it is the number of the actors whose context is active, plus those that have left
    their loop and are not yet removed. *)
Theorem count_exact n s :
  reachable n s -> (Z.of_nat n + 2 < 2 ^ 31)%Z ->
  (forall r, r ∈ gors s -> drained_pc (at_ r) = true -> idle_leak (gctx r) = 0%Z) ->
  count (sg s) = Z.of_nat (count_from (sg s) 0 (gors s)).
Proof.
  intros Hr Hn Hleak. unfold count. rewrite (idle_sum n s Hr Hn).
  destruct (reachable_ok n s Hr Hn) as [Hs _]. rewrite (size_entries n s Hs).
  pose proof (ok_len _ _ Hs) as Hlen. rewrite <- Hlen.
  assert (forall p r, gors s !! p = Some r ->
    Z.of_nat (if entry (sg s) p then 1 else 0) = contrib r + Z.of_nat (if counted (sg s) p r then 1 else 0))%Z as Hone.
  { intros p r Hp. assert (exists a, heap (sg s) !! p = Some a) as [a Ha].
    { apply lookup_lt_is_Some_2. rewrite <- Hlen. by eapply lookup_lt_Some. }
    pose proof (ok_actor _ _ Hs p a r Ha Hp) as Hok. unfold contrib, counted, entry. rewrite Ha.
    destruct (drained_pc (at_ r)) eqn:E.
    - rewrite Hleak; [done|by eapply list_elem_of_lookup_2|done].
    - assert (done_ a = false) as Hd by (rewrite (ok_done _ _ _ _ Hok); by destruct (at_ r)).
      rewrite (ok_present _ _ _ _ Hok Hd). unfold idles. by destruct (is_active (gctx r)). }
  unfold count_from. clear Hleak.
  assert (forall rs k, (forall i r, rs !! i = Some r ->
      Z.of_nat (if entry (sg s) (k + i) then 1 else 0) =
      contrib r + Z.of_nat (if counted (sg s) (k + i) r then 1 else 0))%Z ->
    (Z.of_nat (countb (entry (sg s)) (seq k (length rs))) - sum_contrib rs =
     Z.of_nat (countb (fun x => x) (imap (fun i r => counted (sg s) (k + i) r) rs)))%Z) as H.
  { induction rs as [|r rs IH]; intros k Hk; [done|]. simpl. pose proof (Hk 0 r eq_refl) as H0.
    rewrite Nat.add_0_r in *. specialize (IH (S k)).
    assert (imap ((fun i r => counted (sg s) (k + i) r) ∘ S) rs = imap (fun i r => counted (sg s) (S k + i) r) rs) as ->.
    { apply imap_ext. intros i x Hx. simpl. by rewrite Nat.add_succ_r. }
    rewrite !Nat2Z.inj_add. rewrite <- IH; [lia|].
    intros i x Hx. rewrite Nat.add_succ_l, <- Nat.add_succ_r. by apply Hk. }
  apply H. apply Hone.
Qed.

(** ** A closed actor ends *)

(** The goroutine of a closed actor that nobody holds, and the lock free. *)
Record ending (p : nat) (i : I) s : Prop := {
  end_lock : wlock s = None;
  end_actor : exists a, heap (sg s) !! p = Some a /\ closed a = true /\ mb_closed a = true /\ a_id a = i;
}.

Definition at_pc s p q : Prop := exists r, gors s !! p = Some r /\ at_ r = q.

Definition gone s p i : Prop := at_pc s p RGone /\ actors (sg s) !! i <> Some p.

Lemma ending_mk p i s q r a a' r' g :
  heap g !! p = Some a -> gors s !! p = Some r -> closed a' = true -> mb_closed a' = true -> a_id a' = i ->
  at_ r' = q ->
  let s' := mkSys (set_heap (<[p := a']> (heap g)) g) (<[p := r']> (gors s)) (held s) None in
  ending p i s' /\ at_pc s' p q.
Proof.
  intros Ha Hr Hc Hm Hi Hq s'. split; [split; [done|]|].
  - exists a'. subst s'. simpl. by rewrite list_lookup_insert_eq by (by eapply lookup_lt_Some).
  - exists r'. subst s'. simpl. by rewrite list_lookup_insert_eq by (by eapply lookup_lt_Some).
Qed.

(** From the drain of the closed mailbox the goroutine reaches its end. *)
Lemma drain_ends p i ms s r a :
  wlock s = None -> heap (sg s) !! p = Some a -> mb_closed a = true -> a_id a = i -> mailbox a = ms ->
  gors s !! p = Some r -> at_ r = RDrain ->
  exists s', rtc step s s' /\ gone s' p i.
Proof.
  revert s r a. induction ms as [|m ms IH]; intros [g rs hs l] r a Hl Ha Hm Hi Hms Hr Hpc; simpl in *; subst l.
  - set (s1 := mkSys (upd p set_done g) (<[p := go_to RLeave r]> rs) hs None).
    set (s2 := mkSys (removeActor p (upd p set_done g)) (<[p := go_to RGone (go_to RLeave r)]> (gors s1)) hs None).
    assert (gors s1 !! p = Some (go_to RLeave r)) as H1.
    { subst s1. simpl. by rewrite list_lookup_insert_eq by (by eapply lookup_lt_Some). }
    exists s2. split.
    { eapply rtc_l; [by eapply (run_done g rs hs None p r a)|]. fold s1.
      apply rtc_once. by eapply (run_remove _ _ hs p (go_to RLeave r)). }
    split.
    + eexists. split; [subst s2; simpl; by rewrite list_lookup_insert_eq by (by eapply lookup_lt_Some)|done].
    + subst s2. cbn [sg]. unfold removeActor. rewrite (upd_eq _ _ _ _ Ha). cbn [heap set_heap actors].
      rewrite list_lookup_insert_eq by (by eapply lookup_lt_Some). cbn [a_id set_done].
      case_bool_decide as Hb; cbn [actors set_actors set_heap]; [|by rewrite <- Hi].
      rewrite <- Hi. by rewrite lookup_delete_eq.
  - set (s1 := mkSys (upd p (set_mailbox ms) g) (<[p := take_msgs [m] r]> rs) hs None).
    destruct (IH s1 (take_msgs [m] r) (set_mailbox ms a)) as (s' & Hs' & Hg); try done.
    { subst s1. rewrite (upd_eq _ _ _ _ Ha). simpl. by rewrite list_lookup_insert_eq by (by eapply lookup_lt_Some). }
    { subst s1. simpl. by rewrite list_lookup_insert_eq by (by eapply lookup_lt_Some). }
    exists s'. split; [|done]. eapply rtc_l; [by eapply (run_drain g rs hs None p r a m ms)|]. done.
Qed.

Lemma exit_ends p i s buf :
  ending p i s -> at_pc s p (RExit buf) -> exists s', rtc step s s' /\ gone s' p i.
Proof.
  intros [Hl (a & Ha & Hc & Hm & Hi)] (r & Hr & Hpc). destruct s as [g rs hs l]. simpl in *. subst l.
  edestruct (drain_ends p i (mailbox a)
    (mkSys (set_idle match gctx r with None => wrap32 (idle g - 1) | Some _ => idle g end g)
      (<[p := go_to RDrain r]> rs) hs None) (go_to RDrain r) a) as (s' & Hs' & Hg); try done.
  { simpl. by rewrite list_lookup_insert_eq by (by eapply lookup_lt_Some). }
  exists s'. split; [|done]. eapply rtc_l; [by eapply (run_exited g rs hs None p r buf)|done].
Qed.

(** One step of the goroutine that changes nothing but where it is. *)
Lemma move_ends p i g rs hs r a q :
  ending p i (mkSys g rs hs None) -> heap g !! p = Some a -> rs !! p = Some r ->
  step (mkSys g rs hs None) (mkSys g (<[p := go_to q r]> rs) hs None) ->
  (forall s, ending p i s -> at_pc s p q -> exists s', rtc step s s' /\ gone s' p i) ->
  exists s', rtc step (mkSys g rs hs None) s' /\ gone s' p i.
Proof.
  intros [_ He] Ha Hr Hst Hk. edestruct Hk as (s' & Hs' & Hg); [| |].
  3: { exists s'. split; [eapply rtc_l; [exact Hst|exact Hs']|exact Hg]. }
  - split; [done|]. exact He.
  - eexists. split; [simpl; by rewrite list_lookup_insert_eq by (by eapply lookup_lt_Some)|done].
Qed.

Lemma top_ends p i s buf :
  ending p i s -> at_pc s p (RTop buf) -> exists s', rtc step s s' /\ gone s' p i.
Proof.
  intros He (r & Hr & Hpc). pose proof He as [Hl (a & Ha & Hc & Hm & Hi)].
  destruct s as [g rs hs l]. simpl in *. subst l.
  eapply (move_ends p i g rs hs r a (RExit buf)); try done; [by eapply run_top_closed|].
  intros s. apply exit_ends.
Qed.

Lemma after_ends p i s :
  ending p i s -> at_pc s p RAfter -> exists s', rtc step s s' /\ gone s' p i.
Proof.
  intros He (r & Hr & Hpc). pose proof He as [Hl (a & Ha & Hc & Hm & Hi)].
  destruct s as [g rs hs l]. simpl in *. subst l.
  eapply (move_ends p i g rs hs r a (RTop [])); try done; [|intros s; apply top_ends].
  destruct (gctx r) as [c|] eqn:Ec; [by eapply run_stay|].
  assert (go_to (RTop []) r = take_msgs [] (go_to (if false then RExit [] else RTop []) r)) as ->.
  { destruct r. unfold go_to, take_msgs. simpl. by rewrite app_nil_r. }
  apply (run_quit g rs hs p r g [] false); [done..|]. unfold actorQuit, with_actor. rewrite Ha, Hc. simpl.
  by rewrite (list_insert_id (heap g) p a), set_heap_id.
Qed.

Lemma batch_ends (w : W) p i s buf :
  ending p i s -> at_pc s p (RBatch buf) -> exists s', rtc step s s' /\ gone s' p i.
Proof.
  intros He (r & Hr & Hpc). pose proof He as [Hl (a & Ha & Hc & Hm & Hi)].
  destruct s as [g rs hs l]. simpl in *. subst l.
  set (b := mkB (R := R) w (idle g) ∅).
  set (lft := match buf with [] => None | _ => Some buf end).
  assert (step (mkSys g rs hs None)
    (mkSys g (<[p := go_to match lft with None => RAfter | Some buf => RExit buf end r]> rs) hs None)) as Hst.
  { pose proof (run_batch g rs hs None p r a buf b b (fun _ => true) lft (gctx r)) as G.
    simpl in G. rewrite set_idle_id in G. apply G; try done; [by right|].
    rewrite Nat.add_comm. subst lft. by destruct buf. }
  eapply (move_ends p i g rs hs r a); try done. intros s. subst lft. clear b Hst.
  destruct buf; [apply after_ends|apply exit_ends].
Qed.

Lemma pump_ends (w : W) p i s buf ms :
  ending p i s -> at_pc s p (RPump buf) -> (exists a, heap (sg s) !! p = Some a /\ mailbox a = ms) ->
  exists s', rtc step s s' /\ gone s' p i.
Proof.
  revert buf s. induction ms as [|m ms IH]; intros buf s He (r & Hr & Hpc) (a' & Ha' & Hms);
    pose proof He as [Hl (a & Ha & Hc & Hm & Hi)]; destruct s as [g rs hs l]; simpl in *; subst l;
    rewrite Ha in Ha'; injection Ha' as <-.
  - destruct buf as [|m buf].
    + eapply (move_ends p _ g rs hs r a (RExit [])); try done; [by eapply run_no_more|]. intros s. apply exit_ends.
    + eapply (move_ends p _ g rs hs r a (RBatch (m :: buf))); try done; [by eapply run_pumped|].
      intros s. by apply batch_ends.
  - pose proof (run_receive g rs hs None p r a buf m ms Hr Ha Hpc Hms) as Hst.
    rewrite (upd_eq _ _ _ _ Ha) in Hst.
    destruct (ending_mk p i (mkSys g rs hs None) (RPump (buf ++ [m])) r a
      (set_waiting false (set_mailbox ms a)) (take_msgs [m] (go_to (RPump (buf ++ [m])) r)) g) as [E1 E2]; try done.
    simpl in E1, E2. destruct (IH _ _ E1 E2) as (s' & Hs' & Hg).
    { eexists. simpl. split; [by rewrite list_lookup_insert_eq by (by eapply lookup_lt_Some)|done]. }
    exists s'. split; [eapply rtc_l; [exact Hst|exact Hs']|exact Hg].
Qed.

(** C4 A closed actor comes to its end: in a reachable state, once an actor is closed and
    its last reference is released, its goroutine can run to its return (every queued
    message received, [doneCh] closed) and the group forgets it, provided no spawner
    holds the lock of the group. *)
Theorem closed_actor_ends (w : W) n s p a :
  reachable n s -> (Z.of_nat n + 2 < 2 ^ 31)%Z -> heap (sg s) !! p = Some a ->
  closed a = true -> p ∉ held s -> wlock s = None ->
  exists s', rtc step s s' /\ at_pc s' p RGone /\ actors (sg s') !! a_id a <> Some p.
Proof.
  intros Hr Hn Ha Hc Hh Hl. destruct (reachable_ok n s Hr Hn) as [Hs _].
  destruct (gor_of _ _ _ _ Hs Ha) as [r Hgr]. pose proof (ok_actor _ _ Hs p a r Ha Hgr) as Hok.
  assert (refs p (held s) = 0) as Hz.
  { unfold refs. apply countb_zero. intros q Hq. apply Nat.eqb_neq. congruence. }
  assert (mb_closed a = true) as Hm.
  { rewrite (ok_mb _ _ _ _ Hok). apply bool_decide_eq_true_2. rewrite (ok_holder _ _ _ _ Hok), Hz, Hc. done. }
  assert (ending p (a_id a) s) as He by (split; eauto).
  assert (forall q, at_ r = q -> at_pc s p q) as Hq by (intros q E; by exists r).
  destruct (at_ r) as [buf|buf|buf| |buf| | |] eqn:E.
  - by eapply top_ends; eauto.
  - by eapply pump_ends; eauto.
  - by eapply batch_ends; eauto.
  - by eapply after_ends; eauto.
  - by eapply exit_ends; eauto.
  - by eapply (drain_ends p (a_id a) (mailbox a)); eauto.
  - destruct s as [g rs hs l]. simpl in *. subst l.
    exists (mkSys (removeActor p g) (<[p := go_to RGone r]> rs) hs None). split; [|split].
    + apply rtc_once. by apply run_remove.
    + eexists. split; [simpl; by rewrite list_lookup_insert_eq by (by eapply lookup_lt_Some)|done].
    + simpl. unfold removeActor. rewrite Ha. case_bool_decide; [|done]. simpl. by rewrite lookup_delete_eq.
  - exists s. split; [apply rtc_refl|]. split; [by apply Hq|].
    pose proof (ok_gone _ _ _ _ Hok E) as Hg. unfold present in Hg. by apply bool_decide_eq_false in Hg.
Qed.

(** ** A spawner that waits for an idle actor to end waits for ever *)

(** A spawner holds the lock and waits for [p], whose goroutine wants the lock. *)
Definition deadlocked p s : Prop :=
  (exists id, wlock s = Some (id, p)) /\ is_done (sg s) p = false /\
  exists r, gors s !! p = Some r /\ at_ r = RAfter /\ gctx r = None.

Lemma is_done_insert g p q (a' : actor) a :
  heap g !! q = Some a -> done_ a' = done_ a -> is_done g p = false ->
  is_done (set_heap (<[q := a']> (heap g)) g) p = false.
Proof.
  unfold is_done. simpl. intros Ha Hd Hp. destruct (decide (q = p)) as [->|Hne].
  - rewrite list_lookup_insert_eq by (by eapply lookup_lt_Some). rewrite Ha in Hp. congruence.
  - by rewrite list_lookup_insert_ne.
Qed.

Lemma unhold_done a a' : unhold a = Go a' -> done_ a' = done_ a.
Proof. unfold unhold. simpl. repeat (case_match; try done); by intros [= <-]. Qed.

Lemma kill_done a a' : kill a = Go a' -> done_ a' = done_ a.
Proof.
  unfold kill, requestClose. simpl. destruct (closed a); [by intros [= <-]|]. intros H%unhold_done. done.
Qed.

Lemma deadlocked_gor p p' g rs (q : pc) r0 hs l r' :
  deadlocked p (mkSys g rs hs l) -> rs !! p' = Some r0 -> at_ r0 = q -> q <> RAfter ->
  exists r, <[p' := r']> rs !! p = Some r /\ at_ r = RAfter /\ gctx r = None.
Proof.
  intros (_ & _ & r & Hr & Hpc & Hctx) H0 Hq Hne. simpl in Hr. exists r.
  rewrite list_lookup_insert_ne; [done|]. intros ->. congruence.
Qed.

(** Once in this state the group stays in it: nobody gets the lock of the group again. *)
Lemma deadlock_for_ever p s s' : deadlocked p s -> step s s' -> deadlocked p s'.
Proof.
  intros Hd Hst. pose proof Hd as ((id0 & Hw) & Hdn & r0 & Hr0 & Hpc0 & Hc0).
  destruct Hst; simpl in *; simplify_eq/=; try done; try congruence.
  - match goal with H : g_send _ _ _ = _ |- _ => apply with_actor_inv in H as (a & a' & Ha & Hf & ->) end. split; [by eauto|]. split.
    + apply (is_done_insert _ _ _ _ a Ha); [|done]. unfold send in Hf.
      destruct (mb_closed a); [done|]. destruct (has_room _ a); by simplify_eq.
    + simpl. destruct (decide (p0 = p)) as [->|Hne].
      * exists (accept m r0). rewrite list_lookup_alter_eq, Hr0. by split.
      * exists r0. by rewrite list_lookup_alter_ne.
  - match goal with H : g_unhold _ _ = _ |- _ => apply on_actor_inv in H as (a & a' & Ha & Hf & ->) end. split; [by eauto|]. split; [|by eauto].
    apply (is_done_insert _ _ _ _ a Ha); [by apply unhold_done|done].
  - match goal with H : on_actor _ kill _ = _ |- _ => apply on_actor_inv in H as (a & a' & Ha & Hf & ->) end. split; [by eauto|]. split; [|by eauto].
    apply (is_done_insert _ _ _ _ a Ha); [by apply kill_done|done].
  - split; [by eauto|]. split; [|by eauto]. unfold is_done in *. simpl.
    rewrite list_lookup_fmap. by destruct (heap g !! p).
  - split; [by eauto|]. split; [done|]. by eapply deadlocked_gor.
  - split; [by eauto|]. split; [done|]. by eapply deadlocked_gor.
  - split; [by eauto|]. split; [|by eapply deadlocked_gor].
    match goal with H : heap g !! _ = Some a |- _ =>
      simpl; rewrite (upd_eq _ _ _ _ H); by apply (is_done_insert _ _ _ _ a H) end.
  - split; [by eauto|]. split; [|by eauto]. match goal with H : heap g !! _ = Some a |- _ =>
      simpl; rewrite (upd_eq _ _ _ _ H); by apply (is_done_insert _ _ _ _ a H) end.
  - split; [by eauto|]. split; [done|]. by eapply deadlocked_gor.
  - split; [by eauto|]. split; [done|]. by eapply deadlocked_gor.
  - split; [by eauto|]. split; [done|]. by eapply deadlocked_gor.
  - split; [by eauto|]. split; [done|]. simpl. exists r0. rewrite list_lookup_insert_ne; [done|].
    intros ->. congruence.
  - split; [by eauto|]. split; [done|]. by eapply deadlocked_gor.
  - split; [by eauto|]. split; [|by eapply deadlocked_gor].
    match goal with H : heap g !! _ = Some a |- _ =>
      simpl; rewrite (upd_eq _ _ _ _ H); by apply (is_done_insert _ _ _ _ a H) end.
  - split; [by eauto|]. split; [|by eapply deadlocked_gor]. match goal with H : heap g !! _ = Some a |- _ => simpl; rewrite (upd_eq _ _ _ _ H) end.
    assert (p0 <> p) as Hne by (intros ->; congruence).
    unfold is_done in *. simpl. by rewrite list_lookup_insert_ne.
Qed.
End spec.

(** ** Concrete runs *)
Module LifecycleWitness.
Import ControlSpec.ToyManager RuntimeSpec.RuntimeWitness.

Abbreviation wsys := (sys (I := nat) (Q := nat) (Hook := nat) (CB := nat) (St := nat) (T := unit) (U := act) (F := unit) (SF := unit)).
Abbreviation wstep := (step (W := toy) (I := nat) (Q := nat) (R := nat) (Hook := nat) (CB := nat) (St := nat) (T := unit) (U := act) (F := unit) (SF := unit)).

Definition g0 : group nat nat unit act unit unit :=
  newGroup false {[ "act"%string := serve ]} None (mkOptions 8 TraceNone).

Definition go_or {X} (d : X) (f : flow X) : X := match f with Go x => x | _ => d end.

(** Spawn 0, send it a message that opens it (or not), and let its goroutine take it. *)
Definition m0 (open : bool) : invokable unit act unit nat := ask (Reply open 5) None.
Definition s0 : wsys := mkSys g0 [] [] None.
Definition s1 : wsys := mkSys (insert_new 0 g0).1 [new_gor] [0] None.
Definition s2 open : wsys :=
  mkSys (go_or (sg s1, None) (g_send 0 (m0 open) (sg s1))).1 (alter (accept (m0 open)) 0 (gors s1)) [0] None.
Abbreviation wgor := (gor (I := nat) (Q := nat) (Hook := nat) (CB := nat) (St := nat) (T := unit) (U := act) (F := unit)).
Definition r2 open : wgor := accept (m0 open) new_gor.
Definition r3 open : wgor := go_to (RPump []) (r2 open).
Definition r4 open : wgor := take_msgs [m0 open] (go_to (RPump ([] ++ [m0 open])) (r3 open)).
Definition r5 open : wgor := go_to (RBatch [m0 open]) (r4 open).
Definition s3 open : wsys := mkSys (sg (s2 open)) (<[0 := r3 open]> (gors (s2 open))) [0] None.
Definition s4 open : wsys :=
  mkSys (upd 0 (fun a => set_waiting false (set_mailbox [] a)) (sg (s3 open))) (<[0 := r4 open]> (gors (s3 open))) [0] None.
Definition s5 open : wsys := mkSys (sg (s4 open)) (<[0 := r5 open]> (gors (s4 open))) [0] None.

Definition round open : option (flow (bstate toy nat * option (list (invokable unit act unit nat)) * option (ActorContext nat nat nat nat nat))) :=
  run_buf 0 (registry (sg (s5 open))) None (fun _ => false) 4 [m0 open] 0 None (mkB (mkToy [] []) 1 ∅).
Definition s6 open : wsys :=
  match round open with
  | Some (Go (b1, _, c1)) => mkSys (set_idle (bidle b1) (sg (s5 open))) (<[0 := go_ctx RAfter c1 (r5 open)]> (gors (s5 open))) [0] None
  | _ => s5 open
  end.

Lemma reach5 open : nsteps wstep 5 s0 (s5 open).
Proof.
  apply (nsteps_l _ _ _ s1). { apply (step_spawn_new g0 [] [] 0). reflexivity. }
  apply (nsteps_l _ _ _ (s2 open)). { apply step_send; [by apply list_elem_of_here|]. by destruct open. }
  apply (nsteps_l _ _ _ (s3 open)). { by apply (run_top_open _ _ _ _ 0 (r2 open) (set_mailbox [m0 open] (set_holder 2 (newActor 0 g0))) []). }
  apply (nsteps_l _ _ _ (s4 open)). { by eapply (run_receive _ _ _ _ 0 (r3 open) _ [] (m0 open) []). }
  apply (nsteps_l _ _ _ (s5 open)). { by eapply (run_pumped _ _ _ _ 0 (r4 open) _ (m0 open) []). }
  constructor.
Qed.

Lemma reach6 open : nsteps wstep 6 s0 (s6 open).
Proof.
  apply (nsteps_r _ _ (s5 open)); [apply reach5|].
  destruct open.
  - eapply (run_batch _ _ _ _ 0 (r5 true) _ [m0 true] (mkB (mkToy [] []) 1 ∅) _ (fun _ => false) None); try reflexivity; [|done].
    left. split; [constructor|]. intros ch Hch. by apply elem_of_nil in Hch.
  - eapply (run_batch _ _ _ _ 0 (r5 false) _ [m0 false] (mkB (mkToy [] []) 1 ∅) _ (fun _ => false) None); try reflexivity; [|done].
    left. split; [constructor|]. intros ch Hch. by apply elem_of_nil in Hch.
Qed.

Lemma reachable6 open : reachable (W := toy) (R := nat) 6 (s6 open).
Proof. exists s0. split; [by eexists _, _, _, _|apply reach6]. Qed.


Lemma single_activation_witness : actors (sg (s6 true)) !! 0 = Some 0.
Proof.
  edestruct (single_activation 6 (s6 true) 0 0) as (_ & H); [apply reachable6|lia|reflexivity..|exact H].
Defined.

Lemma mailbox_fifo_witness :
  exists a r, heap (sg (s6 true)) !! 0 = Some a /\ gors (s6 true) !! 0 = Some r /\
    accepted r = (taken r ++ mailbox a)%list /\ taken r = [m0 true].
Proof.
  eexists _, _. split; [reflexivity|]. split; [reflexivity|].
  edestruct (mailbox_fifo 6 (s6 true) 0) as (H & _); [apply reachable6|lia|reflexivity|reflexivity|].
  split; [exact H|reflexivity].
Defined.

Lemma count_exact_witness : count (sg (s6 true)) = 1%Z.
Proof.
  rewrite (count_exact 6 (s6 true)); [reflexivity|apply reachable6|lia|].
  intros r Hr. simpl in Hr. apply list_elem_of_singleton in Hr as ->. discriminate.
Defined.

(** The caller releases, the actor is killed; then it ends. *)
Definition s8 : wsys :=
  mkSys (go_or (sg (s6 true)) (on_actor 0 kill (go_or (sg (s6 true)) (g_unhold 0 (sg (s6 true))))))
        (gors (s6 true)) [] None.

Lemma reachable8 : reachable (W := toy) (R := nat) 8 s8.
Proof.
  exists s0. split; [by eexists _, _, _, _|].
  apply (nsteps_r _ _ (mkSys (go_or (sg (s6 true)) (g_unhold 0 (sg (s6 true)))) (gors (s6 true)) [] None)).
  - apply (nsteps_r _ _ (s6 true)); [apply reach6|].
    by apply (step_release _ _ [0] None 0); [apply list_elem_of_here|].
  - by apply (step_kill _ _ [] None 0).
Qed.

Lemma closed_actor_ends_witness :
  exists s', rtc wstep s8 s' /\ at_pc s' 0 RGone /\ actors (sg s') !! 0 <> Some 0.
Proof.
  edestruct (closed_actor_ends (mkToy [] []) 8 s8 0) as (s' & H1 & H2 & H3);
    [apply reachable8|lia|reflexivity|reflexivity| |reflexivity|].
  - by intros ?%elem_of_nil.
  - exists s'. split; [exact H1|]. split; [exact H2|exact H3].
Defined.

(** A message leaves the actor idle, it is closed before its goroutine looks for more,
    and a caller asks for it again: the caller waits with the lock, the goroutine waits
    for the lock, for ever. *)
Definition s7 : wsys := mkSys (go_or (sg (s6 false)) (on_actor 0 kill (sg (s6 false)))) (gors (s6 false)) [0] None.
Definition dead : wsys := mkSys (sg s7) (gors s7) [0] (Some (0, 0)).

Remark spawn_deadlock :
  nsteps wstep 8 s0 dead /\ forall s', rtc wstep dead s' -> deadlocked 0 s'.
Proof.
  split.
  - apply (nsteps_r _ _ s7); [|by apply (step_spawn_wait _ _ _ 0 0)].
    apply (nsteps_r _ _ (s6 false)); [apply reach6|]. by apply (step_kill _ _ [0] None 0).
  - intros s' Hs. assert (deadlocked 0 dead) as Hd by (split; [by eexists|]; split; [done|]; by eexists).
    clear -Hs Hd. remember dead as s eqn:E. clear E. induction Hs as [|x y z Hxy _ IH]; [done|].
    apply IH. by eapply deadlock_for_ever.
Qed.

(** [holdActor] reads [closed] and then counts; a close between the two (both hold the
    read lock only) closes the mailbox, and the send of the holder panics. *)
Remark hold_close_race :
  let g1 := (insert_new 0 g0).1 in
  let g2 := go_or g1 (g_unhold 0 g1) in            (* the spawner has released *)
  live g2 0 = Some 0 /\                            (* a caller finds the actor *)
  (let g3 := (go_or (g2, false) (closeActor 0 g2)).1 in   (* it is closed *)
   let g4 := go_or g3 (g_hold 0 g3) in             (* the caller counts itself *)
   g_send 0 (m0 true) g4 = Crashed).
Proof. split; reflexivity. Qed.

(** A group that stops while a caller spawns: no actor and no error, and the caller
    dereferences nil. *)
Remark stopping_spawn_panics :
  handlerPost (fun g => go_or g (closeGroup g)) (mkFrom "" "") serve 0 (UserReq Refuse) g0 = Crashed.
Proof. reflexivity. Qed.
End LifecycleWitness.
