(* ===== verification/Manager.v ===== *)
(** * The manager

    actor/manager.go: the registry of groups, routing of a request to its group and
    handler, the Post, Call, SafeCall, Broadcast and Multicast families, and closing. *)

From S2P Require Import Prelude ActorTypes Control Registry Runtime Group GroupSpec.

Local Open Scope string_scope.
Local Open Scope go_scope.

(** [ctxKey]: the key of a context value, its type and the pointer that stands for it. *)
Definition ctxKey : Type := string * nat.

Section Manager.
Context {I : Type} `{!ActorId I}.
Context {CB T U F SF R V : Type} `{!Requests T U I}.
Abbreviation group := (group I CB T U F SF).

(** [m_values] are the values of the root context, the last one mounted first; [groups]
    is keyed by the actor type; [chans] are the reply channels of the calls under way. *)
Record Manager := mkManager {
  m_canceled : bool;
  m_stopping : bool;
  m_joined : bool;
  m_values : list (ctxKey * V);
  groups : gmap string group;
  m_seq : Z;
  chans : gmap nat (chan R);
}.

Definition set_groups gs m := mkManager (m_canceled m) (m_stopping m) (m_joined m) (m_values m) gs (m_seq m) (chans m).
Definition set_chans c m := mkManager (m_canceled m) (m_stopping m) (m_joined m) (m_values m) (groups m) (m_seq m) c.
Definition set_group (at_ : string) (g : group) m := set_groups (<[at_ := g]> (groups m)) m.

Definition NewManager : Manager := mkManager false false false [] ∅ 0 ∅.
Definition Clear m := set_groups ∅ m.

(** [DefineValue] for the type named [ty]: [p] is the pointer [new] gives, which the
    language need not make a new one since a [ctxKey] has no size. *)
Definition DefineValue (ty : string) (p : nat) : ctxKey := (ty, p).

(** [WithValue] panics once a group is served; [Get] finds the innermost value. *)
Definition WithValue (k : ctxKey) (v : V) (m : Manager) : flow Manager :=
  if bool_decide (groups m = ∅)
  then Go (mkManager (m_canceled m) (m_stopping m) (m_joined m) ((k, v) :: m_values m) (groups m) (m_seq m) (chans m))
  else Crashed.

Definition Get (k : ctxKey) (values : list (ctxKey * V)) : option V :=
  snd <$> list_find (fun kv => kv.1 = k) values ≫= fun p => Some p.2.

(** [newFrom] *)
Definition newFrom (m : Manager) : Manager * From :=
  let n := wrap32 (m_seq m + 1) in
  (mkManager (m_canceled m) (m_stopping m) (m_joined m) (m_values m) (groups m) n (chans m),
   OriginFrom ("mgr." +:+ pretty n)).

(** [ServeWith] and [Serve], for the actor type [at_]. *)
Definition ServeWith (at_ : string) (o : Options) (b : RegistryBuilder T F SF) (m : Manager) : flow Manager :=
  match groups m !! at_ with
  | Some _ => Crashed
  | None => Go (set_group at_ (newGroup (m_canceled m) (handlers b) (on_spawn b) o) m)
  end.

Definition Serve (at_ : string) (o : Options) (build : RegistryBuilder T F SF -> RegistryBuilder T F SF) (m : Manager) :=
  ServeWith at_ o (build NewRegistryBuilder) m.

(** ** Routing *)
Definition findGroup (id : I) (m : Manager) : option group :=
  if m_stopping m then None else groups m !! ActorType id.

(** [findHandler]: the entry found under the [ReqType] string must be one for the Go type
    of the request, or the type assertion panics. *)
Definition findHandler (id : I) (req : request U) (m : Manager) : outcome error (group * handlerEntry T F) :=
  match findGroup id m with
  | None => Err (GroupNotFoundError (Some (to_base id)))
  | Some g =>
      let rt := reqTypeOf (type_of req) in
      match Registry.findHandler (registry g) rt with
      | None => Err (HandlerNotFoundError (Some (to_base id)) rt)
      | Some h => if bool_decide (entry_type h = type_of req) then Ok (g, h) else Panic "interface conversion"
      end
  end.

Definition group_not_found (id : I) : error := GroupNotFoundError (Some (to_base id)).

(** What every sender does with the outcome of [findHandler]: any error is reported as
    a group that was not found. *)
Definition routed {X} (id : I) (req : request U) (m : Manager) (fail : error -> X)
    (k : group -> handlerEntry T F -> flow (group * X)) : flow (Manager * X) :=
  match findHandler id req m with
  | Panic _ => Crashed
  | Err _ => Go (m, fail (group_not_found id))
  | Ok (g, h) => do! (g', x) := k g h in Go (set_group (ActorType id) g' m, x)
  end.

Definition FPost (fr : From) (id : I) (req : request U) (m : Manager) : flow (Manager * option error) :=
  routed id req m Some (fun g h =>
    do! (g', err, _) := handlerPost (fun g => g) fr h id req g in Go (g', err)).

Definition Post (id : I) (req : request U) (m : Manager) :=
  let '(m1, fr) := newFrom m in FPost fr id req m1.

(** A call up to the wait: the channel made for the reply, and the error if any. *)
Definition make_ch (m : Manager) : nat := fresh (dom (chans m)).

Definition call_start (clean : bool) (fr : From) (id : I) (req : request U) (m : Manager)
    : flow (Manager * (option nat * option error)) :=
  let c := make_ch m in
  routed id req (set_chans (<[c := make_chan]> (chans m)) m) (fun e => (None, Some e)) (fun g h =>
    do! (g', r, _) := handlerCall (fun g => g) fr h id req c clean g in Go (g', r)).

(** [FCall] and [SafeFCall]: [wait] is what the other goroutines do until the reply is
    there or the context is done ([done], with its error). *)
Definition FCall (wait : Manager -> Manager) (done : option error) (fr : From) (id : I) (req : request U) (m : Manager)
    : flow (Manager * (option R * option error)) :=
  do! (m1, (ch, err)) := call_start false fr id req m in
  match err, ch with
  | None, Some c =>
      let m2 := wait m1 in
      match waitResult (chans m2) c done with
      | (cs, Some r) => Go (set_chans cs m2, r)
      | (_, None) => Blocked
      end
  | _, _ => Go (m1, (None, err))
  end.

Definition SafeFCall {W : Type} (close : R -> W -> W) (wait : Manager -> Manager) (done : option error)
    (fr : From) (id : I) (req : request U) (m : Manager) (w : W)
    : flow (Manager * W * (option R * option error)) :=
  do! (m1, (ch, err)) := call_start true fr id req m in
  match err, ch with
  | None, Some c =>
      let m2 := wait m1 in
      match done with
      | None =>
          match waitResult (chans m2) c None with
          | (cs, Some r) => Go (set_chans cs m2, w, r)
          | (_, None) => Blocked
          end
      | Some e =>
          let w' := match chans m2 !! c with
                    | Some (mkChan (Some (mkResult (Some r) _)) _) => close r w
                    | _ => w
                    end in
          Go (set_chans (<[c := mkChan None true]> (chans m2)) m2, w', (None, Some e))
      end
  | _, _ => Go (m1, w, (None, err))
  end.

Definition Call wait done (id : I) (req : request U) (m : Manager) :=
  let '(m1, fr) := newFrom m in FCall wait done fr id req m1.

(** [id0] is the zero value of the identifier type ([var id0 A]). *)
Definition FBroadcast (id0 : I) (fr : From) (req : request U) (m : Manager) : flow (Manager * (nat * option error)) :=
  routed id0 req m (fun e => (0, Some e)) (fun g h => handlerBroadcast fr h req g).

Definition Broadcast (id0 : I) (req : request U) (m : Manager) :=
  let '(m1, fr) := newFrom m in FBroadcast id0 fr req m1.

Definition FMulticast (id0 : I) (fr : From) (ids : list I) (req : request U) (m : Manager)
    : flow (Manager * (list (IdErr I) * option error)) :=
  match ids with
  | [] => Go (m, ([], None))
  | _ => routed id0 req m (fun e => ([], Some e)) (fun g h => handlerMulticast fr h ids req g)
  end.

Definition Multicast (id0 : I) (ids : list I) (req : request U) (m : Manager) :=
  let '(m1, fr) := newFrom m in FMulticast id0 fr ids req m1.

Definition Count (id0 : I) (m : Manager) : Z * option error :=
  match findGroup id0 m with
  | None => (0%Z, Some (group_not_found id0))
  | Some g => (count g, None)
  end.

(** [Finalize]: broadcasts, then waits for the actors ([wait]: the other goroutines). *)
Definition Finalize (wait : Manager -> Manager) (id0 : I) (req : request U) (m : Manager) : flow Manager :=
  match findHandler id0 req m with
  | Panic _ => Crashed
  | Err _ => Go m
  | Ok (g, h) =>
      let '(m1, fr) := newFrom m in
      do! (g', _) := handlerBroadcast fr h req g in
      let m2 := wait (set_group (ActorType id0) g' m1) in
      match groups m2 !! ActorType id0 with
      | Some g2 => do! _ := joinGroup g2 in Go m2
      | None => Go m2
      end
  end.

(** ** Closing *)
Definition on_group (id : I) (f : group -> flow (group * bool)) (m : Manager) : flow (Manager * bool) :=
  match findGroup id m with
  | None => Go (m, false)
  | Some g => do! (g', b) := f g in Go (set_group (ActorType id) g' m, b)
  end.

Definition CloseActor (id : I) (m : Manager) := on_group id (closeActor id) m.
Definition KillActor (id : I) (m : Manager) := on_group id (killActor id) m.
Definition JoinActor (id : I) (m : Manager) : flow bool :=
  match findGroup id m with
  | None => Go false
  | Some g => joinActor id g
  end.

Fixpoint close_groups (gs : list (string * group)) : flow (list (string * group)) :=
  match gs with
  | [] => Go []
  | (k, g) :: gs => do! g' := closeGroup g in do! gs' := close_groups gs in Go ((k, g') :: gs')
  end.

Definition CloseManager (m : Manager) : flow Manager :=
  if m_stopping m then Go m
  else
    do! gs := close_groups (map_to_list (groups m)) in
    Go (mkManager true true (m_joined m) (m_values m) (list_to_map gs) (m_seq m) (chans m)).

Fixpoint join_groups (gs : list (string * group)) : flow unit :=
  match gs with
  | [] => Go tt
  | (_, g) :: gs => do! _ := joinGroup g in join_groups gs
  end.

(** [JoinManager]: the second caller does not wait. *)
Definition JoinManager (wait : Manager -> Manager) (m : Manager) : flow Manager :=
  do! m1 := CloseManager m in
  if m_joined m1 then Go m1
  else
    let m2 := wait (mkManager (m_canceled m1) (m_stopping m1) true (m_values m1) (groups m1) (m_seq m1) (chans m1)) in
    do! _ := join_groups (map_to_list (groups m2)) in Go m2.

Definition IsClosed (m : Manager) : bool := m_stopping m.
End Manager.

Arguments Manager I {_} CB T U F SF R V.
