(* ===== verification/ManagerSpec.v ===== *)
(** * Properties of the manager

    Routing of a post to its group, and what closing the manager means for the senders
    and for the actors. *)

From S2P Require Import Prelude ActorTypes Control Registry Runtime RuntimeSpec Group GroupSpec Manager.

Local Open Scope string_scope.

Section spec.
Context {I : Type} `{!ActorId I}.
Context {CB T U F SF R V : Type} `{!Requests T U I}.
Abbreviation group := (group I CB T U F SF).
Abbreviation Manager := (Manager I CB T U F SF R V).
Implicit Types (g : group) (m : Manager) (id : I) (req : request U).

Lemma on_actor_close_map p g g' : on_actor p requestClose g = Go g' ->
  actors g' = actors g /\ stopping g' = stopping g /\ is_closed g' p = true /\
  (forall q, is_closed g q = true -> is_closed g' q = true).
Proof.
  intros (a & a' & Ha & Hf & ->)%on_actor_go. assert (p < length (heap g)) by (by eapply lookup_lt_Some).
  assert (closed a' = true) as Hc.
  { unfold requestClose in Hf. destruct (closed a) eqn:E; [by simplify_eq|].
    by apply unhold_fields in Hf as (_ & _ & _ & ->). }
  unfold is_closed. simpl. split_and!; try done.
  - by rewrite list_lookup_insert_eq.
  - intros q Hq. destruct (decide (q = p)) as [->|]; [by rewrite list_lookup_insert_eq|].
    by rewrite list_lookup_insert_ne.
Qed.

Lemma close_each_closed ps g g' : close_each ps g = Go g' ->
  actors g' = actors g /\ stopping g' = stopping g /\
  (forall q, q ∈ ps \/ is_closed g q = true -> is_closed g' q = true).
Proof.
  revert g. induction ps as [|p ps IH]; intros g H; simpl in H.
  { simplify_eq. split_and!; try done. by intros q [?%elem_of_nil|]. }
  destruct (on_actor p requestClose g) as [g1| |] eqn:E; simpl in H; try done.
  apply on_actor_close_map in E as (E1 & E2 & E3 & E4).
  destruct (IH _ H) as (H1 & H2 & H3). split_and!; [congruence..|].
  intros q [[->|Hq]%elem_of_cons|Hq]; apply H3; auto.
Qed.

(** The group refuses every send, and all its actors are told to end. *)
Definition group_closed g : Prop :=
  stopping g = true /\ forall id p, actors g !! id = Some p -> is_closed g p = true.

Lemma closeGroup_closed g g' : closeGroup g = Go g' -> (stopping g = true -> group_closed g) -> group_closed g'.
Proof.
  unfold closeGroup. destruct (stopping g); [intros [= <-] H; by apply H|].
  intros (H1 & H2 & H3)%close_each_closed _. split; [by rewrite H2|].
  intros id p Hp. apply H3. left. rewrite H1 in Hp. simpl in Hp.
  apply list_elem_of_fmap. exists (id, p). split; [done|]. by apply elem_of_map_to_list.
Qed.

Lemma close_groups_spec (gs gs' : list (string * group)) :
  close_groups gs = Go gs' -> Forall2 (fun x y => x.1 = y.1 /\ closeGroup x.2 = Go y.2) gs gs'.
Proof.
  revert gs'. induction gs as [|[k g] gs IH]; intros gs' H; simpl in H; [by simplify_eq|].
  destruct (closeGroup g) as [g1| |] eqn:E; simpl in H; try done.
  destruct (close_groups gs) as [gs1| |]; simpl in H; simplify_eq.
  constructor; [done|]. by apply IH.
Qed.

Lemma findHandler_stopping id req m : m_stopping m = true ->
  Manager.findHandler id req m = Err (GroupNotFoundError (Some (to_base id))).
Proof. intros H. unfold Manager.findHandler, findGroup. by rewrite H. Qed.


(** Routing: [FPost] reaches the group of the identifier's type, and no other. It
    returns nil exactly when the message is the last of the mailbox the group has for
    the identifier; an unknown group and an unknown request type are both answered with
    [GroupNotFoundError]. *)
Theorem FPost_routes fr id req m m' err :
  FPost fr id req m = Go (m', err) ->
  (forall k, k <> ActorType id -> groups m' !! k = groups m !! k) /\
  match findGroup id m with
  | None => err = Some (group_not_found id) /\ m' = m
  | Some g =>
      match registry g !! reqTypeOf (type_of req) with
      | None => err = Some (group_not_found id) /\ m' = m
      | Some h => exists g', groups m' !! ActorType id = Some g' /\
          match err with
          | None => exists p, actors g' !! id = Some p /\
              mbox g' p = (mbox g p ++ [MInvoke (mkInvoke fr h req None false)])%list
          | Some _ => forall p, mbox g' p = mbox g p
          end
      end
  end.
Proof.
  unfold FPost, routed, Manager.findHandler, Registry.findHandler.
  destruct (findGroup id m) as [g|]; [|by intros [= <- <-]].
  destruct (registry g !! _) as [h|]; [|by intros [= <- <-]].
  case_bool_decide; [|done].
  destruct (handlerPost _ fr h id req g) as [[[g' e] sp]| |] eqn:E; simpl; try done. intros [= <- <-].
  split; [intros k Hk; simpl; by rewrite lookup_insert_ne by done|].
  exists g'. split; [simpl; by rewrite lookup_insert_eq|]. apply handler_send_delivers in E.
  destruct e as [e|]; [done|]. destruct E as (p & Hp & Hm & _). by exists p.
Qed.

(** A value mounted on the root context is found under its key. *)
Lemma WithValue_Get m m' k v k' :
  WithValue k v m = Go m' -> Get k' (m_values m') = if decide (k' = k) then Some v else Get k' (m_values m).
Proof.
  unfold WithValue, Get. case_bool_decide; [|done]. intros [= <-]. simpl.
  destruct (decide (k' = k)) as [->|Hne]; [by rewrite decide_True|].
  rewrite decide_False by done. by destruct (list_find _ (m_values m)).
Qed.

(** Two handles of one type are apart only as far as the pointers of their keys are: when
    [new] gave both the same one, the value mounted last is read through either. *)
Theorem same_type_handles ty p1 p2 v1 v2 m m1 m2 :
  WithValue (DefineValue ty p1) v1 m = Go m1 -> WithValue (DefineValue ty p2) v2 m1 = Go m2 ->
  Get (DefineValue ty p2) (m_values m2) = Some v2 /\
  Get (DefineValue ty p1) (m_values m2) = Some (if decide (p1 = p2) then v2 else v1).
Proof.
  intros H1 H2. rewrite !(WithValue_Get _ _ _ _ _ H2).
  unfold DefineValue. split; [by rewrite decide_True|].
  rewrite (WithValue_Get _ _ _ _ _ H1), (decide_True (P := (ty, p1) = (ty, p1))) by done.
  destruct (decide (p1 = p2)) as [->|Hp]; [by rewrite decide_True|rewrite decide_False; [done|by intros [= ->]]].
Qed.

End spec.

(** ** Concrete groups *)
Module ManagerWitness.
Import ControlSpec.ToyManager RuntimeSpec.RuntimeWitness.

Abbreviation wmanager := (Manager nat nat unit act unit unit nat unit).

Definition post (n : nat) : invokable unit act unit nat := ask (Reply true n) None.

(** A group with mailboxes of one message; 0 and 1 spawned by a message each. *)
Definition gw : group nat nat unit act unit unit :=
  newGroup false {[ "act" := serve ]} None (mkOptions 1 TraceNone).
Definition got {X} (d : X) (f : flow X) : X := match f with Go x => x | _ => d end.
Definition gw1 := (got (gw, None, None) (handler_send (fun g => g) serve (post 1) 0 gw)).1.1.

Lemma post_exact_witness :
  handler_send (fun g => g) serve (post 1) 0 gw = Go (gw1, None, Some 0) /\
  exists p, actors gw1 !! 0 = Some p /\ mbox gw1 p = [post 1].
Proof.
  split; [reflexivity|].
  pose proof (post_exact serve (post 1) 0 gw gw1 None (Some 0) eq_refl) as (p & H1 & H2 & _).
  exists p. split; [exact H1|]. rewrite H2. reflexivity.
Defined.

Definition multi := got (gw1, ([], None)) (multicast [0; 5; 0] (post 2) gw1).

Lemma multi_eq : multicast [0; 5; 0] (post 2) gw1 = Go (multi.1, (multi.2.1, None)).
Proof. vm_compute. reflexivity. Qed.

Lemma multicast_exact_witness :
  multi.2 = ([mkIdErr 0 (Some (ActorBusyError (Some (mkIdBase "T" "0"))));
              mkIdErr 0 (Some (ActorBusyError (Some (mkIdBase "T" "0"))));
              mkIdErr 5 (Some (ActorNotFoundError (Some (mkIdBase "T" "5"))))], None) /\
  (Id <$> multi.2.1) ≡ₚ [0; 5; 0].
Proof.
  split; [reflexivity|].
  refine (proj1 (multicast_exact [0; 5; 0] (post 2) gw1 multi.1 multi.2.1 _ multi_eq)).
  intros id p Hp. change (actors gw1) with (<[0 := 0]> (∅ : gmap nat nat)) in Hp.
  apply lookup_insert_Some in Hp as [[<- <-]|[_ Hp]]; [by eexists|by rewrite lookup_empty in Hp].
Defined.

Definition mw : wmanager := set_group "T" gw1 NewManager.
Definition mw' : wmanager := got mw (CloseManager mw).


Definition posted := got (mw, None) (FPost (OriginFrom "x") 1 (UserReq Refuse) mw).

Lemma posted_eq : FPost (OriginFrom "x") 1 (UserReq Refuse) mw = Go (posted.1, None).
Proof. vm_compute. reflexivity. Qed.

Lemma FPost_routes_witness :
  posted.2 = None /\ exists g', groups posted.1 !! "T" = Some g' /\ exists p, actors g' !! 1 = Some p.
Proof.
  split; [vm_compute; reflexivity|].
  pose proof (FPost_routes _ _ _ _ _ _ posted_eq) as [_ H].
  destruct (findGroup 1 mw) as [g|] eqn:Eg; [|discriminate (proj1 H)].
  destruct (registry g !! _) as [h|]; [|discriminate (proj1 H)].
  destruct H as (g' & H1 & p & H2 & _). exists g'. split; [exact H1|]. exists p. exact H2.
Defined.

(** Two handles of strings whose keys are one pointer: the second value takes the place of
    the first. *)
Lemma same_type_handles_witness :
  let m0 : Manager nat nat unit act unit unit nat string := NewManager in
  exists m1 m2,
    WithValue (DefineValue "string" 7) "a" m0 = Go m1 /\ WithValue (DefineValue "string" 7) "b" m1 = Go m2 /\
    Get (DefineValue "string" 7) (m_values m2) = Some "b".
Proof.
  intros m0. eexists _, _. split; [reflexivity|]. split; [reflexivity|].
  exact (proj2 (same_type_handles "string" 7 7 "a" "b" m0 _ _ eq_refl eq_refl)).
Defined.
End ManagerWitness.
