(* ===== verification/Cluster.v ===== *)
(** * Cluster: nodes, placement and ownership

    cluster/node.go, cluster/placement.go, the ownership checks and the coordinator of
    cluster/migration.go, and the member list functions of cluster/cluster.go. CRC-32 and
    the binary search are concrete; [sort.Slice], which does not say how it orders equal
    elements, is the interface [SortSlice]. *)

From S2P Require Import Prelude.
From Stdlib Require Import Ascii.

Local Open Scope string_scope.

(** ** [sort.Slice]: a sorted permutation, no more *)
Class SortSlice : Type := {
  sort_slice : forall {A : Type}, (A -> A -> bool) -> list A -> list A;
  sort_slice_perm : forall A (less : A -> A -> bool) l, sort_slice less l ≡ₚ l;
  sort_slice_sorted : forall A (less : A -> A -> bool) l,
    (forall x y z, less y x = false -> less z y = false -> less z x = false) ->
    (forall x y, less x y = true -> less y x = false) ->
    StronglySorted (fun x y => less y x = false) (sort_slice less l);
}.

(** ** Nodes *)
Record Node := mkNode { ID : string; Addr : string; NType : string; Meta : gmap string string }.

#[export] Instance Node_eq_dec : EqDecision Node.
Proof. solve_decision. Defined.

Definition no_node : Node := mkNode "" "" "" ∅.

Definition NodeSet := list Node.

Definition Lookup (ns : NodeSet) (id : string) : option Node := snd <$> list_find (fun n => ID n = id) ns.
Definition Contains (ns : NodeSet) (id : string) : bool := bool_decide (is_Some (Lookup ns id)).

(** [GroupMapping]: node types to the actor types they host. *)
Definition GroupMapping := gmap string (list string).

Definition HasGroup (m : GroupMapping) (nodeType actorType : string) : bool :=
  if String.eqb nodeType "" then true
  else match m !! nodeType with
       | None => false
       | Some groups => bool_decide (actorType ∈ groups)
       end.

Definition NodeCanHost (m : GroupMapping) (n : Node) (actorType : string) : bool :=
  HasGroup m (NType n) actorType.

Definition FilterByGroup (m : GroupMapping) (members : NodeSet) (actorType : string) : NodeSet :=
  match members with
  | [] => members
  | _ => filter (fun n => NodeCanHost m n actorType = true) members
  end.

Definition GroupsOf (m : GroupMapping) (nodeType : string) : list string := default [] (m !! nodeType).

(** ** CRC-32 (IEEE), bit by bit *)
Definition crc_bit (c : Z) : Z :=
  if Z.testbit c 0 then Z.lxor (Z.shiftr c 1) 0xEDB88320 else Z.shiftr c 1.

Definition crc_byte (c b : Z) : Z := Nat.iter 8 crc_bit (Z.lxor c b).

Fixpoint crc_string (c : Z) (s : string) : Z :=
  match s with
  | EmptyString => c
  | String.String a s => crc_string (crc_byte c (Z.of_nat (nat_of_ascii a))) s
  end.

Definition ChecksumIEEE (s : string) : Z := Z.lxor (crc_string 0xFFFFFFFF s) 0xFFFFFFFF.

(** [itoa]: the digits of a non-negative number, last one first, then reversed. *)
Fixpoint itoa_digits (fuel : nat) (n : Z) : list ascii :=
  match fuel with
  | O => []
  | S fuel =>
      if (0 <? n)%Z then ascii_of_nat (Z.to_nat (48 + n mod 10)) :: itoa_digits fuel (n / 10) else []
  end.

Definition itoa (n : Z) : string :=
  if (n =? 0)%Z then "0" else String.string_of_list_ascii (rev (itoa_digits (Z.to_nat n) n)).

(** ** Placement *)

(** [sort.Search]: binary search for the first index where [f] holds, [n] if none. *)
Fixpoint search_loop (fuel : nat) (f : nat -> bool) (i j : nat) : nat :=
  match fuel with
  | O => i
  | S fuel =>
      if (i <? j)%nat then
        let h := Nat.div2 (i + j) in
        if f h then search_loop fuel f i h else search_loop fuel f (S h) j
      else i
  end.

Definition Search (n : nat) (f : nat -> bool) : nat := search_loop (S n) f 0 n.

Record hashRingEntry := mkEntry { hash : Z; node : Node }.

Record ConsistentHashPlacement := mkCHP { VirtualNodes : Z; Mapping : option GroupMapping }.

Definition NewConsistentHashPlacement (virtualNodes : Z) : ConsistentHashPlacement :=
  mkCHP (if (virtualNodes <=? 0)%Z then 128 else virtualNodes) None.

Definition WithGroupMapping (m : GroupMapping) (p : ConsistentHashPlacement) : ConsistentHashPlacement :=
  mkCHP (VirtualNodes p) (Some m).

(** The entries of the ring before it is sorted. *)
Definition virtual_entries (v : Z) (n : Node) : list hashRingEntry :=
  (fun i => mkEntry (ChecksumIEEE (ID n +:+ "-" +:+ itoa (Z.of_nat i))) n) <$> seq 0 (Z.to_nat v).

Definition ring_entries (v : Z) (members : NodeSet) : list hashRingEntry :=
  members ≫= virtual_entries v.

(** A placement strategy; [None] is a panic (index out of range). *)
Definition PlacementStrategy := string -> string -> NodeSet -> option Node.

Section placement.
Context `{SortSlice}.

Definition placeOnRing (p : ConsistentHashPlacement) (key : string) (members : NodeSet) : option Node :=
  let ring := sort_slice (fun a b => (hash a <? hash b)%Z) (ring_entries (VirtualNodes p) members) in
  let keyHash := ChecksumIEEE key in
  let idx := Search (length ring) (fun i =>
    match ring !! i with Some e => (keyHash <=? hash e)%Z | None => false end) in
  let idx := if (idx =? length ring)%nat then 0 else idx in
  node <$> ring !! idx.

Definition filterEligible (p : ConsistentHashPlacement) (actorType : string) (members : NodeSet) : NodeSet :=
  match Mapping p with
  | None => members
  | Some m => FilterByGroup m members actorType
  end.

Definition Place (p : ConsistentHashPlacement) : PlacementStrategy := fun actorType actorId members =>
  match members with
  | [] => Some no_node
  | _ =>
      match filterEligible p actorType members with
      | [] => Some no_node
      | [n] => Some n
      | eligible => placeOnRing p (actorType +:+ ":" +:+ actorId) eligible
      end
  end.

(** [GroupAwarePlacement.Place] over any strategy. *)
Definition group_aware_Place (inner : PlacementStrategy) (mapping : GroupMapping) : PlacementStrategy :=
  fun actorType actorId members =>
  match FilterByGroup mapping members actorType with
  | [] => Some no_node
  | eligible => inner actorType actorId eligible
  end.

(** ** Member lists *)
Definition MembersToNodeSet (members : list Node) : NodeSet :=
  sort_slice (fun a b => match String.compare (ID a) (ID b) with Lt => true | _ => false end) members.
End placement.

(** The maps of [MemberDiff]: the last node of an ID wins. *)
Definition node_map (ns : NodeSet) : gmap string Node := foldl (fun m n => <[ID n := n]> m) ∅ ns.

(** [MemberDiff]: [map_to_list] stands for the order Go ranges over the map. *)
Definition MemberDiff (old new : NodeSet) : NodeSet * NodeSet :=
  let oldMap := node_map old in
  let newMap := node_map new in
  ((map_to_list (filter (fun kn => oldMap !! kn.1 = None) newMap)).*2,
   (map_to_list (filter (fun kn => newMap !! kn.1 = None) oldMap)).*2).

(** ** Ownership and migration *)
Definition ShouldOwn (place : PlacementStrategy) (members : NodeSet) (selfID actorType actorId : string) : option bool :=
  (fun preferred => String.eqb (ID preferred) selfID) <$> place actorType actorId members.

Definition CheckOwnership (place : PlacementStrategy) (members : NodeSet) (selfID actorType actorId : string)
    : option (string * bool) :=
  (fun preferred =>
     if String.eqb (ID preferred) "" then ("", false)
     else if negb (String.eqb (ID preferred) selfID) then (ID preferred, true)
     else ("", false)) <$> place actorType actorId members.

(** [ActorRef] of migration.go. *)
Record ActorRef := mkActorRef { RType : string; RID : string }.
Definition ActorRef_String (a : ActorRef) : string := RType a +:+ ":" +:+ RID a.

Inductive MemberEventType := MemberJoined | MemberLeft.
Record MemberEvent := mkMemberEvent { EType : MemberEventType; ENode : Node; ENodes : NodeSet }.

(** [MigrationCoordinator]: the callbacks, run in the order of their registration for
    every event until the context is done or the channel is closed ([None]). *)
Section coordinator.
Context {W N : Type} (notify : N -> W -> W).

Record MigrationCoordinator := mkCoordinator { notifiers : list N }.

Definition NewMigrationCoordinator : MigrationCoordinator := mkCoordinator [].

Definition RegisterNotify (fn : N) (mc : MigrationCoordinator) : MigrationCoordinator :=
  mkCoordinator (notifiers mc ++ [fn]).

Definition handleEvent (mc : MigrationCoordinator) (evt : MemberEvent) (w : W) : W :=
  foldl (fun w fn => notify fn w) w (notifiers mc).

Inductive coordinator_input := CtxDone | Event (evt : option MemberEvent).

Fixpoint Run (mc : MigrationCoordinator) (inputs : list coordinator_input) (w : W) : W :=
  match inputs with
  | [] | CtxDone :: _ | Event None :: _ => w
  | Event (Some evt) :: inputs => Run mc inputs (handleEvent mc evt w)
  end.
End coordinator.
