(* ===== verification/ClusterSpec.v ===== *)
(** * Properties of placement and ownership

    The binary search finds the first entry; a key belongs to the clockwise nearest
    virtual node, whatever the order the members come in and the sort leaves ties in;
    when nodes leave, only their keys move; every key has one owner. *)

From S2P Require Import Prelude Cluster.
From Stdlib Require Import Ascii.

(** ** Binary search *)
Lemma search_loop_spec fuel f i j n :
  (forall x y, x <= y -> y < n -> f x = true -> f y = true) ->
  i <= j <= n -> j - i < fuel ->
  (forall x, x < i -> f x = false) -> (forall x, j <= x < n -> f x = true) ->
  let k := search_loop fuel f i j in
  i <= k <= j /\ (forall x, x < k -> f x = false) /\ (forall x, k <= x < n -> f x = true).
Proof.
  intros Hm. revert i j. induction fuel as [|fuel IH]; intros i j Hij Hf Hlo Hhi; [lia|].
  simpl. destruct (Nat.ltb_spec i j) as [Hlt|Hge].
  2: { replace j with i in * by lia. split; [lia|]. by split. }
  assert (i <= Nat.div2 (i + j) < j) as Hh.
  { rewrite Nat.div2_div. split; [apply Nat.div_le_lower_bound; lia|apply Nat.Div0.div_lt_upper_bound; lia]. }
  destruct (f (Nat.div2 (i + j))) eqn:E.
  - destruct (IH i (Nat.div2 (i + j))) as (H1 & H2 & H3); [lia|lia|done| |by split; [lia|]].
    intros x [Hx1 Hx2]. by apply (Hm (Nat.div2 (i + j))).
  - destruct (IH (S (Nat.div2 (i + j))) j) as (H1 & H2 & H3); [lia|lia| |done|by split; [lia|]].
    intros x Hx. destruct (f x) eqn:Ex; [|done].
    rewrite <- E. symmetry. apply (Hm x); [lia|lia|done].
Qed.

(** [sort.Search] on a monotone predicate is the index of the first element where it
    holds, or [n]: below it the predicate is false, from it on it is true. *)
Theorem Search_first n f :
  (forall x y, x <= y -> y < n -> f x = true -> f y = true) ->
  Search n f <= n /\ (forall x, x < Search n f -> f x = false) /\
  (forall x, Search n f <= x < n -> f x = true).
Proof.
  intros Hm. destruct (search_loop_spec (S n) f 0 n n Hm) as (H1 & H2 & H3); [lia..|].
  split; [unfold Search; lia|]. by split.
Qed.

(** ** CRC-32 is a 32-bit number *)
Lemma lxor_range (w a b : Z) : (0 <= w)%Z -> (0 <= a < 2 ^ w)%Z -> (0 <= b < 2 ^ w)%Z -> (0 <= Z.lxor a b < 2 ^ w)%Z.
Proof.
  intros Hw Ha Hb. assert (Z.lxor a b = Z.lxor a b mod 2 ^ w)%Z as ->; [|apply Z.mod_pos_bound; lia].
  apply Z.bits_inj'. intros i Hi. rewrite Z.testbit_mod_pow2 by done.
  destruct (Z.ltb_spec i w); [done|]. simpl. rewrite Z.lxor_spec.
  rewrite <- (Z.mod_small a (2 ^ w)), <- (Z.mod_small b (2 ^ w)) by done.
  rewrite !Z.mod_pow2_bits_high by lia. done.
Qed.

Lemma crc_bit_range c : (0 <= c < 2 ^ 32)%Z -> (0 <= crc_bit c < 2 ^ 32)%Z.
Proof.
  intros Hc. assert (0 <= Z.shiftr c 1 < 2 ^ 32)%Z as Hs.
  { rewrite Z.shiftr_div_pow2 by lia. change (2 ^ 1)%Z with 2%Z.
    pose proof (Z.div_le_upper_bound c 2 c). pose proof (Z.div_pos c 2). lia. }
  unfold crc_bit. destruct (Z.testbit c 0); [|done]. by apply lxor_range.
Qed.

Lemma crc_string_range s c : (0 <= c < 2 ^ 32)%Z -> (0 <= crc_string c s < 2 ^ 32)%Z.
Proof.
  revert c. induction s as [|a s IH]; intros c Hc; [done|]. cbn [crc_string]. apply IH. unfold crc_byte.
  assert (0 <= Z.lxor c (Z.of_nat (nat_of_ascii a)) < 2 ^ 32)%Z as Hx.
  { apply lxor_range; [lia|done|]. pose proof (nat_ascii_bounded a). lia. }
  generalize dependent (Z.lxor c (Z.of_nat (nat_of_ascii a))). intros x Hx.
  do 8 (apply crc_bit_range in Hx). exact Hx.
Qed.

Lemma ChecksumIEEE_range s : (0 <= ChecksumIEEE s < 2 ^ 32)%Z.
Proof. apply lxor_range; [lia| |lia]. by apply crc_string_range. Qed.

(** ** The ring *)

(** How far clockwise a hash is from a key. *)
Definition clockwise (k h : Z) : Z := ((h - k) mod 2 ^ 32)%Z.

Lemma clockwise_ge k h : (0 <= k < 2 ^ 32)%Z -> (0 <= h < 2 ^ 32)%Z -> (k <= h)%Z -> clockwise k h = (h - k)%Z.
Proof. intros. apply Z.mod_small. lia. Qed.

Lemma clockwise_lt k h : (0 <= k < 2 ^ 32)%Z -> (0 <= h < 2 ^ 32)%Z -> (h < k)%Z -> clockwise k h = (h - k + 2 ^ 32)%Z.
Proof.
  intros Hk Hh Hlt. unfold clockwise. symmetry. apply (Z.mod_unique _ _ (-1)); lia.
Qed.

Lemma clockwise_inj k h h' :
  (0 <= k < 2 ^ 32)%Z -> (0 <= h < 2 ^ 32)%Z -> (0 <= h' < 2 ^ 32)%Z -> clockwise k h = clockwise k h' -> h = h'.
Proof.
  intros Hk Hh Hh'. destruct (Z.le_gt_cases k h), (Z.le_gt_cases k h');
    rewrite ?(clockwise_ge k h), ?(clockwise_lt k h), ?(clockwise_ge k h'), ?(clockwise_lt k h') by lia; lia.
Qed.

Lemma ring_entry_range v ms e : e ∈ ring_entries v ms -> (0 <= hash e < 2 ^ 32)%Z.
Proof.
  unfold ring_entries. intros (n & He & _)%list_elem_of_bind.
  apply list_elem_of_fmap in He as (i & -> & _). apply ChecksumIEEE_range.
Qed.

Lemma ring_entry_node v ms e : e ∈ ring_entries v ms <-> e ∈ virtual_entries v (node e) /\ node e ∈ ms.
Proof.
  unfold ring_entries. rewrite list_elem_of_bind. split.
  - intros (n & He & Hn). assert (node e = n) as ->; [|done].
    by apply list_elem_of_fmap in He as (i & -> & _).
  - intros [He Hn]. by exists (node e).
Qed.

(** [e] is the clockwise nearest of the entries [es] to [k]. *)
Definition nearest (k : Z) (es : list hashRingEntry) (e : hashRingEntry) : Prop :=
  e ∈ es /\ forall e', e' ∈ es -> (clockwise k (hash e) <= clockwise k (hash e'))%Z.

Lemma StronglySorted_mono {X} (P Q : X -> X -> Prop) l :
  (forall x y, P x y -> Q x y) -> StronglySorted P l -> StronglySorted Q l.
Proof. intros HPQ. induction 1 as [|x l Hl IH Hx]; constructor; [done|]. eapply Forall_impl; [exact Hx|]. apply HPQ. Qed.

Lemma ring_sorted `{SortSlice} es :
  StronglySorted (fun x y => (hash x <= hash y)%Z) (sort_slice (fun a b => (hash a <? hash b)%Z) es).
Proof.
  eapply StronglySorted_mono; [|apply sort_slice_sorted].
  - intros x y Hxy. simpl in Hxy. apply Z.ltb_ge in Hxy. done.
  - intros x y z. simpl. rewrite !Z.ltb_ge. lia.
  - intros x y. simpl. rewrite Z.ltb_lt, Z.ltb_ge. lia.
Qed.

Lemma sorted_lookup (l : list hashRingEntry) i j x y :
  StronglySorted (fun x y => (hash x <= hash y)%Z) l -> i <= j -> l !! i = Some x -> l !! j = Some y ->
  (hash x <= hash y)%Z.
Proof.
  intros Hs. revert i j. induction Hs as [|a l Hl IH Ha]; intros i j Hij Hx Hy; [done|].
  destruct i as [|i], j as [|j]; simplify_eq/=; [lia| |lia|].
  - rewrite Forall_forall in Ha. apply Ha. by eapply list_elem_of_lookup_2.
  - apply (IH i j); [lia|done|done].
Qed.

Lemma placeOnRing_nearest `{SortSlice} p key ms :
  ring_entries (VirtualNodes p) ms <> [] ->
  exists e, placeOnRing p key ms = Some (node e) /\ nearest (ChecksumIEEE key) (ring_entries (VirtualNodes p) ms) e.
Proof.
  intros Hne. unfold placeOnRing. set (es := ring_entries (VirtualNodes p) ms) in *.
  set (ring := sort_slice _ es). set (k := ChecksumIEEE key).
  assert (ring ≡ₚ es) as Hp by apply sort_slice_perm. pose proof (ring_sorted es) as Hs. fold ring in Hs.
  pose proof (ChecksumIEEE_range key) as Hk. fold k in Hk.
  assert (forall e, e ∈ es -> (0 <= hash e < 2 ^ 32)%Z) as Hr by (intros e; apply ring_entry_range).
  set (f := fun i => match ring !! i with Some e => (k <=? hash e)%Z | None => false end).
  destruct (Search_first (length ring) f) as (H1 & H2 & H3).
  { intros x y Hxy Hy. unfold f. destruct (ring !! x) as [ex|] eqn:Ex; [|done].
    apply lookup_lt_is_Some_2 in Hy as [ey Ey]. rewrite Ey, !Z.leb_le.
    pose proof (sorted_lookup ring x y ex ey Hs Hxy Ex Ey). lia. }
  assert (0 < length ring) as Hlen by (rewrite Hp; destruct es; simpl; [done|lia]).
  set (idx := Search (length ring) f) in *.
  assert (forall i e, ring !! i = Some e -> e ∈ es) as Hin.
  { intros i e Hi. rewrite <- Hp. by eapply list_elem_of_lookup_2. }
  destruct (Nat.eqb_spec idx (length ring)) as [E|E].
  - destruct (lookup_lt_is_Some_2 ring 0 Hlen) as [e He]. exists e. rewrite He. split; [done|].
    split; [by eapply Hin|]. intros e' He'. pose proof He' as He''. rewrite <- Hp in He'.
    apply list_elem_of_lookup in He' as [i Hi].
    assert (forall j ej, ring !! j = Some ej -> (hash ej < k)%Z) as Hlow.
    { intros j ej Hj. pose proof (H2 j) as Hf. unfold f in Hf. rewrite Hj in Hf. apply Z.leb_gt, Hf.
      rewrite E. by eapply lookup_lt_Some. }
    rewrite !clockwise_lt by eauto. pose proof (sorted_lookup ring 0 i e e' Hs ltac:(lia) He Hi). lia.
  - destruct (lookup_lt_is_Some_2 ring idx ltac:(lia)) as [e He]. exists e. rewrite He. split; [done|].
    split; [by eapply Hin|]. intros e' He'. pose proof He' as He''. rewrite <- Hp in He'.
    apply list_elem_of_lookup in He' as [i Hi].
    assert (k <= hash e)%Z as Hke.
    { pose proof (H3 idx ltac:(lia)) as Hf. unfold f in Hf. rewrite He in Hf. by apply Z.leb_le. }
    rewrite (clockwise_ge k (hash e)) by eauto.
    destruct (Nat.lt_ge_cases i idx) as [Hlt|Hge].
    + pose proof (H2 i Hlt) as Hf. unfold f in Hf. rewrite Hi in Hf. apply Z.leb_gt in Hf.
      rewrite clockwise_lt by eauto. pose proof (Hr e (Hin _ _ He)). pose proof (Hr e' He''). lia.
    + pose proof (sorted_lookup ring idx i e e' Hs Hge He Hi). rewrite clockwise_ge by (eauto; lia). lia.
Qed.

(** ** Placement *)

(** The hashes of the virtual nodes tell the nodes apart. *)
Definition collision_free (v : Z) (ms : NodeSet) : Prop :=
  forall e e', e ∈ ring_entries v ms -> e' ∈ ring_entries v ms -> hash e = hash e' -> node e = node e'.

Lemma virtual_entries_ne v n : (0 < v)%Z -> exists e, e ∈ virtual_entries v n.
Proof.
  intros Hv. eexists. apply list_elem_of_fmap. exists 0. split; [done|]. apply elem_of_seq. lia.
Qed.

Lemma ring_entries_ne v ms n : (0 < v)%Z -> n ∈ ms -> ring_entries v ms <> [].
Proof.
  intros Hv Hn E. destruct (virtual_entries_ne v n Hv) as [e He].
  assert (e ∈ ring_entries v ms) as H by (apply list_elem_of_bind; by exists n).
  rewrite E in H. by apply elem_of_nil in H.
Qed.

Lemma least_exists (f : hashRingEntry -> Z) (es : list hashRingEntry) : es <> [] ->
  exists e, e ∈ es /\ forall e', e' ∈ es -> (f e <= f e')%Z.
Proof.
  induction es as [|a es IH]; [done|]. intros _. destruct es as [|b es].
  { exists a. split; [by apply list_elem_of_here|]. by intros e' ->%list_elem_of_singleton. }
  destruct IH as (e & He & Hle); [done|]. destruct (Z.le_gt_cases (f a) (f e)) as [H|H].
  - exists a. split; [by apply list_elem_of_here|]. intros e' [->|He']%elem_of_cons; [lia|]. specialize (Hle e' He'). lia.
  - exists e. split; [by apply list_elem_of_further|]. intros e' [->|He']%elem_of_cons; [lia|auto].
Qed.

Section place.
Context `{SortSlice} (p : ConsistentHashPlacement) (Hv : (0 < VirtualNodes p)%Z).

Definition place_key (at_ aid : string) : Z := ChecksumIEEE (at_ +:+ ":" +:+ aid)%string.

Lemma filterEligible_subset at_ ms n : n ∈ filterEligible p at_ ms -> n ∈ ms.
Proof.
  unfold filterEligible, FilterByGroup. destruct (Mapping p) as [m|]; [|done].
  destruct ms; [done|]. by intros [_ ?]%list_elem_of_filter.
Qed.

(** With eligible nodes, [Place] is the node of the nearest virtual node among theirs. *)
Lemma Place_nearest at_ aid ms :
  filterEligible p at_ ms <> [] ->
  exists e, Place p at_ aid ms = Some (node e) /\
    nearest (place_key at_ aid) (ring_entries (VirtualNodes p) (filterEligible p at_ ms)) e.
Proof.
  intros Hne. unfold Place. destruct ms as [|m0 ms0].
  { exfalso. apply Hne. unfold filterEligible, FilterByGroup. by destruct (Mapping p). }
  destruct (filterEligible p at_ (m0 :: ms0)) as [|n [|n' el]] eqn:E; [done|..].
  - destruct (least_exists (fun e => clockwise (place_key at_ aid) (hash e))
      (ring_entries (VirtualNodes p) [n])) as (e & He & Hle).
    { apply (ring_entries_ne _ _ n); [done|]. by apply list_elem_of_here. }
    exists e. apply ring_entry_node in He as Hn. destruct Hn as [_ Hn%list_elem_of_singleton].
    rewrite Hn. by split.
  - apply placeOnRing_nearest. apply (ring_entries_ne _ _ n); [done|]. by apply list_elem_of_here.
Qed.

(** [Place] never panics and answers with a node of the list that hosts the actor
    type, or with the empty node exactly when there is none. *)
Theorem Place_eligible at_ aid ms :
  exists n, Place p at_ aid ms = Some n /\
    (filterEligible p at_ ms = [] -> n = no_node) /\
    (filterEligible p at_ ms <> [] -> n ∈ ms /\
       match Mapping p with Some m => NodeCanHost m n at_ = true | None => True end).
Proof.
  destruct (decide (filterEligible p at_ ms = [])) as [E|E].
  - exists no_node. unfold Place. rewrite E. by destruct ms.
  - destruct (Place_nearest at_ aid ms E) as (e & -> & [He _]). exists (node e).
    apply ring_entry_node in He as [_ Hn]. split; [done|]. split; [done|]. intros _.
    split; [by eapply filterEligible_subset|]. unfold filterEligible, FilterByGroup in Hn.
    destruct (Mapping p) as [m|]; [|done]. destruct ms; [by apply elem_of_nil in Hn|].
    by apply list_elem_of_filter in Hn as [? _].
Qed.

Lemma filterEligible_mono at_ ms ms' n :
  (forall n, n ∈ ms' -> n ∈ ms) -> n ∈ filterEligible p at_ ms' -> n ∈ filterEligible p at_ ms.
Proof.
  intros Hsub. unfold filterEligible, FilterByGroup. destruct (Mapping p) as [m|]; [|apply Hsub].
  destruct ms' as [|a ms']; [by intros ?%elem_of_nil|]. rewrite list_elem_of_filter. intros [Hc Hn%Hsub].
  destruct ms; [by apply elem_of_nil in Hn|]. by apply list_elem_of_filter.
Qed.

Lemma filterEligible_in at_ ms ms' n :
  n ∈ filterEligible p at_ ms -> n ∈ ms' -> n ∈ filterEligible p at_ ms'.
Proof.
  unfold filterEligible, FilterByGroup. destruct (Mapping p) as [m|]; [|done].
  destruct ms as [|a ms]; [by intros ?%elem_of_nil|]. intros [Hc _]%list_elem_of_filter Hn.
  destruct ms'; [by apply elem_of_nil in Hn|]. by apply list_elem_of_filter.
Qed.

(** The winner of a ring is the winner of every smaller ring that its node is part of. *)
Lemma nearest_restrict at_ aid ms ms' e e' :
  collision_free (VirtualNodes p) (filterEligible p at_ ms) ->
  (forall n, n ∈ ms' -> n ∈ ms) -> node e ∈ ms' ->
  nearest (place_key at_ aid) (ring_entries (VirtualNodes p) (filterEligible p at_ ms)) e ->
  nearest (place_key at_ aid) (ring_entries (VirtualNodes p) (filterEligible p at_ ms')) e' -> node e' = node e.
Proof.
  intros Hcf Hsub Hn [He Hmin] [He' Hmin'].
  pose proof (proj1 (ring_entry_node _ _ _) He) as [Hve Hel].
  pose proof (filterEligible_in at_ ms ms' (node e) Hel Hn) as Hel'.
  pose proof (proj1 (ring_entry_node _ _ _) He') as [Hve' Hel''].
  assert (e' ∈ ring_entries (VirtualNodes p) (filterEligible p at_ ms)) as He''.
  { apply ring_entry_node. split; [done|]. by eapply filterEligible_mono. }
  apply Hcf; [done|done|]. apply (clockwise_inj (place_key at_ aid)).
  - apply ChecksumIEEE_range.
  - by eapply ring_entry_range.
  - by eapply ring_entry_range.
  - specialize (Hmin e' He''). specialize (Hmin' e ltac:(by apply ring_entry_node)). lia.
Qed.

(** A node of the list that a placement answers with is eligible, and a placement finds a
    node as soon as one is. *)
Lemma Place_in at_ aid ms n : filterEligible p at_ ms <> [] -> Place p at_ aid ms = Some n ->
  exists e, node e = n /\ n ∈ ms /\ n ∈ filterEligible p at_ ms /\
    nearest (place_key at_ aid) (ring_entries (VirtualNodes p) (filterEligible p at_ ms)) e.
Proof.
  intros Hne Hp. destruct (Place_nearest at_ aid ms Hne) as (e & Ep & Hnear).
  rewrite Ep in Hp. injection Hp as <-. exists e. split; [done|].
  pose proof (proj1 (ring_entry_node _ _ _) (proj1 Hnear)) as [_ Hel]. split; [|done].
  by eapply filterEligible_subset.
Qed.

(** From a larger list to a smaller one a key keeps its node, or the node is gone. *)
Lemma Place_step at_ aid ms ms' n n' :
  collision_free (VirtualNodes p) (filterEligible p at_ ms) -> (forall n, n ∈ ms' -> n ∈ ms) ->
  filterEligible p at_ ms <> [] -> Place p at_ aid ms = Some n -> Place p at_ aid ms' = Some n' -> n ∈ ms' -> n' = n.
Proof.
  intros Hcf Hsub Hne Hp Hp' Hn. destruct (Place_in at_ aid ms n Hne Hp) as (e & <- & _ & Hel & Hnear).
  pose proof (filterEligible_in at_ ms ms' (node e) Hel Hn) as Hel'.
  destruct (Place_in at_ aid ms' n') as (e' & <- & _ & _ & Hnear'); [|done|by eapply nearest_restrict].
  intros E. rewrite E in Hel'. by apply elem_of_nil in Hel'.
Qed.

(** [Place] does not panic. *)
Lemma Place_total at_ aid ms : exists n, Place p at_ aid ms = Some n.
Proof.
  destruct (decide (filterEligible p at_ ms = [])) as [E|E].
  - exists no_node. unfold Place. rewrite E. by destruct ms.
  - destruct (Place_nearest at_ aid ms E) as (e & -> & _). by exists (node e).
Qed.

(** C13 Consistent hashing: when members leave (or, read backwards, join), a key whose
    node stays is not moved; only the keys of the nodes that left find a new node. The
    order of the member list does not matter either. *)
Theorem Place_consistent at_ aid ms ms' n :
  collision_free (VirtualNodes p) (filterEligible p at_ ms) -> filterEligible p at_ ms <> [] ->
  (forall n, n ∈ ms' -> n ∈ ms) -> Place p at_ aid ms = Some n -> n ∈ ms' ->
  Place p at_ aid ms' = Some n.
Proof.
  intros Hcf Hne Hsub Hp Hn. destruct (Place_total at_ aid ms') as [n' Hp'].
  rewrite Hp'. f_equal. by eapply Place_step.
Qed.
End place.

(** ** Ownership *)

(** One owner: for a placement on a member list with distinct non-empty IDs, exactly
    one member finds that it should own the actor; every other member is told to leave it
    to that one, and the owner is not told to leave. *)
Theorem one_owner (place : PlacementStrategy) ms at_ aid owner :
  place at_ aid ms = Some owner -> owner ∈ ms -> NoDup (ID <$> ms) -> ID owner <> ""%string ->
  (forall n, n ∈ ms -> ShouldOwn place ms (ID n) at_ aid = Some (bool_decide (n = owner))) /\
  (forall n, n ∈ ms -> CheckOwnership place ms (ID n) at_ aid =
     Some (if decide (n = owner) then (""%string, false) else (ID owner, true))).
Proof.
  intros Hp Ho Hnd Hid.
  assert (forall n, n ∈ ms -> String.eqb (ID owner) (ID n) = bool_decide (n = owner)) as Heq.
  { intros n Hn. case_bool_decide as Hc; [subst; apply String.eqb_refl|]. apply String.eqb_neq. intros E. apply Hc.
    by eapply NoDup_key_eq. }
  split; intros n Hn; [unfold ShouldOwn|unfold CheckOwnership]; rewrite Hp; simpl; rewrite (Heq n Hn); [done|].
  rewrite (proj2 (String.eqb_neq _ _) Hid). case_bool_decide; destruct (decide (n = owner)); done.
Qed.

(** ** Member lists *)
Lemma node_map_lookup ns id n :
  NoDup (ID <$> ns) -> node_map ns !! id = Some n <-> n ∈ ns /\ ID n = id.
Proof.
  unfold node_map. assert (forall m : gmap string Node, NoDup (ID <$> ns) -> (forall n, n ∈ ns -> m !! ID n = None) ->
    foldl (fun m n => <[ID n := n]> m) m ns !! id = Some n <-> (n ∈ ns /\ ID n = id) \/ m !! id = Some n) as H.
  { induction ns as [|x ns IH]; intros m Hnd Hm; simpl.
    - rewrite elem_of_nil. naive_solver.
    - rewrite fmap_cons in Hnd. apply NoDup_cons in Hnd as [Hx Hnd]. rewrite IH; [|done|].
      + rewrite elem_of_cons, lookup_insert_Some.
        pose proof (Hm x ltac:(by apply list_elem_of_here)) as Hmx.
        split; intros Hor; [naive_solver|]. destruct Hor as [[[->|Hn] Hid]|Hn]; [naive_solver..|].
        right. right. split; [|done]. intros E. rewrite E in Hmx. congruence.
      + intros y Hy. rewrite lookup_insert_None. split; [apply Hm; by apply list_elem_of_further|].
        intros E. apply Hx. rewrite E. by apply list_elem_of_fmap_2. }
  intros Hnd. rewrite H; [rewrite lookup_empty; naive_solver|done|]. intros. apply lookup_empty.
Qed.

(** [MemberDiff] on lists with distinct IDs: the joined are the new nodes whose ID is
    not among the old, the left the old ones whose ID is not among the new; each once. *)
Theorem MemberDiff_exact old new :
  NoDup (ID <$> old) -> NoDup (ID <$> new) ->
  let '(joined, left_) := MemberDiff old new in
  NoDup joined /\ NoDup left_ /\
  (forall n, n ∈ joined <-> n ∈ new /\ ID n ∉ (ID <$> old)) /\
  (forall n, n ∈ left_ <-> n ∈ old /\ ID n ∉ (ID <$> new)).
Proof.
  assert (forall a b, NoDup (ID <$> a) -> NoDup (ID <$> b) ->
    let l := (map_to_list (filter (fun kn => node_map a !! kn.1 = None) (node_map b))).*2 in
    NoDup l /\ forall n, n ∈ l <-> n ∈ b /\ ID n ∉ (ID <$> a)) as H.
  { intros a b Ha Hb l. split.
    - apply NoDup_fmap_2_strong; [|apply NoDup_map_to_list].
      intros [i x] [j y] Hi Hj Heq. simpl in Heq. subst y.
      apply elem_of_map_to_list, map_lookup_filter_Some in Hi as [Hi _], Hj as [Hj _].
      apply node_map_lookup in Hi as [_ <-], Hj as [_ <-]; done.
    - intros n. unfold l. rewrite list_elem_of_fmap. split.
      + intros ([i x] & -> & Hx). apply elem_of_map_to_list, map_lookup_filter_Some in Hx as [Hi Hno].
        simpl in *. apply node_map_lookup in Hi as [Hi <-]; [|done]. split; [done|].
        intros (y & Hy & Hin)%list_elem_of_fmap.
        assert (node_map a !! ID x = Some y) as E by (by apply node_map_lookup). congruence.
      + intros [Hn Hno]. exists (ID n, n). split; [done|].
        apply elem_of_map_to_list, map_lookup_filter_Some. split; [by apply node_map_lookup|]. simpl.
        destruct (node_map a !! ID n) as [y|] eqn:E; [|done]. exfalso. apply Hno.
        apply node_map_lookup in E as [Hy Hid]; [|done]. apply list_elem_of_fmap. by exists y. }
  intros Ho Hn. unfold MemberDiff.
  destruct (H old new Ho Hn) as [H1 H2], (H new old Hn Ho) as [H3 H4]. done.
Qed.

(** ** A concrete cluster *)
Module ClusterWitness.

(** A sort to run the examples with. *)
Definition not_less {X : Type} (less : X -> X -> bool) (x y : X) : Prop := less y x = false.

#[export] Instance not_less_dec {X} (less : X -> X -> bool) x y : Decision (not_less less x y) :=
  bool_eq_dec (less y x) false.

Definition slice_sort {X : Type} (less : X -> X -> bool) (l : list X) : list X :=
  merge_sort (not_less less) l.

Lemma slice_sort_sorted X (less : X -> X -> bool) l :
  (forall x y z, less y x = false -> less z y = false -> less z x = false) ->
  (forall x y, less x y = true -> less y x = false) ->
  StronglySorted (fun x y => less y x = false) (slice_sort less l).
Proof.
  intros Ht Ha. unfold slice_sort.
  assert (Transitive (not_less less)) by (intros x y z; apply Ht).
  assert (Total (not_less less)).
  { intros x y. unfold not_less. destruct (less y x) eqn:E; [|by left]. right. by apply Ha. }
  apply (StronglySorted_merge_sort (not_less less)).
Qed.

Lemma slice_sort_perm X (less : X -> X -> bool) l : slice_sort less l ≡ₚ l.
Proof. apply merge_sort_Permutation. Qed.

#[export] Instance merge_sort_slice : SortSlice := {|
  sort_slice := @slice_sort; sort_slice_perm := slice_sort_perm; sort_slice_sorted := slice_sort_sorted;
|}.

Definition n1 := mkNode "n1" "a:1" "player" ∅.
Definition n2 := mkNode "n2" "a:2" "player" ∅.
Definition n3 := mkNode "n3" "a:3" "room" ∅.
Definition n4 := mkNode "n4" "a:4" "player" ∅.
Definition mapping : GroupMapping := <[ "player" := ["Player"] ]> {[ "room" := ["Room"] ]}.
Definition strategy := WithGroupMapping mapping (NewConsistentHashPlacement 8).
Definition cluster4 : NodeSet := [n1; n2; n3; n4].

Example crc_check : ChecksumIEEE "123456789" = 0xCBF43926%Z.
Proof. reflexivity. Qed.

Lemma Search_first_witness :
  let f := fun i => (5 <=? i)%nat in Search 9 f = 5 /\ (forall x, x < Search 9 f -> f x = false).
Proof.
  split; [reflexivity|]. apply (Search_first 9 (fun i => (5 <=? i)%nat)).
  intros x y Hxy _. rewrite !Nat.leb_le. lia.
Defined.

Lemma Place_eligible_witness :
  exists n, Place strategy "Room" "7" cluster4 = Some n /\ n ∈ cluster4.
Proof.
  destruct (Place_eligible strategy eq_refl "Room" "7" cluster4) as (n & H1 & _ & H2).
  exists n. split; [exact H1|]. apply H2. vm_compute. discriminate.
Defined.

Definition tag (e : hashRingEntry) : Z * string := (hash e, ID (node e)).

Lemma collision_free_dec v ms :
  NoDup (hash <$> ring_entries v ms) -> collision_free v ms.
Proof.
  intros Hnd e e' He He' Hh. f_equal. by eapply (NoDup_key_eq hash).
Qed.

Lemma Place_consistent_witness :
  Place strategy "Player" "7" cluster4 = Some n4 /\ Place strategy "Player" "7" [n4; n1] = Some n4.
Proof.
  assert (Place strategy "Player" "7" cluster4 = Some n4) as E by (vm_compute; reflexivity).
  split; [exact E|].
  apply (Place_consistent strategy eq_refl "Player" "7" cluster4 [n4; n1] n4); [|vm_compute; discriminate| |exact E|].
  - apply collision_free_dec. apply (bool_decide_unpack (NoDup _)). vm_compute. exact I.
  - unfold cluster4. intros n Hn. rewrite !elem_of_cons in *. tauto.
  - rewrite !elem_of_cons. tauto.
Defined.

Lemma one_owner_witness :
  CheckOwnership (Place strategy) cluster4 "n2" "Player" "7" = Some ("n4"%string, true) /\
  ShouldOwn (Place strategy) cluster4 "n4" "Player" "7" = Some true.
Proof.
  destruct (one_owner (Place strategy) cluster4 "Player" "7" n4) as [H1 H2].
  - vm_compute; reflexivity.
  - unfold cluster4; rewrite !elem_of_cons; tauto.
  - apply (bool_decide_unpack (NoDup _)). vm_compute. exact I.
  - discriminate.
  - split; [etransitivity; [apply (H2 n2)|reflexivity]|etransitivity; [apply (H1 n4)|reflexivity]];
      unfold cluster4; rewrite !elem_of_cons; tauto.
Defined.

Lemma MemberDiff_exact_witness :
  MemberDiff [n1; n2] [n2; n3] = ([n3], [n1]) /\ forall n, n ∈ (MemberDiff [n1; n2] [n2; n3]).1 -> n ∈ [n2; n3].
Proof.
  split; [vm_compute; reflexivity|].
  pose proof (MemberDiff_exact [n1; n2] [n2; n3]) as H.
  destruct (MemberDiff [n1; n2] [n2; n3]) as [j l]. destruct H as (_ & _ & H & _).
  - apply (bool_decide_unpack (NoDup _)). vm_compute. exact I.
  - apply (bool_decide_unpack (NoDup _)). vm_compute. exact I.
  - intros n Hn. by apply H.
Defined.

(** A placement built without [NewConsistentHashPlacement] may have no virtual node;
    with two eligible nodes the ring is then empty, and indexing it panics. *)
Remark empty_ring_panics : Place (mkCHP 0 None) "Player" "7" [n1; n2] = None.
Proof. vm_compute. reflexivity. Qed.
End ClusterWitness.
