(* ===== verification/Store.v ===== *)
(** * Shared data: keys and the store

    shared/key.go, shared/owner.go and shared/store.go: key definitions, the sharding
    of keys, and the store actor that keeps the published values, pushes them to the
    readers under a cooldown, and sweeps the unused ones. The entries are shared by
    pointer (a timer callback keeps the pointer of its entry), so they live in a heap. *)

From Stdlib Require Import Ascii.
From S2P Require Import Prelude ActorTypes Control Registry Runtime.

Local Open Scope string_scope.

(** ** Time

    A [time.Time] is a number of nanoseconds since Go's zero time, a [time.Duration] a
    number of nanoseconds; [Sub] saturates at the bounds of int64. *)
Definition saturate (z : Z) : Z := Z.max (- 2 ^ 63) (Z.min (2 ^ 63 - 1) z).
Definition Sub (t u : Z) : Z := saturate (t - u).

(** The clock of the world. *)
Class Clock (W : Type) : Type := now : W -> Z.

Definition Since `{!Clock W} (w : W) (t : Z) : Z := Sub (now w) t.
Definition Until `{!Clock W} (w : W) (t : Z) : Z := Sub t (now w).

(** [any]: a type of values with the nil interface among them. *)
Class GoAny (Any : Type) : Type := nil_any : Any.

(** ** Keys *)
Section keys.
Context {Any : Type}.

Record defInfo := mkDefInfo {
  d_pattern : string;
  d_cooldown : Z;
  d_ttl : Z;
  d_clone : option (Any -> outcome error Any);
  d_immutable : bool;
}.

(** [KeyOption] and its four makers. The clone function asserts the type of the value:
    [as_V] is the assertion to the type [V] the option was made for. *)
Definition KeyOption : Type := defInfo -> defInfo.

Definition WithCooldown (d : Z) : KeyOption := fun i =>
  mkDefInfo (d_pattern i) d (d_ttl i) (d_clone i) (d_immutable i).
Definition WithTTL (d : Z) : KeyOption := fun i =>
  mkDefInfo (d_pattern i) (d_cooldown i) d (d_clone i) (d_immutable i).
Definition Immutable : KeyOption := fun i =>
  mkDefInfo (d_pattern i) (d_cooldown i) (d_ttl i) (d_clone i) true.
Definition WithClone {V} (as_V : Any -> option V) (to_any : V -> Any) (f : V -> V) : KeyOption := fun i =>
  mkDefInfo (d_pattern i) (d_cooldown i) (d_ttl i)
    (Some (fun v => match as_V v with
                    | Some x => Ok (to_any (f x))
                    | None => Panic "interface conversion"
                    end)) (d_immutable i).

(** A definition holds a pointer to its [defInfo], which is not written after [Define]. *)
Record Def := mkDef { def_info : defInfo }.
Record Key := mkKey { key_name : string; key_info : option defInfo }.

Definition Name (k : Key) : string := key_name k.

(** [Define], with the registry [defs.seen] of the patterns. *)
Definition Define (pattern : string) (opts : list KeyOption) (seen : gmap string string)
    : outcome error (gmap string string * Def) :=
  let info := foldl (fun i opt => opt i) (mkDefInfo pattern 0 0 None false) opts in
  match seen !! pattern with
  | Some _ => Panic ("shared: duplicate key pattern: " +:+ pattern)
  | None => Ok (<[pattern := pattern]> seen, mkDef info)
  end.
End keys.
Arguments defInfo Any : clear implicits.
Arguments Def Any : clear implicits.
Arguments Key Any : clear implicits.
Arguments KeyOption Any : clear implicits.

(** [fmt.Sprintf] on the verbs [%s], [%d], [%v] and [%%] without flags, with string and
    integer operands, as far as key patterns use it. *)
Inductive fmt_arg := AStr (s : string) | AInt (z : Z).

Definition fmt_verb (verb : Ascii.ascii) (x : fmt_arg) : string :=
  match x with
  | AStr s =>
      if (Ascii.eqb verb "s"%char || Ascii.eqb verb "v"%char) then s
      else "%!" +:+ String.String verb ("(string=" +:+ s +:+ ")")
  | AInt z =>
      if (Ascii.eqb verb "d"%char || Ascii.eqb verb "v"%char) then pretty z
      else "%!" +:+ String.String verb ("(int=" +:+ pretty z +:+ ")")
  end.

Definition fmt_extra (x : fmt_arg) : string :=
  match x with AStr s => "string=" +:+ s | AInt z => "int=" +:+ pretty z end.

Definition fmt_rest (args : list fmt_arg) : string :=
  match args with
  | [] => ""
  | x :: xs => "%!(EXTRA " +:+ foldl (fun s y => s +:+ ", " +:+ fmt_extra y) (fmt_extra x) xs +:+ ")"
  end.

Fixpoint Sprintf (format : string) (args : list fmt_arg) : string :=
  match format with
  | EmptyString => fmt_rest args
  | String.String c rest =>
      if Ascii.eqb c "%"%char then
        match rest with
        | EmptyString => "%!(NOVERB)" +:+ fmt_rest args
        | String.String v rest =>
            if Ascii.eqb v "%"%char then String.String c (Sprintf rest args)
            else match args with
                 | [] => "%!" +:+ String.String v ("(MISSING)" +:+ Sprintf rest [])
                 | x :: args => fmt_verb v x +:+ Sprintf rest args
                 end
        end
      else String.String c (Sprintf rest args)
  end.

(** [Def.Of] *)
Definition Of {Any} (d : Def Any) (args : list fmt_arg) : Key Any :=
  mkKey (match args with
         | [] => d_pattern (def_info d)
         | _ => Sprintf (d_pattern (def_info d)) args
         end) (Some (def_info d)).

(** ** Shards *)
Record StoreOptions := mkStoreOptions {
  Shards : Z;
  so_BufMails : Z;
  Cooldown : Z;
  Sweep : Z;
  IdleTTL : Z;
  FetchTimeout : Z;
}.

Definition withDefaults (o : StoreOptions) : StoreOptions :=
  mkStoreOptions (if (Shards o <=? 0)%Z then 1 else Shards o)
    (if (so_BufMails o <=? 0)%Z then 1024 else so_BufMails o)
    (Cooldown o) (Sweep o) (IdleTTL o)
    (if (FetchTimeout o <=? 0)%Z then 2 * Second else FetchTimeout o)%Z.

(** The globals [storeShards] and [storeOptions]. *)
Record storeGlobals := mkGlobals { storeShards : Z; storeOptions : StoreOptions }.

Definition no_globals : storeGlobals := mkGlobals 0 (mkStoreOptions 0 0 0 0 0 0).

(** The part of [Serve] before the registration of the group: the options the store is
    served with, and the globals. *)
Definition Serve_globals (opts : StoreOptions) (g : storeGlobals) : outcome error (StoreOptions * storeGlobals) :=
  let opts := withDefaults opts in
  if (storeShards g =? 0)%Z then Ok (opts, mkGlobals (Shards opts) opts)
  else if (storeShards g =? Shards opts)%Z then Ok (opts, g)
  else Panic ("shared: shard count mismatch: already " +:+ pretty (storeShards g) +:+
              ", got " +:+ pretty (Shards opts)).

Definition fetchTimeout (g : storeGlobals) : Z := FetchTimeout (storeOptions g).

(** hash/fnv, FNV-1a with 32 bits. *)
Definition fnv_step (h : Z) (c : Ascii.ascii) : Z :=
  uwrap32 (Z.lxor h (Z.of_N (Ascii.N_of_ascii c)) * 16777619).

Definition fnv32a (s : string) : Z := foldl fnv_step 2166136261%Z (String.list_ascii_of_string s).

(** [shardOf]: the shard number; the remainder by [uint32(n)] panics when that is zero. *)
Definition shardOf (g : storeGlobals) (name : string) : outcome error Z :=
  let n := if (storeShards g <=? 0)%Z then 1%Z else storeShards g in
  if (uwrap32 n =? 0)%Z then Panic "integer divide by zero"
  else Ok (fnv32a name mod uwrap32 n)%Z.

Definition storeActorType : string := "__shared_store__".
Definition store_String (shard : Z) : string := "store#" +:+ pretty shard.

(** ** Messages of the store

    A [binding] is a pointer. *)
Abbreviation binding := nat.

Section messages.
Context {I Any : Type}.

Record refreshReq := mkRefresh { rq_name : string; rq_version : Z; rq_value : Any; rq_ttl : Z }.

Inductive storeReq :=
  | publishReq (Name : string) (Value : Any) (Info : option (defInfo Any))
  | subscribeReq (Name : string) (Reader : I) (Bind : option binding)
  | fetchReq (Name : string)
  | unpublishReq (Name : string).

Inductive storeRep :=
  | OkRep
  | subscribeRep (Version : Z) (Value : Any)
  | fetchRep (Version : Z) (Value : Any)
  | refreshRep.
End messages.
Arguments refreshReq Any : clear implicits.
Arguments storeReq I Any : clear implicits.
Arguments storeRep Any : clear implicits.

Inductive storeT := TPublish | TSubscribe | TFetch | TUnpublish.

#[export] Instance storeT_eq_dec : EqDecision storeT.
Proof. solve_decision. Defined.

Definition storeReq_type {I Any} (q : storeReq I Any) : storeT :=
  match q with
  | publishReq _ _ _ => TPublish
  | subscribeReq _ _ _ => TSubscribe
  | fetchReq _ => TFetch
  | unpublishReq _ => TUnpublish
  end.

Definition store_ReqType (t : storeT) : string :=
  match t with
  | TPublish => "__shared_publish__"
  | TSubscribe => "__shared_subscribe__"
  | TFetch => "__shared_fetch__"
  | TUnpublish => "__shared_unpublish__"
  end.

(** [publishMessage]: the value is cloned once, on publishing. *)
Definition publishMessage {I Any} (k : Key Any) (v : Any) : outcome error (storeReq I Any) :=
  (let! value := match key_info k with
                 | Some i => match d_clone i with Some clone => clone v | None => Ok v end
                 | None => Ok v
                 end in
   Ok (publishReq (key_name k) value (key_info k)))%go.

(** ** The store actor *)

(** The callbacks of its timers: the refresh of an entry (the closure keeps the pointer
    of the entry) and the sweep. [delay] is the duration the timer is started with,
    which [Timer] hands to package time. *)
Inductive storeCB :=
  | RefreshCB (e : nat) (delay : Z)
  | SweepCB (delay : Z).

Section Store.
Context {I Any : Type} `{!ActorId I, !GoAny Any}.

(** [entry]; the real type of the values of [subs] is a set of identifiers of the type
    of the binding. *)
Record entry := mkStoreEntry {
  e_name : string;
  e_value : Any;
  e_version : Z;
  e_hasValue : bool;
  e_info : option (defInfo Any);
  e_lastPub : Z;
  e_lastSent : Z;
  e_pending : bool;
  e_subs : gmap binding (gset I);
}.

Definition new_entry (name : string) : entry := mkStoreEntry name nil_any 0 false None 0 0 false ∅.

(** [storeState.entries] holds pointers into the heap; a nil map behaves as an empty one
    since [entry_ptr] makes it before the only write. *)
Record storeState := mkStore {
  entries : gmap string nat;
  heap : gmap nat entry;
  next_ptr : nat;
}.

Definition zero_store : storeState := mkStore ∅ ∅ 0.

Definition set_entry (p : nat) (e : entry) (s : storeState) : storeState :=
  mkStore (entries s) (<[p := e]> (heap s)) (next_ptr s).

Definition get_entry (p : nat) (s : storeState) : entry := default (new_entry "") (heap s !! p).

(** [storeState.entry]: the pointer of the entry of a name, which is made if needed. *)
Definition entry_ptr (name : string) (s : storeState) : storeState * nat :=
  match entries s !! name with
  | Some p => (s, p)
  | None =>
      let p := next_ptr s in
      (mkStore (<[name := p]> (entries s)) (<[p := new_entry name]> (heap s)) (S p), p)
  end.

Context {W Hook : Type} `{!Clock W} `{!Poster W I (refreshReq Any) (storeRep Any)}.
(** The type assertion [any(id).(R)] of the binding made for the reader type [R]. *)
Context (is_R : binding -> I -> bool).

Abbreviation ctl := (ActorControl I (refreshReq Any) Hook storeCB).
Abbreviation ctx := (ActorContext I (refreshReq Any) Hook storeCB storeState).

(** *** Bindings ([newBinding]) *)
Definition bind_add (b : binding) (subs : option (gset I)) (id : I) : gset I :=
  let m := default ∅ subs in if is_R b id then {[id]} ∪ m else m.

Definition bind_remove (b : binding) (subs : gset I) (id : I) : gset I :=
  if is_R b id then subs ∖ {[id]} else subs.

Definition is_ActorNotFound (e : error) : option unit :=
  match e with ActorNotFoundError _ => Some tt | _ => None end.

(** The targets of a multicast that do not exist any more. *)
Definition gone_of (errs : list (IdErr I)) : list I :=
  omap (fun x => match IErr x with
                 | Some e => (fun _ => Id x) <$> errors_as is_ActorNotFound e
                 | None => None
                 end) errs.

Definition bind_deliver (w : W) (a : ctl) (subs : gset I) (req : refreshReq Any) : W * ctl * list I :=
  match elements subs with
  | [] => (w, a, [])
  | ids => let '(w1, a1, (errs, _)) := AMulticast w a ids req in (w1, a1, gone_of errs)
  end.

(** *** Refreshing *)

Definition refresh_of (e : entry) : refreshReq Any :=
  mkRefresh (e_name e) (e_version e) (e_value e) (match e_info e with Some i => d_ttl i | None => 0%Z end).

(** A delivery: the readers it is for and the message. The functions that deliver also
    return the list of their deliveries, which the code does not keep. *)
Abbreviation delivery := (list I * refreshReq Any)%type.

(** The loop over [e.subs], with the message made once. *)
Fixpoint deliver_all (binds : list (binding * gset I)) (w : W) (a : ctl) (req : refreshReq Any)
    : W * ctl * list (binding * gset I) * list delivery :=
  match binds with
  | [] => (w, a, [], [])
  | (b, subs) :: binds =>
      let '(w1, a1, gone) := bind_deliver w a subs req in
      let subs' := foldl (bind_remove b) subs gone in
      let '(w2, a2, binds', log) := deliver_all binds w1 a1 req in
      (w2, a2, (b, subs') :: binds', (elements subs, req) :: log)
  end.

Definition set_subs (subs : gmap binding (gset I)) (e : entry) : entry :=
  mkStoreEntry (e_name e) (e_value e) (e_version e) (e_hasValue e) (e_info e) (e_lastPub e)
    (e_lastSent e) (e_pending e) subs.
Definition set_sent (t : Z) (e : entry) : entry :=
  mkStoreEntry (e_name e) (e_value e) (e_version e) (e_hasValue e) (e_info e) (e_lastPub e)
    t (e_pending e) (e_subs e).
Definition set_pending (b : bool) (e : entry) : entry :=
  mkStoreEntry (e_name e) (e_value e) (e_version e) (e_hasValue e) (e_info e) (e_lastPub e)
    (e_lastSent e) b (e_subs e).

(** [sendRefresh] *)
Definition sendRefresh (w : W) (a : ctl) (e : entry) : W * ctl * entry * list delivery :=
  if (size (e_subs e) =? 0)%nat then (w, a, e, [])
  else
    let '(w1, a1, binds, log) := deliver_all (map_to_list (e_subs e)) w a (refresh_of e) in
    (w1, a1, set_subs (list_to_map binds) (set_sent (now w) e), log).

Definition cooldown_of (e : entry) (defaultCooldown : Z) : Z :=
  match e_info e with
  | Some i => if (0 <? d_cooldown i)%Z then d_cooldown i else defaultCooldown
  | None => defaultCooldown
  end.

(** [sendRefresh] on the entry at [p] of the actor's state. *)
Definition send_at (p : nat) (w : W) (c : ctx) : W * ctx * list delivery :=
  let '(w1, a1, e1, log) := sendRefresh w (ctrl c) (get_entry p (state c)) in
  (w1, SetState (set_entry p e1 (state c)) (set_ctrl a1 c), log).

(** [scheduleRefresh] for the entry at [p]. *)
Definition scheduleRefresh (p : nat) (defaultCooldown : Z) (w : W) (c : ctx) : W * ctx * list delivery :=
  let e := get_entry p (state c) in
  if e_pending e then (w, c, [])
  else
    let cd := cooldown_of e defaultCooldown in
    if (cd <=? 0)%Z || (cd <=? Since w (e_lastSent e))%Z then send_at p w c
    else
      let c1 := SetState (set_entry p (set_pending true e) (state c)) c in
      let d := Until w (e_lastSent e + cd) in
      (w, (ctx_Timer ("shared_refresh:" +:+ e_name e) (FnUser (RefreshCB p d)) c1).1, []).

(** *** Sweeping *)
Definition scheduleSweep (opts : StoreOptions) (c : ctx) : ctx :=
  (ctx_Timer "shared_sweep" (FnUser (SweepCB (Sweep opts))) c).1.

Definition sweepable (opts : StoreOptions) (w : W) (e : entry) : bool :=
  (size (e_subs e) =? 0)%nat && (IdleTTL opts <? Sub (now w) (e_lastPub e))%Z.

Definition sweep (opts : StoreOptions) (w : W) (s : storeState) : storeState :=
  if (0 <? IdleTTL opts)%Z
  then mkStore (filter (fun np : string * nat => sweepable opts w (get_entry np.2 s) = false) (entries s))
         (heap s) (next_ptr s)
  else s.

(** The timer callbacks. *)
Definition store_callback (opts : StoreOptions) (cb : storeCB) (w : W) (c : ctx) : W * ctx * list delivery :=
  match cb with
  | RefreshCB p _ =>
      send_at p w (SetState (set_entry p (set_pending false (get_entry p (state c))) (state c)) c)
  | SweepCB _ => (w, scheduleSweep opts (SetState (sweep opts w (state c)) c), [])
  end.

(** *** Handlers *)
Definition published (e : entry) (w : W) (v : Any) (info : option (defInfo Any)) : entry :=
  mkStoreEntry (e_name e) v (wrap64 (e_version e + 1)) true info (now w) (e_lastSent e)
    (e_pending e) (e_subs e).

Definition publish (opts : StoreOptions) (name : string) (v : Any) (info : option (defInfo Any))
    (spawning : bool) (w : W) (c : ctx) : W * ctx * handler_end (storeRep Any) * list delivery :=
  let c1 := if spawning then
              let c := ctx_Open c in
              if (0 <? Sweep opts)%Z then scheduleSweep opts c else c
            else c in
  let '(s, p) := entry_ptr name (state c1) in
  let c2 := SetState (set_entry p (published (get_entry p s) w v info) s) c1 in
  let '(w1, c3, log) := scheduleRefresh p (Cooldown opts) w c2 in
  (w1, c3, HReturn (Some OkRep) None, log).

Definition subscribe (name : string) (reader : I) (bind : option binding)
    (spawning : bool) (c : ctx) : ctx * handler_end (storeRep Any) :=
  let c1 := if spawning then ctx_Open c else c in
  let '(s, p) := entry_ptr name (state c1) in
  let e := get_entry p s in
  let e1 := match bind with
            | Some b => set_subs (<[b := bind_add b (e_subs e !! b) reader]> (e_subs e)) e
            | None => e
            end in
  let c2 := SetState (set_entry p e1 s) c1 in
  (c2, if e_hasValue e1 then HReturn (Some (subscribeRep (e_version e1) (e_value e1))) None
       else HReturn None (Some (NotPublishedError name))).

Definition fetch (name : string) (c : ctx) : handler_end (storeRep Any) :=
  match entries (state c) !! name with
  | None => HReturn None (Some (NotPublishedError name))
  | Some p =>
      let e := get_entry p (state c) in
      if e_hasValue e then HReturn (Some (fetchRep (e_version e) (e_value e))) None
      else HReturn None (Some (NotPublishedError name))
  end.

Definition unpublish (name : string) (c : ctx) : ctx :=
  SetState (mkStore (delete name (entries (state c))) (heap (state c)) (next_ptr (state c))) c.

Definition handle (opts : StoreOptions) (q : storeReq I Any) (spawning : bool) (w : W) (c : ctx)
    : W * ctx * handler_end (storeRep Any) * list delivery :=
  match q with
  | publishReq name v info => publish opts name v info spawning w c
  | subscribeReq name reader bind => let '(c1, e) := subscribe name reader bind spawning c in (w, c1, e, [])
  | fetchReq name => (w, c, fetch name c, [])
  | unpublishReq name => (w, unpublish name c, HReturn (Some OkRep) None, [])
  end.
End Store.

(** ** The store as an actor of the runtime

    The registry [Serve] builds, and the code the runtime runs for it. *)
Section actor.
Context {I Any : Type} `{!ActorId I, !GoAny Any} {W Hook : Type} `{!Clock W}.
Context `{!Poster W I (refreshReq Any) (storeRep Any)}.
Context (is_R : binding -> I -> bool) (zero_shard : I).

#[export] Instance store_Requests : Requests storeT (storeReq I Any) I :=
  {| user_type := storeReq_type; user_ReqType := store_ReqType; user_id0 := fun _ => zero_shard |}.

(** The handler functions are known by the request type they serve. *)
Definition registerStoreHandlers (b : RegistryBuilder storeT storeT unit) : RegistryBuilder storeT storeT unit :=
  RegisterServe (RegisterQuery (RegisterServe (RegisterServe b
    (TUser TPublish) TPublish) (TUser TSubscribe) TSubscribe) (TUser TFetch) TFetch)
    (TUser TUnpublish) TUnpublish.

Definition store_registry : RegistryBuilder storeT storeT unit :=
  registerStoreHandlers (SetOnSpawn (Some tt) NewRegistryBuilder).

(** A quit hook has nothing to run: the store never pushes one. *)
#[export] Instance store_code (opts : StoreOptions) :
    UserCode W I (refreshReq Any) Hook storeCB storeState (storeReq I Any) (storeRep Any) storeT unit := {|
  run_handler f w c q spawning :=
    match q with
    | UserReq u =>
        if bool_decide (storeReq_type u = f) then (handle is_R opts u spawning w c).1
        else (w, c, HPanic None)
    | PanicReq _ => (w, c, HPanic None)
    end;
  run_spawn _ w c := (w, c, SReturn None);
  run_hook _ w c := (w, c, false);
  run_callback cb w c := ((store_callback is_R opts cb w c).1, false);
  run_close _ w := w;
  zero_state := zero_store;
|}.
End actor.

Arguments entry I Any {_}.
Arguments storeState I Any {_}.
