(* ===== verification/StoreTimers.v ===== *)
(** * The timers of the store

    What the control keeps of the timers of user code while it multicasts and flushes its
    postpone queue; what a refresh sends and keeps; the invariant that a scheduled refresh
    has a timer that will make it. Lemmas used by StoreSpec. *)

From S2P Require Import Prelude ActorTypes Control ControlProps Registry Runtime Store.

Local Open Scope string_scope.

(** ** User timers across the postpone queue *)
Section user_timers.
Context {W I Q R : Type} `{!ActorId I} `{!Poster W I Q R} {Hook CB : Type}.
Implicit Types (a : ActorControl I Q Hook CB) (w : W).

(** Every timer but the flush timer stays as it was; any other timer of [a'] is fresh,
    and not one of user code. *)
Record tkeeps a a' : Prop := {
  tk_next : next_timer a <= next_timer a';
  tk_kept : forall id it, timers a !! id = Some it -> id ≠ postponeTimer a ->
    timers a' !! id = Some it /\ gotimers a' !! ti_timer it = gotimers a !! ti_timer it /\
    id ≠ postponeTimer a';
  tk_old : forall id it, timers a' !! id = Some it ->
    timers a !! id = Some it \/ next_timer a <= ti_timer it;
  tk_user : forall t id c tt, gotimers a' !! t = Some (mkStub (FnUser c) id tt) ->
    gotimers a !! t = Some (mkStub (FnUser c) id tt);
  tk_go : forall t, t < next_timer a -> gotimers a !! t = None -> gotimers a' !! t = None;
}.

Lemma tkeeps_trans a1 a2 a3 : tkeeps a1 a2 -> tkeeps a2 a3 -> tkeeps a1 a3.
Proof.
  intros [N1 K1 O1 U1 G1] [N2 K2 O2 U2 G2]. split; [lia|..].
  - intros id it H Hne. destruct (K1 _ _ H Hne) as (H1 & E1 & Hne1).
    destruct (K2 _ _ H1 Hne1) as (H2 & E2 & Hne2). by rewrite E2.
  - intros id it H. apply O2 in H as [H|H]; [|right; lia]. by apply O1.
  - eauto.
  - intros t Ht H. apply G2; [lia|]. by apply G1.
Qed.

Lemma tkeeps_same a a' : same_timers a a' -> postponeTimer a' = postponeTimer a -> tkeeps a a'.
Proof.
  intros (E1 & E2 & E3 & E4) E5. split; rewrite ?E1, ?E3, ?E4, ?E5; auto.
Qed.

Lemma tkeeps_refl a : tkeeps a a.
Proof. by apply tkeeps_same. Qed.

Lemma stopPostponeFlush_tkeeps a :
  timers_wf a -> (0 < postponeTimer a \/ postponeTimer a = 0)%Z -> tkeeps a (stopPostponeFlush a).
Proof.
  intros Hwf Hpt. unfold stopPostponeFlush.
  destruct (Z.eqb_spec (postponeTimer a) 0) as [E|E]; [apply tkeeps_refl|].
  unfold StopTimer. destruct (timers a !! postponeTimer a) as [x|] eqn:Ex; simpl.
  - split; simpl; [done|..].
    + intros id it H Hne. split; [by rewrite lookup_delete_ne by done|].
      split.
      * rewrite lookup_delete_ne; [done|]. intros Et. apply Hne. by eapply (tw_inj _ Hwf).
      * pose proof (tw_keys _ Hwf id (ex_intro _ it H)). lia.
    + intros id it H. apply lookup_delete_Some in H as [_ H]. by left.
    + intros t id c tt H. by apply lookup_delete_Some in H as [_ H].
    + intros t _ H. apply lookup_delete_None. by right.
  - split; simpl; [done|..].
    + intros id it H Hne. split; [done|]. split; [done|].
      pose proof (tw_keys _ Hwf id (ex_intro _ it H)). lia.
    + auto.
    + auto.
    + auto.
Qed.

Lemma armPostponeFlush_tkeeps a :
  timers_wf a -> (0 <= timerId a < MaxInt - 1)%Z -> tkeeps a (armPostponeFlush a).
Proof.
  intros Hwf Hb. unfold armPostponeFlush. destruct (negb _ || _) eqn:Earm; [apply tkeeps_refl|].
  pose proof (Timer_next "PostponeFlush" FnPostponeFlush a Hwf Hb) as Hid.
  unfold Timer in *. simpl in *. rewrite Hid. split; simpl; [lia|..].
  - intros id it H Hne. pose proof (tw_keys _ Hwf id (ex_intro _ it H)) as Hk.
    pose proof (tw_item _ Hwf _ _ H) as Hi.
    split; [by rewrite lookup_insert_ne by lia|]. split; [by rewrite lookup_insert_ne by lia|lia].
  - intros id it H. apply lookup_insert_Some in H as [[<- <-]|[_ H]]; [right; simpl; lia|by left].
  - intros t id c tt H. by apply lookup_insert_Some in H as [[? ?]|[_ H]].
  - intros t Hlt H. by rewrite lookup_insert_ne by lia.
Qed.

(** The flush timer has a positive id or none: in a well-formed control. *)
Lemma flush_id_pos a : queue_wf a -> (0 < postponeTimer a \/ postponeTimer a = 0)%Z.
Proof.
  intros [Ht _ Hf]. destruct (Z.eq_dec (postponeTimer a) 0) as [E|E]; [by right|left].
  pose proof (tw_keys _ Ht _ (Hf E)). lia.
Qed.

Lemma poseponePost_tkeeps w a : queue_wf a -> tkeeps a (poseponePost w a).2.
Proof.
  intros Hq. unfold poseponePost. destruct (postpone a) as [|x l] eqn:El; [apply tkeeps_refl|].
  destruct (retry_items_frame w (set_postpone [] (postponeSet a) a) (x :: l)) as [n Hn].
  destruct (retry_items _ _ _) as [[w1 a1] kept]. simpl in Hn. subst a1.
  set (a2 := set_postpone kept (item_ids kept) (set_seq n (set_postpone [] (postponeSet a) a))).
  assert (tkeeps a a2) as H2 by (by apply tkeeps_same).
  destruct kept; simpl; [|done]. eapply tkeeps_trans; [exact H2|].
  apply stopPostponeFlush_tkeeps; [by apply (timers_wf_same a), (qw_timers _ Hq)|].
  by apply (flush_id_pos a).
Qed.

Lemma appendPostpone_tkeeps id req a :
  timers_wf a -> (0 <= timerId a < MaxInt - 1)%Z -> tkeeps a (appendPostpone id req a).
Proof.
  intros Hwf Hb. unfold appendPostpone.
  eapply tkeeps_trans; [|apply armPostponeFlush_tkeeps; [by apply (timers_wf_same a)|done]].
  by apply tkeeps_same.
Qed.

Lemma append_all_tkeeps ids req a :
  ctl_wf a -> (0 <= timerId a)%Z -> (timerId a < MaxInt - 2)%Z ->
  tkeeps a (append_all ids req a).
Proof.
  intros Hwf H0 Hb. destruct ids as [|id ids]; [apply tkeeps_refl|].
  unfold append_all. simpl.
  destruct (appendPostpone_wf id req a) as (H1 & H2 & H3 & _); [done|lia|].
  eapply tkeeps_trans; [apply (appendPostpone_tkeeps id req); [apply Hwf|lia]|].
  assert (postpone (appendPostpone id req a) ≠ []) as Hne.
  { rewrite H2. intros E. by apply app_nil in E as [_ ?]. }
  assert (0 <= timerId (appendPostpone id req a) < MaxInt - 1)%Z as Hb' by lia.
  revert H1 Hne Hb'. generalize (appendPostpone id req a) as b. clear.
  induction ids as [|id ids IH]; intros b Hwf Hne Hb; simpl; [apply tkeeps_refl|].
  destruct (appendPostpone_wf id req b) as (G1 & G2 & G3 & G4); [done|done|].
  eapply tkeeps_trans; [by apply appendPostpone_tkeeps; [apply Hwf|]|].
  apply IH; [done| |by rewrite G4].
  rewrite G2. intros E. by apply app_nil in E as [_ ?].
Qed.

Lemma AMulticast_tkeeps w a ids req :
  ctl_wf a -> (0 <= timerId a < MaxInt - 3)%Z -> tkeeps a (AMulticast w a ids req).1.2.
Proof.
  intros Hwf Hb. unfold AMulticast.
  pose proof (poseponePost_tkeeps w a (ctl_wf_queue _ Hwf)) as K1.
  destruct (poseponePost_fromSeq w a (from (poseponePost w a).2) Hwf) as [Hwf2 E2].
  destruct (poseponePost w a) as [w1 a1]. cbn [fst snd] in *.
  destruct (splitPostpone a1 ids) as [p np].
  assert (tkeeps a (fromSeq a1 (from a1)).1) as K2.
  { eapply tkeeps_trans; [exact K1|]. by apply tkeeps_same. }
  destruct (fromSeq a1 (from a1)) as [a2 fr]. cbn [fst snd] in *.
  destruct (fmulticast w1 fr np req) as [w2 [list [e|]]]; [done|].
  destruct (splitIdErr list) as [b nb]. cbn [fst snd].
  destruct (append_all_wf b req a2 Hwf2) as (H1 & _ & H3 & _); [intros; lia|].
  eapply tkeeps_trans; [exact K2|].
  eapply tkeeps_trans; [apply (append_all_tkeeps b req); [done|lia|lia]|].
  apply append_all_tkeeps; [done|lia|lia].
Qed.

Lemma postponeFlush_tkeeps w a :
  timers_wf a -> postponeSet a = item_ids (postpone a) -> (0 <= timerId a < MaxInt - 1)%Z ->
  tkeeps a (postponeFlush w a).2.
Proof.
  intros Ht Hs Hb. unfold postponeFlush.
  assert (queue_wf (set_postponeTimer 0 a)) as Hq.
  { split; simpl; [by apply (timers_wf_same a)|done|done]. }
  pose proof (poseponePost_tkeeps w _ Hq) as K1.
  destruct (poseponePost_spec w _ Hq) as (H1 & H2 & _).
  destruct (poseponePost w (set_postponeTimer 0 a)) as [w1 a1]. cbn [fst snd] in *.
  assert (tkeeps a (set_postponeTimer 0 a)) as K0.
  { split; simpl; auto. intros id it H _. split; [done|]. split; [done|].
    pose proof (tw_keys _ Ht id (ex_intro _ it H)). lia. }
  eapply tkeeps_trans; [exact K0|]. eapply tkeeps_trans; [exact K1|].
  apply armPostponeFlush_tkeeps; [apply H1|]. by rewrite H2.
Qed.
End user_timers.

(** ** Sending a refresh *)
Section sending.
Context {I Any : Type} `{!ActorId I, !GoAny Any} {W Hook : Type} `{!Clock W}.
Context `{!Poster W I (refreshReq Any) (storeRep Any)} (is_R : binding -> I -> bool).
Abbreviation ctl := (ActorControl I (refreshReq Any) Hook storeCB).
Implicit Types (a : ctl) (w : W) (e : entry I Any).

(** The control kept its timers, within [n] new ids. *)
Definition ctl_kept (n : nat) a a' : Prop :=
  ctl_wf a' /\ (timerId a <= timerId a' <= timerId a + Z.of_nat n)%Z /\ tkeeps a a'.

Definition room (n : nat) a : Prop := (0 <= timerId a)%Z /\ (timerId a + Z.of_nat n + 3 < MaxInt)%Z.

Lemma ctl_kept_refl n a : ctl_wf a -> ctl_kept n a a.
Proof. intros H. split; [done|]. split; [lia|apply tkeeps_refl]. Qed.

Lemma bind_deliver_kept w a subs req :
  ctl_wf a -> room 0 a -> ctl_kept 1 a (bind_deliver w a subs req).1.2.
Proof.
  intros Hwf [H0 Hb]. unfold bind_deliver.
  destruct (elements subs) as [|id ids]; [by apply ctl_kept_refl|].
  pose proof (AMulticast_keeps w a (id :: ids) req ltac:(lia) Hwf) as [H1 H2].
  pose proof (AMulticast_tkeeps w a (id :: ids) req Hwf ltac:(lia)) as H3.
  destruct (AMulticast w a (id :: ids) req) as [[w1 a1] [errs err]]. by split.
Qed.

Lemma deliver_all_kept binds w a req :
  ctl_wf a -> room (length binds) a -> ctl_kept (length binds) a (deliver_all is_R binds w a req).1.1.2.
Proof.
  revert w a. induction binds as [|[b subs] binds IH]; intros w a Hwf [H0 Hb]; [by apply ctl_kept_refl|].
  cbn [deliver_all length] in *.
  destruct (bind_deliver_kept w a subs req Hwf) as (H1 & H2 & H3); [split; lia|].
  destruct (bind_deliver w a subs req) as [[w1 a1] gone]. cbn [fst snd] in *.
  destruct (IH w1 a1 H1) as (G1 & G2 & G3); [split; lia|].
  destruct (deliver_all is_R binds w1 a1 req) as [[[w2 a2] binds'] log]. cbn [fst snd] in *.
  split; [done|]. split; [lia|]. by eapply tkeeps_trans.
Qed.

Lemma bind_remove_all_sub b subs gone : foldl (bind_remove is_R b) subs gone ⊆ subs.
Proof.
  revert subs. induction gone as [|id gone IH]; intros subs; simpl; [done|].
  etrans; [apply IH|]. unfold bind_remove. destruct (is_R b id); set_solver.
Qed.

Lemma deliver_all_log binds w a req :
  (deliver_all is_R binds w a req).2 = (fun bs => (elements bs.2, req)) <$> binds /\
  Forall2 (fun x y => x.1 = y.1 /\ y.2 ⊆ x.2) binds (deliver_all is_R binds w a req).1.2.
Proof.
  revert w a. induction binds as [|[b subs] binds IH]; intros w a; [done|].
  cbn [deliver_all]. destruct (bind_deliver w a subs req) as [[w1 a1] gone].
  destruct (IH w1 a1) as [E1 E2].
  destruct (deliver_all is_R binds w1 a1 req) as [[[w2 a2] binds'] log]. cbn [fst snd] in *.
  split; [simpl; by rewrite E1|]. constructor; [|done]. split; [done|apply bind_remove_all_sub].
Qed.

(** The fields a refresh leaves alone. *)
Definition same_value e e' : Prop :=
  e_name e' = e_name e /\ e_value e' = e_value e /\ e_version e' = e_version e /\
  e_hasValue e' = e_hasValue e /\ e_info e' = e_info e /\ e_lastPub e' = e_lastPub e /\
  e_pending e' = e_pending e.

Definition subs_shrink e e' : Prop :=
  forall b s', e_subs e' !! b = Some s' -> exists s, e_subs e !! b = Some s /\ s' ⊆ s.

Lemma forall2_fst {A B} (l l' : list (A * B)) (P : A * B -> A * B -> Prop) :
  Forall2 (fun x y => x.1 = y.1 /\ P x y) l l' -> l.*1 = l'.*1.
Proof. induction 1 as [|x y l l' [E _] _ IH]; [done|]. rewrite !fmap_cons. congruence. Qed.

Lemma sendRefresh_frame w a e :
  same_value e (sendRefresh is_R w a e).1.2 /\ subs_shrink e (sendRefresh is_R w a e).1.2.
Proof.
  unfold sendRefresh. destruct (_ =? _)%nat.
  { split; [done|]. intros b s' H. by exists s'. }
  destruct (deliver_all_log (map_to_list (e_subs e)) w a (refresh_of e)) as [_ H2].
  destruct (deliver_all is_R _ _ _ _) as [[[w1 a1] binds] log]. cbn [fst snd] in *.
  split; [done|]. intros b s' H. simpl in H.
  apply elem_of_list_to_map_2 in H.
  apply list_elem_of_lookup in H as [i Hi].
  destruct (Forall2_lookup_r _ _ _ _ _ H2 Hi) as ([b0 s0] & Hj & Eb & Hs).
  simpl in Eb, Hs. subst b0. exists s0. split; [|done].
  apply elem_of_map_to_list. by eapply list_elem_of_lookup_2.
Qed.

Lemma sendRefresh_log w a e :
  (sendRefresh is_R w a e).2 =
    (fun bs => (elements bs.2, refresh_of e)) <$> map_to_list (e_subs e).
Proof.
  unfold sendRefresh. destruct (Nat.eqb_spec (size (e_subs e)) 0) as [E|E].
  { apply map_size_empty_iff in E. by rewrite E, map_to_list_empty. }
  destruct (deliver_all_log (map_to_list (e_subs e)) w a (refresh_of e)) as [H1 _].
  by destruct (deliver_all is_R _ _ _ _) as [[[w1 a1] binds] log].
Qed.

Lemma sendRefresh_kept w a e :
  ctl_wf a -> room (size (e_subs e)) a -> ctl_kept (size (e_subs e)) a (sendRefresh is_R w a e).1.1.2.
Proof.
  intros Hwf Hr. unfold sendRefresh. destruct (_ =? _)%nat; [by apply ctl_kept_refl|].
  pose proof (deliver_all_kept (map_to_list (e_subs e)) w a (refresh_of e)) as H.
  rewrite length_map_to_list in H. specialize (H Hwf Hr).
  by destruct (deliver_all is_R _ _ _ _) as [[[w1 a1] binds] log].
Qed.
End sending.

(** ** The timers of the store

    [armed]: a stub that has been started, not stopped, and whose callback has not run:
    it runs in package time, or it has fired and waits in the mailbox. *)
Section armed.
Context {I Any : Type} `{!ActorId I} {Hook : Type}.
Abbreviation ctl := (ActorControl I (refreshReq Any) Hook storeCB).
Abbreviation stub := (timerStub storeCB).
Implicit Types (a : ctl) (mail : list stub) (st : stub).

Definition armed a mail st : Prop :=
  exists it, timers a !! stub_id st = Some it /\ ti_timer it = stub_t st /\
    (gotimers a !! stub_t st = Some st \/ st ∈ mail).

(** The invariant of the control of the store; [pend] are the entries a refresh is
    scheduled for. *)
Record tinv (pend : nat -> Prop) a mail : Prop := {
  tv_timers : timers_wf a;
  tv_mail : forall st, st ∈ mail -> gotimers a !! stub_t st = None /\ stub_t st < next_timer a;
  tv_nodup : NoDup (stub_t <$> mail);
  tv_user : forall st c, armed a mail st -> stub_fn st = FnUser c -> stub_id st ≠ postponeTimer a;
  tv_pend : forall p, pend p -> exists st d, armed a mail st /\ stub_fn st = FnUser (RefreshCB p d);
}.

Lemma armed_keep a a' mail st :
  tkeeps a a' -> armed a mail st -> stub_id st ≠ postponeTimer a ->
  armed a' mail st /\ stub_id st ≠ postponeTimer a'.
Proof.
  intros K (it & H1 & H2 & H3) Hne. destruct (tk_kept _ _ K _ _ H1 Hne) as (G1 & G2 & G3).
  split; [|done]. exists it. rewrite <- H2, G2, H2. done.
Qed.

Lemma armed_back a a' mail st c :
  timers_wf a -> tkeeps a a' -> (forall st, st ∈ mail -> stub_t st < next_timer a) ->
  armed a' mail st -> stub_fn st = FnUser c -> armed a mail st.
Proof.
  intros Hwf K Hm (it & H1 & H2 & [H3|H3]) Hfn.
  - destruct st as [f id t]; simpl in *; subst f. apply (tk_user _ _ K) in H3.
    destruct (tw_go _ Hwf _ _ H3) as (_ & _ & it' & E1 & E2). simpl in E1. exists it'. auto.
  - exists it. split; [|auto]. destruct (tk_old _ _ K _ _ H1) as [H|H]; [done|].
    specialize (Hm _ H3). lia.
Qed.

Lemma tinv_weaken (pend pend' : nat -> Prop) a mail :
  (forall p, pend' p -> pend p) -> tinv pend a mail -> tinv pend' a mail.
Proof. intros H []. split; auto. Qed.

Lemma tinv_kept pend a a' mail : timers_wf a' -> tkeeps a a' -> tinv pend a mail -> tinv pend a' mail.
Proof.
  intros Hwf K [Hc Hm Hn Hu Hp]. split; [done|..].
  - intros st Hst. destruct (Hm _ Hst) as [H1 H2].
    split; [by apply (tk_go _ _ K)|]. pose proof (tk_next _ _ K). lia.
  - done.
  - intros st c Ha Hfn.
    assert (armed a mail st) as Ha0.
    { eapply armed_back; [done|done| |done|done]. intros st' Hst'. by apply Hm. }
    by destruct (armed_keep _ _ _ _ K Ha0 (Hu _ _ Ha0 Hfn)).
  - intros p Hpp. destruct (Hp _ Hpp) as (st & d & Ha & Hfn). exists st, d. split; [|done].
    by destruct (armed_keep _ _ _ _ K Ha (Hu _ _ Ha Hfn)).
Qed.

Lemma ctl_kept_same a a' :
  ctl_wf a -> same_timers a a' -> same_queue a a' -> ctl_kept 0 a a'.
Proof.
  intros Hwf Ht Hq. split; [by eapply ctl_wf_same|].
  split; [destruct Ht as (_ & -> & _); lia|]. apply tkeeps_same; [done|apply Hq].
Qed.

(** A fresh user timer. *)
Lemma tinv_timer pend nm cb a mail :
  ctl_wf a -> room 0 a -> tinv pend a mail ->
  tinv (fun p => pend p \/ exists d, cb = RefreshCB p d) (Timer nm (FnUser cb) a).1 mail.
Proof.
  intros Hc [H0 Hb] [Ht Hm Hn Hu Hp]. pose proof (wf_flush _ Hc) as Hf.
  pose proof (Timer_timers_wf nm (FnUser cb) a Ht ltac:(lia)) as Hc'.
  pose proof (Timer_next nm (FnUser cb) a Ht ltac:(lia)) as Hid.
  unfold Timer in *. simpl in *. rewrite Hid in *.
  assert (forall st, armed a mail st -> stub_id st ≠ (timerId a + 1)%Z /\ stub_t st < next_timer a) as Hold.
  { intros st (it & H1 & H2 & _). pose proof (tw_keys _ Ht _ (ex_intro _ it H1)).
    pose proof (tw_item _ Ht _ _ H1). split; lia. }
  assert (postponeTimer a ≠ (timerId a + 1)%Z) as Hpt.
  { destruct (Z.eq_dec (postponeTimer a) 0) as [->|E]; [lia|].
    pose proof (tw_keys _ Ht _ (Hf E)). lia. }
  assert (forall st, armed a mail st -> armed (Timer nm (FnUser cb) a).1 mail st) as Hkeep.
  { intros st Ha. destruct (Hold _ Ha) as [H1 H2]. destruct Ha as (it & G1 & G2 & G3).
    exists it. unfold Timer. simpl. rewrite Hid, lookup_insert_ne by done.
    rewrite lookup_insert_ne by lia. done. }
  unfold Timer in Hkeep. simpl in Hkeep. rewrite Hid in Hkeep.
  split; [done|..]; simpl.
  - intros st Hst. destruct (Hm _ Hst) as [H1 H2]. rewrite lookup_insert_ne by lia. split; [done|lia].
  - done.
  - intros st c (it & H1 & H2 & H3) Hfn. simpl in *.
    destruct (decide (stub_id st = timerId a + 1)%Z) as [E|E]; [congruence|].
    rewrite lookup_insert_ne in H1 by done. pose proof (tw_item _ Ht _ _ H1).
    rewrite lookup_insert_ne in H3 by lia. eapply Hu; [|done]. by exists it.
  - intros p [Hpp|[d ->]].
    + destruct (Hp _ Hpp) as (st & d & Ha & Hfn). exists st, d. auto.
    + exists (mkStub (FnUser (RefreshCB p d)) (timerId a + 1) (next_timer a)), d. split; [|done].
      eexists. simpl. rewrite !lookup_insert_eq. split; [done|]. split; [done|]. by left.
Qed.

Lemma tinv_fire pend t st a mail :
  gotimers a !! t = Some st -> tinv pend a mail -> tinv pend (fire_timer t a).1 (mail ++ [st])%list.
Proof.
  intros Hgo [Ht Hm Hn Hu Hp].
  destruct (tw_go _ Ht _ _ Hgo) as (Et & Hlt & it0 & Hi1 & Hi2).
  assert (forall st', armed a mail st' <-> armed (fire_timer t a).1 (mail ++ [st])%list st') as Hiff.
  { intros st'. unfold armed, fire_timer, stop_gotimer. simpl. setoid_rewrite elem_of_app.
    setoid_rewrite list_elem_of_singleton. split; intros (it & H1 & H2 & H3); exists it;
      (split; [done|]; split; [done|]).
    - destruct (decide (t = stub_t st')) as [->|E].
      + right. destruct H3 as [H3|H3]; [right; congruence|by left].
      + rewrite lookup_delete_ne by done. tauto.
    - destruct H3 as [H3|[H3| ->]]; [|by right|left; congruence].
      apply lookup_delete_Some in H3 as [_ H3]. by left. }
  split.
  - destruct Ht as [Hk Hg Hi Hj]. split; simpl; try done.
    intros t' s H. apply lookup_delete_Some in H as [_ H]. by apply Hg.
  - intros st' Hst. apply elem_of_app in Hst as [Hst|Hst]; simpl.
    + destruct (Hm _ Hst). split; [|done]. apply lookup_delete_None. by right.
    + apply list_elem_of_singleton in Hst as ->. rewrite Et, lookup_delete_eq. done.
  - rewrite fmap_app. apply NoDup_app. split; [done|]. split; [|apply NoDup_singleton].
    intros x Hx Hx'. apply list_elem_of_fmap in Hx as (y & -> & Hy). simpl in Hx'.
    apply list_elem_of_singleton in Hx'. destruct (Hm _ Hy) as [H _]. congruence.
  - intros st' c Ha Hfn. apply Hiff in Ha. simpl. by eapply Hu.
  - intros p Hpp. destruct (Hp _ Hpp) as (st' & d & Ha & Hfn). exists st', d. split; [|done]. by apply Hiff.
Qed.

(** Two armed stubs do not share an id. *)
Lemma armed_unique pend a mail st st' :
  tinv pend a mail -> armed a mail st -> armed a mail st' -> stub_id st = stub_id st' -> st = st'.
Proof.
  intros [Ht Hm Hn Hu Hp] (it & H1 & H2 & H3) (it' & G1 & G2 & G3) E.
  assert (stub_t st = stub_t st') as Et by congruence.
  destruct H3 as [H3|H3], G3 as [G3|G3].
  - congruence.
  - destruct (Hm _ G3). congruence.
  - destruct (Hm _ H3). congruence.
  - apply list_elem_of_lookup in H3 as [i Hi]. apply list_elem_of_lookup in G3 as [j Hj].
    assert (i = j) as ->.
    { eapply NoDup_lookup; [exact Hn| |]; rewrite list_lookup_fmap; [by rewrite Hi|]. rewrite Hj. simpl. by rewrite Et. }
    congruence.
Qed.

Lemma armed_mail_sub a m1 m2 st x : armed a (m1 ++ m2) x -> armed a (m1 ++ st :: m2) x.
Proof.
  intros (it & H1 & H2 & H3). exists it. split; [done|]. split; [done|].
  rewrite elem_of_app, elem_of_cons in *. tauto.
Qed.

Lemma mail_sub m1 m2 st x : x ∈ (m1 ++ m2)%list -> x ∈ (m1 ++ st :: m2)%list.
Proof. rewrite !elem_of_app, elem_of_cons. tauto. Qed.

Lemma NoDup_mid m1 m2 st : NoDup (stub_t <$> (m1 ++ st :: m2)%list) -> NoDup (stub_t <$> (m1 ++ m2)%list).
Proof.
  rewrite !fmap_app, fmap_cons. intros H. apply NoDup_app in H as (H1 & H2 & H3).
  apply NoDup_cons in H3 as [_ H3]. apply NoDup_app. split; [done|]. split; [|done].
  intros x Hx Hx'. apply (H2 x Hx). by apply list_elem_of_further.
Qed.

(** The message of a timer that was stopped meanwhile is ignored. *)
Lemma tinv_stale pend a m1 m2 st :
  take_timer st a = None -> tinv pend a (m1 ++ st :: m2) -> tinv pend a (m1 ++ m2).
Proof.
  intros Hnone Hinv. pose proof Hinv as [Ht Hm Hn Hu Hp]. split.
  - done.
  - intros x Hx. by apply Hm, mail_sub.
  - by eapply NoDup_mid.
  - intros x c Ha Hfn. eapply Hu; [by apply armed_mail_sub|done].
  - intros p Hpp. destruct (Hp _ Hpp) as (x & d & Ha & Hfn). exists x, d. split; [|done].
    destruct Ha as (it & H1 & H2 & H3). exists it. split; [done|]. split; [done|].
    rewrite elem_of_app, elem_of_cons in H3. rewrite elem_of_app.
    destruct H3 as [?|[?|[->|?]]]; try tauto.
    exfalso. unfold take_timer in Hnone. rewrite H1, bool_decide_eq_true_2 in Hnone; done.
Qed.

(** The message of a running timer removes it; the other stubs stay armed. *)
Lemma take_armed pend a a' m1 m2 st :
  take_timer st a = Some a' -> tinv pend a (m1 ++ st :: m2) ->
  armed a (m1 ++ st :: m2) st /\
  (forall x, armed a' (m1 ++ m2) x -> armed a (m1 ++ st :: m2) x) /\
  (forall x, armed a (m1 ++ st :: m2) x -> x ≠ st -> armed a' (m1 ++ m2) x).
Proof.
  intros Htake Hinv. unfold take_timer in Htake.
  destruct (timers a !! stub_id st) as [it|] eqn:E; [|done].
  case_bool_decide as Et; [|done]. injection Htake as <-.
  assert (armed a (m1 ++ st :: m2) st) as Hst.
  { exists it. split; [done|]. split; [done|]. right. apply elem_of_app. right. apply list_elem_of_here. }
  split; [done|]. split.
  - intros x (it' & H1 & H2 & H3). simpl in *. apply lookup_delete_Some in H1 as [_ H1].
    exists it'. split; [done|]. split; [done|]. destruct H3; [by left|right; by apply mail_sub].
  - intros x Hx Hne. pose proof Hx as (it' & H1 & H2 & H3). exists it'. simpl. split.
    + rewrite lookup_delete_ne; [done|]. intros Eid. apply Hne. symmetry.
      by eapply armed_unique.
    + split; [done|]. destruct H3 as [H3|H3]; [by left|right].
      rewrite elem_of_app, elem_of_cons in H3. rewrite elem_of_app. tauto.
Qed.

Lemma tinv_take (pend pend' : nat -> Prop) a a' m1 m2 st :
  take_timer st a = Some a' -> tinv pend a (m1 ++ st :: m2) ->
  (forall p, pend' p -> pend p /\ forall d, stub_fn st ≠ FnUser (RefreshCB p d)) ->
  tinv pend' a' (m1 ++ m2).
Proof.
  intros Htake Hinv Hpend. destruct (take_armed _ _ _ _ _ _ Htake Hinv) as (Hst & Hback & Hkeep).
  pose proof Hinv as [Ht Hm Hn Hu Hp].
  destruct (Hm st) as [Hgo _].
  { apply elem_of_app. right. apply list_elem_of_here. }
  destruct (take_timer_wf _ _ _ Ht Hgo Htake) as (G1 & (_ & _ & Q3) & _ & _).
  assert (gotimers a' = gotimers a /\ next_timer a' = next_timer a) as [E1 E2].
  { unfold take_timer in Htake. destruct (timers a !! _); [|done].
    case_bool_decide; [|done]. by injection Htake as <-. }
  split; [done|..].
  - intros x Hx. rewrite E1, E2. by apply Hm, mail_sub.
  - by eapply NoDup_mid.
  - intros x c Ha Hfn. rewrite Q3. eapply Hu; [by apply Hback|done].
  - intros p Hpp. destruct (Hpend p Hpp) as [Hpp0 Hno].
    destruct (Hp _ Hpp0) as (x & d & Ha & Hfn). exists x, d. split; [|done].
    apply Hkeep; [done|]. intros ->. by apply (Hno d).
Qed.
End armed.
