(* ===== verification/StoreSpec.v ===== *)
(** * Theorems on the store

    The store against its specification as a map of versioned values; every subscriber
    has been given the latest version, or a running timer will offer it; the cooldown. *)

From S2P Require Import Prelude ActorTypes Control ControlProps Registry Runtime Store StoreTimers.

Local Open Scope string_scope.

(** ** The heap of entries *)
Section store_state.
Context {I Any : Type} `{!ActorId I, !GoAny Any}.
Implicit Types (s : storeState I Any) (e : entry I Any).

Record store_wf s : Prop := {
  sw_ptr : forall n p, entries s !! n = Some p -> exists e, heap s !! p = Some e /\ e_name e = n;
  sw_fresh : forall p e, heap s !! p = Some e -> p < next_ptr s;
}.

Lemma zero_store_wf : store_wf (zero_store : storeState I Any).
Proof. by split. Qed.

Lemma get_entry_Some p e s : heap s !! p = Some e -> get_entry p s = e.
Proof. unfold get_entry. by intros ->. Qed.

Lemma entry_ptr_spec name s :
  store_wf s ->
  let s' := (entry_ptr name s).1 in let p := (entry_ptr name s).2 in
  store_wf s' /\ entries s' !! name = Some p /\
  heap s' !! p = Some (get_entry p s') /\ e_name (get_entry p s') = name /\
  (forall n, n ≠ name -> entries s' !! n = entries s !! n) /\
  (forall q, q ≠ p -> heap s' !! q = heap s !! q) /\
  match entries s !! name with
  | Some p0 => s' = s /\ p = p0
  | None => heap s !! p = None /\ get_entry p s' = new_entry name
  end.
Proof.
  intros [Hp Hf]. unfold entry_ptr. destruct (entries s !! name) as [p|] eqn:E; simpl.
  - destruct (Hp _ _ E) as (e & H1 & H2). rewrite (get_entry_Some _ _ _ H1). by repeat split.
  - assert (heap s !! next_ptr s = None) as Hn.
    { destruct (heap s !! next_ptr s) eqn:E'; [|done]. apply Hf in E'. lia. }
    assert (forall q, q ≠ next_ptr s -> <[next_ptr s := new_entry name]> (heap s) !! q = heap s !! q) as Hne.
    { intros q Hq. by rewrite lookup_insert_ne. }
    unfold get_entry. simpl. rewrite !lookup_insert_eq.
    split; [split; simpl|split; [done|split; [done|split; [done|]]]].
    + intros n p [[<- <-]|[Hnm H]]%lookup_insert_Some.
      * rewrite lookup_insert_eq. by eexists.
      * destruct (Hp _ _ H) as (e & G1 & G2). exists e.
        rewrite Hne; [done|]. intros ->. congruence.
    + intros p e [[<- <-]|[_ H]]%lookup_insert_Some; [lia|]. apply Hf in H. lia.
    + split; [|done]. intros n H. by rewrite lookup_insert_ne.
Qed.

Lemma set_entry_wf p e e' s :
  heap s !! p = Some e -> e_name e' = e_name e -> store_wf s -> store_wf (set_entry p e' s).
Proof.
  intros Hh Hn [Hp Hf]. split; simpl.
  - intros n q H. destruct (Hp _ _ H) as (e0 & H1 & H2). destruct (decide (p = q)) as [<-|Hne].
    + rewrite lookup_insert_eq. exists e'. split; [done|]. congruence.
    + rewrite lookup_insert_ne by done. by exists e0.
  - intros q e0 [[<- <-]|[_ H]]%lookup_insert_Some; by eapply Hf.
Qed.

(** *** The specification: a map of versioned values *)
Definition val_of e : option (Z * Any) :=
  if e_hasValue e then Some (e_version e, e_value e) else None.

Definition view s (n : string) : option (Z * Any) :=
  match entries s !! n with Some p => val_of (get_entry p s) | None => None end.

(** Two names never share an entry. *)
Lemma entries_inj s n1 n2 p : store_wf s -> entries s !! n1 = Some p -> entries s !! n2 = Some p -> n1 = n2.
Proof.
  intros [Hp _] H1 H2. destruct (Hp _ _ H1) as (e1 & E1 & <-).
  destruct (Hp _ _ H2) as (e2 & E2 & <-). congruence.
Qed.

Lemma view_set_entry p e' s name n :
  store_wf s -> entries s !! name = Some p ->
  view (set_entry p e' s) n = if decide (n = name) then val_of e' else view s n.
Proof.
  intros Hwf Hp. unfold view, get_entry. simpl. case_decide as E.
  - subst. by rewrite Hp, lookup_insert_eq.
  - destruct (entries s !! n) as [q|] eqn:Eq; [|done].
    rewrite lookup_insert_ne; [done|]. intros ->. apply E. by eapply entries_inj.
Qed.

Lemma view_set_same p e' s n :
  store_wf s -> heap s !! p = Some (get_entry p s) -> val_of e' = val_of (get_entry p s) ->
  view (set_entry p e' s) n = view s n.
Proof.
  intros Hwf Hh Hv. unfold view, get_entry in *. simpl. destruct (entries s !! n) as [q|]; [|done].
  destruct (decide (p = q)) as [<-|Hne]; [|by rewrite lookup_insert_ne].
  by rewrite lookup_insert_eq.
Qed.

Lemma view_entry_ptr name s n : store_wf s -> view (entry_ptr name s).1 n = view s n.
Proof.
  intros Hwf. destruct (entry_ptr_spec name s Hwf) as (_ & H1 & H2 & _ & H4 & H5 & H6).
  unfold view. destruct (decide (n = name)) as [->|Hne].
  - rewrite H1. destruct (entries s !! name) eqn:E.
    + destruct H6 as [E1 E2]. by rewrite E1, E2.
    + destruct H6 as [_ ->]. done.
  - rewrite H4 by done. destruct (entries s !! n) as [q|] eqn:Eq; [|done].
    unfold get_entry in *. destruct (decide (q = (entry_ptr name s).2)) as [->|Hq]; [|by rewrite H5].
    destruct (sw_ptr _ Hwf _ _ Eq) as (e & G1 & G2).
    destruct (entries s !! name) eqn:E.
    + destruct H6 as [-> _]. done.
    + destruct H6 as [H6 _]. congruence.
Qed.
End store_state.

(** *** Requests against the specification *)
Section refinement.
Context {I Any : Type} `{!ActorId I, !GoAny Any} {W Hook : Type} `{!Clock W}.
Context `{!Poster W I (refreshReq Any) (storeRep Any)} (is_R : binding -> I -> bool).
Abbreviation ctx := (ActorContext I (refreshReq Any) Hook storeCB (storeState I Any)).
Implicit Types (c : ctx) (w : W).

(** What a request does to the map, and what it answers. *)
Definition spec_step (q : storeReq I Any) (m : string -> option (Z * Any)) (n : string) : option (Z * Any) :=
  match q with
  | publishReq name v _ =>
      if decide (n = name)
      then Some (wrap64 (match m name with Some vv => vv.1 | None => 0%Z end + 1), v)
      else m n
  | unpublishReq name => if decide (n = name) then None else m n
  | subscribeReq _ _ _ | fetchReq _ => m n
  end.

Definition spec_reply (q : storeReq I Any) (m : string -> option (Z * Any)) : handler_end (storeRep Any) :=
  let read name (rep : Z -> Any -> storeRep Any) :=
    match m name with
    | Some (version, v) => HReturn (Some (rep version v)) None
    | None => HReturn None (Some (NotPublishedError name))
    end in
  match q with
  | publishReq _ _ _ | unpublishReq _ => HReturn (Some OkRep) None
  | subscribeReq name _ _ => read name subscribeRep
  | fetchReq name => read name fetchRep
  end.

(** An entry without a value has version 0. *)
Definition version0 (s : storeState I Any) : Prop :=
  forall p e, heap s !! p = Some e -> e_hasValue e = false -> e_version e = 0%Z.

Definition store_ok (s : storeState I Any) : Prop := store_wf s /\ version0 s.

Lemma set_entry_ok p e e' (s : storeState I Any) :
  heap s !! p = Some e -> e_name e' = e_name e ->
  (e_hasValue e' = false -> e_version e' = 0%Z) -> store_ok s -> store_ok (set_entry p e' s).
Proof.
  intros Hh Hn Hv [Hwf H0]. split; [by eapply set_entry_wf|].
  intros q e0 H. simpl in H. apply lookup_insert_Some in H as [[<- <-]|[_ H]]; [done|].
  by eapply H0.
Qed.

Lemma entry_ptr_ok name (s : storeState I Any) : store_ok s -> store_ok (entry_ptr name s).1.
Proof.
  intros [Hwf H0]. destruct (entry_ptr_spec name s Hwf) as (H1 & _ & H2 & _ & _ & H5 & H6).
  split; [done|]. intros q e H Hv.
  destruct (decide (q = (entry_ptr name s).2)) as [->|Hq].
  - destruct (entries s !! name).
    + destruct H6 as [H6 _]. rewrite H6 in H. by eapply H0.
    + destruct H6 as [_ H6]. rewrite H2, H6 in H. by injection H as <-.
  - rewrite H5 in H by done. by eapply H0.
Qed.

Lemma send_at_spec p w c e :
  store_ok (state c) -> heap (state c) !! p = Some e ->
  exists e1, state (send_at is_R p w c).1.2 = set_entry p e1 (state c) /\
    same_value e e1 /\ subs_shrink e e1 /\
    ctrl (send_at is_R p w c).1.2 = (sendRefresh is_R w (ctrl c) e).1.1.2 /\
    (send_at is_R p w c).2 = (sendRefresh is_R w (ctrl c) e).2 /\
    store_ok (state (send_at is_R p w c).1.2) /\
    forall n, view (state (send_at is_R p w c).1.2) n = view (state c) n.
Proof.
  intros Hok Hh. unfold send_at. rewrite (get_entry_Some _ _ _ Hh).
  destruct (sendRefresh_frame is_R w (ctrl c) e) as [Hs Hsub].
  destruct (sendRefresh is_R w (ctrl c) e) as [[[w1 a1] e1] log]. cbn [fst snd] in *. simpl.
  exists e1. split; [done|]. split; [done|]. split; [done|]. split; [done|]. split; [done|].
  destruct Hs as (E1 & E2 & E3 & E4 & _). split.
  - eapply set_entry_ok; [done|done| |done]. rewrite E3, E4. exact (proj2 Hok _ _ Hh).
  - intros n. apply view_set_same; [apply Hok|by rewrite (get_entry_Some _ _ _ Hh)|].
    rewrite (get_entry_Some _ _ _ Hh). unfold val_of. by rewrite E2, E3, E4.
Qed.

Lemma scheduleRefresh_view p dcd w c e :
  store_ok (state c) -> heap (state c) !! p = Some e ->
  store_ok (state (scheduleRefresh is_R p dcd w c).1.2) /\
  forall n, view (state (scheduleRefresh is_R p dcd w c).1.2) n = view (state c) n.
Proof.
  intros Hok Hh. unfold scheduleRefresh. rewrite (get_entry_Some _ _ _ Hh).
  destruct (e_pending e); [done|]. destruct (_ || _).
  - destruct (send_at_spec p w c e Hok Hh) as (e1 & _ & _ & _ & _ & _ & H1 & H2). done.
  - simpl. split.
    + eapply set_entry_ok; [done|done| |done]. exact (proj2 Hok _ _ Hh).
    + intros n. apply view_set_same; [apply Hok|by rewrite (get_entry_Some _ _ _ Hh)|].
      by rewrite (get_entry_Some _ _ _ Hh).
Qed.

Lemma store_callback_view opts cb w c :
  store_ok (state c) ->
  (forall p d, cb = RefreshCB p d -> is_Some (heap (state c) !! p)) ->
  store_ok (state (store_callback is_R opts cb w c).1.2) /\
  forall n, view (state (store_callback is_R opts cb w c).1.2) n = view (state c) n \/
    view (state (store_callback is_R opts cb w c).1.2) n = None /\
    exists d p, cb = SweepCB d /\ entries (state c) !! n = Some p /\ sweepable opts w (get_entry p (state c)) = true.
Proof.
  intros Hok Hp. destruct cb as [p d|d]; simpl.
  - destruct (Hp p d eq_refl) as [e Hh]. rewrite (get_entry_Some _ _ _ Hh).
    set (c1 := SetState (set_entry p (set_pending false e) (state c)) c).
    assert (store_ok (state c1)) as Hok1 by (eapply set_entry_ok; [done|done|exact (proj2 Hok _ _ Hh)|done]).
    destruct (send_at_spec p w c1 (set_pending false e) Hok1) as (e1 & _ & _ & _ & _ & _ & H1 & H2).
    { apply lookup_insert_eq. }
    split; [done|]. intros n. left. rewrite H2.
    apply view_set_same; [apply Hok|by rewrite (get_entry_Some _ _ _ Hh)|].
    by rewrite (get_entry_Some _ _ _ Hh).
  - unfold sweep. destruct (0 <? IdleTTL opts)%Z; [|split; [done|by left]].
    destruct Hok as [[H1 H2] H3]. split; [split; [split|]; simpl|].
    + intros n p H. apply map_lookup_filter_Some in H as [H _]. by apply H1.
    + done.
    + done.
    + intros n. unfold view at 1 3. simpl. rewrite map_lookup_filter.
      destruct (entries (state c) !! n) as [p|] eqn:E; simpl; [|left; unfold view; by rewrite E].
      case_guard as G; simpl.
      * left. unfold view. by rewrite E.
      * right. split; [done|]. exists d, p. split; [done|]. split; [done|].
        by apply not_false_is_true in G.
Qed.

Lemma publish_refines opts name v info spawning w c :
  store_ok (state c) ->
  let '(w', c', reply, _) := publish is_R opts name v info spawning w c in
  store_ok (state c') /\
  (forall n, view (state c') n = spec_step (publishReq name v info) (view (state c)) n) /\
  reply = spec_reply (publishReq name v info) (view (state c)).
Proof.
  intros Hok. unfold publish.
  set (c1 := if spawning then _ else c).
  assert (state c1 = state c) as Hst by (subst c1; destruct spawning; [by destruct (0 <? _)%Z|done]).
  rewrite Hst. destruct (entry_ptr_ok name (state c) Hok) as [Hwf' H0'].
  destruct (entry_ptr_spec name (state c) (proj1 Hok)) as (_ & H1 & H2 & H3 & _ & _ & H6).
  pose proof (fun n => view_entry_ptr name (state c) n (proj1 Hok)) as Hview.
  destruct (entry_ptr name (state c)) as [s p]. cbn [fst snd] in *.
  set (e := get_entry p s) in *. set (e1 := published e w v info).
  set (c2 := SetState (set_entry p e1 s) c1).
  assert (store_ok (state c2)) as Hok2 by (by eapply set_entry_ok).
  destruct (scheduleRefresh_view p (Cooldown opts) w c2 e1 Hok2) as [G1 G2]; [apply lookup_insert_eq|].
  destruct (scheduleRefresh is_R p (Cooldown opts) w c2) as [[w' c'] log]. cbn [fst snd] in *.
  split; [done|]. split; [|done]. intros n. rewrite G2. simpl.
  rewrite (view_set_entry p e1 s name n) by done. case_decide as E; [|apply Hview].
  subst n. unfold val_of, e1. simpl. f_equal. f_equal. rewrite <- (Hview name).
  unfold view. rewrite H1. fold e. unfold val_of.
  destruct (e_hasValue e) eqn:Ehv; [done|]. simpl.
  by rewrite (H0' _ _ H2 Ehv).
Qed.

Lemma subscribe_refines opts name reader bind spawning w c :
  store_ok (state c) ->
  let '(w', c', reply, _) := handle is_R opts (subscribeReq name reader bind) spawning w c in
  store_ok (state c') /\
  (forall n, view (state c') n = view (state c) n) /\
  reply = spec_reply (subscribeReq name reader bind) (view (state c)).
Proof.
  intros Hok. cbn [handle]. unfold subscribe.
  set (c1 := if spawning then _ else c).
  assert (state c1 = state c) as Hst by (subst c1; by destruct spawning).
  rewrite Hst. pose proof (entry_ptr_ok name (state c) Hok) as Hok'.
  destruct (entry_ptr_spec name (state c) (proj1 Hok)) as (_ & H1 & H2 & H3 & _).
  pose proof (fun n => view_entry_ptr name (state c) n (proj1 Hok)) as Hview.
  destruct (entry_ptr name (state c)) as [s p]. cbn [fst snd] in *.
  set (e := get_entry p s) in *. set (e1 := match bind with Some b => _ | None => e end).
  assert (val_of e1 = val_of e /\ e_name e1 = e_name e /\ e_hasValue e1 = e_hasValue e /\
    e_version e1 = e_version e /\ e_value e1 = e_value e) as (E1 & E2 & E3 & E4 & E5)
    by (subst e1; by destruct bind).
  split; [|split].
  - eapply set_entry_ok; [done|done| |done]. rewrite E3, E4. by eapply (proj2 Hok').
  - intros n. simpl. rewrite view_set_same; [apply Hview|apply Hok'|done|done].
  - simpl. rewrite <- Hview. unfold view. rewrite H1. fold e. unfold val_of.
    rewrite E3, E4, E5. by destruct (e_hasValue e).
Qed.

Lemma fetch_refines name c : fetch name c = spec_reply (fetchReq name) (view (state c)).
Proof.
  unfold fetch, view. simpl. unfold view. destruct (entries (state c) !! name) as [p|]; [|done].
  unfold val_of. by destruct (e_hasValue _).
Qed.

Lemma unpublish_refines name c :
  store_ok (state c) ->
  store_ok (state (unpublish name c)) /\
  (forall n, view (state (unpublish name c)) n = spec_step (unpublishReq name) (view (state c)) n) /\
  HReturn (Some OkRep) None = spec_reply (unpublishReq name) (view (state c)).
Proof.
  intros [[H1 H2] H3]. split; [split; [split|]; simpl|split; [|done]].
  - intros n p [_ H]%lookup_delete_Some. by apply H1.
  - done.
  - done.
  - intros n. unfold view, unpublish. simpl. case_decide as E.
    + subst. by rewrite lookup_delete_eq.
    + by rewrite lookup_delete_ne.
Qed.

(** C16 The store refines a map from names to versioned values: a publish stores the value
    under the next version (starting from 1 for a name without a value), an unpublish
    removes the name, a subscribe and a fetch change nothing and answer the stored version
    and value, or that the key is not published; and whatever the readers, the timers
    and the cooldown do does not change the map, except that a sweep may drop a key that
    has no binding and has not been published for the configured time. *)
Theorem store_refines opts w c :
  store_ok (state c) ->
  (forall q spawning, let '(w', c', reply, _) := handle is_R opts q spawning w c in
     store_ok (state c') /\
     (forall n, view (state c') n = spec_step q (view (state c)) n) /\
     reply = spec_reply q (view (state c))) /\
  (forall cb, (forall p d, cb = RefreshCB p d -> is_Some (heap (state c) !! p)) ->
     let '(w', c', _) := store_callback is_R opts cb w c in
     store_ok (state c') /\
     forall n, view (state c') n = view (state c) n \/
       view (state c') n = None /\ exists d p, cb = SweepCB d /\ entries (state c) !! n = Some p /\
         size (e_subs (get_entry p (state c))) = 0 /\
         (IdleTTL opts < Sub (now w) (e_lastPub (get_entry p (state c))))%Z).
Proof.
  intros Hok. split.
  - intros q spawning. destruct q as [name v info|name reader bind|name|name]; simpl.
    + by apply publish_refines.
    + by apply subscribe_refines.
    + split; [done|]. split; [done|]. by apply fetch_refines.
    + by apply unpublish_refines.
  - intros cb Hcb. destruct (store_callback_view opts cb w c Hok Hcb) as [H1 H2].
    destruct (store_callback is_R opts cb w c) as [[w' c'] log]. split; [done|].
    intros n. destruct (H2 n) as [?|(? & d & p & ? & ? & Hs)]; [by left|right].
    unfold sweepable in Hs. apply andb_true_iff in Hs as [Hs1 Hs2].
    apply Nat.eqb_eq in Hs1. apply Z.ltb_lt in Hs2. eauto 10.
Qed.
End refinement.

(** ** What the subscribers have been offered *)
Section offers.
Context {I Any : Type} `{!ActorId I, !GoAny Any} {W Hook : Type} `{!Clock W}.
Context `{!Poster W I (refreshReq Any) (storeRep Any)} (is_R : binding -> I -> bool).
Abbreviation ctx := (ActorContext I (refreshReq Any) Hook storeCB (storeState I Any)).
Abbreviation stub := (timerStub storeCB).
Implicit Types (c : ctx) (w : W) (off : gmap (nat * I) Z).

(** [off] records the version each reader was last given of an entry, in the answer to its
    subscription or in a delivery. *)
Definition offer_one (p : nat) (ids : list I) (version : Z) off : gmap (nat * I) Z :=
  foldr (fun id m => <[(p, id) := version]> m) off ids.

Definition offer_log (p : nat) (log : list (list I * refreshReq Any)) off : gmap (nat * I) Z :=
  foldr (fun d m => offer_one p d.1 (rq_version d.2) m) off log.

Definition offers_of (q : storeReq I Any) (c : ctx) (reply : handler_end (storeRep Any))
    (log : list (list I * refreshReq Any)) off : gmap (nat * I) Z :=
  match q, reply with
  | publishReq name _ _, _ => offer_log (entry_ptr name (state c)).2 log off
  | subscribeReq name reader _, HReturn (Some (subscribeRep version _)) _ =>
      <[((entry_ptr name (state c)).2, reader) := version]> off
  | _, _ => off
  end.

(** The message of a timer, as [timer_Invoke] of Runtime runs it for the store, with the
    log of the deliveries. *)
Definition on_timer (opts : StoreOptions) (st : stub) w c : W * ctx * list (list I * refreshReq Any) :=
  match take_timer st (ctrl c) with
  | None => (w, c, [])
  | Some a =>
      let a1 := invokeLogger (MakeFrom (ctx_id c) ("timer." +:+ pretty (stub_id st))) a in
      match stub_fn st with
      | FnUser cb => store_callback is_R opts cb w (set_ctrl a1 c)
      | FnPostponeFlush => let '(w1, a2) := postponeFlush w a1 in (w1, set_ctrl a2 c, [])
      end
  end.

Definition timer_ptr (st : stub) : option nat :=
  match stub_fn st with FnUser (RefreshCB p _) => Some p | _ => None end.

Lemma on_timer_runtime (zero_shard : I) opts st (b : bstate W (storeRep Any)) c :
  timer_Invoke (UserCode0 := store_code (Hook := Hook) is_R opts) st b c =
    (set_bw (on_timer opts st (bw b) c).1.1 b, (on_timer opts st (bw b) c).1.2).
Proof.
  unfold timer_Invoke, on_timer. destruct (take_timer st (ctrl c)); [|by destruct b].
  destruct (stub_fn st) as [cb|].
  - simpl. by destruct (store_callback is_R opts cb (bw b) _) as [[w1 c1] log].
  - by destruct (postponeFlush _ _).
Qed.

(** One lifetime of a store actor: requests, timers that fire ([mail] holds their messages
    until they are handled), and moves of the other actors. *)
Record ssys := mkSsys { ss_w : W; ss_c : ctx; ss_mail : list stub; ss_off : gmap (nat * I) Z }.

Inductive sstep (opts : StoreOptions) : ssys -> ssys -> Prop :=
  | ss_request q spawning fr w c mail off w1 c1 reply log :
      handle is_R opts q spawning w (set_ctrl (invokeLogger fr (ctrl c)) c) = (w1, c1, reply, log) ->
      sstep opts (mkSsys w c mail off) (mkSsys w1 c1 mail (offers_of q c reply log off))
  | ss_fire t st w c mail off :
      gotimers (ctrl c) !! t = Some st ->
      sstep opts (mkSsys w c mail off)
        (mkSsys w (set_ctrl (fire_timer t (ctrl c)).1 c) (mail ++ [st])%list off)
  | ss_timer st m1 m2 w c off w1 c1 log :
      on_timer opts st w c = (w1, c1, log) ->
      sstep opts (mkSsys w c (m1 ++ st :: m2)%list off)
        (mkSsys w1 c1 (m1 ++ m2)%list (match timer_ptr st with Some p => offer_log p log off | None => off end))
  | ss_env w w' c mail off : sstep opts (mkSsys w c mail off) (mkSsys w' c mail off).

(** Timer ids do not wrap around: fewer than 2^63 - 1 timers are started in the lifetime. *)
Definition has_room c : Prop :=
  room 5 (ctrl c) /\
  forall p e, heap (state c) !! p = Some e -> room (size (e_subs e) + 5) (ctrl c).

Inductive sreach (opts : StoreOptions) (s0 : ssys) : ssys -> Prop :=
  | sreach_here : sreach opts s0 s0
  | sreach_step s s' : sreach opts s0 s -> has_room (ss_c s) -> sstep opts s s' -> sreach opts s0 s'.

Definition store_init (nm : string) (id : I) (w : W) : ssys :=
  mkSsys w (mkContext id (new_control nm) zero_store) [] ∅.

(** *** The invariant *)
Definition pend_of (s : storeState I Any) (p : nat) : Prop :=
  exists e, heap s !! p = Some e /\ e_pending e = true.

(** Every subscriber of an entry that is not waiting for a refresh was offered its
    version; the entries of [X] excepted. *)
Definition offers_ok (X : nat -> Prop) (s : storeState I Any) off : Prop :=
  forall p e b subs id, ~ X p -> heap s !! p = Some e -> e_pending e = false -> e_hasValue e = true ->
    e_subs e !! b = Some subs -> id ∈ subs -> off !! (p, id) = Some (e_version e).

Record SI (X : nat -> Prop) c (mail : list stub) off : Prop := {
  si_ok : store_ok (state c);
  si_ctl : ctl_wf (ctrl c);
  si_t : tinv (pend_of (state c)) (ctrl c) mail;
  si_off : offers_ok X (state c) off;
  (* the entries the timers point to exist *)
  si_ptr : forall st p d, armed (ctrl c) mail st -> stub_fn st = FnUser (RefreshCB p d) ->
    is_Some (heap (state c) !! p);
}.

Lemma offer_one_lookup p ids v off q id :
  offer_one p ids v off !! (q, id) = if decide (q = p /\ id ∈ ids) then Some v else off !! (q, id).
Proof.
  induction ids as [|x ids IH]; simpl.
  - rewrite decide_False; [done|]. intros [_ H]. by apply elem_of_nil in H.
  - destruct (decide ((p, x) = (q, id))) as [E|E].
    + injection E as <- <-. rewrite lookup_insert_eq, decide_True; [done|].
      split; [done|apply list_elem_of_here].
    + rewrite lookup_insert_ne by done. rewrite IH.
      apply decide_ext. rewrite elem_of_cons. split; [tauto|].
      intros [-> [->|?]]; [done|done].
Qed.

Lemma offer_log_lookup p v log off q id :
  (forall d, d ∈ log -> rq_version d.2 = v) ->
  offer_log p log off !! (q, id) =
    if decide (q = p /\ Exists (fun d => id ∈ d.1) log) then Some v else off !! (q, id).
Proof.
  induction log as [|d log IH]; intros Hv; simpl.
  - rewrite decide_False; [done|]. intros (_ & H). by apply Exists_nil in H.
  - rewrite offer_one_lookup, IH by (intros; apply Hv; by apply list_elem_of_further).
    rewrite (Hv d) by apply list_elem_of_here.
    repeat case_decide; rewrite ?Exists_cons in *; naive_solver.
Qed.

Lemma set_ctrl_SI X c a mail off :
  ctl_wf a -> tkeeps (ctrl c) a -> SI X c mail off -> SI X (set_ctrl a c) mail off.
Proof.
  intros Hwf K [H1 H2 H3 H4 H5]. split; [done|done| |done|]; simpl.
  - eapply tinv_kept; [apply Hwf|exact K|done].
  - intros st p d Ha Hfn. eapply H5; [|done]. eapply armed_back; [apply H3|exact K| |done|done].
    intros st' Hst. by apply H3.
Qed.

Lemma invokeLogger_SI X c fr mail off :
  SI X c mail off -> SI X (set_ctrl (invokeLogger fr (ctrl c)) c) mail off.
Proof.
  intros H. apply set_ctrl_SI; [|by apply tkeeps_same|done].
  by apply (ctl_wf_same (ctrl c)), H.
Qed.

(** A change of the heap at [p] that keeps the name; [p] becomes an exception. *)
Lemma set_entry_SI (X : nat -> Prop) c p e e' mail off :
  heap (state c) !! p = Some e -> e_name e' = e_name e ->
  (e_hasValue e' = false -> e_version e' = 0%Z) ->
  (e_pending e' = true -> e_pending e = true) ->
  SI X c mail off ->
  SI (fun q => q = p \/ X q) (SetState (set_entry p e' (state c)) c) mail off.
Proof.
  intros Hh Hn Hv Hp [H1 H2 H3 H4 H5]. split; simpl.
  - by eapply set_entry_ok.
  - done.
  - eapply tinv_weaken; [|exact H3]. intros q (e0 & G1 & G2). simpl in G1.
    apply lookup_insert_Some in G1 as [[<- <-]|[_ G1]]; [exists e; auto|by exists e0].
  - intros q e0 b subs id HX G1. simpl in G1. rewrite lookup_insert_ne in G1 by naive_solver.
    eapply H4; [naive_solver|done].
  - intros st q d Ha Hfn. simpl. destruct (H5 _ _ _ Ha Hfn) as [e0 He0].
    destruct (decide (p = q)) as [<-|Hne]; [rewrite lookup_insert_eq; by eexists|].
    rewrite lookup_insert_ne by done. by eexists.
Qed.

Lemma room_le n m a : n <= m -> room m (a : ActorControl I (refreshReq Any) Hook storeCB) -> room n a.
Proof. intros H [? ?]. split; lia. Qed.

Lemma SI_send (X : nat -> Prop) p w c e mail off :
  (forall q, X q -> q = p) -> heap (state c) !! p = Some e -> room (size (e_subs e)) (ctrl c) ->
  SI X c mail off ->
  let r := send_at is_R p w c in
  SI (fun _ => False) r.1.2 mail (offer_log p r.2 off).
Proof.
  intros HX Hh Hr [H1 H2 H3 H4 H5]. cbv zeta.
  destruct (send_at_spec is_R p w c e H1 Hh) as (e1 & E1 & Hs & Hsub & E2 & E3 & Hok & _).
  destruct (sendRefresh_kept is_R w (ctrl c) e H2 Hr) as (K1 & _ & K3).
  rewrite E3, sendRefresh_log. destruct Hs as (S1 & S2 & S3 & S4 & S5 & S6 & S7).
  split.
  - done.
  - by rewrite E2.
  - rewrite E1, E2. eapply tinv_weaken; [|eapply tinv_kept; [apply K1|exact K3|exact H3]].
    intros q (e0 & G1 & G2). simpl in G1.
    apply lookup_insert_Some in G1 as [[<- <-]|[_ G1]]; [exists e; split; [done|congruence]|by exists e0].
  - intros q e0 b subs id _ G1 G2 G3 G4 G5. rewrite E1 in G1. simpl in G1.
    rewrite (offer_log_lookup p (e_version e)); swap 1 2.
    { intros d Hd. apply list_elem_of_fmap in Hd as (? & -> & _). done. }
    apply lookup_insert_Some in G1 as [[<- <-]|[Hne G1]].
    + destruct (Hsub _ _ G4) as (s0 & F1 & F2). rewrite decide_True; [congruence|].
      split; [done|]. apply Exists_exists. exists (elements s0, refresh_of e). split.
      * apply list_elem_of_fmap. exists (b, s0). split; [done|]. by apply elem_of_map_to_list.
      * simpl. apply elem_of_elements. set_solver.
    + rewrite decide_False by naive_solver. eapply H4; try done. naive_solver.
  - rewrite E1, E2. intros st q d Ha Hfn.
    assert (armed (ctrl c) mail st) as Ha0.
    { eapply armed_back; [apply H3|exact K3| |done|done]. intros st' Hst. by apply H3. }
    destruct (H5 _ _ _ Ha0 Hfn) as [e0 He0]. simpl.
    destruct (decide (p = q)) as [<-|Hne]; [rewrite lookup_insert_eq; by eexists|].
    rewrite lookup_insert_ne by done. by eexists.
Qed.

Lemma room_Timer n nm cb (a : ActorControl I (refreshReq Any) Hook storeCB) :
  ctl_wf a -> room (S n) a -> room n (Timer nm (FnUser cb) a).1.
Proof.
  intros Hwf [H0 Hb]. pose proof (Timer_timerId nm (FnUser cb) a) as E.
  rewrite Timer_next in E; [|apply Hwf|lia]. split; rewrite E; lia.
Qed.

(** Starting a timer of the store. *)
Lemma SI_timer X nm cb c mail off :
  room 0 (ctrl c) -> (forall p d, cb = RefreshCB p d -> is_Some (heap (state c) !! p)) ->
  SI X c mail off ->
  SI X (ctx_Timer nm (FnUser cb) c).1 mail off /\
  tinv (fun p => pend_of (state c) p \/ exists d, cb = RefreshCB p d)
    (Timer nm (FnUser cb) (ctrl c)).1 mail.
Proof.
  intros Hr Hptr [H1 H2 H3 H4 H5].
  pose proof (tinv_timer _ nm cb _ _ H2 Hr H3) as Ht. split; [|done].
  destruct Hr as [Hr0 Hr1].
  destruct (Timer_keeps nm (FnUser cb) (ctrl c) ltac:(lia) H2) as [K1 _].
  split; [done|done| |done|]; simpl.
  - eapply tinv_weaken; [|exact Ht]. intros q Hq. by left.
  - intros st p d (it & G1 & G2 & G3) Hfn. pose proof H3.(tv_timers _ _ _) as Hwf.
    unfold Timer in G1, G3. simpl in G1, G3.
    pose proof (Timer_next nm (FnUser cb) _ Hwf ltac:(lia)) as Hid. unfold Timer in Hid. simpl in Hid.
    rewrite Hid in G1, G3.
    apply lookup_insert_Some in G1 as [[Eid <-]|[Hne G1]].
    + simpl in G2. rewrite <- G2, lookup_insert_eq in G3.
      destruct G3 as [[= <-]|G3]; [injection Hfn as ->; by eapply Hptr|].
      pose proof (proj2 (tv_mail _ _ _ H3 _ G3)). lia.
    + pose proof (tw_item _ Hwf _ _ G1). simpl in *.
      rewrite lookup_insert_ne in G3 by lia. eapply H5; [|done]. by exists it.
Qed.

Lemma SI_weaken (X Y : nat -> Prop) c mail off : (forall p, X p -> Y p) -> SI X c mail off -> SI Y c mail off.
Proof. intros H [H1 H2 H3 H4 H5]. split; try done. intros p e b subs id HX. apply H4. naive_solver. Qed.

(** Only the names changed. *)
Lemma SI_names X c s' mail off :
  heap s' = heap (state c) -> store_ok s' -> SI X c mail off -> SI X (SetState s' c) mail off.
Proof.
  intros Hh Hok [H1 H2 H3 H4 H5]. split; simpl; [done|done|..].
  - eapply tinv_weaken; [|exact H3]. intros q (e & G1 & G2). rewrite Hh in G1. by exists e.
  - intros q e. rewrite Hh. apply H4.
  - rewrite Hh. done.
Qed.

(** The entry of a name, made if needed. *)
Lemma SI_entry_ptr X name c mail off :
  SI X c mail off -> SI X (SetState (entry_ptr name (state c)).1 c) mail off.
Proof.
  intros [H1 H2 H3 H4 H5].
  destruct (entry_ptr_spec name (state c) (proj1 H1)) as (_ & _ & E2 & _ & _ & E5 & E6).
  assert (forall q e, heap (entry_ptr name (state c)).1 !! q = Some e ->
    heap (state c) !! q = Some e \/ e = new_entry name) as Hold.
  { intros q e He. destruct (decide (q = (entry_ptr name (state c)).2)) as [->|Hq].
    - destruct (entries (state c) !! name).
      + destruct E6 as [E6 _]. rewrite E6 in He. by left.
      + destruct E6 as [_ E6]. rewrite E2, E6 in He. injection He as <-. by right.
    - rewrite E5 in He by done. by left. }
  split; simpl.
  - by apply entry_ptr_ok.
  - done.
  - eapply tinv_weaken; [|exact H3]. intros q (e & G1 & G2).
    destruct (Hold _ _ G1) as [G| ->]; [by exists e|done].
  - intros q e b subs id HX G1 G2 G3.
    destruct (Hold _ _ G1) as [G| ->]; [by eapply H4|done].
  - intros st p d Ha Hfn. destruct (H5 _ _ _ Ha Hfn) as [e0 He0].
    destruct (decide (p = (entry_ptr name (state c)).2)) as [->|Hq].
    + rewrite E2. by eexists.
    + rewrite E5 by done. by eexists.
Qed.

Lemma SI_schedule p dcd w c e mail off :
  heap (state c) !! p = Some e -> room (size (e_subs e)) (ctrl c) ->
  SI (fun q => q = p) c mail off ->
  let r := scheduleRefresh is_R p dcd w c in
  SI (fun _ => False) r.1.2 mail (offer_log p r.2 off).
Proof.
  intros Hh Hr Hsi. cbv zeta. unfold scheduleRefresh. rewrite (get_entry_Some _ _ _ Hh).
  destruct (e_pending e) eqn:Ep.
  { destruct Hsi as [H1 H2 H3 H4 H5]. split; try done. intros q e0 b subs id _ G1 G2.
    apply H4; [|done|done]. intros ->. simpl in G1. congruence. }
  destruct (_ || _); [by apply (SI_send (fun q => q = p) p w c e)|].
  set (d := Until w _).
  destruct (SI_timer (fun q => q = p) ("shared_refresh:" +:+ e_name e) (RefreshCB p d) c mail off)
    as [Hs Ht]; [eapply room_le; [|exact Hr]; lia|intros ?? [= -> ->]; by eexists|done|].
  destruct Hs as [H1 H2 H3 H4 H5]. simpl. split; simpl.
  - eapply set_entry_ok; [done|done| |done]. exact (proj2 H1 _ _ Hh).
  - done.
  - eapply tinv_weaken; [|exact Ht]. intros q (e0 & G1 & G2). simpl in G1.
    apply lookup_insert_Some in G1 as [[<- <-]|[_ G1]]; [right; by exists d|left; by exists e0].
  - intros q e0 b subs id _ G1 G2. simpl in G1.
    apply lookup_insert_Some in G1 as [[<- <-]|[Hne G1]]; [done|]. apply (H4 q e0); [congruence|done|done].
  - intros st q d' Ha Hfn. destruct (H5 _ _ _ Ha Hfn) as [e0 He0]. simpl in He0.
    destruct (decide (p = q)) as [<-|Hne]; [rewrite lookup_insert_eq; by eexists|].
    rewrite lookup_insert_ne by done. by eexists.
Qed.

Lemma publish_SI opts name v info spawning w c mail off :
  has_room c -> SI (fun _ => False) c mail off ->
  let r := publish is_R opts name v info spawning w c in
  SI (fun _ => False) r.1.1.2 mail (offer_log (entry_ptr name (state c)).2 r.2 off).
Proof.
  intros [Hr Hre] Hsi. cbv zeta. unfold publish.
  set (c1 := if spawning then _ else c).
  assert (state c1 = state c /\ SI (fun _ => False) c1 mail off /\
    forall n, room (n + 5) (ctrl c) -> room n (ctrl c1)) as (Hst & Hs1 & Hr1).
  { assert (SI (fun _ => False) (ctx_Open c) mail off) as Hopen.
    { apply set_ctrl_SI; [|by apply tkeeps_same|done]. by apply (ctl_wf_same (ctrl c)), Hsi. }
    subst c1. destruct spawning; [destruct (0 <? Sweep opts)%Z|].
    - split; [done|]. split.
      + apply SI_timer; [eapply (room_le 0 5); [lia|exact Hr]|done|done].
      + intros n Hn. apply room_Timer; [apply Hopen|]. eapply (room_le (S n)); [|exact Hn]; lia.
    - split; [done|]. split; [done|]. intros n Hn. eapply (room_le n); [|exact Hn]; lia.
    - split; [done|]. split; [done|]. intros n Hn. eapply (room_le n); [|exact Hn]; lia. }
  clearbody c1. pose proof (SI_entry_ptr _ name _ _ _ Hs1) as Hs2.
  destruct (entry_ptr_spec name (state c) (proj1 (si_ok _ _ _ _ Hsi))) as (_ & _ & E2 & _ & _ & E5 & E6).
  rewrite Hst in *.
  assert (room (size (e_subs (get_entry (entry_ptr name (state c)).2 (entry_ptr name (state c)).1))) (ctrl c1)) as Hroom.
  { apply Hr1. destruct (entries (state c) !! name).
    - destruct E6 as [E6 _]. rewrite E6 in *. by eapply Hre.
    - destruct E6 as [_ ->]. simpl. by rewrite map_size_empty. }
  destruct (entry_ptr name (state c)) as [s p]. cbn [fst snd] in *.
  set (e1 := published (get_entry p s) w v info).
  pose proof (set_entry_SI (fun _ => False) (SetState s c1) p _ e1 mail off E2 eq_refl ltac:(done) ltac:(done) Hs2) as Hs3.
  apply (SI_weaken _ (fun q => q = p)) in Hs3; [|tauto].
  set (c3 := SetState (set_entry p e1 (state (SetState s c1))) (SetState s c1)) in *.
  pose proof (SI_schedule p (Cooldown opts) w c3 e1 mail off (lookup_insert_eq _ _ _) Hroom Hs3) as Hfin.
  change (SetState (set_entry p e1 s) c1) with c3.
  by destruct (scheduleRefresh is_R p (Cooldown opts) w c3) as [[w' c'] log].
Qed.

Lemma offer_subscriber p v off q id id' :
  off !! (q, id) = Some v -> (q, id) ≠ (p, id') -> forall v', <[(p, id') := v']> off !! (q, id) = Some v.
Proof. intros H Hne v'. by rewrite lookup_insert_ne. Qed.

Lemma subscribe_SI name reader bind spawning c mail off :
  SI (fun _ => False) c mail off ->
  let r := subscribe is_R name reader bind spawning c in
  SI (fun _ => False) r.1 mail
    (match r.2 with
     | HReturn (Some (subscribeRep version _)) _ => <[((entry_ptr name (state c)).2, reader) := version]> off
     | _ => off
     end).
Proof.
  intros Hsi. cbv zeta. unfold subscribe.
  set (c1 := if spawning then _ else c).
  assert (state c1 = state c /\ SI (fun _ => False) c1 mail off) as (Hst & Hs1).
  { subst c1. destruct spawning; [|done]. split; [done|].
    apply set_ctrl_SI; [|by apply tkeeps_same|done]. by apply (ctl_wf_same (ctrl c)), Hsi. }
  clearbody c1. pose proof (SI_entry_ptr _ name _ _ _ Hs1) as Hs2.
  destruct (entry_ptr_spec name (state c) (proj1 (si_ok _ _ _ _ Hsi))) as (_ & _ & E2 & _).
  rewrite Hst in *. destruct (entry_ptr name (state c)) as [s p]. cbn [fst snd] in *.
  set (e := get_entry p s) in *. set (e1 := match bind with Some b => _ | None => e end).
  assert (e_name e1 = e_name e /\ e_hasValue e1 = e_hasValue e /\ e_version e1 = e_version e /\
    e_pending e1 = e_pending e) as (F1 & F2 & F3 & F4) by (subst e1; by destruct bind).
  assert (forall b subs id, e_subs e1 !! b = Some subs -> id ∈ subs -> id ≠ reader ->
    exists subs0, e_subs e !! b = Some subs0 /\ id ∈ subs0) as Hsub.
  { subst e1. destruct bind as [b|]; [|by eauto]. intros b' subs id G1 G2 Hne. simpl in G1.
    apply lookup_insert_Some in G1 as [[<- <-]|[_ G1]]; [|by eauto]. unfold bind_add in G2.
    destruct (e_subs e !! b) as [m|] eqn:Em; simpl in G2; destruct (is_R b reader);
      rewrite ?elem_of_union, ?elem_of_singleton, ?elem_of_empty in G2; naive_solver. }
  assert (SI (fun q => q = p) (SetState (set_entry p e1 s) c1) mail off) as Hs3.
  { pose proof (set_entry_SI (fun _ => False) (SetState s c1) p e e1 mail off E2 F1) as H.
    eapply SI_weaken; [|apply H; [|by rewrite F4|done]]; [by intros ? [?|[]]|].
    rewrite F2, F3. exact (proj2 (si_ok _ _ _ _ Hs2) _ _ E2). }
  destruct Hs3 as [H1 H2 H3 H4 H5]. simpl. rewrite F2, F3.
  assert (forall q e0 b subs id, heap (set_entry p e1 s) !! q = Some e0 -> e_pending e0 = false ->
    e_hasValue e0 = true -> e_subs e0 !! b = Some subs -> id ∈ subs -> (q, id) ≠ (p, reader) ->
    off !! (q, id) = Some (e_version e0)) as Hoff.
  { intros q e0 b subs id G1 G2 G3 G4 G5 Hne. destruct (decide (q = p)) as [->|Hq].
    - simpl in G1. rewrite lookup_insert_eq in G1. injection G1 as <-.
      destruct (Hsub b subs id G4 G5) as (s0 & J1 & J2); [congruence|].
      rewrite F3. eapply (si_off _ _ _ _ Hs2); [tauto|exact E2|congruence|congruence|exact J1|done].
    - by eapply H4. }
  destruct (e_hasValue e) eqn:Ev; split; try done; intros q e0 b subs id _ G1 G2 G3 G4 G5.
  - destruct (decide ((q, id) = (p, reader))) as [[= -> ->]|Hne].
    + rewrite lookup_insert_eq. simpl in G1. rewrite lookup_insert_eq in G1. injection G1 as <-. by rewrite F3.
    + apply offer_subscriber; [|done]. by eapply Hoff.
  - eapply Hoff; try done. intros [= -> ->]. simpl in G1. rewrite lookup_insert_eq in G1.
    injection G1 as <-. congruence.
Qed.

Lemma handle_SI opts q spawning w c mail off :
  has_room c -> SI (fun _ => False) c mail off ->
  let r := handle is_R opts q spawning w c in
  SI (fun _ => False) r.1.1.2 mail (offers_of q c r.1.2 r.2 off).
Proof.
  intros Hr Hsi. destruct q as [name v info|name reader bind|name|name]; simpl.
  - by apply publish_SI.
  - pose proof (subscribe_SI name reader bind spawning c mail off Hsi) as H. cbv zeta in H.
    by destruct (subscribe is_R name reader bind spawning c) as [c1 reply].
  - done.
  - apply SI_names; [done| |done]. by apply unpublish_refines, Hsi.
Qed.

(** A timer message that was taken off the mailbox and still counts. *)
Lemma take_SI w st c a m1 m2 off :
  take_timer st (ctrl c) = Some a -> SI (fun _ => False) c (m1 ++ st :: m2) off ->
  same_queue (ctrl c) a /\ timerId a = timerId (ctrl c) /\
  (forall cb, stub_fn st = FnUser cb -> room 0 (ctrl c) -> ctl_wf a) /\
  (forall p d, stub_fn st = FnUser (RefreshCB p d) -> is_Some (heap (state c) !! p)) /\
  (forall st' p d, armed a (m1 ++ m2) st' -> stub_fn st' = FnUser (RefreshCB p d) ->
     is_Some (heap (state c) !! p)).
Proof.
  intros Htake [H1 H2 H3 H4 H5].
  destruct (take_armed _ _ _ _ _ _ Htake H3) as (Hst & Hback & _).
  destruct (tv_mail _ _ _ H3 st) as [Hgo _].
  { apply elem_of_app. right. apply list_elem_of_here. }
  destruct (take_timer_wf _ _ _ (tv_timers _ _ _ H3) Hgo Htake) as (_ & Hq & Eid & _).
  split; [done|]. split; [done|]. split; [|split].
  - intros cb Hfn [Hr0 Hr]. pose proof (tv_user _ _ _ H3 _ _ Hst Hfn) as Hne.
    by destruct (ctl_step_keeps (W := W) _ _ (step_timer_user w (ctrl c) a st Hgo Hne Htake) ltac:(simpl; lia) H2).
  - intros p d Hfn. by eapply H5.
  - intros st' p d Ha Hfn. eapply H5; [by apply Hback|done].
Qed.

(** What is left when a timer was taken, and before its function runs with the control [a]. *)
Record fired st c (a : ActorControl I (refreshReq Any) Hook storeCB) mail off : Prop := {
  fr_ok : store_ok (state c);
  fr_off : offers_ok (fun _ => False) (state c) off;
  fr_inv : forall pend : nat -> Prop,
    (forall p, pend p -> pend_of (state c) p /\ forall d, stub_fn st ≠ FnUser (RefreshCB p d)) -> tinv pend a mail;
  fr_ptr : forall st' p d, armed a mail st' -> stub_fn st' = FnUser (RefreshCB p d) -> is_Some (heap (state c) !! p);
  fr_own : forall p d, stub_fn st = FnUser (RefreshCB p d) -> is_Some (heap (state c) !! p);
  fr_ctl : forall cb, stub_fn st = FnUser cb -> ctl_wf a;
  fr_set : postponeSet a = item_ids (postpone a);
}.

Lemma take_fired st c a tr w m1 m2 off :
  room 5 (ctrl c) -> take_timer st (ctrl c) = Some a -> SI (fun _ => False) c (m1 ++ st :: m2) off ->
  fired st c (invokeLogger tr a) (m1 ++ m2) off /\ timerId (invokeLogger tr a) = timerId (ctrl c).
Proof.
  intros Hr Htake Hsi. destruct (take_SI w st c a m1 m2 off Htake Hsi) as ((Q1 & Q2 & Q3) & Eid & Hwf & Hptr & Hptr').
  split; [|done]. set (a1 := invokeLogger _ a). assert (same_timers a a1 /\ same_queue a a1) as [Hst Hsq] by done.
  pose proof Hsi as [H1 H2 H3 H4 H5]. split; [done|done| | |done| |].
  - intros pend Hpend. pose proof (tinv_take _ pend _ a m1 m2 st Htake H3 Hpend) as Ht.
    eapply tinv_kept; [by apply (timers_wf_same a), Ht|by apply tkeeps_same|done].
  - intros st' p d (it & G1 & G2 & G3). destruct Hst as (T1 & _ & T3 & _).
    rewrite T1 in G1. rewrite T3 in G3. apply Hptr'. by exists it.
  - intros cb Hfn. apply (ctl_wf_same a); [done|done|]. eapply Hwf; [done|]. eapply (room_le 0 5); [lia|exact Hr].
  - destruct Hsq as (S1 & S2 & S3). rewrite S2, S1, Q2, Q1. apply H2.
Qed.

Lemma fired_refresh st p d w c a e mail off :
  fired st c a mail off -> stub_fn st = FnUser (RefreshCB p d) -> heap (state c) !! p = Some e ->
  room (size (e_subs e)) a ->
  let r := send_at is_R p w (SetState (set_entry p (set_pending false e) (state c)) (set_ctrl a c)) in
  SI (fun _ => False) r.1.2 mail (offer_log p r.2 off).
Proof.
  intros [H1 H4 Hinv Hptr _ Hctl _] Efn He Hroom.
  apply (SI_send (fun q => q = p) p w _ (set_pending false e)); [done|apply lookup_insert_eq|exact Hroom|].
  split; simpl.
  - eapply set_entry_ok; [done|done| |done]. exact (proj2 H1 _ _ He).
  - by eapply Hctl.
  - apply Hinv. intros q (e0 & G1 & G2). simpl in G1.
    apply lookup_insert_Some in G1 as [[<- <-]|[Hne G1]]; [done|]. split; [by exists e0|].
    intros d' E. rewrite Efn in E. by injection E.
  - intros q e0 b subs id Hq G1. simpl in G1. rewrite lookup_insert_ne in G1 by congruence.
    apply (H4 q e0 b subs id); [tauto|done].
  - intros st' q d' Ha Hfn. simpl. destruct (Hptr _ _ _ Ha Hfn) as [e0 He0].
    destruct (decide (p = q)) as [<-|Hne]; [rewrite lookup_insert_eq; by eexists|].
    rewrite lookup_insert_ne by done. by eexists.
Qed.

Lemma fired_sweep opts st d w c a mail off :
  fired st c a mail off -> stub_fn st = FnUser (SweepCB d) -> room 0 a ->
  SI (fun _ => False) (store_callback is_R opts (SweepCB d) w (set_ctrl a c)).1.2 mail off.
Proof.
  intros [H1 H4 Hinv Hptr _ Hctl _] Efn Hroom. simpl. apply SI_timer; [done|done|].
  destruct (store_callback_view is_R opts (SweepCB d) w c H1 ltac:(done)) as [Hok _].
  apply (SI_names _ (set_ctrl a c)); [by unfold sweep; destruct (_ <? _)%Z|done|].
  split; [done|by eapply Hctl| |done|done]. apply Hinv. intros q Hq. split; [done|]. rewrite Efn. by intros d' [=].
Qed.

Lemma fired_flush st w c a mail off :
  fired st c a mail off -> stub_fn st = FnPostponeFlush -> room 0 a ->
  SI (fun _ => False) (set_ctrl (postponeFlush w a).2 c) mail off.
Proof.
  intros [H1 H4 Hinv Hptr _ _ Hset] Efn [Hr0 Hr].
  assert (tinv (pend_of (state c)) a mail) as Ht.
  { apply Hinv. intros q Hq. split; [done|]. rewrite Efn. by intros d'. }
  pose proof (tv_timers _ _ _ Ht) as Hwf.
  destruct (postponeFlush_wf w a Hwf Hset) as [K1 _]; [lia|].
  pose proof (postponeFlush_tkeeps w a Hwf Hset ltac:(lia)) as K2.
  destruct (postponeFlush w a) as [w1 a2]. simpl in *. split; simpl; [done|done| |done|].
  - eapply tinv_kept; [apply K1|exact K2|exact Ht].
  - intros st' p d Ha Hfn. eapply Hptr; [|done].
    eapply armed_back; [exact Hwf|exact K2| |done|done]. intros st'' Hst''. by apply Ht.
Qed.

Lemma on_timer_SI opts st w c m1 m2 off :
  has_room c -> SI (fun _ => False) c (m1 ++ st :: m2) off ->
  let r := on_timer opts st w c in
  SI (fun _ => False) r.1.2 (m1 ++ m2)
    (match timer_ptr st with Some p => offer_log p r.2 off | None => off end).
Proof.
  intros [Hr Hre] Hsi. cbv zeta. unfold on_timer.
  destruct (take_timer st (ctrl c)) as [a|] eqn:Htake; swap 1 2.
  { assert (SI (fun _ => False) c (m1 ++ m2) off) as H.
    { destruct Hsi as [H1 H2 H3 H4 H5]. split; try done; [by eapply tinv_stale|].
      intros st' p d Ha Hfn. eapply H5; [by apply armed_mail_sub|done]. }
    by destruct (timer_ptr st). }
  set (tr := MakeFrom _ _). destruct (take_fired st c a tr w m1 m2 off Hr Htake Hsi) as [Hf Eid].
  set (a1 := invokeLogger tr a) in *.
  assert (forall n, room (n + 5) (ctrl c) -> room n a1) as Hroom by (intros n [? ?]; split; rewrite Eid; lia).
  clearbody a1. unfold timer_ptr. destruct (stub_fn st) as [[p d|d]|] eqn:Efn.
  - destruct (fr_own _ _ _ _ _ Hf _ _ Efn) as [e He]. simpl. rewrite (get_entry_Some _ _ _ He).
    eapply fired_refresh; [done..|]. apply Hroom. exact (Hre _ _ He).
  - eapply fired_sweep; [done..|]. by apply (Hroom 0).
  - pose proof (fired_flush st w c a1 _ _ Hf Efn (Hroom 0 Hr)) as H. by destruct (postponeFlush w a1).
Qed.

Lemma sstep_SI opts s s' :
  sstep opts s s' -> has_room (ss_c s) ->
  SI (fun _ => False) (ss_c s) (ss_mail s) (ss_off s) ->
  SI (fun _ => False) (ss_c s') (ss_mail s') (ss_off s').
Proof.
  intros Hstep Hr Hsi. destruct Hstep; simpl in *.
  - pose proof (handle_SI opts q spawning w (set_ctrl (invokeLogger fr (ctrl c)) c) mail off Hr (invokeLogger_SI _ _ fr _ _ Hsi)) as G.
    cbv zeta in G. by rewrite H in G.
  - destruct Hsi as [H1 H2 H3 H4 H5]. pose proof (tinv_fire _ _ _ _ _ H H3) as Ht.
    destruct Hr as [[Hr0 Hr] _].
    destruct (fire_timer_keeps t (ctrl c) ltac:(lia) H2) as [K _].
    split; [done|done|done|done|]. simpl. intros st' p d (it & G1 & G2 & G3) Hfn.
    destruct (tw_go _ (tv_timers _ _ _ H3) _ _ H) as (Et & _).
    apply (H5 st' p d); [|done]. exists it. split; [done|]. split; [done|]. simpl in G3.
    destruct G3 as [G3|G3]; [apply lookup_delete_Some in G3 as [_ G3]; by left|].
    apply elem_of_app in G3 as [G3|G3]; [by right|]. apply list_elem_of_singleton in G3 as ->.
    left. by rewrite Et.
  - pose proof (on_timer_SI opts st w c m1 m2 off Hr Hsi) as G. cbv zeta in G. by rewrite H in G.
  - done.
Qed.


(** The cooldown: while a refresh is pending a publish sends nothing and starts no
    timer; otherwise it sends at once when the cooldown of the key (its own, or the
    default of the store) is over since the last refresh, and else starts exactly one
    timer, whose delay ends when the cooldown ends. *)
Theorem schedule_cooldown p dcd w c e :
  heap (state c) !! p = Some e ->
  let cd := cooldown_of e dcd in
  (0 <= now w - e_lastSent e < 2 ^ 63)%Z -> (cd < 2 ^ 63)%Z ->
  let '(w', c', log) := scheduleRefresh is_R p dcd w c in
  if e_pending e then w' = w /\ c' = c /\ log = []
  else if decide (cd <= 0 \/ e_lastSent e + cd <= now w)%Z then
    timers (ctrl c') = timers (ctrl (send_at is_R p w c).1.2) /\
    log = (fun bs => (elements bs.2, refresh_of e)) <$> map_to_list (e_subs e) /\
    e_lastSent (get_entry p (state c')) =
      if decide (e_subs e = ∅) then e_lastSent e else now w
  else
    w' = w /\ log = [] /\ e_pending (get_entry p (state c')) = true /\
    exists d, (now w + d = e_lastSent e + cd)%Z /\ (0 < d <= cd)%Z /\
      ctrl c' = (Timer ("shared_refresh:" +:+ e_name e) (FnUser (RefreshCB p d)) (ctrl c)).1.
Proof.
  intros Hh cd Hlast Hcd. unfold scheduleRefresh. rewrite (get_entry_Some _ _ _ Hh). fold cd.
  destruct (e_pending e); [done|].
  assert (Since w (e_lastSent e) = now w - e_lastSent e)%Z as Es.
  { unfold Since, Sub, saturate. lia. }
  rewrite Es. destruct (_ || _) eqn:Eb.
  - rewrite orb_true_iff, !Z.leb_le in Eb.
    destruct (decide (cd <= 0 \/ e_lastSent e + cd <= now w)%Z) as [_|Hd]; [|exfalso; lia].
    unfold send_at. rewrite (get_entry_Some _ _ _ Hh).
    pose proof (sendRefresh_log is_R w (ctrl c) e) as Hlog.
    assert (e_lastSent (sendRefresh is_R w (ctrl c) e).1.2 =
      if decide (e_subs e = ∅) then e_lastSent e else now w) as Hls.
    { unfold sendRefresh. destruct (Nat.eqb_spec (size (e_subs e)) 0) as [E|E].
      - apply map_size_empty_iff in E. by rewrite E, decide_True.
      - rewrite decide_False by (intros E'; by rewrite E', map_size_empty in E).
        by destruct (deliver_all is_R _ _ _ _) as [[[w1 a1] binds] log]. }
    destruct (sendRefresh is_R w (ctrl c) e) as [[[w1 a1] e1] log]. simpl in *.
    split; [done|]. split; [done|]. unfold get_entry. simpl. by rewrite lookup_insert_eq.
  - rewrite orb_false_iff, !Z.leb_gt in Eb.
    destruct (decide (cd <= 0 \/ e_lastSent e + cd <= now w)%Z) as [Hd|_]; [exfalso; lia|]. split; [done|]. split; [done|]. split.
    + unfold get_entry. simpl. by rewrite lookup_insert_eq.
    + exists (Until w (e_lastSent e + cd)). split; [|split; [|done]]; unfold Until, Sub, saturate; lia.
Qed.
End offers.

(** ** Shards *)

(** The globals after some calls of [Serve] that did not panic. *)
Fixpoint serve_all (l : list StoreOptions) (g : storeGlobals) : outcome error storeGlobals :=
  match l with
  | [] => Ok g
  | o :: l => (let! (_, g') := Serve_globals o g in serve_all l g')%go
  end.

Lemma fnv32a_range s : (0 <= fnv32a s < 2 ^ 32)%Z.
Proof.
  unfold fnv32a.
  assert (forall l h, (0 <= h < 2 ^ 32)%Z -> (0 <= foldl fnv_step h l < 2 ^ 32)%Z) as H; [|apply H; lia].
  induction l as [|c l IH]; intros h Hh; [done|]. apply IH, uwrap32_range.
Qed.

Lemma serve_all_fixed l g g' :
  storeShards g ≠ 0%Z -> serve_all l g = Ok g' -> g' = g.
Proof.
  intros Hg. induction l as [|o l IH]; simpl; [by intros [= ->]|].
  unfold Serve_globals. rewrite (proj2 (Z.eqb_neq _ _) Hg).
  destruct (_ =? _)%Z; simpl; [apply IH|done].
Qed.

(** C18 The shard of a key is fixed for the life of the process and in range: once a store is
    served with n shards (n below 2^32; no positive number means one), every later [Serve]
    either panics or leaves the globals as they are, so that a key goes to one shard
    between 0 and n - 1, the same for all its publishers and readers. *)
Theorem shard_fixed o l g g' name :
  (Shards o < 2 ^ 32)%Z ->
  serve_all [o] no_globals = Ok g -> serve_all (o :: l) no_globals = Ok g' ->
  g' = g /\ exists s, shardOf g' name = Ok s /\ (0 <= s < Z.max 1 (Shards o))%Z.
Proof.
  intros Hn H1 H2. simpl in H1, H2. injection H1 as <-.
  set (n := if (Shards o <=? 0)%Z then 1%Z else Shards o) in *.
  assert (n = Z.max 1 (Shards o)) as En by (unfold n; destruct (Z.leb_spec (Shards o) 0); lia).
  assert (storeShards (mkGlobals n (withDefaults o)) ≠ 0%Z) as Hne by (simpl; lia).
  rewrite (serve_all_fixed _ _ _ Hne H2). split; [done|].
  unfold shardOf. simpl. fold n.
  assert ((n <=? 0)%Z = false) as -> by lia.
  assert (uwrap32 n = n) as -> by (apply Z.mod_small; lia).
  assert ((n =? 0)%Z = false) as -> by lia.
  eexists. split; [done|]. rewrite <- En. apply Z.mod_pos_bound. lia.
Qed.

(** ** A concrete store: readers are numbers, values integers, and every message is
    accepted except by reader 9, which does not exist. *)
Module StoreWitness.
Record toyw := mkToyw { tw_now : Z; tw_sent : list (nat * refreshReq Z) }.

#[export] Instance toy_actor : ActorId nat :=
  {| ActorType := fun _ => "Region"; String := fun n => pretty (Z.of_nat n); zero_id := 0 |}.
#[export] Instance toy_any : GoAny Z := 0%Z.
#[export] Instance toy_clock : Clock toyw := tw_now.

Definition toy_post (w : toyw) (id : nat) (q : refreshReq Z) : toyw * option error :=
  if bool_decide (id = 9) then (w, Some (ActorNotFoundError (Some (to_base id))))
  else (mkToyw (tw_now w) (tw_sent w ++ [(id, q)])%list, None).

Fixpoint toy_multi (w : toyw) (ids : list nat) (q : refreshReq Z) : toyw * list (IdErr nat) :=
  match ids with
  | [] => (w, [])
  | id :: ids =>
      let '(w1, e) := toy_post w id q in
      let '(w2, l) := toy_multi w1 ids q in
      (w2, mkIdErr id e :: l)
  end.

#[export] Instance toy_poster : Poster toyw nat (refreshReq Z) (storeRep Z) := {|
  fpost := fun w _ id q => toy_post w id q;
  fcall := fun w _ id q => let '(w1, e) := toy_post w id q in (w1, (None, e));
  fmulticast := fun w _ ids q => let '(w1, l) := toy_multi w ids q in (w1, (l, None));
  fbroadcast := fun w _ q => (w, (0, None));
  wsleep := fun w d => mkToyw (tw_now w + d) (tw_sent w);
|}.

Definition toy_R (b : binding) (id : nat) : bool := true.
Definition toy_opts : StoreOptions := mkStoreOptions 1 1024 100 0 0 (2 * Second).
Definition T0 : Z := 1000.
Definition at_ (t : Z) (w : toyw) : toyw := mkToyw t (tw_sent w).

Abbreviation toyctx := (ActorContext nat (refreshReq Z) nat storeCB (storeState nat Z)).
Definition c0 : toyctx := mkContext 0 (new_control "store.0") zero_store.
Definition w0 : toyw := mkToyw T0 [].

(** A key is published, reader 1 and the missing reader 9 subscribe, and it is published
    twice within its cooldown. *)
Definition some_requests : list (Z * storeReq nat Z) :=
  [(1000%Z, publishReq "a" 5%Z None); (1010%Z, subscribeReq "a" 1 (Some 0));
   (1010%Z, subscribeReq "a" 9 (Some 0)); (1020%Z, publishReq "a" 6%Z None);
   (1030%Z, publishReq "a" 7%Z None)].

Definition fr0 : From := mkFrom "x" "x".

Abbreviation toysys := (ssys (I := nat) (Any := Z) (W := toyw) (Hook := nat)).

Definition sys_step (s : toysys) (tq : Z * storeReq nat Z) : toysys :=
  let c := set_ctrl (invokeLogger fr0 (ctrl (ss_c s))) (ss_c s) in
  let '(w1, c1, reply, log) := handle toy_R toy_opts tq.2 false (at_ tq.1 (ss_w s)) c in
  mkSsys w1 c1 (ss_mail s) (offers_of tq.2 (ss_c s) reply log (ss_off s)).

Definition s0 : toysys := store_init "store.0" 0 (mkToyw T0 []).
Definition s1 : toysys := foldl sys_step s0 some_requests.
Definition c1 : toyctx := ss_c s1.
Definition w1 : toyw := ss_w s1.
Definition e1 : entry nat Z := get_entry 0 (state c1).

(** The third publish comes 10 ns after the second, whose refresh went to reader 1 and
    removed reader 9: it is pending. *)
Example cooldown_run :
  e_version e1 = 3%Z /\ e_value e1 = 7%Z /\ e_pending e1 = true /\ e_lastSent e1 = 1020%Z /\
  tw_sent w1 = [(1, mkRefresh "a" 2 6%Z 0)].
Proof. vm_compute. done. Qed.

Lemma has_room_dec (c : toyctx) :
  bool_decide (0 <= timerId (ctrl c))%Z &&
  bool_decide (map_Forall (fun _ (e : entry nat Z) => timerId (ctrl c) + Z.of_nat (size (e_subs e)) + 9 < MaxInt)%Z
    (heap (state c))) && bool_decide (timerId (ctrl c) + 9 < MaxInt)%Z = true -> has_room c.
Proof.
  intros [[H1 H2]%andb_true_iff H3]%andb_true_iff.
  apply bool_decide_eq_true in H1, H2, H3. split; [split; lia|].
  intros p e He. specialize (H2 p e He). cbv beta in H2. unfold room. rewrite Nat2Z.inj_add. split; lia.
Qed.

Lemma sys_step_reach s tq : has_room (ss_c s) -> sreach toy_R toy_opts s0 s -> sreach toy_R toy_opts s0 (sys_step s tq).
Proof.
  intros Hr H. destruct s as [w c mail off], tq as [t q].
  unfold sys_step. simpl.
  destruct (handle toy_R toy_opts q false (at_ t w) _) as [[[w' c'] reply] log] eqn:E.
  eapply sreach_step.
  - eapply (sreach_step _ _ _ _ (mkSsys (at_ t w) c mail off)); [exact H|done|constructor].
  - done.
  - econstructor. exact E.
Qed.

Lemma s1_reach : sreach toy_R toy_opts s0 s1.
Proof.
  unfold s1, some_requests. cbn [foldl].
  repeat (apply sys_step_reach; [apply has_room_dec; vm_compute; reflexivity|]). constructor.
Qed.

Lemma e1_here : heap (state c1) !! 0 = Some e1.
Proof. vm_compute. reflexivity. Qed.

Lemma c1_ok : store_ok (state c1).
Proof.
  assert (forall qs s, store_ok (state (ss_c s)) -> store_ok (state (ss_c (foldl sys_step s qs)))) as H.
  { induction qs as [|[t q] qs IH]; intros s Hok; [done|]. simpl. apply IH. destruct s as [w c mail off].
    unfold sys_step. simpl. simpl in Hok. destruct q as [name v info|name reader bind|name|name].
    - pose proof (publish_refines toy_R toy_opts name v info false (at_ t w)
        (set_ctrl (invokeLogger fr0 (ctrl c)) c) Hok) as G.
      cbn [handle]. destruct (publish _ _ _ _ _ _ _ _) as [[[w' c'] r] l]. apply G.
    - pose proof (subscribe_refines toy_R toy_opts name reader bind false (at_ t w)
        (set_ctrl (invokeLogger fr0 (ctrl c)) c) Hok) as G.
      destruct (handle _ _ _ _ _ _) as [[[w' c'] r] l]. apply G.
    - done.
    - simpl. by apply (unpublish_refines name (set_ctrl (invokeLogger fr0 (ctrl c)) c)). }
  apply H. split; [apply zero_store_wf|done].
Qed.

Lemma store_refines_witness :
  store_ok (state c1) /\
  store_ok (state (handle toy_R toy_opts (fetchReq "a") false w1 c1).1.1.2).
Proof.
  split; [exact c1_ok|].
  exact (proj1 (proj1 (store_refines toy_R toy_opts w1 c1 c1_ok) (fetchReq "a") false)).
Defined.


Lemma shard_fixed_witness :
  exists s, shardOf (mkGlobals 4 (withDefaults (mkStoreOptions 4 0 0 0 0 0))) "world/1" = Ok s /\ (0 <= s < 4)%Z.
Proof.
  exact (proj2 (shard_fixed (mkStoreOptions 4 0 0 0 0 0) [mkStoreOptions 4 9 9 0 0 0]
    (mkGlobals 4 (withDefaults (mkStoreOptions 4 0 0 0 0 0))) _ "world/1"
    ltac:(vm_compute; reflexivity) eq_refl eq_refl)).
Defined.

Lemma schedule_cooldown_witness :
  heap (state c1) !! 0 = Some e1 /\ (0 <= now w1 - e_lastSent e1 < 2 ^ 63)%Z /\
  (scheduleRefresh toy_R 0 100 w1 c1).2 = [].
Proof.
  split; [exact e1_here|]. split; [vm_compute; split; congruence|].
  pose proof (schedule_cooldown toy_R 0 100 w1 c1 e1 e1_here) as H.
  specialize (H ltac:(vm_compute; split; congruence) ltac:(vm_compute; congruence)).
  destruct (scheduleRefresh toy_R 0 100 w1 c1) as [[w' c'] log].
  exact (proj2 (proj2 H)).
Defined.
End StoreWitness.
