(* ===== verification/Reader.v ===== *)
(** * Shared data: readers and owners

    shared/reader.go, shared/peek.go and shared/owner.go: the cache a reader actor keeps
    of the values pushed to it, reading through the cache ([Watch], [Peek]) or past it
    ([Fetch]), and the calls of the owner of a key. They reach the store through the
    interface [StoreClient]. *)

From S2P Require Import Prelude ActorTypes Control Registry Runtime Store.

Local Open Scope string_scope.

(** What the readers and owners need from the manager: [actor.Call] with a timeout, and
    [actor.Post], to the store actor of a shard. *)
Class StoreClient (W I Any : Type) : Type := {
  store_Call : W -> Z -> Z -> storeReq I Any -> W * (option (storeRep Any) * option error);
  store_Post : W -> Z -> storeReq I Any -> W * option error;
}.

(** A Go type whose values a key holds: the assertion [v.(V)] and the conversion to [any]. *)
Class GoType (Any V : Type) : Type := {
  as_V : Any -> option V;
  to_any : V -> Any;
  as_to_any : forall v, as_V (to_any v) = Some v;
}.

(** ** The cache *)
Section cache.
Context {Any : Type} `{!GoAny Any}.

Record cacheEntry := mkCache {
  c_value : Any;
  c_version : Z;
  c_loaded : bool;
  c_at : Z;
  c_ttl : Z;
}.

(** [Reader]; a nil map reads as an empty one and is made before the only write. *)
Record Reader := mkReader { r_entries : gmap string cacheEntry }.

Definition zero_reader : Reader := mkReader ∅.
Definition zero_cache : cacheEntry := mkCache nil_any 0 false 0 0.

(** [Reader.entry] *)
Definition reader_entry (name : string) (r : Reader) : Reader * cacheEntry :=
  match r_entries r !! name with
  | Some e => (r, e)
  | None => (mkReader (<[name := zero_cache]> (r_entries r)), zero_cache)
  end.

Context {W : Type} `{!Clock W}.

(** [Reader.set]: a version that is not newer than the loaded one is dropped. *)
Definition set (name : string) (version : Z) (value : Any) (ttl : Z) (w : W) (r : Reader) : Reader :=
  let '(r1, e) := reader_entry name r in
  if c_loaded e && (version <=? c_version e)%Z then r1
  else mkReader (<[name := mkCache value version true (now w) ttl]> (r_entries r1)).

(** The handler [ServeReader] registers, on the reader of the state. *)
Definition on_refresh (q : refreshReq Any) (w : W) (r : Reader) : Reader :=
  set (rq_name q) (rq_version q) (rq_value q) (rq_ttl q) w r.

Definition Invalidate (k : Key Any) (r : Reader) : Reader :=
  match r_entries r !! key_name k with
  | Some e => mkReader (<[key_name k := mkCache (c_value e) (c_version e) false (c_at e) (c_ttl e)]> (r_entries r))
  | None => r
  end.

Definition VersionOf (r : Reader) (k : Key Any) : Z * bool :=
  match r_entries r !! key_name k with
  | Some e => if c_loaded e then (c_version e, true) else (0%Z, false)
  | None => (0%Z, false)
  end.

Definition expired (w : W) (e : cacheEntry) : bool := (0 <? c_ttl e)%Z && (c_ttl e <? Since w (c_at e))%Z.

Definition cacheGet {V} `{!GoType Any V} (w : W) (r : Reader) (k : Key Any) : option V :=
  match r_entries r !! key_name k with
  | None => None
  | Some e => if negb (c_loaded e) then None else if expired w e then None else as_V (c_value e)
  end.

Definition Peek {V} `{!GoType Any V} (w : W) (r : Reader) (k : Key Any) : option V := cacheGet w r k.
End cache.
Arguments cacheEntry Any : clear implicits.
Arguments Reader Any : clear implicits.

(** ** Errors of the store *)
Definition is_GroupNotFound (e : error) : option unit :=
  match e with GroupNotFoundError _ => Some tt | _ => None end.

Definition translateStoreError (err : error) (name : string) : error :=
  match errors_as is_GroupNotFound err with
  | Some _ => ErrStoreNotServed
  | None =>
      match errors_as is_ActorNotFound err with
      | Some _ => NotPublishedError name
      | None => err
      end
  end.

(** ** Reading and publishing *)
Section clients.
Context {W I Any : Type} `{!ActorId I, !GoAny Any, !Clock W, !StoreClient W I Any}.
Context (g : storeGlobals).

Local Open Scope go_scope.

(** The bindings of the reader groups ([bindings], filled by [ServeReader]), by actor type. *)
Definition bindings : Type := gmap string binding.

Definition lookupBinding (bs : bindings) (t : string) : option binding := bs !! t.

Definition ServeReader_bind (zero : I) (fresh_binding : binding) (bs : bindings) : bindings :=
  <[ActorType zero := fresh_binding]> bs.

(** A reply of the wrong shape is a nil pointer: the reply type of a request is fixed. *)
Definition nil_deref {X} : outcome error X := Panic "nil pointer dereference".

(** [WatchFrom]; the second component is the reader's cache afterwards. *)
Definition WatchFrom {V} `{!GoType Any V} (bs : bindings) (id : I) (k : Key Any) (w : W) (r : Reader Any)
    : W * Reader Any * outcome error V :=
  match lookupBinding bs (ActorType id) with
  | None => (w, r, Err (ReaderNotRegisteredError (ActorType id)))
  | Some bind =>
      match cacheGet w r k with
      | Some v => (w, r, Ok v)
      | None =>
          match shardOf g (key_name k) with
          | Ok shard =>
              let '(w1, (rep, err)) :=
                store_Call w (fetchTimeout g) shard (subscribeReq (key_name k) id (Some bind)) in
              match err with
              | Some e => (w1, r, Err (translateStoreError e (key_name k)))
              | None =>
                  match rep with
                  | Some (subscribeRep version value) =>
                      match as_V value with
                      | None => (w1, r, Err (TypeMismatchError (key_name k)))
                      | Some v =>
                          match key_info k with
                          | None => (w1, r, nil_deref)
                          | Some info => (w1, set (key_name k) version (to_any v) (d_ttl info) w1 r, Ok v)
                          end
                      end
                  | _ => (w1, r, nil_deref)
                  end
              end
          | Err e => (w, r, Err e)
          | Panic why => (w, r, Panic why)
          end
      end
  end.

(** [Watch] of a handler is [WatchFrom] with the identifier of its context. *)
Definition Watch {V} `{!GoType Any V} {Q Hook CB S} (bs : bindings) (c : ActorContext I Q Hook CB S)
    (k : Key Any) (w : W) (r : Reader Any) : W * Reader Any * outcome error V :=
  WatchFrom bs (ctx_id c) k w r.

Definition FetchFrom {V} `{!GoType Any V} (k : Key Any) (w : W) : W * outcome error V :=
  match shardOf g (key_name k) with
  | Ok shard =>
      let '(w1, (rep, err)) := store_Call w (fetchTimeout g) shard (fetchReq (key_name k)) in
      (w1, match err with
           | Some e => Err (translateStoreError e (key_name k))
           | None =>
               match rep with
               | Some (fetchRep _ value) =>
                   match as_V value with
                   | None => Err (TypeMismatchError (key_name k))
                   | Some v => Ok v
                   end
               | _ => nil_deref
               end
           end)
  | Err e => (w, Err e)
  | Panic why => (w, Panic why)
  end.

(** The owner's side: posting or calling with the publish message. *)
Definition PublishFrom {V} `{!GoType Any V} (k : Key Any) (v : V) (w : W) : outcome error (W * option error) :=
  let! shard := shardOf g (key_name k) in
  let! q := publishMessage k (to_any v) in
  Ok (store_Post w shard q).

Definition PublishWaitFrom {V} `{!GoType Any V} (k : Key Any) (v : V) (w : W) : outcome error (W * option error) :=
  let! shard := shardOf g (key_name k) in
  let! q := publishMessage k (to_any v) in
  let '(w1, (_, err)) := store_Call w (fetchTimeout g) shard q in
  Ok (w1, err).

Definition UnpublishFrom (k : Key Any) (w : W) : outcome error (W * option error) :=
  let! shard := shardOf g (key_name k) in
  Ok (store_Post w shard (unpublishReq (key_name k) : storeReq I Any)).
End clients.
