(* ===== verification/ReaderSpec.v ===== *)
(** * Theorems on readers and owners

    A reader's cache converges to the newest version whatever the order of the pushes;
    what [Watch] does on each branch; a value that was published is the one that is then
    fetched, watched and peeked, through the message handling of the store actor. *)

From S2P Require Import Prelude ActorTypes Control ControlProps Registry Runtime.
From S2P Require Import Store StoreTimers StoreSpec Reader.

Local Open Scope string_scope.

(** ** The cache *)
Section cache.
Context {Any : Type} `{!GoAny Any} {W : Type} `{!Clock W}.
Implicit Types (r : Reader Any) (l : list (W * refreshReq Any)).

(** What a reader holds of a name. *)
Definition cached r (n : string) : option (Z * Any) :=
  match r_entries r !! n with
  | Some e => if c_loaded e then Some (c_version e, c_value e) else None
  | None => None
  end.

Definition receive_all l r : Reader Any := foldl (fun r wq => on_refresh wq.2 wq.1 r) r l.

Lemma cached_set name version value ttl (w : W) r n :
  cached (set name version value ttl w r) n =
    if decide (n = name) then
      match cached r name with
      | Some (v, x) => if (version <=? v)%Z then Some (v, x) else Some (version, value)
      | None => Some (version, value)
      end
    else cached r n.
Proof.
  unfold set, cached, reader_entry. case_decide as E.
  - subst n. destruct (r_entries r !! name) as [e|] eqn:Ee.
    + destruct (c_loaded e) eqn:El; simpl.
      * destruct (version <=? c_version e)%Z eqn:Ev; simpl; [by rewrite Ee, El|].
        by rewrite lookup_insert_eq.
      * by rewrite lookup_insert_eq.
    + simpl. by rewrite lookup_insert_eq.
  - destruct (r_entries r !! name) as [e|] eqn:Ee.
    + destruct (c_loaded e && (version <=? c_version e)%Z); simpl; [done|].
      by rewrite lookup_insert_ne.
    + simpl. by rewrite !lookup_insert_ne.
Qed.

(** C17 The cache of a reader is monotone and converges: after any list of pushes, received
    in any order and with any repetitions, it holds for each name a value that was pushed
    (or held before) under the version it records, and no push, nor what was held before,
    has a newer version. *)
Theorem reader_converges l r n :
  match cached (receive_all l r) n with
  | Some (v, x) =>
      (cached r n = Some (v, x) \/
       exists wq, wq ∈ l /\ rq_name wq.2 = n /\ rq_version wq.2 = v /\ rq_value wq.2 = x) /\
      (forall v0 x0, cached r n = Some (v0, x0) -> (v0 <= v)%Z) /\
      (forall wq, wq ∈ l -> rq_name wq.2 = n -> (rq_version wq.2 <= v)%Z)
  | None => cached r n = None /\ forall wq, wq ∈ l -> rq_name wq.2 ≠ n
  end.
Proof.
  revert r. induction l as [|[w q] l IH]; intros r; simpl.
  { destruct (cached r n) as [[v x]|] eqn:E.
    - split; [by left|]. split; [intros v0 x0 [= -> ->]; lia|]. intros wq H. by apply elem_of_nil in H.
    - split; [done|]. intros wq H. by apply elem_of_nil in H. }
  specialize (IH (on_refresh q w r)).
  pose proof (cached_set (rq_name q) (rq_version q) (rq_value q) (rq_ttl q) w r n) as Hset.
  fold (on_refresh q w r) in Hset.
  destruct (cached (receive_all l (on_refresh q w r)) n) as [[v x]|].
  - destruct IH as (H1 & H2 & H3). rewrite Hset in *. clear Hset. case_decide as En.
    + subst n. destruct (cached r (rq_name q)) as [[v1 x1]|] eqn:E1.
      * destruct (Z.leb_spec (rq_version q) v1) as [Hle|Hlt].
        -- split; [|split].
           ++ destruct H1 as [H1|(wq & Hin & ?)]; [by left|right]. exists wq.
              split; [by apply list_elem_of_further|done].
           ++ intros v0 x0 [= -> ->]. by eapply H2.
           ++ intros wq [->|Hin]%elem_of_cons Hn; [|by apply H3]. simpl. specialize (H2 _ _ eq_refl). lia.
        -- split; [|split].
           ++ right. destruct H1 as [[= <- <-]|(wq & Hin & ?)].
              ** exists (w, q). split; [apply list_elem_of_here|done].
              ** exists wq. split; [by apply list_elem_of_further|done].
           ++ intros v0 x0 [= -> ->]. specialize (H2 _ _ eq_refl). lia.
           ++ intros wq [->|Hin]%elem_of_cons Hn; [|by apply H3]. simpl. by eapply H2.
      * split; [|split; [done|]].
        -- right. destruct H1 as [[= <- <-]|(wq & Hin & ?)].
           ++ exists (w, q). split; [apply list_elem_of_here|done].
           ++ exists wq. split; [by apply list_elem_of_further|done].
        -- intros wq [->|Hin]%elem_of_cons Hn; [|by apply H3]. simpl. by eapply H2.
    + split; [|split; [done|]].
      * destruct H1 as [H1|(wq & Hin & ?)]; [by left|right]. exists wq.
        split; [by apply list_elem_of_further|done].
      * intros wq [->|Hin]%elem_of_cons Hn; [done|by apply H3].
  - destruct IH as [H1 H2]. rewrite Hset in H1. clear Hset. case_decide as En.
    + destruct (cached r (rq_name q)) as [[v1 x1]|]; [by destruct (_ <=? _)%Z|done].
    + split; [done|]. intros wq [->|Hin]%elem_of_cons; [done|by apply H2].
Qed.
End cache.

(** ** Watch *)
Section watch.
Context {W I Any V : Type} `{!ActorId I, !GoAny Any, !Clock W, !StoreClient W I Any, !GoType Any V}.
Implicit Types (w : W) (r : Reader Any).

(** [Watch] on every branch: an unregistered reader group is an error; a cached value
    that is loaded, not expired and of the type asked for is returned without a call and
    without a change; otherwise the store is asked: its errors are translated (a missing
    group means that the store is not served, a missing actor that the key is not
    published) and leave the cache alone, a value of another type is an error that leaves
    it alone too, and a good answer is returned and merged into the cache, which never
    goes back to an older version. *)
Theorem Watch_result g bs (id : I) k w r (info : defInfo Any) shard :
  key_info k = Some info -> shardOf g (key_name k) = Ok shard ->
  let '(w', r', res) := WatchFrom (V := V) g bs id k w r in
  match bs !! ActorType id with
  | None => w' = w /\ r' = r /\ res = Err (ReaderNotRegisteredError (ActorType id))
  | Some bind =>
      match Peek w r k with
      | Some v => w' = w /\ r' = r /\ res = Ok v
      | None =>
          let '(w1, (rep, err)) := store_Call w (fetchTimeout g) shard (subscribeReq (key_name k) id (Some bind)) in
          w' = w1 /\
          match err, rep with
          | Some e, _ => r' = r /\ res = Err (translateStoreError e (key_name k))
          | None, Some (subscribeRep version value) =>
              match as_V (V := V) value with
              | None => r' = r /\ res = Err (TypeMismatchError (key_name k))
              | Some v =>
                  res = Ok v /\ cached r' (key_name k) =
                    match cached r (key_name k) with
                    | Some (v0, x0) => if (version <=? v0)%Z then Some (v0, x0) else Some (version, to_any v)
                    | None => Some (version, to_any v)
                    end
              end
          | None, _ => r' = r /\ is_panic res = true
          end
      end
  end.
Proof.
  intros Hinfo Hshard. unfold WatchFrom, lookupBinding, Peek.
  destruct (bs !! ActorType id) as [bind|]; [|done].
  destruct (cacheGet w r k) as [v|]; [done|]. rewrite Hshard.
  destruct (store_Call w (fetchTimeout g) shard _) as [w1 [rep [e|]]]; [done|].
  destruct rep as [[| version value | version value |]|]; try done.
  destruct (as_V value) as [v|]; [|done]. rewrite Hinfo. split; [done|]. split; [done|].
  rewrite cached_set. by rewrite decide_True.
Qed.
End watch.

(** ** The activity flag through the store's handlers *)
Section activity.
Context {W I Q R : Type} `{!ActorId I} `{!Poster W I Q R} {Hook CB : Type}.
Implicit Types (a : ActorControl I Q Hook CB) (w : W).

Lemma StopTimer_active tid a : active (StopTimer tid a).1 = active a.
Proof. unfold StopTimer. by destruct (timers a !! tid). Qed.

Lemma stopPostponeFlush_active a : active (stopPostponeFlush a) = active a.
Proof. unfold stopPostponeFlush. destruct (_ =? _)%Z; [done|]. apply StopTimer_active. Qed.

Lemma armPostponeFlush_active a : active (armPostponeFlush a) = active a.
Proof. unfold armPostponeFlush. by destruct (negb _ || _). Qed.

Lemma poseponePost_active w a : active (poseponePost w a).2 = active a.
Proof.
  unfold poseponePost. destruct (postpone a) as [|x l]; [done|].
  destruct (retry_items_frame w (set_postpone [] (postponeSet a) a) (x :: l)) as [n Hn].
  destruct (retry_items _ _ _) as [[w1 a1] kept]. simpl in Hn. subst a1.
  destruct kept; simpl; [by rewrite stopPostponeFlush_active|done].
Qed.

Lemma append_all_active ids req a : active (append_all ids req a) = active a.
Proof.
  unfold append_all. revert a. induction ids as [|id ids IH]; intros a; simpl; [done|].
  rewrite IH. unfold appendPostpone. by rewrite armPostponeFlush_active.
Qed.

Lemma AMulticast_active w a ids req : active (AMulticast w a ids req).1.2 = active a.
Proof.
  unfold AMulticast. pose proof (poseponePost_active w a) as H1.
  destruct (poseponePost w a) as [w1 a1]. simpl in *. destruct (splitPostpone a1 ids) as [p np].
  destruct (fmulticast w1 _ np req) as [w2 [list [e|]]]; [done|].
  destruct (splitIdErr list) as [b nb]. simpl. by rewrite !append_all_active.
Qed.
End activity.

Section store_activity.
Context {I Any : Type} `{!ActorId I, !GoAny Any} {W Hook : Type} `{!Clock W}.
Context `{!Poster W I (refreshReq Any) (storeRep Any)} (is_R : binding -> I -> bool).
Abbreviation ctx := (ActorContext I (refreshReq Any) Hook storeCB (storeState I Any)).
Implicit Types (c : ctx) (w : W).

Lemma deliver_all_active binds w (a : ActorControl I (refreshReq Any) Hook storeCB) req :
  active (deliver_all is_R binds w a req).1.1.2 = active a.
Proof.
  revert w a. induction binds as [|[b subs] binds IH]; intros w a; [done|]. cbn [deliver_all].
  assert (active (bind_deliver w a subs req).1.2 = active a) as H.
  { unfold bind_deliver. destruct (elements subs) as [|id ids]; [done|].
    pose proof (AMulticast_active w a (id :: ids) req) as H.
    by destruct (AMulticast w a (id :: ids) req) as [[w1 a1] [errs err]]. }
  destruct (bind_deliver w a subs req) as [[w1 a1] gone]. specialize (IH w1 a1).
  destruct (deliver_all is_R binds w1 a1 req) as [[[w2 a2] binds'] log]. simpl in *. congruence.
Qed.

Lemma send_at_active p w c : active (ctrl (send_at is_R p w c).1.2) = active (ctrl c).
Proof.
  unfold send_at, sendRefresh. destruct (_ =? _)%nat; [done|].
  pose proof (deliver_all_active (map_to_list (e_subs (get_entry p (state c)))) w (ctrl c)
    (refresh_of (get_entry p (state c)))) as H.
  by destruct (deliver_all is_R _ _ _ _) as [[[w1 a1] binds'] log].
Qed.

(** A handled request leaves an open store actor open, and a first request that
    publishes or subscribes opens it. *)
Lemma handle_active opts q spawning w c :
  active (ctrl c) = true \/ spawning = true /\ (storeReq_type q = TPublish \/ storeReq_type q = TSubscribe) ->
  active (ctrl (handle is_R opts q spawning w c).1.1.2) = true.
Proof.
  intros H. destruct q as [name v info|name reader bind|name|name]; simpl in *;
    try (destruct H as [?|[_ [?|?]]]; done).
  - unfold publish. set (c1 := if spawning then _ else c).
    assert (active (ctrl c1) = true) as Ha.
    { subst c1. destruct spawning; [by destruct (0 <? _)%Z|]. by destruct H as [?|[? _]]. }
    destruct (entry_ptr name (state c1)) as [s p].
    set (c2 := SetState _ c1). assert (active (ctrl c2) = true) as Ha2 by done.
    assert (active (ctrl (scheduleRefresh is_R p (Cooldown opts) w c2).1.2) = true) as Hs.
    { unfold scheduleRefresh. destruct (e_pending _); [done|].
      destruct (_ || _); [by rewrite send_at_active|done]. }
    by destruct (scheduleRefresh is_R p (Cooldown opts) w c2) as [[w' c'] log].
  - unfold subscribe. destruct (entry_ptr name _) as [s p]. simpl.
    destruct spawning; [done|]. by destruct H as [?|[? _]].
Qed.
End store_activity.

(** ** The store actors of one process

    [local] holds the context of each shard that has a running actor. A call is handled
    at once, by [batch_body] of Runtime on the message the manager makes of it. *)
Section local.
Context {I Any : Type} `{!ActorId I, !GoAny Any} {W Hook : Type} `{!Clock W}.
Context `{!Poster W I (refreshReq Any) (storeRep Any)} (is_R : binding -> I -> bool).
Context (opts : StoreOptions) (shard_id : I).
Abbreviation ctx := (ActorContext I (refreshReq Any) Hook storeCB (storeState I Any)).

Record local := mkLocal { l_w : W; l_shards : gmap Z ctx }.

#[local] Instance local_Requests : Requests storeT (storeReq I Any) I := store_Requests shard_id.
#[local] Instance local_code : UserCode W I (refreshReq Any) Hook storeCB (storeState I Any)
  (storeReq I Any) (storeRep Any) storeT unit := store_code is_R opts.

Definition local_message (h : handlerEntry storeT storeT) (q : storeReq I Any) :
    invokable storeT (storeReq I Any) storeT storeCB :=
  MInvoke (mkInvoke (OriginFrom "mgr") h (UserReq q) (Some 0) false).

Definition local_Call (lw : local) (timeout shard : Z) (q : storeReq I Any)
    : local * (option (storeRep Any) * option error) :=
  match findHandler (handlers (store_registry (Any := Any) shard_id)) (store_ReqType (storeReq_type q)) with
  | None => (lw, (None, Some (HandlerNotFoundError None (store_ReqType (storeReq_type q)))))
  | Some h =>
      let c := l_shards lw !! shard in
      if bool_decide (c = None) && negb (allow_spawn h)
      then (lw, (None, Some (ActorNotFoundError (Some (mkIdBase storeActorType (store_String shard))))))
      else
        match batch_body shard_id (Some tt) (local_message h q)
                (mkB (l_w lw) 0 {[0 := make_chan]}) c with
        | Go (b, MsgDone c') =>
            (mkLocal (bw b) (match c' with
                             | Some c' => <[shard := c']> (l_shards lw)
                             | None => delete shard (l_shards lw)
                             end),
             default (None, Some CtxDeadlineExceeded) (waitResult (bchans b) 0 None).2)
        | _ => (lw, (None, Some CtxDeadlineExceeded))
        end
  end.

#[export] Instance local_client : StoreClient local I Any :=
  {| store_Call := local_Call;
     store_Post := fun lw shard q => ((local_Call lw 0 shard q).1, None) |}.

#[export] Instance local_clock : Clock local := fun lw => now (l_w lw).

Definition local_ok (lw : local) : Prop :=
  forall shard c, l_shards lw !! shard = Some c -> store_ok (state c) /\ active (ctrl c) = true.

Definition local_view (lw : local) (shard : Z) (n : string) : option (Z * Any) :=
  match l_shards lw !! shard with Some c => view (state c) n | None => None end.

Definition reply_pair (e : handler_end (storeRep Any)) : option (storeRep Any) * option error :=
  match e with HReturn rep err => (rep, err) | HPanic _ => (None, None) end.

(** The handling of one request by a running store actor, or by a fresh one. *)
Lemma local_batch q c w (spawning : bool) (h : handlerEntry storeT storeT) :
  fn h = storeReq_type q -> (spawning = true -> allow_spawn h = true) -> allow_query h = true ->
  store_ok (state c) ->
  active (ctrl c) = true \/ spawning = true /\ (storeReq_type q = TPublish \/ storeReq_type q = TSubscribe) ->
  (spawning = true -> c = newActorContext zero_store shard_id) ->
  exists b c', batch_body shard_id (Some tt) (local_message h q) (mkB w 0 {[0 := make_chan]})
      (if spawning then None else Some c) = Go (b, MsgDone (Some c')) /\
    store_ok (state c') /\ active (ctrl c') = true /\
    (forall n, view (state c') n = spec_step q (view (state c)) n) /\
    (waitResult (bchans b) 0 None).2 = Some (reply_pair (spec_reply q (view (state c)))).
Proof.
  intros Hfn Hsp Hq Hok Hact Hnew.
  set (c0 := if spawning
             then set_ctrl (invokeLogger (MakeFrom shard_id "OnSpawn") (ctrl c)) c
             else c).
  set (c1 := set_ctrl (invokeLogger (OriginFrom "mgr") (ctrl c0)) c0).
  assert (state c1 = state c /\ active (ctrl c1) = active (ctrl c)) as [Est Eact]
    by (subst c1 c0; by destruct spawning).
  assert (active (ctrl (handle is_R opts q spawning w c1).1.1.2) = true) as Hact'.
  { apply handle_active. by rewrite Eact. }
  pose proof (store_refines is_R opts w c1) as Href. rewrite Est in Href.
  destruct (Href Hok) as [Href1 _]. specialize (Href1 q spawning). clear Href.
  assert (Invoke (UserCode0 := local_code) (mkInvoke (OriginFrom "mgr") h (UserReq q) (Some 0) false)
            (mkB w 0 {[0 := make_chan]}) c0 spawning =
    let '(w', c', reply, _) := handle is_R opts q spawning w c1 in
    match reply with
    | HReturn rep err => Go (mkB w' 0 {[0 := mkChan (Some (mkResult rep err)) false]}, c', None)
    | HPanic err => Go (mkB w' 0 {[0 := make_chan]}, c', Some err)
    end) as Hinv.
  { unfold Invoke. simpl. rewrite Hfn, bool_decide_eq_true_2 by done.
    fold c1. destruct (handle is_R opts q spawning w c1) as [[[w' c'] reply] log]. simpl.
    destruct reply as [rep err|err]; [|done]. unfold chan_send. simpl.
    rewrite lookup_singleton_eq. simpl. by rewrite insert_singleton_eq. }
  destruct (handle is_R opts q spawning w c1) as [[[w' c'] reply] log]. simpl in Hact'.
  destruct Href1 as (G1 & G2 & G3).
  assert (exists rep err, reply = HReturn rep err) as (rep & err & Erep).
  { rewrite G3. destruct q; simpl; eauto; by destruct (view _ _) as [[??]|]; eauto. }
  rewrite Erep in Hinv.
  exists (settle (active (ctrl c)) c' (mkB w' 0 {[0 := mkChan (Some (mkResult rep err)) false]})), c'.
  split; [|split; [done|split; [done|split; [done|]]]].
  - unfold batch_body, local_message, allowed. simpl.
    destruct spawning; simpl.
    + rewrite Hsp by done. simpl. unfold do_spawn. simpl.
      pose proof (Hnew eq_refl) as Ec. subst c.
      match goal with |- fbind _ ?k = ?r =>
        change (fbind (Invoke (UserCode0 := local_code)
          (mkInvoke (OriginFrom "mgr") h (UserReq q) (Some 0) false)
          (mkB w 0 {[0 := make_chan]}) c0 true) k = r)
      end.
      rewrite Hinv. cbn [fbind]. by rewrite Hact'.
    + rewrite Hq. simpl. cbn [fbind]. subst c0. rewrite Hinv. cbn [fbind]. by rewrite Hact'.
  - rewrite <- G3, Erep. unfold settle. destruct (_ && _); [|destruct (_ && _)]; simpl;
      unfold waitResult; simpl; by rewrite lookup_singleton_eq.
Qed.

Lemma local_handler (t : storeT) :
  exists h, findHandler (handlers (store_registry (Any := Any) shard_id)) (store_ReqType t) = Some h /\
    fn h = t /\ allow_query h = true /\ allow_spawn h = bool_decide (t ≠ TFetch).
Proof. destruct t; eexists; (split; [vm_compute; reflexivity|by vm_compute]). Qed.

(** A call to the store: what the specification says of the state and of the reply. *)
Lemma local_call_spec lw timeout shard q :
  local_ok lw ->
  is_Some (l_shards lw !! shard) \/ storeReq_type q = TPublish \/ storeReq_type q = TSubscribe ->
  let '(lw', r) := local_Call lw timeout shard q in
  local_ok lw' /\ is_Some (l_shards lw' !! shard) /\
  (forall n, local_view lw' shard n = spec_step q (local_view lw shard) n) /\
  r = reply_pair (spec_reply q (local_view lw shard)).
Proof.
  intros Hok Hq. unfold local_Call.
  destruct (local_handler (storeReq_type q)) as (h & -> & Hfn & Hqu & Hsp).
  destruct (l_shards lw !! shard) as [c|] eqn:Ec.
  - destruct (Hok _ _ Ec) as [Hc1 Hc2].
    destruct (local_batch q c (l_w lw) false h Hfn ltac:(done) Hqu Hc1 (or_introl Hc2) ltac:(done))
      as (b & c' & -> & G1 & G2 & G3 & G4).
    rewrite G4. simpl. unfold local_view at 2 3. rewrite Ec. split; [|split; [|split]].
    + intros s0 c0 H. simpl in H. apply lookup_insert_Some in H as [[<- <-]|[_ H]]; [done|].
      by eapply Hok.
    + rewrite lookup_insert_eq. by eexists.
    + intros n. unfold local_view. simpl. by rewrite lookup_insert_eq.
    + done.
  - destruct Hq as [[? ?]|Hq]; [done|].
    assert (allow_spawn h = true) as Hs by (rewrite Hsp; by destruct Hq as [-> | ->]).
    rewrite Hs. rewrite andb_false_r.
    destruct (local_batch q (newActorContext zero_store shard_id) (l_w lw) true h Hfn ltac:(done) Hqu
      ltac:(split; [apply zero_store_wf|done]) (or_intror (conj eq_refl Hq)) ltac:(done))
      as (b & c' & -> & G1 & G2 & G3 & G4).
    rewrite G4. simpl. split; [|split; [|split]].
    + intros s0 c0 H. simpl in H. apply lookup_insert_Some in H as [[<- <-]|[_ H]]; [done|].
      by eapply Hok.
    + rewrite lookup_insert_eq. by eexists.
    + intros n. unfold local_view. simpl. rewrite lookup_insert_eq, Ec, G3. by destruct q.
    + f_equal. destruct q; simpl; try done; unfold local_view, view; by rewrite Ec.
Qed.

Context {V : Type} `{!GoType Any V}.

(** C15 A value comes back: when an owner has published a value under a key (without a clone
    option) and the store has handled it, a fetch answers that value, a reader of a
    registered group that has not cached the key gets it from [Watch], and from then on
    [Peek] answers it without the store, until time passes; all of this through the
    sharding of the key, the message handling of the store actor and its handlers. *)
Theorem publish_read_roundtrip g bs (id : I) (bind : binding) (k : Key Any) (info : defInfo Any) shard (v : V) lw :
  local_ok lw -> key_info k = Some info -> d_clone info = None -> shardOf g (key_name k) = Ok shard ->
  bs !! ActorType id = Some bind ->
  exists lw1, PublishWaitFrom g k v lw = Ok (lw1, None) /\
    (exists lw2, FetchFrom g k lw1 = (lw2, Ok v)) /\
    exists lw3 r3, WatchFrom g bs id k lw1 zero_reader = (lw3, r3, Ok v) /\
      Peek lw3 r3 k = Some v /\ WatchFrom g bs id k lw3 r3 = (lw3, r3, Ok v).
Proof.
  intros Hok Hinfo Hclone Hshard Hbind.
  unfold PublishWaitFrom, publishMessage. rewrite Hshard, Hinfo, Hclone. simpl.
  pose proof (local_call_spec lw (fetchTimeout g) shard (publishReq (key_name k) (to_any v) (Some info))
    Hok (or_intror (or_introl eq_refl))) as H1.
  destruct (local_Call lw _ _ _) as [lw1 r1]. destruct H1 as (Hok1 & Hsh1 & Hv1 & ->). simpl.
  exists lw1. split; [done|].
  specialize (Hv1 (key_name k)). simpl in Hv1. rewrite decide_True in Hv1 by done.
  split.
  - unfold FetchFrom. rewrite Hshard. simpl.
    pose proof (local_call_spec lw1 (fetchTimeout g) shard (fetchReq (key_name k)) Hok1 (or_introl Hsh1)) as H2.
    destruct (local_Call lw1 _ _ _) as [lw2 r2]. destruct H2 as (_ & _ & _ & ->). exists lw2.
    simpl. rewrite Hv1. simpl. by rewrite as_to_any.
  - unfold WatchFrom at 1, lookupBinding. rewrite Hbind. unfold cacheGet. simpl.
    rewrite lookup_empty, Hshard. simpl.
    pose proof (local_call_spec lw1 (fetchTimeout g) shard (subscribeReq (key_name k) id (Some bind))
      Hok1 (or_introl Hsh1)) as H2.
    destruct (local_Call lw1 _ _ _) as [lw3 r3]. destruct H2 as (_ & _ & _ & ->). simpl.
    rewrite Hv1. simpl. rewrite as_to_any, Hinfo.
    eexists lw3, _. split; [done|].
    assert (Peek lw3 (set (key_name k) (wrap64 (match local_view lw shard (key_name k) with
        | Some vv => vv.1 | None => 0%Z end + 1)) (to_any v) (d_ttl info) lw3 zero_reader) k = Some v) as Hpeek.
    { unfold Peek, cacheGet, set, reader_entry. simpl. rewrite lookup_empty. simpl.
      rewrite lookup_insert_eq. simpl. unfold expired. simpl.
      assert (Since lw3 (now lw3) = 0%Z) as -> by (unfold Since, Sub, saturate; lia).
      replace ((0 <? d_ttl info)%Z && (d_ttl info <? 0)%Z) with false by lia. apply as_to_any. }
    split; [done|]. unfold WatchFrom, lookupBinding. rewrite Hbind. unfold Peek in Hpeek. by rewrite Hpeek.
Qed.
End local.

(** ** Concrete runs *)
Module ReaderWitness.
Import StoreWitness.
#[export] Instance Z_go : GoType Z Z := {| as_V := Some; to_any := fun v => v; as_to_any := fun v => eq_refl |}.

Definition key_a : Key Z := mkKey "a" (Some (mkDefInfo "a" 0 0 None false)).
Definition g1 : storeGlobals := mkGlobals 4 (withDefaults (mkStoreOptions 4 0 0 0 0 0)).
Definition bs1 : bindings := ServeReader_bind (zero_id : nat) 0 ∅.

Abbreviation toylocal := (local (I := nat) (Any := Z) (W := toyw) (Hook := nat)).
Definition lw0 : toylocal := mkLocal (mkToyw T0 []) ∅.
#[export] Instance toy_client : StoreClient toylocal nat Z := local_client toy_R toy_opts 0.

Lemma lw0_ok : local_ok lw0.
Proof. intros shard c H. simpl in H. by rewrite lookup_empty in H. Qed.

Definition pushes : list (toyw * refreshReq Z) :=
  (fun q => (mkToyw T0 [], q)) <$> [mkRefresh "a" 2 6%Z 0; mkRefresh "a" 3 7%Z 0; mkRefresh "a" 2 6%Z 0].

Example reader_run : cached (receive_all pushes zero_reader) "a" = Some (3%Z, 7%Z).
Proof. vm_compute. done. Qed.

Lemma Watch_result_witness :
  shardOf g1 "a" = Ok 0%Z /\
  (WatchFrom (V := Z) g1 ∅ 1 key_a lw0 zero_reader).2 = Err (ReaderNotRegisteredError "Region").
Proof.
  split; [vm_compute; reflexivity|].
  pose proof (Watch_result (V := Z) g1 ∅ 1 key_a lw0 zero_reader (mkDefInfo "a" 0 0 None false) 0%Z
    eq_refl ltac:(vm_compute; reflexivity)) as H.
  destruct (WatchFrom g1 ∅ 1 key_a lw0 zero_reader) as [[w' r'] res]. exact (proj2 (proj2 H)).
Defined.

Lemma publish_read_roundtrip_witness :
  local_ok lw0 /\
  exists lw1, PublishWaitFrom g1 key_a 42%Z lw0 = Ok (lw1, None) /\
    exists lw2, FetchFrom g1 key_a lw1 = (lw2, Ok 42%Z).
Proof.
  split; [exact lw0_ok|].
  destruct (publish_read_roundtrip toy_R toy_opts 0 g1 bs1 1 0 key_a (mkDefInfo "a" 0 0 None false) 0%Z 42%Z lw0
    lw0_ok eq_refl eq_refl ltac:(vm_compute; reflexivity) ltac:(vm_compute; reflexivity)) as (lw1 & H1 & H2 & _).
  exists lw1. split; [exact H1|exact H2].
Defined.

(** A key whose readers keep a value for 50 ns and that is not published again: after the
    50 ns every [Watch] asks the store, for the answer has the version the reader has
    already, so that its time is not renewed. *)
Definition key_t : Key Z := mkKey "t" (Some (mkDefInfo "t" 0 50 None false)).
Definition later (d : Z) (lw : toylocal) : toylocal :=
  mkLocal (at_ (tw_now (l_w lw) + d) (l_w lw)) (l_shards lw).

Definition watch_t (s : toylocal * Reader Z) : toylocal * Reader Z := (WatchFrom (V := Z) g1 bs1 1 key_t s.1 s.2).1.

Remark watch_after_ttl_never_cached :
  let lw1 := match PublishWaitFrom g1 key_t 1%Z lw0 with Ok (lw, _) => lw | _ => lw0 end in
  let s1 := watch_t (lw1, zero_reader) in
  let s2 := watch_t (later 60 s1.1, s1.2) in
  Peek (V := Z) s1.1 s1.2 key_t = Some 1%Z /\ Peek (V := Z) s2.1 s2.2 key_t = None.
Proof. vm_compute. done. Qed.

(** A key that is unpublished and published again starts over at version 1: a reader that
    holds version 2 discards the push of the new value. *)
Remark republished_value_discarded :
  let c1 := unpublish "a" (ss_c s1) in
  let c2 := (handle toy_R toy_opts (publishReq "a" 8%Z None) false (at_ 5000 w1) c1).1.1.2 in
  view (state c2) "a" = Some (1%Z, 8%Z) /\
  cached (on_refresh (mkRefresh "a" 1 8%Z 0) (at_ 5000 w1) (receive_all pushes zero_reader)) "a" = Some (3%Z, 7%Z).
Proof. vm_compute. done. Qed.

(** Two patterns that differ may expand to the same key name. *)
Remark distinct_patterns_same_key :
  "p/%s" ≠ "p/%s/x" /\ Sprintf "p/%s" [AStr "a/x"] = Sprintf "p/%s/x" [AStr "a"].
Proof. split; [done|vm_compute; done]. Qed.

(** A key whose last reader is gone keeps an empty subscription table of its binding, and
    the sweep, which looks at the number of bindings, never drops it. *)
Remark gone_reader_blocks_sweep :
  let opts := mkStoreOptions 1 1024 0 10 10 0 in
  let run c q := (handle toy_R opts q false (at_ T0 w0) c).1.1.2 in
  let w9 := at_ T0 w0 in
  let c1 := run (run (run c0 (publishReq "a" 5%Z None)) (subscribeReq "a" 9 (Some 0))) (publishReq "a" 6%Z None) in
  e_subs (get_entry 0 (state c1)) = {[0 := ∅]} /\
  view (sweep opts (at_ 100000 w0) (state c1)) "a" = Some (2%Z, 6%Z).
Proof. split; [vm_compute; reflexivity|vm_compute; reflexivity]. Qed.
End ReaderWitness.
