(* ===== verification/Rpc.v ===== *)
(** * Remote calls

    rpc/types.go, rpc/registry.go, rpc/entry.go, rpc/client.go and rpc/server.go: the table
    of the request types that may come from other nodes, the client with its pending calls,
    and the server's handling of one message. The codec and the transport are the
    interfaces of rpc/types.go; the websocket is the interface [Net]; the local manager
    is the interface [Backend]. *)

From S2P Require Import Prelude ActorTypes Control Registry Runtime.

Local Open Scope string_scope.
Local Open Scope go_scope.

(** ** Interfaces *)

(** An envelope: what [EncodeReq] is given. [M] is the message carrier. *)
Record envelope (M : Type) := mkEnvelope {
  v_seq : Z;
  v_method : string;
  v_actorType : string;
  v_reqType : string;
  v_idM : M;
  v_idsM : list M;
  v_reqM : M;
}.
Arguments mkEnvelope {M} _ _ _ _ _ _ _.
Arguments v_seq {M} _.
Arguments v_method {M} _.
Arguments v_actorType {M} _.
Arguments v_reqType {M} _.
Arguments v_idM {M} _.
Arguments v_idsM {M} _.
Arguments v_reqM {M} _.

(** [Codec]: one encoder for each sort of Go value that is sent, and the decoders for the
    types a request type [T] fixes. A reply is a pointer, perhaps nil. [nil_M] is the zero
    value of [M]. *)
Class Codec (M T I U R : Type) : Type := {
  nil_M : M;
  Encode_id : I -> outcome error M;
  Encode_req : U -> outcome error M;
  Encode_rep : option R -> outcome error M;
  Decode_id : T -> M -> outcome error I;
  Decode_req : T -> M -> outcome error U;
  Decode_rep : T -> M -> outcome error R;
}.

(** [Transport]; a byte slice is a string. *)
Class Transport (M : Type) : Type := {
  EncodeReq : envelope M -> outcome error string;
  DecodeReq : string -> outcome error (envelope M);
  EncodeRep : Z -> M -> string -> outcome error string;
  DecodeRep : string -> outcome error (Z * M * string);
}.

(** Gorilla websocket connections, by handle. *)
Class Net (W : Type) : Type := {
  ws_Dial : W -> string -> W * outcome error nat;
  ws_Write : W -> nat -> string -> W * option error;
  ws_Close : W -> nat -> W;
}.

(** The local actor manager, as the servers and routers use it. *)
Class Backend (W I U R : Type) : Type := {
  mgr_Post : W -> I -> U -> W * option error;
  mgr_Call : W -> I -> U -> W * (option R * option error);
  mgr_Broadcast : W -> U -> W * (nat * option error);
  mgr_Multicast : W -> list I -> U -> W * (list (IdErr I) * option error);
}.

Section Rpc.
Context {M T I U R W : Type} `{!ActorId I, !Requests T U I, !Codec M T I U R, !Transport M, !Net W}.

(** ** Registered request types *)
Definition registryKey : Type := string * string.

(** [entryMap]: the entry of a request type knows the types to decode. *)
Record RegistryBuilder := mkRpcBuilder { entryMap : gmap registryKey T }.

Definition NewRegistryBuilder : RegistryBuilder := mkRpcBuilder ∅.

Definition RegisterRequest (b : RegistryBuilder) (t : T) : RegistryBuilder :=
  mkRpcBuilder (<[(ActorType (user_id0 (U := U) t), user_ReqType (U := U) (I := I) t) := t]> (entryMap b)).

(** ** Entries *)
Context `{!Backend W I U R}.

(** The error of a decoding step ends the entry; a decoder that panics does so too, and
    the panic leaves the server's goroutine. *)
Definition decoded {X Y} (d : outcome error X) (w : W) (bad : error -> Y) (k : X -> flow (W * Y)) : flow (W * Y) :=
  match d with
  | Ok x => k x
  | Err e => Go (w, bad e)
  | Panic _ => Crashed
  end.

Definition entry_post (t : T) (w : W) (idM reqM : M) : flow (W * option error) :=
  decoded (Decode_id t idM) w Some (fun id =>
  decoded (Decode_req t reqM) w Some (fun req => Go (mgr_Post w id req))).

Definition entry_call (t : T) (w : W) (idM reqM : M) : flow (W * (M * option error)) :=
  decoded (Decode_id t idM) w (fun e => (nil_M, Some e)) (fun id =>
  decoded (Decode_req t reqM) w (fun e => (nil_M, Some e)) (fun req =>
  let '(w1, (rep, err)) := mgr_Call w id req in
  match err with
  | Some e => Go (w1, (nil_M, Some e))
  | None =>
      match Encode_rep rep with
      | Ok m => Go (w1, (m, None))
      | Err e => Go (w1, (nil_M, Some e))
      | Panic _ => Crashed
      end
  end)).

Definition entry_broadcast (t : T) (w : W) (reqM : M) : flow (W * (nat * option error)) :=
  decoded (Decode_req t reqM) w (fun e => (0, Some e)) (fun req => Go (mgr_Broadcast w req)).

Fixpoint decode_ids (t : T) (idsM : list M) : outcome error (list I) :=
  match idsM with
  | [] => Ok []
  | m :: ms => let! id := Decode_id t m in let! ids := decode_ids t ms in Ok (id :: ids)
  end.

Definition entry_multicast (t : T) (w : W) (idsM : list M) (reqM : M) : flow (W * (nat * option error)) :=
  decoded (decode_ids t idsM) w (fun e => (0, Some e)) (fun ids =>
  decoded (Decode_req t reqM) w (fun e => (0, Some e)) (fun req =>
  let '(w1, (list, err)) := mgr_Multicast w ids req in Go (w1, (CountNoErr list, err)))).

(** ** The server *)
Record Server := mkServer { srv_entryMap : gmap registryKey T }.

Definition NewServerWith (b : RegistryBuilder) : Server := mkServer (entryMap b).
Definition NewServer (reg : RegistryBuilder -> RegistryBuilder) : Server := NewServerWith (reg NewRegistryBuilder).

(** [sendError]: the frames written, at most one; an encoding error is ignored and the
    bytes written all the same (none). *)
Definition sendError (seq : Z) (errMsg : string) : flow (list string) :=
  if (seq =? 0)%Z then Go []
  else match EncodeRep seq nil_M errMsg with
       | Ok bytes => Go [bytes]
       | Err _ => Go [""]
       | Panic _ => Crashed
       end.

Definition error_string (e : option error) : string :=
  match e with Some e => Error e | None => "" end.

(** The answer to a message that was executed. *)
Definition reply_frames (seq : Z) (repM : M) (err : option error) : flow (list string) :=
  if (seq =? 0)%Z then Go []
  else match EncodeRep seq repM (error_string err) with
       | Ok bytes => Go [bytes]
       | Err encErr => sendError seq (Error encErr)
       | Panic _ => Crashed
       end.

(** The body of the loop of [handleRPC] on one message of a connection: what becomes of
    the world, and the frames written to the connection. *)
Definition handleRPC (s : Server) (msgBytes : string) (w : W) : flow (W * list string) :=
  match DecodeReq msgBytes with
  | Panic _ => Crashed
  | Err _ => Go (w, [])
  | Ok v =>
      match srv_entryMap s !! (v_actorType v, v_reqType v) with
      | None => do! f := sendError (v_seq v) "unknown reqType" in Go (w, f)
      | Some t =>
          if String.eqb (v_method v) "post" then
            do! (w1, err) := entry_post t w (v_idM v) (v_reqM v) in
            do! f := reply_frames (v_seq v) nil_M err in Go (w1, f)
          else if String.eqb (v_method v) "call" then
            do! (w1, (repM, err)) := entry_call t w (v_idM v) (v_reqM v) in
            do! f := reply_frames (v_seq v) repM err in Go (w1, f)
          else if String.eqb (v_method v) "broadcast" then
            do! (w1, (_, err)) := entry_broadcast t w (v_reqM v) in
            do! f := reply_frames (v_seq v) nil_M err in Go (w1, f)
          else if String.eqb (v_method v) "multicast" then
            do! (w1, (_, err)) := entry_multicast t w (v_idsM v) (v_reqM v) in
            do! f := reply_frames (v_seq v) nil_M err in Go (w1, f)
          else do! f := sendError (v_seq v) "unknown method" in Go (w, f)
      end
  end.

(** The loop of [handleRPC]: the messages [ReadMessage] answers until it fails, which ends
    the connection. *)
Fixpoint serve_conn (s : Server) (msgs : list string) (w : W) : flow (W * list string) :=
  match msgs with
  | [] => Go (w, [])
  | m :: msgs =>
      do! (w1, f) := handleRPC s m w in
      do! (w2, fs) := serve_conn s msgs w1 in Go (w2, (f ++ fs)%list)
  end.

(** ** The client *)

(** [result]: a reply message and an error string. *)
Record rpc_result := mkRpcResult { rr_M : M; rr_Error : string }.

(** [pendingCalls] maps sequence numbers to reply channels of capacity 1, whose contents
    are in [cl_chans]; [cl_done] is closed by [Close]. *)
Record Client := mkClient {
  serverAddr : string;
  conn : option nat;
  cl_closed : bool;
  pendingCalls : gmap Z nat;
  reqIDSeq : Z;
  cl_done : bool;
  cl_chans : gmap nat (option rpc_result);
}.

Definition NewClient (addr : string) : Client := mkClient addr None false ∅ 0 false ∅.

Definition set_calls (p : gmap Z nat) (ch : gmap nat (option rpc_result)) (c : Client) : Client :=
  mkClient (serverAddr c) (conn c) (cl_closed c) p (reqIDSeq c) (cl_done c) ch.

Definition Connect (c : Client) (w : W) : W * Client * option error :=
  match ws_Dial w ("ws://" +:+ serverAddr c +:+ "/rpc") with
  | (w1, Ok h) =>
      (w1, mkClient (serverAddr c) (Some h) (cl_closed c) (pendingCalls c) (reqIDSeq c) (cl_done c) (cl_chans c), None)
  | (w1, Err e) => (w1, c, Some (ErrWrap ("rpc client connect failed: " +:+ Error e) [e]))
  | (w1, Panic _) => (w1, c, None)
  end.

(** A send on a reply channel: it blocks when the channel is full. *)
Definition rpc_send (ch : nat) (r : rpc_result) (chans : gmap nat (option rpc_result))
    : flow (gmap nat (option rpc_result)) :=
  match chans !! ch with
  | Some None => Go (<[ch := Some r]> chans)
  | _ => Blocked
  end.

Fixpoint fail_pending (l : list (Z * nat)) (r : rpc_result) (chans : gmap nat (option rpc_result))
    : flow (gmap nat (option rpc_result)) :=
  match l with
  | [] => Go chans
  | (_, ch) :: l => do! chans1 := rpc_send ch r chans in fail_pending l r chans1
  end.

(** [Client.Close] *)
Definition Close (c : Client) (w : W) : flow (W * Client) :=
  if cl_closed c then Go (w, c)
  else
    do! chans := fail_pending (map_to_list (pendingCalls c)) (mkRpcResult nil_M "connection closed") (cl_chans c) in
    Go (match conn c with Some h => ws_Close w h | None => w end,
        mkClient (serverAddr c) (conn c) true ∅ (reqIDSeq c) true chans).

(** One turn of [readResponses]: a message, or the end of the connection. *)
Definition on_response (msgBytes : string) (c : Client) : flow Client :=
  match DecodeRep msgBytes with
  | Panic _ => Crashed
  | Err _ => Go c
  | Ok (seq, repM, rerr) =>
      match pendingCalls c !! seq with
      | None => Go c
      | Some ch =>
          do! chans := rpc_send ch (mkRpcResult repM rerr) (cl_chans c) in
          Go (set_calls (delete seq (pendingCalls c)) chans c)
      end
  end.

Definition on_read_error (c : Client) (w : W) : flow (W * Client) := Close c w.

Definition newSeq (c : Client) : Client * Z :=
  let n := uwrap64 (reqIDSeq c + 1) in
  (mkClient (serverAddr c) (conn c) (cl_closed c) (pendingCalls c) n (cl_done c) (cl_chans c), n).

(** Writing on the connection; a client that never connected has a nil one. *)
Definition write (c : Client) (data : string) (w : W) : flow (W * option error) :=
  match conn c with
  | None => Crashed
  | Some h => Go (ws_Write w h data)
  end.

(** The encoding steps of a sender: their errors are its errors. *)
Definition encoded {Y} (o : outcome error string) (w : W) (bad : error -> Y) (k : string -> flow (W * Y)) : flow (W * Y) :=
  match o with
  | Ok data => k data
  | Err e => Go (w, bad e)
  | Panic _ => Crashed
  end.

(** The envelope of a request to one actor. *)
Definition make_req (seq : Z) (method : string) (id : I) (req : U) : outcome error string :=
  let! idM := Encode_id id in
  let! reqM := Encode_req req in
  EncodeReq (mkEnvelope seq method (ActorType id) (user_ReqType (U := U) (I := I) (user_type req)) idM [] reqM).

Definition Post (c : Client) (id : I) (req : U) (w : W) : flow (W * option error) :=
  encoded (make_req 0 "post" id req) w Some (fun data => write c data w).

Definition Broadcast (c : Client) (req : U) (w : W) : flow (W * option error) :=
  encoded (let! reqM := Encode_req req in
           EncodeReq (mkEnvelope 0 "broadcast" (ActorType (user_id0 (U := U) (user_type req)))
             (user_ReqType (U := U) (I := I) (user_type req)) nil_M [] reqM))
    w Some (fun data => write c data w).

Fixpoint encode_ids (ids : list I) : outcome error (list M) :=
  match ids with
  | [] => Ok []
  | id :: ids => let! m := Encode_id id in let! ms := encode_ids ids in Ok (m :: ms)
  end.

Definition Multicast (c : Client) (targets : list I) (req : U) (w : W) : flow (W * option error) :=
  match targets with
  | [] => Go (w, None)
  | id0 :: _ =>
      encoded (let! idsM := encode_ids targets in
               let! reqM := Encode_req req in
               EncodeReq (mkEnvelope 0 "multicast" (ActorType id0)
                 (user_ReqType (U := U) (I := I) (user_type req)) nil_M idsM reqM))
        w Some (fun data => write c data w)
  end.

(** [Call] up to the select: the encodings (the number is drawn after those of the
    identifier and the request), the registration and the write. The answer is the error,
    or the number and the channel waited on. *)
Definition fresh_chan (c : Client) : nat := fresh (dom (cl_chans c)).

Definition unregister (seq : Z) (c : Client) : Client := set_calls (delete seq (pendingCalls c)) (cl_chans c) c.

Definition Call_start (c : Client) (id : I) (req : U) (w : W) : flow (W * Client * (error + Z * nat)) :=
  match (let! idM := Encode_id id in let! reqM := Encode_req req in Ok (idM, reqM)) with
  | Err e => Go (w, c, inl e)
  | Panic _ => Crashed
  | Ok (idM, reqM) =>
      let '(c1, seq) := newSeq c in
      match EncodeReq (mkEnvelope seq "call" (ActorType id)
              (user_ReqType (U := U) (I := I) (user_type req)) idM [] reqM) with
      | Err e => Go (w, c1, inl e)
      | Panic _ => Crashed
      | Ok data =>
          let ch := fresh_chan c1 in
          let c2 := set_calls (<[seq := ch]> (pendingCalls c1)) (<[ch := None]> (cl_chans c1)) c1 in
          do! (w1, err) := write c2 data w in
          match err with
          | Some e => Go (w1, unregister seq c2, inl e)
          | None => Go (w1, c2, inr (seq, ch))
          end
      end
  end.

(** The select of [Call] and what follows, for the case it takes. *)
Inductive select_case := SReply | SDone | SCtx (e : error).

Definition Call_select (t : T) (sel : select_case) (seq : Z) (ch : nat) (c : Client)
    : option (Client * outcome error R) :=
  let c' := unregister seq c in
  match sel with
  | SCtx e => Some (c', Err e)
  | SDone => if cl_done c then Some (c', Err ErrClientClosed) else None
  | SReply =>
      match cl_chans c !! ch with
      | Some (Some r) =>
          let c'' := set_calls (pendingCalls c') (<[ch := None]> (cl_chans c')) c' in
          Some (c'',
            if String.eqb (rr_Error r) "" then Decode_rep t (rr_M r)
            else Err (ErrWrap (Error ErrRpcCallFailed +:+ ": " +:+ rr_Error r) [ErrRpcCallFailed]))
      | _ => None
      end
  end.
End Rpc.

Arguments RegistryBuilder T : clear implicits.
Arguments Server T : clear implicits.
Arguments Client M : clear implicits.
Arguments rpc_result M : clear implicits.

(** ** Starting and stopping *)

Module Life.
Section life.
Context {T W : Type}.

(** Package net and net/http: listening on an address, which answers the one bound;
    serving in a goroutine; listening and serving until the end; the shutdown, with the
    error of the caller's context. *)
Class Http : Type := {
  tcp_Listen : W -> string -> W * (string + error);
  http_Serve : W -> Server T -> string -> W;
  http_ListenAndServe : W -> Server T -> string -> W * option error;
  http_Shutdown : W -> option error -> W * option error;
}.
Context `{!Http}.

(** The rest of the server's struct: the address, and whether there is an [http.Server]. *)
Record ServerState := mkServerState { srv_table : Server T; addr : string; server : bool }.

Definition new_state (s : Server T) (address : string) : ServerState := mkServerState s address false.

Definition Start (s : ServerState) (w : W) : W * ServerState * option error :=
  match tcp_Listen w (addr s) with
  | (w1, inr err) => (w1, s, Some err)
  | (w1, inl bound) =>
      let s1 := mkServerState (srv_table s) bound true in (http_Serve w1 (srv_table s1) bound, s1, None)
  end.

Definition Addr (s : ServerState) : string := addr s.

Definition Run (s : ServerState) (w : W) : W * ServerState * option error :=
  let s1 := mkServerState (srv_table s) (addr s) true in
  let '(w1, err) := http_ListenAndServe w (srv_table s1) (addr s1) in (w1, s1, err).

Definition Shutdown (s : ServerState) (done : option error) (w : W) : W * option error :=
  if server s then http_Shutdown w done else (w, None).
End life.
End Life.
