(* ===== verification/RpcSpec.v ===== *)
(** * Theorems on remote calls

    A remote call answers what the local call on the other node answered; the server
    answers every numbered message exactly once; the client's goroutines never block on a
    reply channel. *)

From Stdlib Require Import Ascii.
From S2P Require Import Prelude ActorTypes Control Registry Runtime Rpc.

Local Open Scope string_scope.
Local Open Scope go_scope.

(** What the documentation of the interfaces promises: decoding undoes encoding, for what
    the transport can carry: proper messages in requests, replies perhaps nil, and text. *)
Class TransportLaws (M : Type) `{!Transport M} : Type := {
  msg_ok : M -> Prop;
  rep_ok : M -> Prop;
  text_ok : string -> Prop;
  call_ok : text_ok "call";
  EncodeReq_roundtrip : forall v data, (0 <= v_seq v < 2 ^ 64)%Z ->
    text_ok (v_method v) -> text_ok (v_actorType v) -> text_ok (v_reqType v) ->
    msg_ok (v_idM v) -> Forall msg_ok (v_idsM v) -> msg_ok (v_reqM v) ->
    EncodeReq v = Ok data -> DecodeReq data = Ok v;
  EncodeRep_roundtrip : forall seq m e data, (0 <= seq < 2 ^ 64)%Z -> rep_ok m -> text_ok e ->
    EncodeRep seq m e = Ok data -> DecodeRep data = Ok (seq, m, e);
}.

(** The codec reads what it wrote, which the transport can carry. *)
Class CodecLaws (M T I U R : Type) `{!ActorId I, !Requests T U I, !Codec M T I U R, !Transport M, !TransportLaws M} : Prop := {
  id_roundtrip : forall t id m, Encode_id id = Ok m -> Decode_id t m = Ok id;
  req_roundtrip : forall req m, Encode_req req = Ok m -> Decode_req (user_type req) m = Ok req;
  rep_roundtrip : forall t r m, Encode_rep (Some r) = Ok m -> Decode_rep t m = Ok r;
  id_carried : forall id m, Encode_id id = Ok m -> msg_ok m;
  req_carried : forall req m, Encode_req req = Ok m -> msg_ok m;
  rep_carried : forall r m, Encode_rep r = Ok m -> rep_ok m;
  nil_carried : rep_ok nil_M;
}.

(** ** The server *)
Section server.
Context {M T I U R W : Type} `{!ActorId I, !Requests T U I, !Codec M T I U R, !Transport M, !Net W, !Backend W I U R}.
Implicit Types (w : W) (v : envelope M).

Lemma sendError_one seq msg f : sendError (T := T) (I := I) (U := U) (R := R) seq msg = Go f -> length f = if (seq =? 0)%Z then 0 else 1.
Proof.
  unfold sendError. destruct (seq =? 0)%Z; [by intros [= <-]|].
  destruct (EncodeRep seq nil_M msg); [by intros [= <-]|by intros [= <-]|done].
Qed.

Lemma reply_frames_one seq m err f :
  reply_frames (T := T) (I := I) (U := U) (R := R) seq m err = Go f -> length f = if (seq =? 0)%Z then 0 else 1.
Proof.
  unfold reply_frames. destruct (seq =? 0)%Z eqn:E; [by intros [= <-]|].
  destruct (EncodeRep seq m _); [by intros [= <-]| |done].
  intros H%sendError_one. by rewrite E in H.
Qed.

(** The steps of a branch of [handleRPC]. *)
Lemma frames_after {X} (p : flow (W * X)) (k : W * X -> flow (list string)) w' f :
  (do! x := p in do! f := k x in Go (x.1, f)) = Go (w', f) -> exists x, p = Go x /\ k x = Go f /\ w' = x.1.
Proof.
  destruct p as [x| |]; [|done|done]. cbn [fbind]. destruct (k x) as [f'| |] eqn:E; [|done|done].
  cbn [fbind]. intros [= <- <-]. by exists x.
Qed.

(** The server answers each numbered message exactly once and never answers one without
    a number: a message that cannot be decoded is dropped, one of a request type that is
    not registered or with an unknown method changes nothing and is answered with an error,
    and each of the four methods leaves at most one answer. *)
Theorem handleRPC_answers s msgBytes w w' frames :
  handleRPC s msgBytes w = Go (w', frames) ->
  match DecodeReq msgBytes with
  | Ok v =>
      length frames = (if (v_seq v =? 0)%Z then 0 else 1) /\
      (srv_entryMap s !! (v_actorType v, v_reqType v) = None -> w' = w) /\
      (v_method v ∉ ["post"; "call"; "broadcast"; "multicast"] -> w' = w)
  | _ => w' = w /\ frames = []
  end.
Proof.
  unfold handleRPC. destruct (DecodeReq msgBytes) as [v|e|why]; [|by intros [= <- <-]|done].
  destruct (srv_entryMap s !! _) as [t|].
  2:{ destruct (sendError _ _) as [f| |] eqn:E; [|done|done]. cbn [fbind]. intros [= <- <-].
      apply sendError_one in E. by split. }
  rewrite !elem_of_cons, elem_of_nil.
  assert (forall X (p : flow (W * X)) (k : W * X -> M * option error),
    (do! x := p in do! f := reply_frames (T := T) (I := I) (U := U) (R := R) (v_seq v) (k x).1 (k x).2 in Go (x.1, f)) = Go (w', frames) ->
    length frames = if (v_seq v =? 0)%Z then 0 else 1) as Hone.
  { intros X p k H. apply frames_after in H as (x & _ & H & _). by eapply reply_frames_one. }
  destruct (String.eqb_spec (v_method v) "post") as [Em|_].
  { intros H. split; [|split; [done|tauto]]. apply (Hone _ (entry_post t w (v_idM v) (v_reqM v)) (fun x => (nil_M, x.2))).
    rewrite <- H. destruct (entry_post _ _ _ _) as [[? ?]| |]; done. }
  destruct (String.eqb_spec (v_method v) "call") as [Em|_].
  { intros H. split; [|split; [done|tauto]]. apply (Hone _ (entry_call t w (v_idM v) (v_reqM v)) (fun x => x.2)).
    rewrite <- H. destruct (entry_call _ _ _ _) as [[? [? ?]]| |]; done. }
  destruct (String.eqb_spec (v_method v) "broadcast") as [Em|_].
  { intros H. split; [|split; [done|tauto]]. apply (Hone _ (entry_broadcast t w (v_reqM v)) (fun x => (nil_M, x.2.2))).
    rewrite <- H. destruct (entry_broadcast _ _ _) as [[? [? ?]]| |]; done. }
  destruct (String.eqb_spec (v_method v) "multicast") as [Em|_].
  { intros H. split; [|split; [done|tauto]]. apply (Hone _ (entry_multicast t w (v_idsM v) (v_reqM v)) (fun x => (nil_M, x.2.2))).
    rewrite <- H. destruct (entry_multicast _ _ _ _) as [[? [? ?]]| |]; done. }
  destruct (sendError _ _) as [f| |] eqn:E; [|done|done]. cbn [fbind]. intros [= <- <-].
  apply sendError_one in E. by split.
Qed.

(** Whether a message has to be answered. *)
Definition numbered (msgBytes : string) : bool :=
  match DecodeReq msgBytes with Ok v => negb (v_seq v =? 0)%Z | _ => false end.

End server.

(** ** The client *)
Section client.
Context {M T I U R W : Type} `{!ActorId I, !Requests T U I, !Codec M T I U R, !Transport M, !Net W}.
Implicit Types (c : Client M) (w : W).

Abbreviation on_response := (on_response (M := M)).
Abbreviation Close := (Close (M := M) (T := T) (I := I) (U := U) (R := R)).
Abbreviation Call_start := (Call_start (M := M) (T := T) (R := R)).
Abbreviation Call_select := (Call_select (M := M) (T := T) (I := I) (U := U) (R := R)).

(** Every pending call has a channel of its own, which is empty, and a number that has
    been drawn. *)
Record client_ok c : Prop := {
  co_pending : forall seq ch, pendingCalls c !! seq = Some ch ->
    cl_chans c !! ch = Some None /\ (1 <= seq <= reqIDSeq c)%Z;
  co_inj : forall seq1 seq2 ch, pendingCalls c !! seq1 = Some ch -> pendingCalls c !! seq2 = Some ch ->
    seq1 = seq2;
}.

(** The steps of the goroutines that share a client. *)
Inductive client_step : W * Client M -> W * Client M -> Prop :=
  | cs_connect w c : client_step (w, c) (Connect c w).1
  | cs_start w c id req w' c' r : Call_start c id req w = Go (w', c', r) -> client_step (w, c) (w', c')
  | cs_response w c bytes c' : on_response bytes c = Go c' -> client_step (w, c) (w, c')
  | cs_close w c w' c' : Close c w = Go (w', c') -> client_step (w, c) (w', c')
  | cs_select w c t sel seq ch c' r : Call_select t sel seq ch c = Some (c', r) -> client_step (w, c) (w, c')
  | cs_net w w' c : client_step (w, c) (w', c).

Lemma unregister_ok seq c : client_ok c -> client_ok (unregister seq c).
Proof.
  intros [H1 H2]. split; simpl.
  - intros s ch [_ H]%lookup_delete_Some. by apply H1.
  - intros s1 s2 ch [_ G1]%lookup_delete_Some [_ G2]%lookup_delete_Some. by eapply H2.
Qed.

Lemma Call_start_inv c id req w w' c' r :
  Call_start c id req w = Go (w', c', r) -> (0 <= reqIDSeq c < 2 ^ 64 - 1)%Z -> client_ok c ->
  client_ok c' /\ (reqIDSeq c <= reqIDSeq c' <= reqIDSeq c + 1)%Z.
Proof.
  unfold Rpc.Call_start. intros H Hn Hok.
  destruct (let! idM := Encode_id id in _) as [[idM reqM]|e|]; [|by injection H as <- <- <-; split; [done|lia]|done].
  assert (uwrap64 (reqIDSeq c + 1) = reqIDSeq c + 1)%Z as En by (apply Z.mod_small; lia).
  unfold newSeq in H. rewrite En in H.
  set (c1 := mkClient _ _ _ _ (reqIDSeq c + 1) _ _) in H.
  assert (client_ok c1) as Hok1.
  { destruct Hok as [H1 H2]. split; [|exact H2]. intros s ch Hs. simpl in *. destruct (H1 s ch Hs). split; [done|lia]. }
  destruct (EncodeReq _) as [data|e|]; [|injection H as <- <- <-; split; [done|simpl; lia]|done].
  set (seq := (reqIDSeq c + 1)%Z) in *. set (ch := fresh_chan c1) in *.
  assert (cl_chans c1 !! ch = None) as Hfresh by apply not_elem_of_dom_1, is_fresh.
  set (c2 := set_calls _ _ c1) in H.
  assert (client_ok c2) as Hok2.
  { destruct Hok1 as [H1 H2]. split; simpl.
    - intros s ch' [[<- <-]|[Hne Hs]]%lookup_insert_Some.
      + rewrite lookup_insert_eq. split; [done|lia].
      + destruct (H1 _ _ Hs) as [G1 G2]. split; [|done].
        rewrite lookup_insert_ne; [done|]. congruence.
    - intros s1 s2 ch' [[<- <-]|[Hn1 G1]]%lookup_insert_Some [[<- E]|[Hn2 G2]]%lookup_insert_Some.
      + done.
      + destruct (H1 _ _ G2) as [G _]. simpl in *. congruence.
      + destruct (H1 _ _ G1) as [G _]. simpl in *. congruence.
      + by eapply H2. }
  destruct (write c2 data w) as [[w1 [e|]]| |]; [| |done|done]; cbn [fbind] in H; injection H as <- <- <-.
  - split; [by apply unregister_ok|simpl; lia].
  - split; [done|simpl; lia].
Qed.

(** Sending the failure to every pending call of a list. *)
Lemma fail_pending_go (l : list (Z * nat)) (r : rpc_result M) chans :
  (forall p, p ∈ l -> chans !! p.2 = Some None) -> NoDup l.*2 ->
  exists chans', fail_pending l r chans = Go chans' /\ forall ch, ch ∉ l.*2 -> chans' !! ch = chans !! ch.
Proof.
  revert chans. induction l as [|[s ch] l IH]; intros chans Hl Hnd; simpl; [by exists chans|].
  apply NoDup_cons in Hnd as [Hni Hnd].
  unfold rpc_send. pose proof (Hl (s, ch) (list_elem_of_here _ _)) as Hch. simpl in Hch.
  rewrite Hch. cbn [fbind].
  destruct (IH (<[ch := Some r]> chans)) as (chans' & -> & Hc).
  - intros p Hp. rewrite lookup_insert_ne; [apply Hl; by apply list_elem_of_further|].
    intros E. apply Hni. apply list_elem_of_fmap. by exists p.
  - done.
  - exists chans'. split; [done|]. intros ch' H. rewrite elem_of_cons in H.
    rewrite Hc by tauto. rewrite lookup_insert_ne; [done|]. intros ->. tauto.
Qed.

Lemma pending_nodup c : client_ok c -> NoDup (map_to_list (pendingCalls c)).*2.
Proof.
  intros [_ Hinj]. apply NoDup_fmap_2_strong; [|apply NoDup_map_to_list].
  intros [s1 c1] [s2 c2] H1%elem_of_map_to_list H2%elem_of_map_to_list E. simpl in E. subst c2.
  f_equal. by eapply Hinj.
Qed.

Lemma Close_go c w : client_ok c -> exists w' c', Close c w = Go (w', c') /\ client_ok c' /\ reqIDSeq c' = reqIDSeq c.
Proof.
  intros Hok. unfold Rpc.Close. destruct (cl_closed c); [by exists w, c|].
  destruct (fail_pending_go (map_to_list (pendingCalls c)) (mkRpcResult nil_M "connection closed") (cl_chans c))
    as (chans' & -> & _).
  - intros [s ch] H%elem_of_map_to_list. by apply (co_pending _ Hok) in H as [H _].
  - by apply pending_nodup.
  - cbn [fbind]. eexists _, _. split; [done|]. split; [|done]. by split.
Qed.

Lemma on_response_inv c bytes :
  client_ok c -> on_response bytes c ≠ Blocked /\
  forall c', on_response bytes c = Go c' -> client_ok c' /\ reqIDSeq c' = reqIDSeq c.
Proof.
  intros Hok. unfold Rpc.on_response.
  destruct (DecodeRep bytes) as [[[seq repM] rerr]|e|]; [|by split; [|intros ? [= <-]]|done].
  destruct (pendingCalls c !! seq) as [ch|] eqn:Ep; [|by split; [|intros ? [= <-]]].
  destruct (co_pending _ Hok _ _ Ep) as [Hch _]. unfold rpc_send. rewrite Hch. cbn [fbind].
  split; [done|]. intros c' [= <-]. split; [|done]. destruct Hok as [H1 H2]. split; simpl.
  - intros s ch' [Hne Hs]%lookup_delete_Some. destruct (H1 _ _ Hs) as [G1 G2]. split; [|done].
    rewrite lookup_insert_ne; [done|]. intros <-. by apply Hne, (H2 seq s ch).
  - intros s1 s2 ch' [_ G1]%lookup_delete_Some [_ G2]%lookup_delete_Some. by eapply H2.
Qed.

Lemma client_step_ok s s' :
  client_step s s' -> (0 <= reqIDSeq s.2 < 2 ^ 64 - 1)%Z -> client_ok s.2 ->
  client_ok s'.2 /\ (reqIDSeq s.2 <= reqIDSeq s'.2 <= reqIDSeq s.2 + 1)%Z.
Proof.
  intros Hstep Hn Hok. destruct Hstep as [w c|w c id req w' c' r H|w c bytes c' H|w c w' c' H|w c t sel seq ch c' r H|w w' c]; simpl in *.
  - unfold Connect. destruct (ws_Dial w _) as [w1 [h|e|]]; simpl; (split; [|lia]); try done.
    by split; [apply (co_pending _ Hok)|apply (co_inj _ Hok)].
  - by eapply Call_start_inv.
  - destruct (on_response_inv c bytes Hok) as [_ G]. destruct (G _ H) as [G1 ->]. split; [done|lia].
  - destruct (Close_go c w Hok) as (w2 & c2 & E & G1 & G2). rewrite E in H. injection H as <- <-.
    rewrite G2. split; [done|lia].
  - unfold Rpc.Call_select in H. pose proof (unregister_ok seq c Hok) as Hu. destruct sel.
    + destruct (cl_chans c !! ch) as [[r'|]|] eqn:Ech; [|done|done]. injection H as <- _. split; [|simpl; lia].
      destruct Hu as [H1 H2]. split; [|exact H2]. simpl in *. intros s ch' Hs.
      destruct (H1 _ _ Hs) as [G1 G2]. split; [|done].
      destruct (decide (ch = ch')) as [->|Hne]; [by rewrite lookup_insert_eq|by rewrite lookup_insert_ne].
    + destruct (cl_done c); [|done]. injection H as <- _. split; [done|simpl; lia].
    + injection H as <- _. split; [done|simpl; lia].
  - split; [done|lia].
Qed.

(** C29 No goroutine of a client ever blocks on a reply channel: in every state reached
    by connecting, starting calls, receiving messages, closing and returning from calls in
    any order (with fewer than 2^64 - 1 steps, so that the call numbers do not wrap),
    handling a received message and closing the client both go through, and every call that
    is pending has a channel of its own with room for its reply. *)
Theorem client_never_blocks addr n w0 w c :
  nsteps client_step n (w0, NewClient addr) (w, c) -> (Z.of_nat n < 2 ^ 64 - 1)%Z ->
  (forall bytes, on_response bytes c ≠ Blocked) /\
  (exists w' c', Close c w = Go (w', c')) /\
  (forall seq ch, pendingCalls c !! seq = Some ch -> cl_chans c !! ch = Some None) /\
  (forall seq1 seq2 ch, pendingCalls c !! seq1 = Some ch -> pendingCalls c !! seq2 = Some ch -> seq1 = seq2).
Proof.
  intros Hn Hb. assert (client_ok c) as Hok.
  { remember (w, c) as s eqn:Es. assert (client_ok s.2 /\ (0 <= reqIDSeq s.2 <= Z.of_nat n)%Z) as [H _]; [|by subst s].
    clear Es. revert s Hn Hb. induction n as [|n IH]; intros s Hn Hb.
    - inversion Hn; subst. simpl. split; [by split|lia].
    - apply nsteps_inv_r in Hn as (s1 & H1 & H2). destruct (IH s1 H1 ltac:(lia)) as [G1 G2].
      destruct (client_step_ok _ _ H2 ltac:(lia) G1). split; [done|lia]. }
  split; [intros bytes; by apply on_response_inv|]. split; [|split; [|apply Hok]].
  - destruct (Close_go c w Hok) as (w' & c' & H & _). by exists w', c'.
  - intros seq ch H. by apply (co_pending _ Hok) in H as [? _].
Qed.
End client.

(** ** A call across the wire *)
Section transparent.
Context {M T I U R W : Type} `{!ActorId I, !Requests T U I, !Codec M T I U R, !Transport M, !Net W, !Backend W I U R}.
Context `{!TransportLaws M, !CodecLaws M T I U R}.
Implicit Types (c : Client M) (w : W).

(** The message a call sends. *)
Lemma Call_start_data c id req w w1 c1 seq ch :
  text_ok (ActorType id) -> text_ok (user_ReqType (U := U) (I := I) (user_type req)) -> (0 <= reqIDSeq c < 2 ^ 64 - 1)%Z ->
  Call_start (R := R) c id req w = Go (w1, c1, inr (seq, ch)) ->
  exists h data idM reqM, conn c = Some h /\ ws_Write w h data = (w1, None) /\
    seq = (reqIDSeq c + 1)%Z /\
    Encode_id id = Ok idM /\ Encode_req req = Ok reqM /\
    DecodeReq data = Ok (mkEnvelope seq "call" (ActorType id)
      (user_ReqType (U := U) (I := I) (user_type req)) idM [] reqM).
Proof.
  intros Ht Hr Hn. assert (uwrap64 (reqIDSeq c + 1) = (reqIDSeq c + 1)%Z) as Eu by (apply Z.mod_small; lia).
  unfold Call_start.
  destruct (Encode_id id) as [idM|e|] eqn:E1; cbn [obind]; [|by intros [=]|done].
  destruct (Encode_req req) as [reqM|e|] eqn:E2; cbn [obind]; [|by intros [=]|done].
  unfold newSeq. rewrite Eu. destruct (EncodeReq _) as [data|e|] eqn:E3; [|by intros [=]|done].
  unfold write. simpl. destruct (conn c) as [h|]; [|done]. cbn [fbind].
  destruct (ws_Write w h data) as [w2 [e|]] eqn:E4; [done|]. intros [= <- _ <- _].
  exists h, data, idM, reqM. split; [done|]. split; [done|]. split; [done|]. split; [done|].
  split; [done|]. eapply EncodeReq_roundtrip; [| | | | | | |exact E3]; simpl; try done; try lia;
    [apply call_ok|by eapply id_carried|by eapply req_carried].
Qed.

(** What the server makes of such a message: the local call, and one frame. *)
Lemma serve_call s data ws ws1 seq id req idM reqM rep err m frame :
  DecodeReq data = Ok (mkEnvelope seq "call" (ActorType id)
    (user_ReqType (U := U) (I := I) (user_type req)) idM [] reqM) -> seq ≠ 0%Z ->
  Encode_id id = Ok idM -> Encode_req req = Ok reqM ->
  srv_entryMap s !! (ActorType id, user_ReqType (U := U) (I := I) (user_type req)) = Some (user_type req) ->
  mgr_Call ws id req = (ws1, (rep, err)) ->
  match err with None => Encode_rep (I := I) (T := T) (U := U) rep = Ok m | Some _ => m = nil_M (T := T) (I := I) (U := U) (R := R) end ->
  EncodeRep seq m (error_string err) = Ok frame ->
  handleRPC s data ws = Go (ws1, [frame]).
Proof.
  intros E3 Hseq E1 E2 Hreg Hcall Hm Hframe. assert ((seq =? 0)%Z = false) as Hnz by lia.
  unfold handleRPC. rewrite E3. simpl. rewrite Hreg. unfold entry_call, decoded.
  rewrite (id_roundtrip (user_type req) _ _ E1), (req_roundtrip _ _ E2), Hcall.
  unfold reply_frames. rewrite Hnz. destruct err as [e|]; [subst m|rewrite Hm]; cbn [fbind]; by rewrite Hframe.
Qed.

(** What the client makes of the frame: the waiting call returns. *)
Lemma receive_reply c seq ch m estr frame t :
  (0 <= seq < 2 ^ 64)%Z -> rep_ok m -> text_ok estr -> EncodeRep seq m estr = Ok frame ->
  pendingCalls c !! seq = Some ch -> cl_chans c !! ch = Some None ->
  exists c1 c2, on_response frame c = Go c1 /\ conn c2 = conn c /\ reqIDSeq c2 = reqIDSeq c /\
    Call_select (I := I) (U := U) t SReply seq ch c1 =
      Some (c2, if String.eqb estr "" then Decode_rep t m
                else Err (ErrWrap ("rpc call failed: " +:+ estr) [ErrRpcCallFailed])).
Proof.
  intros Hseq Hm He Hframe Hp Hch. unfold on_response. rewrite (EncodeRep_roundtrip seq m _ _ Hseq Hm He Hframe), Hp.
  unfold rpc_send. rewrite Hch. cbn [fbind]. eexists _, _. split; [done|]. split; [|split].
  3: { unfold Call_select. simpl. by rewrite lookup_insert_eq. }
  all: done.
Qed.

(** C28 A remote call is transparent: when the server knows the request type, the message a
    call writes makes it perform exactly the local call of the same identifier and
    request, whose reply, encoded in one frame and received by the client in any later
    state in which the call still waits, is what the call returns; an error of the local
    call comes back as [ErrRpcCallFailed] with its text. *)
Theorem remote_call_transparent c id req w w1 c1 seq ch s :
  Call_start (R := R) c id req w = Go (w1, c1, inr (seq, ch)) -> (0 <= reqIDSeq c < 2 ^ 64 - 1)%Z ->
  text_ok (ActorType id) -> text_ok (user_ReqType (U := U) (I := I) (user_type req)) ->
  srv_entryMap s !! (ActorType id, user_ReqType (U := U) (I := I) (user_type req)) = Some (user_type req) ->
  exists h data, ws_Write w h data = (w1, None) /\
  forall ws ws1 rep err, mgr_Call ws id req = (ws1, (rep, err)) ->
  forall r m frame, (err = None -> rep = Some r /\ Encode_rep (I := I) (T := T) (U := U) rep = Ok m) ->
  (err ≠ None -> m = nil_M (T := T) (I := I) (U := U) (R := R) /\ error_string err ≠ "") -> text_ok (error_string err) ->
  EncodeRep seq m (error_string err) = Ok frame ->
  handleRPC s data ws = Go (ws1, [frame]) /\
  forall c2, pendingCalls c2 !! seq = Some ch -> cl_chans c2 !! ch = Some None ->
  exists c3 c4, on_response frame c2 = Go c3 /\
    Call_select (I := I) (U := U) (user_type req) SReply seq ch c3 =
      Some (c4, match err with
                | None => Ok r
                | Some e => Err (ErrWrap ("rpc call failed: " +:+ Error e) [ErrRpcCallFailed])
                end).
Proof.
  intros Hstart Hn Ht Hr Hreg.
  destruct (Call_start_data _ _ _ _ _ _ _ _ Ht Hr Hn Hstart) as (h & data & idM & reqM & _ & Hw & Eseq & E1 & E2 & E3).
  exists h, data. split; [done|]. intros ws ws1 rep err Hcall r m frame Hok Herr Htext Hframe. split.
  - eapply serve_call; [exact E3|lia|done..| |done]. destruct err; [by apply Herr|by apply Hok].
  - intros c2 Hp Hch. assert (rep_ok m) as Hrep.
    { destruct err as [e|]; [destruct (Herr ltac:(done)) as [-> _]; apply nil_carried|].
      destruct (Hok eq_refl) as [_ Hm]. by eapply rep_carried. }
    destruct (receive_reply c2 seq ch m _ frame (user_type req) ltac:(lia) Hrep Htext Hframe Hp Hch)
      as (c3 & c4 & H3 & _ & _ & H4).
    exists c3, c4. split; [done|]. rewrite H4. do 2 f_equal. destruct err as [e|]; simpl.
    + destruct (Herr ltac:(done)) as [_ Hne]. simpl in Hne. by destruct (String.eqb_spec (Error e) "").
    + destruct (Hok eq_refl) as [-> Hm]. by eapply rep_roundtrip.
Qed.
End transparent.

(** ** A concrete network: numbers for identifiers, requests, replies and messages, frames
    that spell the encoding of their contents, and a manager that doubles the request. *)
Module RpcWitness.
Fixpoint spell (p : positive) : string :=
  match p with
  | xH => ""
  | xO p => String.String "0"%char (spell p)
  | xI p => String.String "1"%char (spell p)
  end.

Fixpoint unspell (s : string) : positive :=
  match s with
  | EmptyString => xH
  | String.String c s => if Ascii.eqb c "0"%char then xO (unspell s) else xI (unspell s)
  end.

Lemma unspell_spell p : unspell (spell p) = p.
Proof. induction p as [p IH|p IH|]; simpl; [by rewrite IH|by rewrite IH|done]. Qed.

#[export] Instance nat_id : ActorId nat :=
  {| ActorType := fun _ => "Player"; String := fun n => pretty (Z.of_nat n); zero_id := 0 |}.
#[export] Instance one_request : Requests unit nat nat :=
  {| user_type := fun _ => tt; user_ReqType := fun _ => "Double"; user_id0 := fun _ => 0 |}.
#[export] Instance plain_codec : Codec nat unit nat nat nat := {|
  nil_M := 0; Encode_id := Ok; Encode_req := Ok; Encode_rep := fun r => Ok (default 0 r);
  Decode_id := fun _ => Ok; Decode_req := fun _ => Ok; Decode_rep := fun _ => Ok |}.

Definition pack (v : envelope nat) :=
  (v_seq v, v_method v, v_actorType v, v_reqType v, v_idM v, v_idsM v, v_reqM v).
Definition unpack (p : Z * string * string * string * nat * list nat * nat) : envelope nat :=
  let '(a, b, c, d, e, f, g) := p in mkEnvelope a b c d e f g.
Definition bad {X} : outcome error X := Err (ErrNew "bad frame").

#[export] Instance spelled : Transport nat := {|
  EncodeReq v := Ok (spell (encode (pack v)));
  DecodeReq s := match decode (unspell s) with Some p => Ok (unpack p) | None => bad end;
  EncodeRep seq m e := Ok (spell (encode (seq, m, e)));
  DecodeRep s := match decode (unspell s) with Some p => Ok p | None => bad end |}.

#[export] Instance spelled_laws : TransportLaws nat.
Proof.
  refine {| msg_ok _ := True; rep_ok _ := True; text_ok _ := True |}; simpl; [done| |].
  - intros v data _ _ _ _ _ _ _ [= <-]. rewrite unspell_spell, decode_encode. by destruct v.
  - intros seq m e data _ _ _ [= <-]. by rewrite unspell_spell, decode_encode.
Defined.

#[export] Instance plain_laws : CodecLaws nat unit nat nat nat.
Proof. split; simpl; intros; done || congruence. Qed.

(** The world is the list of the frames written and of the requests performed. *)
Definition world : Type := list string * list (nat * nat).
#[export] Instance toy_net : Net world := {|
  ws_Dial w _ := (w, Ok 0); ws_Write w _ data := ((w.1 ++ [data])%list, w.2, None); ws_Close w _ := w |}.
#[export] Instance toy_backend : Backend world nat nat nat := {|
  mgr_Post w id q := ((w.1, (w.2 ++ [(id, q)])%list), None);
  mgr_Call w id q := ((w.1, (w.2 ++ [(id, q)])%list), (Some (2 * q), None));
  mgr_Broadcast w q := (w, (0, None));
  mgr_Multicast w ids q := (w, ((fun id => mkIdErr id None) <$> ids, None)) |}.

Definition w0 : world := ([], []).
Definition c0 : Client nat := (Connect (NewClient "host:1") w0).1.2.
Definition srv : Server unit := NewServer (fun b => RegisterRequest (U := nat) (I := nat) b tt).

Definition started := match Call_start (T := unit) (R := nat) c0 7 21 w0 with
  | Go (w, c, r) => (w, c, r)
  | _ => (w0, c0, inl ErrClientClosed)
  end.

Lemma started_ok : exists w1 c1 ch, Call_start (T := unit) (R := nat) c0 7 21 w0 = Go (w1, c1, inr (1%Z, ch)).
Proof. eexists _, _, _. vm_compute. reflexivity. Qed.

Lemma remote_call_transparent_witness :
  exists h data, ws_Write w0 h data = (started.1.1, None) /\
    exists frame, handleRPC srv data w0 = Go (([], [(7, 21)]), [frame]).
Proof.
  destruct started_ok as (w1 & c1 & ch & E).
  assert (started.1.1 = w1) as Ew by (unfold started; rewrite E; reflexivity).
  destruct (remote_call_transparent (M := nat) (T := unit) (I := nat) (U := nat) (R := nat)
    c0 7 21 w0 w1 c1 1 ch srv E ltac:(vm_compute; split; congruence) Logic.I Logic.I ltac:(vm_compute; reflexivity))
    as (h & data & Hw & H).
  exists h, data. split; [rewrite Ew; exact Hw|].
  eexists. exact (proj1 (H w0 _ _ _ eq_refl 42 42 _ (fun _ => conj eq_refl eq_refl)
    (fun Hne => match Hne eq_refl with end) Logic.I eq_refl)).
Defined.

(** An undecodable message, then the call of [started]: one answer. *)
Definition sent_data : string := match started.1.1.1 with [d] => d | _ => "" end.
Definition answered : world * list string :=
  match serve_conn srv ["01"; sent_data] w0 with Go r => r | _ => (w0, []) end.


Lemma client_never_blocks_witness :
  exists w' c', Close (T := unit) (I := nat) (U := nat) (R := nat) c0 w0 = Go (w', c').
Proof.
  refine (proj1 (proj2 (client_never_blocks (M := nat) (T := unit) (I := nat) (U := nat) (R := nat)
    "host:1" 1 w0 w0 c0 _ ltac:(vm_compute; reflexivity)))).
  apply (nsteps_l _ 0 (w0, NewClient "host:1") (w0, c0) (w0, c0)); [exact (cs_connect w0 (NewClient "host:1"))|constructor].
Defined.

(** The error of the other node comes back as text: a lease error is not recognised. *)
Remark lease_error_is_lost k o g :
  errors_as (fun e => match e with ErrLeaseTaken _ owner _ => Some owner | _ => None end)
    (ErrWrap ("rpc call failed: " +:+ Error (ErrLeaseTaken k o g)) [ErrRpcCallFailed]) = None.
Proof. reflexivity. Qed.
End RpcWitness.
