(* ===== verification/Router.v ===== *)
(** * The cluster router

    cluster/cluster.go: routing of a message to the node its actor is placed on, the retry
    after a lease error, and the pool of connections. The router meets the rest of the
    program through interfaces: the membership, the placement strategy (Cluster), the
    local manager ([Backend] of Rpc) and the connections to other nodes. *)

From S2P Require Import Prelude ActorTypes Control Registry Runtime Cluster Rpc.

Local Open Scope string_scope.
Local Open Scope go_scope.

(** ** Interfaces *)

(** [Membership], as far as the router uses it. *)
Class Membership (W : Type) : Type := {
  mb_Self : W -> Node;
  mb_Members : W -> NodeSet;
  mb_Close : W -> W * option error;
}.

(** The connections of rpc/client.go, by pointer. *)
Class RpcClients (W I U R : Type) : Type := {
  rc_New : W -> string -> W * nat;
  rc_Connect : W -> nat -> W * option error;
  rc_Close : W -> nat -> W;
  rc_Post : W -> nat -> I -> U -> W * option error;
  rc_Call : W -> nat -> I -> U -> W * (option R * option error);
  rc_Broadcast : W -> nat -> U -> W * option error;
  rc_Multicast : W -> nat -> list I -> U -> W * option error;
}.

(** [LeaseForceReleaser] *)
Class LeaseForceReleaser (W : Type) : Type :=
  ForceRelease : W -> string -> string -> W * (Z * option error).

(** ** Configuration *)
Record RouterConfig := mkRouterConfig { LeaseRetry : bool; ForceReleaser : bool }.

Definition RouterOption := RouterConfig -> RouterConfig.

Definition WithLeaseRetry (enabled : bool) : RouterOption := fun c => mkRouterConfig enabled (ForceReleaser c).
Definition WithForceReleaser : RouterOption := fun c => mkRouterConfig true true.

(** [ForceReleaser] of the configuration is only tested against nil; the releaser itself is
    the interface above. *)
Definition NewRouterConfig (opts : list RouterOption) : RouterConfig :=
  foldl (fun c opt => opt c) (mkRouterConfig false false) opts.

(** ** The pool of clients *)
Section pool.
Context {W I U R : Type} `{!ActorId I, !RpcClients W I U R}.

(** [clientPool.clients], by address. *)
Definition clientPool : Type := gmap string nat.

Definition newClientPool : clientPool := ∅.

Definition connect_error (target : Node) (e : error) : error :=
  RouteError "" "" (ID target) ("failed to connect to remote node: " +:+ Error e).

(** [getOrDial]: the lock is not held while the client connects, and [meanwhile] is what
    other goroutines make of the pool during that time. *)
Definition getOrDial (meanwhile : W -> clientPool -> clientPool) (target : Node) (w : W) (p : clientPool)
    : W * clientPool * (nat + error) :=
  match p !! Addr target with
  | Some client => (w, p, inl client)
  | None =>
      let '(w1, client) := rc_New (U := U) (I := I) (R := R) w (Addr target) in
      let '(w2, err) := rc_Connect (U := U) (I := I) (R := R) w1 client in
      let p1 := meanwhile w2 p in
      match err with
      | Some e => (w2, p1, inr (connect_error target e))
      | None =>
          match p1 !! Addr target with
          | Some existing => (rc_Close (U := U) (I := I) (R := R) w2 client, p1, inl existing)
          | None => (w2, <[Addr target := client]> p1, inl client)
          end
      end
  end.

Definition remove (addr : string) (w : W) (p : clientPool) : W * clientPool :=
  match p !! addr with
  | Some client => (rc_Close (U := U) (I := I) (R := R) w client, delete addr p)
  | None => (w, p)
  end.

(** [closeAll]: closes every client, in the order the map is ranged over, and empties the pool. *)
Definition closeAll (w : W) (p : clientPool) : W * clientPool :=
  (foldl (fun w kc => rc_Close (U := U) (I := I) (R := R) w kc.2) w (map_to_list p), ∅).
End pool.

(** ** Routing *)
Section Router.
Context {W I U R : Type} `{!ActorId I, !RpcClients W I U R, !Membership W, !Backend W I U R, !LeaseForceReleaser W}.
Context (place : PlacementStrategy) (meanwhile : W -> clientPool -> clientPool) (cfg : RouterConfig).

Abbreviation getOrDial := (getOrDial (U := U) (I := I) (R := R) meanwhile).
Abbreviation remove := (remove (U := U) (I := I) (R := R)).

Definition Self (w : W) : Node := mb_Self w.
Definition Members (w : W) : NodeSet := mb_Members w.

(** A strategy that panics (see [PlacementStrategy] in Cluster) crashes the caller. *)
Definition Router_Place (actorType actorId : string) (w : W) : flow Node :=
  match place actorType actorId (mb_Members w) with
  | Some n => Go n
  | None => Crashed
  end.

Definition IsLocal (actorType actorId : string) (w : W) : flow bool :=
  do! preferred := Router_Place actorType actorId w in Go (String.eqb (ID preferred) (ID (Self w))).

Definition GetClient (target : Node) (w : W) (p : clientPool) := getOrDial target w p.
Definition RemoveClient (addr : string) (w : W) (p : clientPool) := remove addr w p.

Definition Router_Close (w : W) (p : clientPool) : W * clientPool * option error :=
  let '(w1, p1) := closeAll (U := U) (I := I) (R := R) w p in
  let '(w2, err) := mb_Close w1 in (w2, p1, err).

(** [postOnce] *)
Definition postOnce (id : I) (req : U) (w : W) (p : clientPool) : flow (W * clientPool * option error) :=
  do! preferred := Router_Place (ActorType id) (String id) w in
  if String.eqb (ID preferred) (ID (Self w)) then
    let '(w1, err) := mgr_Post w id req in Go (w1, p, err)
  else
    match getOrDial preferred w p with
    | (w1, p1, inr e) => Go (w1, p1, Some e)
    | (w1, p1, inl client) => let '(w2, err) := rc_Post w1 client id req in Go (w2, p1, err)
    end.

(** [callOnce] *)
Definition callOnce (id : I) (req : U) (w : W) (p : clientPool)
    : flow (W * clientPool * (option R * option error)) :=
  do! preferred := Router_Place (ActorType id) (String id) w in
  if String.eqb (ID preferred) (ID (Self w)) then
    let '(w1, r) := mgr_Call w id req in Go (w1, p, r)
  else
    match getOrDial preferred w p with
    | (w1, p1, inr e) => Go (w1, p1, (None, Some e))
    | (w1, p1, inl client) => let '(w2, r) := rc_Call w1 client id req in Go (w2, p1, r)
    end.

(** ** Lease errors *)

(** [isLeaseTaken]: the owner that the lease error in the tree of [err] names. *)
Definition lease_owner (e : error) : option string :=
  match e with ErrLeaseTaken _ owner _ => Some owner | _ => None end.

Definition isLeaseTaken (err : error) : option string := errors_as lease_owner err.

(** The node a message may be forwarded to: the owner, another member. *)
Definition forward_to (owner : string) (w : W) : option Node :=
  if String.eqb owner "" || String.eqb owner (ID (Self w)) then None else Lookup (Members w) owner.

Definition forward_error (owner : string) (w : W) : error :=
  if String.eqb owner "" || String.eqb owner (ID (Self w)) then ErrNew "cannot forward to self"
  else ErrNew ("lease owner " +:+ owner +:+ " not in cluster").

(** [tryForwardPost] *)
Definition tryForwardPost (id : I) (req : U) (owner : string) (w : W) (p : clientPool)
    : W * clientPool * option error :=
  match forward_to owner w with
  | None => (w, p, Some (forward_error owner w))
  | Some ownerNode =>
      match GetClient ownerNode w p with
      | (w1, p1, inr e) => (w1, p1, Some e)
      | (w1, p1, inl client) =>
          match rc_Post w1 client id req with
          | (w2, None) => (w2, p1, None)
          | (w2, Some e) => let '(w3, p2) := RemoveClient (Addr ownerNode) w2 p1 in (w3, p2, Some e)
          end
      end
  end.

(** [tryForwardCall]; [None] when it reports false. *)
Definition tryForwardCall (id : I) (req : U) (owner : string) (w : W) (p : clientPool)
    : W * clientPool * option (option R) :=
  match forward_to owner w with
  | None => (w, p, None)
  | Some ownerNode =>
      match GetClient ownerNode w p with
      | (w1, p1, inr e) => (w1, p1, None)
      | (w1, p1, inl client) =>
          match rc_Call w1 client id req with
          | (w2, (reply, None)) => (w2, p1, Some reply)
          | (w2, (_, Some e)) => let '(w3, p2) := RemoveClient (Addr ownerNode) w2 p1 in (w3, p2, None)
          end
      end
  end.

Definition release_error (forceErr origErr : error) : error :=
  ErrWrap ("lease taken and force release failed: " +:+ Error forceErr +:+ " (original: " +:+ Error origErr +:+ ")")
    [forceErr; origErr].

(** [handleLeasePost] *)
Definition handleLeasePost (id : I) (req : U) (origErr : error) (w : W) (p : clientPool)
    : flow (W * clientPool * option error) :=
  if negb (LeaseRetry cfg) then Go (w, p, Some origErr)
  else
    match isLeaseTaken origErr with
    | None => Go (w, p, Some origErr)
    | Some owner =>
        match tryForwardPost id req owner w p with
        | (w1, p1, None) => Go (w1, p1, None)
        | (w1, p1, Some _) =>
            if ForceReleaser cfg then
              let '(w2, (_, forceErr)) := ForceRelease w1 (ActorType id) (String id) in
              match forceErr with
              | Some e => Go (w2, p1, Some (release_error e origErr))
              | None => postOnce id req w2 p1
              end
            else Go (w1, p1, Some origErr)
        end
    end.

(** [handleLeaseCall]; [zero] is the reply that came with the error. *)
Definition handleLeaseCall (id : I) (req : U) (zero : option R) (origErr : error) (w : W) (p : clientPool)
    : flow (W * clientPool * (option R * option error)) :=
  if negb (LeaseRetry cfg) then Go (w, p, (zero, Some origErr))
  else
    match isLeaseTaken origErr with
    | None => Go (w, p, (zero, Some origErr))
    | Some owner =>
        match tryForwardCall id req owner w p with
        | (w1, p1, Some reply) => Go (w1, p1, (reply, None))
        | (w1, p1, None) =>
            if ForceReleaser cfg then
              let '(w2, (_, forceErr)) := ForceRelease w1 (ActorType id) (String id) in
              match forceErr with
              | Some e => Go (w2, p1, (zero, Some (release_error e origErr)))
              | None => callOnce id req w2 p1
              end
            else Go (w1, p1, (zero, Some origErr))
        end
    end.

(** ** The calls of the users *)
Definition Router_Post (id : I) (req : U) (w : W) (p : clientPool) : flow (W * clientPool * option error) :=
  do! (w1, p1, err) := postOnce id req w p in
  match err with
  | None => Go (w1, p1, None)
  | Some e => handleLeasePost id req e w1 p1
  end.

Definition Router_Call (id : I) (req : U) (w : W) (p : clientPool)
    : flow (W * clientPool * (option R * option error)) :=
  do! (w1, p1, (reply, err)) := callOnce id req w p in
  match err with
  | None => Go (w1, p1, (reply, None))
  | Some e => handleLeaseCall id req reply e w1 p1
  end.

(** The loop of [Broadcast] over the other nodes: the last error is kept. *)
Fixpoint broadcast_nodes (nodes : list Node) (self : string) (req : U) (w : W) (p : clientPool) (last : option error)
    : W * clientPool * option error :=
  match nodes with
  | [] => (w, p, last)
  | node :: nodes =>
      if String.eqb (ID node) self then broadcast_nodes nodes self req w p last
      else
        match getOrDial node w p with
        | (w1, p1, inr e) => broadcast_nodes nodes self req w1 p1 (Some e)
        | (w1, p1, inl client) =>
            let '(w2, err) := rc_Broadcast (I := I) (R := R) w1 client req in
            broadcast_nodes nodes self req w2 p1 (match err with Some e => Some e | None => last end)
        end
  end.

Definition Router_Broadcast (req : U) (w : W) (p : clientPool) : W * clientPool * option error :=
  let self := Self w in
  let allNodes := Members w in
  let '(w1, (_, err)) := mgr_Broadcast (I := I) (R := R) w req in
  match err with
  | Some e => (w1, p, Some e)
  | None => broadcast_nodes allNodes (ID self) req w1 p None
  end.

(** The grouping loop of [Multicast]: the local identifiers, and those of each other node
    by its ID, in order; the node kept is the first one placed with that ID. *)
Abbreviation nodeGroup := (Node * list I)%type.

Definition add_to_group (preferred : Node) (id : I) (g : gmap string nodeGroup) : gmap string nodeGroup :=
  match g !! ID preferred with
  | Some (n, ids) => <[ID preferred := (n, (ids ++ [id])%list)]> g
  | None => <[ID preferred := (preferred, [id])]> g
  end.

Fixpoint group_ids (actorType self : string) (ids : list I) (w : W) (local : list I) (g : gmap string nodeGroup)
    : flow (list I * gmap string nodeGroup) :=
  match ids with
  | [] => Go (local, g)
  | id :: ids =>
      do! preferred := Router_Place actorType (String id) w in
      if String.eqb (ID preferred) self then group_ids actorType self ids w (local ++ [id])%list g
      else group_ids actorType self ids w local (add_to_group preferred id g)
  end.

Fixpoint multicast_groups (gs : list nodeGroup) (req : U) (w : W) (p : clientPool) (total : nat)
    : W * clientPool * nat :=
  match gs with
  | [] => (w, p, total)
  | (n, ids) :: gs =>
      match getOrDial n w p with
      | (w1, p1, inr _) => multicast_groups gs req w1 p1 total
      | (w1, p1, inl client) =>
          match rc_Multicast (R := R) w1 client ids req with
          | (w2, Some _) => multicast_groups gs req w2 p1 total
          | (w2, None) => multicast_groups gs req w2 p1 (total + length ids)
          end
      end
  end.

Definition Router_Multicast (ids : list I) (req : U) (w : W) (p : clientPool)
    : flow (W * clientPool * (nat * option error)) :=
  match ids with
  | [] => Go (w, p, (0, None))
  | id0 :: _ =>
      do! (local, g) := group_ids (ActorType id0) (ID (Self w)) ids w [] ∅ in
      let '(w1, r) := match local with
                      | [] => (w, inl 0)
                      | _ => let '(w1, (list, err)) := mgr_Multicast (R := R) w local req in
                             (w1, match err with Some e => inr e | None => inl (CountNoErr list) end)
                      end in
      match r with
      | inr e => Go (w1, p, (0, Some e))
      | inl n =>
          let '(w2, p2, total) := multicast_groups (map_to_list g).*2 req w1 p n in
          Go (w2, p2, (total, None))
      end
  end.
End Router.
