(* ===== verification/RouterSpec.v ===== *)
(** * Theorems on the router

    A post that reports success was accepted exactly once, and one that reports an error
    not at all, retries included; a multicast gives each identifier to the node it is
    placed on, once and in order; the pool answers one client per address. *)

From S2P Require Import Prelude ActorTypes Control Registry Runtime Cluster Rpc Router.

Local Open Scope string_scope.
Local Open Scope go_scope.

(** What the router relies on: [accepted] counts the messages that a mailbox or a
    connection took, and only a post that reports no error adds one. *)
Class PostLog (W I U R : Type)
    `{!ActorId I, !RpcClients W I U R, !Backend W I U R, !LeaseForceReleaser W} : Type := {
  accepted : W -> nat;
  mgr_Post_accepted : forall w id q, accepted (mgr_Post (R := R) w id q).1 =
    accepted w + match (mgr_Post (R := R) w id q).2 with None => 1 | Some _ => 0 end;
  rc_Post_accepted : forall w c id q, accepted (rc_Post (R := R) w c id q).1 =
    accepted w + match (rc_Post (R := R) w c id q).2 with None => 1 | Some _ => 0 end;
  rc_New_accepted : forall w addr, accepted (rc_New (I := I) (U := U) (R := R) w addr).1 = accepted w;
  rc_Connect_accepted : forall w c, accepted (rc_Connect (I := I) (U := U) (R := R) w c).1 = accepted w;
  rc_Close_accepted : forall w c, accepted (rc_Close (I := I) (U := U) (R := R) w c) = accepted w;
  ForceRelease_accepted : forall w t i, accepted (ForceRelease w t i).1 = accepted w;
}.

(** ** The pool *)
Section pool.
Context {W I U R : Type} `{!ActorId I, !RpcClients W I U R}.
Context (meanwhile : W -> clientPool -> clientPool).
Abbreviation getOrDial := (getOrDial (U := U) (I := I) (R := R) meanwhile).

(** [getOrDial] gives the pool's client: a client it answers is afterwards the one the
    pool has under the address, so that all callers share it; a client that was pooled
    is answered without dialling; when another goroutine pooled one meanwhile, that one
    is answered and the new connection is closed; and a failed dial leaves the pool as the
    others left it. *)
Theorem getOrDial_pooled target w p :
  let '(w', p', r) := getOrDial target w p in
  match p !! Addr target with
  | Some client => w' = w /\ p' = p /\ r = inl client
  | None =>
      let w1 := (rc_New (I := I) (U := U) (R := R) w (Addr target)).1 in
      let client := (rc_New (I := I) (U := U) (R := R) w (Addr target)).2 in
      let '(w2, err) := rc_Connect (I := I) (U := U) (R := R) w1 client in
      match r with
      | inr e => err ≠ None /\ p' = meanwhile w2 p /\ w' = w2
      | inl c =>
          err = None /\ p' !! Addr target = Some c /\
          (forall a, a ≠ Addr target -> p' !! a = meanwhile w2 p !! a) /\
          (c = client /\ w' = w2 \/
           meanwhile w2 p !! Addr target = Some c /\ w' = rc_Close (I := I) (U := U) (R := R) w2 client)
      end
  end.
Proof.
  unfold Router.getOrDial. destruct (p !! Addr target) as [client|]; [done|].
  destruct (rc_New w (Addr target)) as [w1 client]. simpl.
  destruct (rc_Connect w1 client) as [w2 [e|]]; [done|].
  destruct (meanwhile w2 p !! Addr target) as [existing|] eqn:E.
  - split; [done|]. split; [done|]. split; [done|]. by right.
  - split; [done|]. split; [apply lookup_insert_eq|].
    split; [intros a Ha; apply lookup_insert_ne; congruence|]. by left.
Qed.
End pool.

(** ** Posting *)
Section post.
Context {W I U R : Type} `{!ActorId I, !RpcClients W I U R, !Membership W, !Backend W I U R, !LeaseForceReleaser W}.
Context `{!PostLog W I U R}.
Context (place : PlacementStrategy) (meanwhile : W -> clientPool -> clientPool) (cfg : RouterConfig).
Abbreviation getOrDial := (getOrDial (U := U) (I := I) (R := R) meanwhile).
Implicit Types (w : W) (p : clientPool).

Lemma getOrDial_accepted target w p : accepted (getOrDial target w p).1.1 = accepted w.
Proof.
  unfold Router.getOrDial. destruct (p !! Addr target); [done|].
  pose proof (rc_New_accepted w (Addr target)) as H1.
  destruct (rc_New w (Addr target)) as [w1 client]. simpl in H1.
  pose proof (rc_Connect_accepted w1 client) as H2.
  destruct (rc_Connect w1 client) as [w2 [e|]]; simpl in *; [congruence|].
  destruct (meanwhile w2 p !! Addr target); simpl; [rewrite rc_Close_accepted|]; congruence.
Qed.

Definition sent_ok (err : option error) : nat := match err with None => 1 | Some _ => 0 end.

Lemma postOnce_accepted id req w p w' p' err :
  postOnce (R := R) place meanwhile id req w p = Go (w', p', err) -> accepted w' = accepted w + sent_ok err.
Proof.
  unfold postOnce. destruct (Router_Place place _ _ w) as [n| |]; [|done|done]. cbn [fbind].
  destruct (String.eqb _ _).
  - pose proof (mgr_Post_accepted (R := R) w id req) as H. destruct (mgr_Post w id req) as [w1 e].
    intros [= <- _ <-]. done.
  - pose proof (getOrDial_accepted n w p) as H1.
    destruct (getOrDial n w p) as [[w1 p1] [client|e]]; simpl in H1.
    + pose proof (rc_Post_accepted (R := R) w1 client id req) as H2.
      destruct (rc_Post w1 client id req) as [w2 e]. intros [= <- _ <-]. simpl in H2. by rewrite H2, H1.
    + intros [= <- _ <-]. simpl. lia.
Qed.

Lemma tryForwardPost_accepted id req owner w p :
  let '(w', p', err) := tryForwardPost (R := R) meanwhile id req owner w p in
  accepted w' = accepted w + sent_ok err.
Proof.
  unfold tryForwardPost, GetClient, RemoveClient.
  destruct (forward_to owner w) as [n|]; [|simpl; lia].
  pose proof (getOrDial_accepted n w p) as H1.
  destruct (getOrDial n w p) as [[w1 p1] [client|e]]; simpl in H1; [|simpl; lia].
  pose proof (rc_Post_accepted (R := R) w1 client id req) as H2.
  destruct (rc_Post w1 client id req) as [w2 [e|]]; simpl in H2; [|simpl; lia].
  unfold Router.remove. destruct (p1 !! Addr n); simpl; rewrite ?rc_Close_accepted; lia.
Qed.

(** C27 A message is posted exactly once or not at all: whatever the placement, the pool and
    the configuration, and through the retries after a lease error (forwarding to the
    owner, releasing the lease by force and posting again), a [Post] that reports no error
    had its message accepted exactly once, by a mailbox or a connection, and one that
    reports an error had it accepted nowhere. *)
Theorem Router_Post_once id req w p w' p' err :
  Router_Post (R := R) place meanwhile cfg id req w p = Go (w', p', err) ->
  accepted w' = accepted w + sent_ok err.
Proof.
  unfold Router_Post.
  destruct (postOnce place meanwhile id req w p) as [[[w1 p1] e1]| |] eqn:E1; [|done|done].
  apply postOnce_accepted in E1. cbn [fbind].
  destruct e1 as [e|]; [|by intros [= <- _ <-]]. simpl in E1.
  unfold handleLeasePost. destruct (negb (LeaseRetry cfg)); [intros [= <- _ <-]; simpl; lia|].
  destruct (isLeaseTaken e) as [owner|]; [|intros [= <- _ <-]; simpl; lia].
  pose proof (tryForwardPost_accepted id req owner w1 p1) as E2.
  destruct (tryForwardPost meanwhile id req owner w1 p1) as [[w2 p2] [e2|]]; simpl in E2;
    [|intros [= <- _ <-]; simpl; lia].
  destruct (ForceReleaser cfg); [|intros [= <- _ <-]; simpl; lia].
  pose proof (ForceRelease_accepted w2 (ActorType id) (String id)) as E3.
  destruct (ForceRelease w2 _ _) as [w3 [g [e3|]]]; simpl in E3; [intros [= <- _ <-]; simpl; lia|].
  intros E4%postOnce_accepted. lia.
Qed.
End post.

(** ** Grouping *)
Section multicast.
Context {W I U R : Type} `{!ActorId I, !RpcClients W I U R, !Membership W, !Backend W I U R}.
Context (place : PlacementStrategy) (w : W).

(** The ID of the node an identifier is placed on. *)
Definition placed (actorType : string) (id : I) : option string :=
  ID <$> place actorType (String id) (mb_Members w).

Definition on_node (actorType k : string) (ids : list I) : list I :=
  filter (fun id => placed actorType id = Some k) ids.

(** The groups so far, from the identifiers handled so far. *)
Definition groups_ok (actorType self : string) (done_ : list I) (local : list I) (g : gmap string ((Node * list I))) : Prop :=
  local = on_node actorType self done_ /\ g !! self = None /\
  forall k, k ≠ self -> match g !! k with
    | Some (n, ids) => ID n = k /\ ids = on_node actorType k done_ /\ ids ≠ []
    | None => on_node actorType k done_ = []
    end.

Lemma on_node_app actorType k l1 l2 : on_node actorType k (l1 ++ l2) = (on_node actorType k l1 ++ on_node actorType k l2)%list.
Proof. apply filter_app. Qed.

Lemma on_node_one actorType k id : on_node actorType k [id] = if decide (placed actorType id = Some k) then [id] else [].
Proof. unfold on_node. by rewrite filter_cons, filter_nil. Qed.

Lemma group_ids_ok actorType self ids done_ local g local' g' :
  group_ids place actorType self ids w local g = Go (local', g') ->
  groups_ok actorType self done_ local g ->
  groups_ok actorType self (done_ ++ ids) local' g' /\ forall id, id ∈ ids -> is_Some (placed actorType id).
Proof.
  revert done_ local g. induction ids as [|id ids IH]; intros done_ local g; simpl.
  { intros [= <- <-] H. rewrite app_nil_r. split; [done|]. intros id Hid. by apply elem_of_nil in Hid. }
  unfold Router_Place. destruct (place actorType (String id) (mb_Members w)) as [n|] eqn:En; [|done]. cbn [fbind].
  assert (placed actorType id = Some (ID n)) as Hpl by (unfold placed; by rewrite En).
  rewrite (cons_middle id done_ ids), app_assoc.
  intros H (H1 & H2 & H3).
  assert (forall P : I -> Prop, (forall id0, id0 ∈ ids -> P id0) -> P id -> forall id0, id0 ∈ id :: ids -> P id0) as Hcons.
  { intros P Hr Hh id0 [->|?]%elem_of_cons; auto. }
  destruct (String.eqb_spec (ID n) self) as [Es|Es].
  - destruct (IH (done_ ++ [id])%list _ _ H) as [G1 G2]; [|split; [done|]; apply Hcons; [done|by eexists]].
    split; [|split; [done|]].
    + rewrite on_node_app, on_node_one, decide_True by congruence. by rewrite H1.
    + intros k Hk. rewrite on_node_app, on_node_one, decide_False by congruence. rewrite app_nil_r. by apply H3.
  - destruct (IH (done_ ++ [id])%list _ _ H) as [G1 G2]; [|split; [done|]; apply Hcons; [done|by eexists]].
    split; [|split].
    + rewrite on_node_app, on_node_one, decide_False by congruence. by rewrite app_nil_r.
    + unfold add_to_group. destruct (g !! ID n) as [[n0 l0]|]; by rewrite lookup_insert_ne.
    + intros k Hk. rewrite on_node_app, on_node_one. specialize (H3 k Hk). unfold add_to_group.
      destruct (decide (k = ID n)) as [->|Hne].
      * rewrite decide_True by done. destruct (g !! ID n) as [[n0 l0]|]; rewrite lookup_insert_eq.
        -- destruct H3 as (F1 & -> & F2). split; [done|]. split; [done|].
           intros E. by apply app_nil in E as [_ ?].
        -- rewrite H3. done.
      * rewrite decide_False by congruence. rewrite app_nil_r.
        destruct (g !! ID n) as [[n0 l0]|]; by rewrite lookup_insert_ne.
Qed.

(** The identifiers whose node is among [ks]. *)
Definition among (actorType : string) (ks : list string) (id : I) : Prop :=
  match placed actorType id with Some k => k ∈ ks | None => False end.

#[local] Instance among_dec actorType ks id : Decision (among actorType ks id).
Proof. unfold among. destruct (placed actorType id); apply _. Defined.

Lemma filter_split {X} (P Q : X -> Prop) `{!forall x, Decision (P x), !forall x, Decision (Q x)} (l : list X) :
  (forall x, x ∈ l -> Q x <-> ~ P x) -> (filter P l ++ filter Q l)%list ≡ₚ l.
Proof.
  induction l as [|x l IH]; intros Hpq; [done|]. rewrite !filter_cons.
  pose proof (Hpq x (list_elem_of_here _ _)) as Hx.
  assert ((filter P l ++ filter Q l)%list ≡ₚ l) as Hl by (apply IH; intros y Hy; apply Hpq; by apply list_elem_of_further).
  destruct (decide (P x)) as [HP|HP].
  - rewrite decide_False by tauto. simpl. by rewrite Hl.
  - rewrite decide_True by tauto. by rewrite <- Permutation_middle, Hl.
Qed.

(** The groups of some nodes hold together the identifiers placed on those nodes. *)
Lemma groups_concat actorType ids (l : list (string * (Node * list I))) :
  NoDup l.*1 -> (forall k n x, (k, (n, x)) ∈ l -> x = on_node actorType k ids) ->
  concat (snd <$> l.*2) ≡ₚ filter (among actorType l.*1) ids.
Proof.
  induction l as [|[k [n x]] l IH]; intros Hnd Hl.
  - simpl. clear. induction ids as [|id ids IH]; [done|]. rewrite filter_cons, decide_False; [done|].
    unfold among. destruct (placed actorType id); [apply not_elem_of_nil|tauto].
  - simpl. apply NoDup_cons in Hnd as [Hni Hnd].
    rewrite IH; [|done|intros k' n' x' Hx; apply (Hl k' n'); by apply list_elem_of_further].
    rewrite (Hl k n x) by apply list_elem_of_here. unfold on_node. clear -Hni.
    induction ids as [|id ids IH]; [done|]. rewrite !filter_cons.
    destruct (decide (placed actorType id = Some k)) as [E|E].
    + rewrite (decide_False (P := among actorType l.*1 id)) by (unfold among; by rewrite E).
      rewrite decide_True by (unfold among; rewrite E; apply list_elem_of_here).
      simpl. by rewrite IH.
    + destruct (decide (among actorType l.*1 id)) as [Hin|Hout].
      * rewrite decide_True.
        2:{ unfold among in *. destruct (placed actorType id); [by apply list_elem_of_further|done]. }
        rewrite <- IH. by rewrite Permutation_middle.
      * rewrite decide_False; [done|]. unfold among in *. destruct (placed actorType id) as [k'|]; [|tauto].
        rewrite elem_of_cons. intros [->|?]; [done|tauto].
Qed.

(** A multicast gives each identifier to one node, the one it is placed on: the local
    manager gets exactly the identifiers placed on this node, and each other node in one
    message exactly those placed on it, all in their order; no group is empty, and an
    identifier appears as often as in the argument, over all groups together. *)
Theorem Multicast_partition actorType self ids local g :
  group_ids place actorType self ids w [] ∅ = Go (local, g) ->
  local = on_node actorType self ids /\ g !! self = None /\
  (forall k n l, g !! k = Some (n, l) -> ID n = k /\ l = on_node actorType k ids /\ l ≠ []) /\
  (local ++ concat (snd <$> (map_to_list g).*2))%list ≡ₚ ids.
Proof.
  intros H. destruct (group_ids_ok actorType self ids [] [] ∅ local g H) as [(H1 & H2 & H3) Hall].
  { split; [done|]. split; [apply lookup_empty|]. intros k _. by rewrite lookup_empty. }
  simpl in H1, H3.
  assert (forall k n l, g !! k = Some (n, l) -> ID n = k /\ l = on_node actorType k ids /\ l ≠ []) as H4.
  { intros k n l E. assert (k ≠ self) as Hk by congruence. specialize (H3 k Hk). by rewrite E in H3. }
  split; [done|]. split; [done|]. split; [done|].
  rewrite H1, groups_concat.
  - unfold on_node. apply filter_split. intros id Hid. destruct (Hall id Hid) as [k Hk].
    unfold among. rewrite Hk. split.
    + intros Hin [= ->]. apply list_elem_of_fmap in Hin as ([k' x] & Ek & Hin). simpl in Ek. subst k'.
      apply elem_of_map_to_list in Hin. congruence.
    + intros Hne. assert (k ≠ self) as Hks by congruence. specialize (H3 k Hks).
      destruct (g !! k) as [x|] eqn:Eg.
      * apply list_elem_of_fmap. exists (k, x). split; [done|]. by apply elem_of_map_to_list.
      * assert (id ∈ on_node actorType k ids) as Hc by (unfold on_node; by apply list_elem_of_filter).
        rewrite H3 in Hc. by apply elem_of_nil in Hc.
  - apply NoDup_fst_map_to_list.
  - intros k n x Hin. apply elem_of_map_to_list in Hin. by apply H4 in Hin as (_ & ? & _).
Qed.
End multicast.

(** ** Two nodes

    The world is the list of accepted messages; client 5 has lost its connection. *)
Module RouterWitness.
#[export] Instance nat_id : ActorId nat :=
  {| ActorType := fun _ => "Player"; String := fun n => pretty (Z.of_nat n); zero_id := 0 |}.

Definition toy : Type := list (nat * nat).
Definition node_a : Node := mkNode "a" "host-a:1" "" ∅.
Definition node_b : Node := mkNode "b" "host-b:1" "" ∅.

Definition toy_take (w : toy) (id q : nat) (bad : bool) : toy * option error :=
  if bad then (w, Some ErrClientClosed) else ((w ++ [(id, q)])%list, None).

#[export] Instance toy_clients : RpcClients toy nat nat nat := {|
  rc_New := fun w _ => (w, 7);
  rc_Connect := fun w c => (w, None);
  rc_Close := fun w c => w;
  rc_Post := fun w c id q => toy_take w id q (bool_decide (c = 5));
  rc_Call := fun w c id q => let '(w1, e) := toy_take w id q (bool_decide (c = 5)) in (w1, (Some (2 * q), e));
  rc_Broadcast := fun w c q => (w, None);
  rc_Multicast := fun w c ids q => (w, None) |}.
#[export] Instance toy_members : Membership toy := {|
  mb_Self := fun _ => node_a; mb_Members := fun _ => [node_a; node_b]; mb_Close := fun w => (w, None) |}.

(** The actor 1 is leased to node b: the manager of node a refuses it. *)
#[export] Instance toy_backend : Backend toy nat nat nat := {|
  mgr_Post := fun w id q => if bool_decide (id = 1) then (w, Some (ErrLeaseTaken "Player:1" "b" 3)) else toy_take w id q false;
  mgr_Call := fun w id q => (w, (Some q, None));
  mgr_Broadcast := fun w q => (w, (0, None));
  mgr_Multicast := fun w ids q => (w, ((fun id => mkIdErr id None) <$> ids, None)) |}.
#[export] Instance toy_releaser : LeaseForceReleaser toy := fun w _ _ => (w, (1%Z, None)).

#[export] Instance toy_log : PostLog toy nat nat nat.
Proof.
  refine {| accepted := length : toy -> nat |}; try done.
  - intros w id q. simpl. case_bool_decide; simpl; [lia|]. rewrite length_app. simpl. lia.
  - intros w c id q. simpl. unfold toy_take. case_bool_decide; simpl; [lia|]. rewrite length_app. simpl. lia.
Defined.

(** Even players on node a, and player 1 too; the others on node b. *)
Definition toy_place : PlacementStrategy := fun _ id _ =>
  if String.eqb id "3" || String.eqb id "5" then Some node_b else Some node_a.

Definition alone (_ : toy) (p : clientPool) : clientPool := p.
Definition cfg1 : RouterConfig := NewRouterConfig [WithForceReleaser].

Example forwarded_to_owner :
  Router_Post (R := nat) toy_place alone cfg1 1 10 [] ∅ = Go ([(1, 10)], {["host-b:1" := 7]}, None).
Proof. vm_compute. reflexivity. Qed.

Lemma Router_Post_once_witness :
  Router_Post (R := nat) toy_place alone cfg1 1 10 [] ∅ = Go ([(1, 10)], {["host-b:1" := 7]}, None) /\
  accepted (R := nat) (U := nat) (I := nat) ([(1, 10)] : toy) = 1.
Proof.
  split; [exact forwarded_to_owner|].
  exact (Router_Post_once (R := nat) toy_place alone cfg1 1 10 [] ∅ [(1, 10)] _ None forwarded_to_owner).
Defined.

Lemma Multicast_partition_witness :
  exists g, group_ids toy_place "Player" "a" [2; 3; 4; 5] ([] : toy) [] ∅ = Go ([2; 4], g) /\
    (forall k n l, g !! k = Some (n, l) -> ID n = k /\ l = on_node toy_place ([] : toy) "Player" k [2; 3; 4; 5] /\ l ≠ []).
Proof.
  eexists. assert (group_ids toy_place "Player" "a" [2; 3; 4; 5] ([] : toy) [] ∅ =
    Go ([2; 4], {["b" := (node_b, [3; 5])]})) as H by (vm_compute; reflexivity).
  split; [exact H|].
  exact (proj1 (proj2 (proj2 (Multicast_partition toy_place ([] : toy) "Player" "a" [2; 3; 4; 5] [2; 4] _ H)))).
Defined.

(** A client whose connection is gone stays in the pool: every post through it fails. *)
Remark dead_client_stays :
  let p : clientPool := {["host-b:1" := 5]} in
  Router_Post (R := nat) toy_place alone cfg1 3 10 [] p = Go ([], p, Some ErrClientClosed).
Proof. vm_compute. reflexivity. Qed.

(** Without a member that can host the actor the placement is the empty node, which the
    router dials: no [PlacementError] is made. *)
Remark empty_placement_dials :
  Router_Post (R := nat) (fun _ _ _ => Some no_node) alone cfg1 3 10 [] ∅ = Go ([(3, 10)], {["" := 7]}, None).
Proof. vm_compute. reflexivity. Qed.
End RouterWitness.
