(* ===== verification/Lease.v ===== *)
(** * Leases: what a persistence driver promises

    The interface [Driver] of grain/driver_json.go with [LeaseInfo], and the lease
    protocol its comments describe: one cell per grain (owner, generation, data), moved
    by the four operations. The drivers of RedisDriver and MongoDriver are proved to
    follow the protocol, and Grain is proved against the interface. *)

From S2P Require Import Prelude ActorTypes.

Local Open Scope string_scope.

Record LeaseInfo := mkLease { Key : string; Owner : string; Generation : Z }.

(** [DefaultLeaseTimeout], ten minutes in nanoseconds. *)
Definition DefaultLeaseTimeout : Z := 10 * 60 * 1000000000.

(** [Driver]: [Dr] are the driver values, [W] the world their calls act on, [P] the
    snapshot type. The [bool] says that the context is cancelled; [dst] and [src] are what
    the pointer refers to ([None] the nil pointer); [None] as a result is a panic. *)
Class Driver (Dr W P : Type) : Type := {
  driver_Load : Dr -> W -> bool -> string -> string -> string -> option P ->
                W * option P * option (option LeaseInfo * option error);
  driver_Save : Dr -> W -> bool -> string -> string -> string -> option P -> Z -> W * option error;
  driver_Release : Dr -> W -> bool -> string -> string -> string -> Z -> W * option error;
  driver_ForceRelease : Dr -> W -> bool -> string -> string -> W * (Z * option error);
}.

(** ** The protocol *)
Section protocol.
Context {D : Type} (nodata : D).

(** The cell of one grain; [c_live] says that the lease has not run out. *)
Record lcell := mkCell { c_owner : string; c_gen : Z; c_data : D; c_live : bool }.

Inductive lop :=
  | OLoad (owner : string)
  | OSave (owner : string) (gen : Z) (data : option D)
  | ORelease (owner : string) (gen : Z)
  | OForce.

(** What the caller learns; [RFailed] is an error of the transport, or of the
    decoding, that says nothing about the effect. *)
Inductive lres :=
  | RGranted (gen : Z)
  | RTaken (owner : string) (gen : Z)
  | RDone
  | RForced (gen : Z)
  | RRefused
  | RFailed.

Definition holder_is (o : string) (g : Z) (c : option lcell) : Prop :=
  exists x, c = Some x /\ c_owner x = o /\ c_gen x = g.

Inductive lstep : option lcell -> lop -> lres -> option lcell -> Prop :=
  | load_new o :
      lstep None (OLoad o) (RGranted 1) (Some (mkCell o 1 nodata true))
  | load_again c o g :
      c_owner c = o -> g = c_gen c \/ g = (c_gen c + 1)%Z ->
      lstep (Some c) (OLoad o) (RGranted g) (Some (mkCell o g (c_data c) true))
  | load_free c o :
      c_owner c = "" \/ c_live c = false ->
      lstep (Some c) (OLoad o) (RGranted (c_gen c + 1)) (Some (mkCell o (c_gen c + 1) (c_data c) true))
  | load_taken c o :
      c_owner c <> "" -> c_owner c <> o -> c_live c = true ->
      lstep (Some c) (OLoad o) (RTaken (c_owner c) (c_gen c)) (Some c)
  | save_done c d :
      lstep (Some c) (OSave (c_owner c) (c_gen c) d) RDone
            (Some (mkCell (c_owner c) (c_gen c) (default (c_data c) d) true))
  | save_refused c o g d :
      ~ holder_is o g c -> lstep c (OSave o g d) RRefused c
  | release_done c l :
      lstep (Some c) (ORelease (c_owner c) (c_gen c)) RDone (Some (mkCell "" (c_gen c) (c_data c) l))
  | release_refused c o g :
      ~ holder_is o g c -> lstep c (ORelease o g) RRefused c
  | force_new :
      lstep None OForce (RForced 1) (Some (mkCell "" 1 nodata true))
  | force_old c :
      lstep (Some c) OForce (RForced (c_gen c + 1)) (Some (mkCell "" (c_gen c + 1) (c_data c) true))
  | not_sent c op :
      lstep c op RFailed c
  | reply_lost c op r c' :
      lstep c op r c' -> lstep c op RFailed c'.

(** What happens to a cell: an operation of some node, the lease running out, the
    store forgetting the cell. *)
Inductive event := EOp (op : lop) (r : lres) | ELapse | ELost.

Inductive estep : option lcell -> event -> option lcell -> Prop :=
  | es_op c op r c' : lstep c op r c' -> estep c (EOp op r) c'
  | es_lapse c : estep (Some c) ELapse (Some (mkCell (c_owner c) (c_gen c) (c_data c) false))
  | es_lost c : estep c ELost None.

(** A history: the events, each with the cell it leaves. *)
Inductive history : option lcell -> list (event * option lcell) -> option lcell -> Prop :=
  | h_nil c : history c [] c
  | h_cons c e c1 h c2 : estep c e c1 -> history c1 h c2 -> history c ((e, c1) :: h) c2.

Definition is_lost (e : event) : bool := match e with ELost => true | _ => false end.
Definition never_lost (h : list (event * option lcell)) : Prop := Forall (fun x => is_lost x.1 = false) h.

(** ** Fencing *)

(** The lease [(o, g)] is over, for ever. *)
Definition over (g : Z) (c : option lcell) : Prop :=
  exists x, c = Some x /\ ((g < c_gen x)%Z \/ (c_gen x = g /\ c_owner x = "")).

Lemma over_not_held o g c : o <> "" -> over g c -> ~ holder_is o g c.
Proof. intros Ho (x & -> & H) (y & [= <-] & <- & <-). destruct H as [H|[_ H]]; [lia|done]. Qed.

Lemma lstep_over g c op r c' : over g c -> lstep c op r c' -> over g c'.
Proof.
  intros Hov Hst. induction Hst; try done; try (by apply IHHst);
    destruct Hov as (x & Hx & Hg); simplify_eq; eexists; (split; [done|]); simpl;
    try (destruct Hg as [Hg|[Hg Hn]]); try (by auto); try (by (left; lia)).
  all: match goal with H : _ \/ _ |- _ => destruct H as [-> | ->] end; auto; left; lia.
Qed.

Lemma lstep_held o g c op r c' :
  holder_is o g c -> lstep c op r c' -> holder_is o g c' \/ over g c'.
Proof.
  intros (x & -> & Ho & Hg) Hst. remember (Some x) as c0 eqn:Ec.
  induction Hst; simplify_eq; try done; try (by apply IHHst);
    try (by (left; eexists)); try (right; eexists; split; [done|]; simpl; auto; left; lia).
  match goal with H : _ \/ _ |- _ => destruct H as [-> | ->] end.
  - left. by eexists.
  - right. eexists. split; [done|]. left. simpl. lia.
Qed.

Lemma estep_over g c e c' : over g c -> estep c e c' -> is_lost e = false -> over g c'.
Proof.
  intros Hov Hst Hl. destruct Hst as [c op r c' Hst|c|c]; [by eapply lstep_over| |done].
  destruct Hov as (x & [= <-] & H). by eexists.
Qed.

Lemma estep_held o g c e c' :
  holder_is o g c -> estep c e c' -> is_lost e = false -> holder_is o g c' \/ over g c'.
Proof.
  intros Hh Hst Hl. destruct Hst as [c op r c' Hst|c|c]; [by eapply lstep_held| |done].
  destruct Hh as (x & [= <-] & H). left. by eexists.
Qed.

Lemma history_over g c h c' : over g c -> history c h c' -> never_lost h -> over g c'.
Proof.
  intros Hov Hh. induction Hh as [|c e c1 h c2 Hst Hh IH]; intros Hl; [done|].
  apply Forall_cons in Hl as [Hl Hls]. apply IH; [by eapply estep_over|done].
Qed.

(** The lease that is held at both ends of a history was held all along. *)
Lemma held_throughout o g c h c' :
  o <> "" -> history c h c' -> never_lost h -> holder_is o g c -> holder_is o g c' ->
  Forall (fun x => holder_is o g x.2) h.
Proof.
  intros Ho Hh. induction Hh as [|c e c1 h c2 Hst Hh IH]; intros Hl H1 H2; [done|].
  apply Forall_cons in Hl as [Hl Hls]. simpl in Hl.
  destruct (estep_held _ _ _ _ _ H1 Hst Hl) as [H|H].
  - constructor; [done|by apply IH].
  - exfalso. eapply over_not_held; [exact Ho| |exact H2]. by eapply history_over.
Qed.

Lemma save_done_held c o g d c' : lstep c (OSave o g d) RDone c' -> holder_is o g c.
Proof. intros H. inversion H; subst. by eexists. Qed.

(** Without the lease a save and a release change nothing. *)
Lemma save_unheld c o g d r c' : ~ holder_is o g c -> lstep c (OSave o g d) r c' -> c' = c /\ r <> RDone.
Proof.
  intros Hn Hst. remember (OSave o g d) as op eqn:Eop.
  induction Hst as [| | | | | | | | | | |c op r c' Hst IH]; simplify_eq; try done.
  - exfalso. apply Hn. by eexists.
  - split; [by apply IH|done].
Qed.

Lemma release_unheld c o g r c' : ~ holder_is o g c -> lstep c (ORelease o g) r c' -> c' = c /\ r <> RDone.
Proof.
  intros Hn Hst. remember (ORelease o g) as op eqn:Eop.
  induction Hst as [| | | | | | | | | | |c op r c' Hst IH]; simplify_eq; try done.
  - exfalso. apply Hn. by eexists.
  - split; [by apply IH|done].
Qed.

(** Generations never go back while the cell is there. *)
Lemma lstep_monotone x op r c' :
  lstep (Some x) op r c' -> exists x', c' = Some x' /\ (c_gen x <= c_gen x')%Z.
Proof.
  intros Hst. remember (Some x) as c eqn:Ec.
  induction Hst; simplify_eq; try (by apply IHHst); (eexists; split; [done|]); simpl; try lia.
Qed.

Lemma generation_monotone c h c' x :
  history c h c' -> never_lost h -> c = Some x -> exists x', c' = Some x' /\ (c_gen x <= c_gen x')%Z.
Proof.
  intros Hh. revert x. induction Hh as [|c e c1 h c2 Hst Hh IH]; intros x Hl ->; [by eexists|].
  apply Forall_cons in Hl as [Hl Hls]. simpl in Hl.
  assert (exists x1, c1 = Some x1 /\ (c_gen x <= c_gen x1)%Z) as (x1 & -> & H1).
  { inversion Hst; subst; [by eapply lstep_monotone| |done]. eexists. split; [done|]. simpl. lia. }
  destruct (IH x1 Hls eq_refl) as (x2 & -> & H2). eexists. split; [done|lia].
Qed.
End protocol.

Arguments lcell D : clear implicits.
Arguments mkCell {D} _ _ _ _.
Arguments lop D : clear implicits.
Arguments event D : clear implicits.

(** ** Drivers that follow the protocol

    How what a call returns agrees with a result of the protocol. *)
Definition load_agrees (id o : string) (r : lres) (x : option (option LeaseInfo * option error)) : Prop :=
  match r with
  | RGranted g => exists e, x = Some (Some (mkLease id o g), e)
  | RTaken o' g => x = Some (None, Some (ErrLeaseTaken id o' g))
  | RFailed => x = None \/ exists e, x = Some (None, Some e)
  | _ => False
  end.

Definition done_agrees (r : lres) (x : option error) : Prop :=
  match r with
  | RDone => x = None
  | RRefused | RFailed => x <> None
  | _ => False
  end.

Definition force_agrees (r : lres) (x : Z * option error) : Prop :=
  match r with
  | RForced g => x = (g, None)
  | RFailed => x.2 <> None
  | _ => False
  end.

(** [dr_cell] reads the cell of a grain off the world, [dr_ok] is what the driver keeps
    true of it; [enc] is what a snapshot is stored as; [good_owner] are the names of nodes
    that the driver can tell from the empty one. *)
Class LeaseLaws (Dr W P D : Type) (nodata : D) `{!Driver Dr W P} : Type := {
  dr_ok : Dr -> W -> string -> string -> Prop;
  dr_cell : Dr -> W -> string -> string -> option (lcell D);
  enc : P -> option D;
  good_owner : string -> Prop;
  good_owner_not_empty o : good_owner o -> o <> "";
  Load_law d w b t i o dst : dr_ok d w t i -> good_owner o ->
    forall w' dst' x, driver_Load d w b t i o dst = (w', dst', x) ->
    dr_ok d w' t i /\ exists r, lstep nodata (dr_cell d w t i) (OLoad o) r (dr_cell d w' t i) /\ load_agrees i o r x;
  Save_law d w b t i o (src : option P) g : dr_ok d w t i -> good_owner o ->
    forall w' x, driver_Save d w b t i o src g = (w', x) ->
    dr_ok d w' t i /\ exists r, lstep nodata (dr_cell d w t i) (OSave o g (src ≫= enc)) r (dr_cell d w' t i) /\ done_agrees r x;
  Release_law d w b t i o g : dr_ok d w t i -> good_owner o ->
    forall w' x, driver_Release d w b t i o g = (w', x) ->
    dr_ok d w' t i /\ exists r, lstep nodata (dr_cell d w t i) (ORelease o g) r (dr_cell d w' t i) /\ done_agrees r x;
  ForceRelease_law d w b t i : dr_ok d w t i ->
    forall w' x, driver_ForceRelease d w b t i = (w', x) ->
    dr_ok d w' t i /\ exists r, lstep nodata (dr_cell d w t i) OForce r (dr_cell d w' t i) /\ force_agrees r x;
}.

Section calls.
Context {Dr W P D : Type} {nodata : D} `{!Driver Dr W P, !LeaseLaws Dr W P D nodata}.
Variables (d : Dr) (t i : string).

(** One call on the grain, by the node [owner]. *)
Inductive call :=
  | CLoad (owner : string) (dst : option P)
  | CSave (owner : string) (src : option P) (gen : Z)
  | CRelease (owner : string) (gen : Z)
  | CForce.

Definition caller (c : call) : option string :=
  match c with CLoad o _ | CSave o _ _ | CRelease o _ => Some o | CForce => None end.

Definition good_caller (c : call) : Prop := forall o, caller c = Some o -> good_owner o.

Definition after (b : bool) (c : call) (w : W) : W :=
  match c with
  | CLoad o dst => (driver_Load d w b t i o dst).1.1
  | CSave o src g => (driver_Save d w b t i o src g).1
  | CRelease o g => (driver_Release d w b t i o g).1
  | CForce => (driver_ForceRelease (P := P) d w b t i).1
  end.

(** The calls of the nodes on the grain, and what else happens in the world (time,
    other grains): the cell stays, or its lease runs out, but it is not lost. *)
Inductive world_step : W -> W -> Prop :=
  | ws_call b c w : good_caller c -> world_step w (after b c w)
  | ws_env w w' : dr_ok d w' t i -> dr_cell d w' t i = dr_cell d w t i -> world_step w w'
  | ws_lapse w w' : dr_ok d w' t i -> estep nodata (dr_cell d w t i) ELapse (dr_cell d w' t i) -> world_step w w'.

Inductive world_run : W -> list W -> W -> Prop :=
  | wr_nil w : world_run w [] w
  | wr_cons w w1 ws w2 : world_step w w1 -> world_run w1 ws w2 -> world_run w (w1 :: ws) w2.

Lemma after_steps b c w :
  dr_ok d w t i -> good_caller c ->
  dr_ok d (after b c w) t i /\ exists op r, lstep nodata (dr_cell d w t i) op r (dr_cell d (after b c w) t i).
Proof.
  intros Hok Hc. destruct c as [o dst|o src g|o g|]; simpl in *.
  - destruct (driver_Load d w b t i o dst) as [[w' dst'] x] eqn:E. simpl.
    destruct (Load_law d w b t i o dst Hok (Hc _ eq_refl) _ _ _ E) as (? & r & ? & _). eauto.
  - destruct (driver_Save d w b t i o src g) as [w' x] eqn:E. simpl.
    destruct (Save_law d w b t i o src g Hok (Hc _ eq_refl) _ _ E) as (? & r & ? & _). eauto.
  - destruct (driver_Release d w b t i o g) as [w' x] eqn:E. simpl.
    destruct (Release_law d w b t i o g Hok (Hc _ eq_refl) _ _ E) as (? & r & ? & _). eauto.
  - destruct (driver_ForceRelease d w b t i) as [w' x] eqn:E. simpl.
    destruct (ForceRelease_law d w b t i Hok _ _ E) as (? & r & ? & _). eauto.
Qed.

Lemma world_run_history w ws w' :
  world_run w ws w' -> dr_ok d w t i ->
  dr_ok d w' t i /\ exists h, history nodata (dr_cell d w t i) h (dr_cell d w' t i) /\ never_lost h /\
    forall Q : option (lcell D) -> Prop, Q (dr_cell d w t i) -> Forall (fun x => Q x.2) h -> Forall (fun w => Q (dr_cell d w t i)) ws.
Proof.
  induction 1 as [w|w w1 ws w2 Hst Hr IH]; intros Hok.
  { split; [done|]. exists []. repeat split; [constructor|constructor|]. intros. constructor. }
  assert (dr_ok d w1 t i /\ (dr_cell d w1 t i = dr_cell d w t i \/
    exists e, is_lost e = false /\ estep nodata (dr_cell d w t i) e (dr_cell d w1 t i))) as [Hok1 H1].
  { destruct Hst as [b c w Hc|w w' Hw' Hcell|w w' Hw' Hst].
    - destruct (after_steps b c w Hok Hc) as (H1 & op & r & H2). split; [done|]. right.
      exists (EOp op r). split; [done|by constructor].
    - split; [done|by left].
    - split; [done|]. right. by exists ELapse. }
  destruct (IH Hok1) as (Hok2 & h & Hh & Hl & Hq). split; [done|].
  destruct H1 as [H1|(e & He & H1)].
  - rewrite H1 in Hh. exists h. repeat split; [done|done|]. intros Q HQ Hf. constructor; [by rewrite H1|].
    apply Hq; [by rewrite H1|done].
  - exists ((e, dr_cell d w1 t i) :: h). repeat split; [by econstructor|by constructor|].
    intros Q HQ [Hf Hfs]%Forall_cons. constructor; [done|]. by apply Hq.
Qed.

(** A lease that a driver granted, and with which it accepts a save later, was nobody
    else's in between. *)
Lemma accepted_save_fences b b' w o dst w0 dst' g e ws w1 src w2 :
  dr_ok d w t i -> good_owner o ->
  driver_Load d w b t i o dst = (w0, dst', Some (Some (mkLease i o g), e)) ->
  world_run w0 ws w1 ->
  driver_Save d w1 b' t i o src g = (w2, None) ->
  Forall (fun w => holder_is o g (dr_cell d w t i)) (w0 :: ws).
Proof.
  intros Hok Ho Hload Hrun Hsave.
  destruct (Load_law _ _ _ _ _ _ _ Hok Ho _ _ _ Hload) as (Hok0 & r & Hst & Ha).
  destruct (world_run_history _ _ _ Hrun Hok0) as (Hok1 & h & Hh & Hl & Hq).
  destruct (Save_law _ _ _ _ _ _ _ _ Hok1 Ho _ _ Hsave) as (_ & r' & Hst' & Ha').
  assert (holder_is o g (dr_cell d w0 t i)) as H0.
  { destruct r; simpl in Ha; try done.
    - destruct Ha as [e' [= <- ->]]. inversion Hst; subst; by eexists.
    - destruct Ha as [Ha|[? Ha]]; done. }
  assert (holder_is o g (dr_cell d w1 t i)) as H1.
  { destruct r'; simpl in Ha'; try done. by eapply save_done_held. }
  constructor; [done|]. apply Hq; [done|]. by eapply held_throughout; [apply good_owner_not_empty|..].
Qed.
End calls.
