(* ===== verification/RedisDriver.v ===== *)
(** * The Redis driver

    grain/driver_redis.go. Redis is a service: its commands are a class, and what the
    driver relies on is the class [RedisLaws]. The Lua scripts are translated command
    by command; a script runs atomically. *)

From S2P Require Import Prelude ActorTypes Lease.

Local Open Scope string_scope.

(** ** Redis

    The commands of the scripts on one hash per key. [send] is the way of a script to the
    server and of its reply back: the context is cancelled or the network fails before
    the script ran ([NotSent]), or after ([ReplyLost]). *)
Inductive fate := Executed | NotSent (e : error) | ReplyLost (e : error).

Class Redis (W : Type) : Type := {
  EXISTS : string -> W -> Z;
  HGET : string -> string -> W -> option string;
  HSET : string -> list (string * string) -> W -> W;
  PEXPIRE : string -> Z -> W -> W;
  PTTL : string -> W -> Z;
  send : bool -> W -> W * fate;
}.

(** The documented effect of the commands on the live keys: fields and time to live. *)
Abbreviation hash := (gmap string string).
Abbreviation hset := (fold_left (fun (m : hash) (kv : string * string) => <[kv.1 := kv.2]> m)).

Class RedisLaws (W : Type) `{!Redis W} : Type := {
  db : W -> gmap string (hash * option Z);
  EXISTS_db k w : EXISTS k w = match db w !! k with Some _ => 1%Z | None => 0%Z end;
  HGET_db k f w : HGET k f w = db w !! k ≫= fun e => e.1 !! f;
  HSET_db k fs w : fs <> [] ->
    db (HSET k fs w) = <[k := match db w !! k with
                              | Some (m, t) => (hset fs m, t)
                              | None => (hset fs ∅, None)
                              end]> (db w);
  PEXPIRE_db k ms w :
    db (PEXPIRE k ms w) = if (0 <? ms)%Z then alter (fun e => (e.1, Some ms)) k (db w) else delete k (db w);
  PTTL_db k w : PTTL k w = match db w !! k with
                           | None => (-2)%Z | Some (_, None) => (-1)%Z | Some (_, Some t) => t
                           end;
  send_db b w : db (send b w).1 = db w;
}.

(** ** Lua

    [tonumber] and the conversion of a number to a string, on the decimal integers (the
    scripts store no other number; a Lua number is exact below 2^53). An array reply ends at
    its first nil. *)
Definition tostring (z : Z) : string := FormatInt z.
Definition tonumber (s : string) : option Z := ParseInt s.

Inductive rvalue := RInt (z : Z) | RStr (s : string).

Fixpoint lua_array (l : list (option rvalue)) : list rvalue :=
  match l with
  | Some v :: l => v :: lua_array l
  | _ => []
  end.

(** ** How a snapshot is encoded

    The interfaces the type of the snapshot pointer implements, as the type switches of
    [marshalData] and [unmarshalData] see them; an unmarshaller returns what the
    destination holds afterwards. *)
Class Marshal (P : Type) : Type := {
  MarshalBinary : option (P -> string + error);
  MarshalJSON : option (P -> string + error);
  UnmarshalBinary : option (string -> P -> P * option error);
  UnmarshalJSON : option (string -> P -> P * option error);
  as_bytes : option (string -> P);
}.

Definition ErrRedisUnmarshalFailed : error :=
  ErrNew "grain: RedisDriver: dst must implement encoding.BinaryUnmarshaler, json.Unmarshaler, or be *[]byte".
Definition ErrRedisMarshalFailed : error :=
  ErrNew "grain: RedisDriver: src must implement encoding.BinaryMarshaler, json.Marshaler, or be []byte".

(** ** The driver *)
Record RedisDriver := mkRedisDriver { prefix : string; nodeId : string; leaseTimeout : Z; dataTTL : Z }.

Definition NewRedisDriver (pre node : string) (lease ttl : Z) : RedisDriver :=
  let lease := if (lease <=? 0)%Z then DefaultLeaseTimeout else lease in
  let ttl := if (ttl <=? 0)%Z then lease else ttl in
  mkRedisDriver pre node lease ttl.

(** [time.Duration.Milliseconds] *)
Definition Milliseconds (d : Z) : Z := Z.quot d 1000000.

Definition key (d : RedisDriver) (actorType id : string) : string := prefix d +:+ actorType +:+ ":" +:+ id.

Section scripts.
Context {W : Type} `{!Redis W}.

(** The current owner and generation, as all the scripts read them. *)
Definition cur_owner (k : string) (w : W) : string := default "" (HGET k "owner" w).
Definition cur_gen (k : string) (w : W) : option Z := tonumber (default "0" (HGET k "generation" w)).
Definition cur_data (k : string) (w : W) : string := default "" (HGET k "data" w).

(** The scripts answer a reply, or [None]: an arithmetic error on a nil number. *)
Definition loadLua (k owner : string) (ttl_ms : Z) (w : W) : W * option (list rvalue) :=
  if (EXISTS k w =? 0)%Z then
    let w1 := HSET k [("owner", owner); ("generation", "1"); ("data", "")] w in
    let w2 := PEXPIRE k ttl_ms w1 in
    (w2, Some [RInt 1; RStr owner; RInt 1; RInt 0])
  else
    let o := cur_owner k w in
    let g := cur_gen k w in
    if String.eqb o owner then
      let w1 := PEXPIRE k ttl_ms w in
      (w1, Some (lua_array [Some (RInt 1); Some (RStr owner); RInt <$> g; Some (RInt 0); Some (RStr (cur_data k w1))]))
    else
      let ttl := PTTL k w in
      if String.eqb o "" || (ttl <=? 0)%Z then
        match g with
        | None => (w, None)
        | Some g =>
            let new_gen := (g + 1)%Z in
            let w1 := HSET k [("owner", owner); ("generation", tostring new_gen)] w in
            let w2 := PEXPIRE k ttl_ms w1 in
            (w2, Some [RInt 1; RStr owner; RInt new_gen; RInt 0; RStr (cur_data k w2)])
        end
      else (w, Some (lua_array [Some (RInt 0); Some (RStr o); RInt <$> g])).

Definition matches (k owner : string) (gen : Z) (w : W) : bool :=
  String.eqb (cur_owner k w) owner && bool_decide (cur_gen k w = Some gen).

Definition saveLua (k owner : string) (gen : Z) (data : string) (ttl_ms : Z) (renew_only : bool) (w : W) : W * Z :=
  if negb (matches k owner gen w) then (w, 0%Z)
  else
    let w1 := if negb renew_only
              then HSET k [("owner", owner); ("generation", tostring gen); ("data", data)] w
              else HSET k [("owner", owner); ("generation", tostring gen)] w in
    let w2 := if (0 <? ttl_ms)%Z then PEXPIRE k ttl_ms w1 else w1 in
    (w2, 1%Z).

Definition releaseLua (k owner : string) (gen : Z) (w : W) : W * Z :=
  if matches k owner gen w then (HSET k [("owner", "")] w, 1%Z) else (w, 0%Z).

Definition forceLua (k : string) (ttl_ms : Z) (w : W) : W * option Z :=
  match cur_gen k w with
  | None => (w, None)
  | Some g =>
      let new_gen := (g + 1)%Z in
      let w1 := HSET k [("owner", ""); ("generation", tostring new_gen)] w in
      ((if (0 <? ttl_ms)%Z then PEXPIRE k ttl_ms w1 else w1), Some new_gen)
  end.

(** [Script.Run]: the script and the conversion of its reply. *)
Definition script_error : error := ErrNew "ERR Error running script: attempt to perform arithmetic on a nil value".

Definition run_script {X} (canceled : bool) (f : W -> W * option X) (w : W) : W * (X + error) :=
  let '(w1, s) := send canceled w in
  match s with
  | NotSent e => (w1, inr e)
  | ReplyLost e => ((f w1).1, inr e)
  | Executed =>
      let '(w2, r) := f w1 in
      (w2, match r with Some x => inl x | None => inr script_error end)
  end.

Definition total {X} (f : W -> W * X) (w : W) : W * option X := let '(w', x) := f w in (w', Some x).

(** The comma-ok assertions on an element of the reply: [None] is an index out of range. *)
Definition int_at (i : nat) (l : list rvalue) : option Z :=
  match l !! i with Some (RInt z) => Some z | Some (RStr _) => Some 0%Z | None => None end.
Definition str_at (i : nat) (l : list rvalue) : option string :=
  match l !! i with Some (RStr s) => Some s | Some (RInt _) => Some "" | None => None end.

Section snapshot.
Context {P : Type} `{!Marshal P}.

(** [src any]: the pointer to a snapshot, or a byte slice. *)
Inductive src_any := SrcPtr (p : P) | SrcBytes (b : string).

Definition marshalData (src : src_any) : string + error :=
  match src with
  | SrcBytes b => inl b
  | SrcPtr p =>
      match MarshalBinary, MarshalJSON with
      | Some f, _ => f p
      | None, Some f => f p
      | None, None => inr ErrRedisMarshalFailed
      end
  end.

(** A method of the snapshot reached through the nil pointer dereferences it: a panic,
    the second component [None]. *)
Definition unmarshalData (data : string) (dst : option P) : option P * option (option error) :=
  if String.eqb data "" then (dst, Some None)
  else match UnmarshalBinary, UnmarshalJSON, as_bytes, dst with
       | Some f, _, _, Some p => let '(p', e) := f data p in (Some p', Some e)
       | None, Some f, _, Some p => let '(p', e) := f data p in (Some p', Some e)
       | None, None, Some f, Some _ => (Some (f data), Some None)
       | None, None, None, _ => (dst, Some (Some ErrRedisUnmarshalFailed))
       | _, _, _, None => (None, None)
       end.

(** The part of [Load] after the script. *)
Definition load_reply (id : string) (result : list rvalue) (dst : option P)
    : option P * option (option LeaseInfo * option error) :=
  match int_at 0 result with
  | None => (dst, None)
  | Some success =>
      if (success =? 0)%Z then
        match str_at 1 result, int_at 2 result with
        | Some o, Some g => (dst, Some (None, Some (ErrLeaseTaken id o g)))
        | _, _ => (dst, None)
        end
      else
        match str_at 1 result, int_at 2 result, int_at 3 result with
        | Some o, Some g, Some notFound =>
            let lease := mkLease id o g in
            if (notFound =? 1)%Z then (dst, Some (Some lease, Some ErrNotFound))
            else match str_at 4 result with
                 | None => (dst, None)
                 | Some data =>
                     let '(dst', e) := unmarshalData data dst in
                     (dst', (fun e => (Some lease, e)) <$> e)
                 end
        | _, _, _ => (dst, None)
        end
  end.

Definition Load (d : RedisDriver) (w : W) (canceled : bool) (actorType id owner : string) (dst : option P)
    : W * option P * option (option LeaseInfo * option error) :=
  let k := key d actorType id in
  let '(w1, r) := run_script canceled (loadLua k owner (Milliseconds (leaseTimeout d))) w in
  match r with
  | inr e => (w1, dst, Some (None, Some e))
  | inl result => let '(dst', x) := load_reply id result dst in (w1, dst', x)
  end.

Definition refused (what : string) : error :=
  ErrNew ("grain: " +:+ what +:+ " failed, lease expired or taken by another owner").

Definition save_ttl (d : RedisDriver) : Z :=
  let ttlMs := Milliseconds (dataTTL d) in
  if (ttlMs <=? 0)%Z then Milliseconds (leaseTimeout d) else ttlMs.

Definition Save (d : RedisDriver) (w : W) (canceled : bool) (actorType id owner : string) (src : option P) (gen : Z)
    : W * option error :=
  let k := key d actorType id in
  match match src with Some p => marshalData (SrcPtr p) | None => inl "" end with
  | inr e => (w, Some e)
  | inl data =>
      let '(w1, r) := run_script canceled
        (total (saveLua k owner gen data (save_ttl d) (match src with None => true | Some _ => false end))) w in
      (w1, match r with
           | inr e => Some e
           | inl result => if (result =? 0)%Z then Some (refused "save") else None
           end)
  end.

Definition Release (d : RedisDriver) (w : W) (canceled : bool) (actorType id owner : string) (gen : Z)
    : W * option error :=
  let '(w1, r) := run_script canceled (total (releaseLua (key d actorType id) owner gen)) w in
  (w1, match r with
       | inr e => Some e
       | inl result => if (result =? 0)%Z then Some (refused "release") else None
       end).

Definition ForceRelease (d : RedisDriver) (w : W) (canceled : bool) (actorType id : string) : W * (Z * option error) :=
  let '(w1, r) := run_script canceled (forceLua (key d actorType id) (Milliseconds (leaseTimeout d))) w in
  (w1, match r with inr e => (0%Z, Some e) | inl g => (g, None) end).

#[export] Instance redis_driver : Driver RedisDriver W P := {|
  driver_Load := Load;
  driver_Save := Save;
  driver_Release := Release;
  driver_ForceRelease := ForceRelease;
|}.
End snapshot.
End scripts.
