(* ===== verification/RedisSpec.v ===== *)
(** * The Redis driver follows the lease protocol *)

From S2P Require Import Prelude ActorTypes Lease RedisDriver.

Local Open Scope string_scope.

Lemma tonumber_tostring z : tonumber (tostring z) = Some z.
Proof. apply ParseInt_FormatInt. Qed.

Section RedisSpec.
Context {W : Type} `{!Redis W, !RedisLaws W}.
Context {P : Type} `{!Marshal P}.
Implicit Types (w : W) (k : string) (d : RedisDriver).

(** ** The cell under a key *)
Definition entry_gen (e : hash * option Z) : option Z := tonumber (default "0" (e.1 !! "generation")).

Definition entry_cell (e : hash * option Z) : option (lcell string) :=
  (fun g => mkCell (default "" (e.1 !! "owner")) g (default "" (e.1 !! "data")) true) <$> entry_gen e.

(** What the scripts leave: a number as the generation, and a time to live. *)
Definition entry_ok (e : hash * option Z) : Prop :=
  is_Some (entry_gen e) /\ exists t, e.2 = Some t /\ (0 < t)%Z.

Definition key_ok k w : Prop := forall e, db w !! k = Some e -> entry_ok e.
Definition cell k w : option (lcell string) := db w !! k ≫= entry_cell.

Lemma cur_owner_db k w : cur_owner k w = match db w !! k with Some e => default "" (e.1 !! "owner") | None => "" end.
Proof. unfold cur_owner. rewrite HGET_db. by destruct (db w !! k). Qed.
Lemma cur_gen_db k w : cur_gen k w = match db w !! k with Some e => entry_gen e | None => Some 0%Z end.
Proof. unfold cur_gen. rewrite HGET_db. by destruct (db w !! k). Qed.
Lemma cur_data_db k w : cur_data k w = match db w !! k with Some e => default "" (e.1 !! "data") | None => "" end.
Proof. unfold cur_data. rewrite HGET_db. by destruct (db w !! k). Qed.

Lemma cell_absent k w : db w !! k = None -> cell k w = None.
Proof. unfold cell. by intros ->. Qed.

Lemma cell_present k w e : key_ok k w -> db w !! k = Some e ->
  exists g t, entry_gen e = Some g /\ e.2 = Some t /\ (0 < t)%Z /\
    cell k w = Some (mkCell (default "" (e.1 !! "owner")) g (default "" (e.1 !! "data")) true).
Proof.
  intros Hok He. destruct (Hok e He) as [[g Hg] (t & Ht & Hp)]. exists g, t. repeat split; try done.
  unfold cell, entry_cell. rewrite He. simpl. by rewrite Hg.
Qed.

(** A write of [HSET], with the time to live set again or left. *)
Definition written k (m : hash) (t : Z) w' w : Prop := db w' = <[k := (m, Some t)]> (db w).

Lemma HSET_PEXPIRE_db k fs ms w : fs <> [] -> (0 < ms)%Z ->
  written k (hset fs (match db w !! k with Some e => e.1 | None => ∅ end)) ms (PEXPIRE k ms (HSET k fs w)) w.
Proof.
  intros Hfs Hms. unfold written. rewrite PEXPIRE_db, HSET_db by done.
  rewrite (proj2 (Z.ltb_lt 0 ms) Hms). rewrite alter_insert_eq.
  destruct (db w !! k) as [[m t]|]; done.
Qed.

Lemma written_ok k m t w' w g o dt :
  written k m t w' w -> (0 < t)%Z -> tonumber (default "0" (m !! "generation")) = Some g ->
  default "" (m !! "owner") = o -> default "" (m !! "data") = dt ->
  key_ok k w' /\ cell k w' = Some (mkCell o g dt true).
Proof.
  unfold written. intros Hw Ht Hg <- <-. split.
  - intros e. rewrite Hw, lookup_insert_eq. intros [= <-]. split; [by eexists|by eexists].
  - unfold cell. rewrite Hw, lookup_insert_eq. simpl. unfold entry_cell, entry_gen. simpl. by rewrite Hg.
Qed.

Lemma matches_held k o g w : key_ok k w -> o <> "" -> matches k o g w = true <-> holder_is o g (cell k w).
Proof.
  intros Hok Ho. unfold matches. rewrite andb_true_iff, String.eqb_eq, bool_decide_eq_true, cur_owner_db, cur_gen_db.
  destruct (db w !! k) as [e|] eqn:E.
  - destruct (cell_present k w e Hok E) as (g' & t & Hg & Ht & Hp & ->). rewrite Hg. split.
    + intros [<- [= <-]]. by eexists.
    + intros (x & [= <-] & Ho' & Hg'). simpl in *. by subst.
  - rewrite cell_absent by done. split; [by intros [<- _]|]. intros (x & ? & _). done.
Qed.

(** ** The scripts *)
Lemma loadLua_step k o ms w : key_ok k w -> o <> "" -> (0 < ms)%Z ->
  forall w' r, loadLua k o ms w = (w', r) ->
  key_ok k w' /\ exists l s, r = Some l /\ lstep "" (cell k w) (OLoad o) s (cell k w') /\
    ((exists g data, s = RGranted g /\ l = [RInt 1; RStr o; RInt g; RInt 0; RStr data] /\
       cell k w' = Some (mkCell o g data true)) \/
     (s = RGranted 1 /\ l = [RInt 1; RStr o; RInt 1; RInt 0] /\ cell k w = None) \/
     (exists o' g, s = RTaken o' g /\ l = [RInt 0; RStr o'; RInt g])).
Proof.
  intros Hok Ho Hms w' r. unfold loadLua. rewrite EXISTS_db, cur_owner_db, cur_gen_db, PTTL_db.
  destruct (db w !! k) as [e|] eqn:E.
  2:{ simpl. intros [= <- <-].
      destruct (written_ok _ _ _ _ _ 1 o "" (HSET_PEXPIRE_db k [("owner", o); ("generation", "1"); ("data", "")] ms w
        ltac:(done) Hms) Hms) as [H1 H2]; [by rewrite E..|].
      split; [done|]. eexists _, (RGranted 1). split; [done|]. rewrite H2, (cell_absent k w) by done.
      split; [constructor|]. right. left. done. }
  destruct (cell_present k w e Hok E) as (g & t & Hg & Ht & Hp & Hc). rewrite Hg. simpl.
  destruct (String.eqb_spec (default "" (e.1 !! "owner")) o) as [Heq|Hne].
  - intros [= <- <-].
    assert (db (PEXPIRE k ms w) = <[k := (e.1, Some ms)]> (db w)) as Hw.
    { rewrite PEXPIRE_db, (proj2 (Z.ltb_lt 0 ms) Hms). apply map_eq. intros k'.
      destruct (decide (k = k')) as [<-|Hk].
      - by rewrite lookup_alter_eq, E, lookup_insert_eq.
      - by rewrite lookup_alter_ne, lookup_insert_ne. }
    destruct (written_ok k e.1 ms _ _ g o (default "" (e.1 !! "data")) Hw Hms Hg Heq eq_refl) as [H1 H2].
    split; [done|]. eexists _, (RGranted g). split; [done|].
    rewrite H2, Hc. split.
    + apply (load_again _ (mkCell _ g _ true)); [done|by left].
    + left. exists g, (default "" (e.1 !! "data")). repeat split.
      by rewrite cur_data_db, Hw, lookup_insert_eq.
  - destruct e as [m tt]. simpl in *. subst tt.
    rewrite (proj2 (Z.leb_gt t 0) Hp), orb_false_r.
    destruct (String.eqb_spec (default "" (m !! "owner")) "") as [Hem|Hem]; intros [= <- <-].
    + pose proof (HSET_PEXPIRE_db k [("owner", o); ("generation", tostring (g + 1))] ms w ltac:(done) Hms) as Hw.
      rewrite E in Hw. simpl in Hw.
      destruct (written_ok _ _ _ _ _ (g + 1) o (default "" (m !! "data")) Hw Hms) as [H1 H2].
      { rewrite lookup_insert_eq. apply tonumber_tostring. }
      { rewrite lookup_insert_ne, lookup_insert_eq by done. done. }
      { rewrite !lookup_insert_ne by done. done. }
      split; [done|]. eexists _, (RGranted (g + 1)). split; [done|]. rewrite H2, Hc. split.
      * apply (load_free _ (mkCell _ g _ true)). by left.
      * left. exists (g + 1)%Z, (default "" (m !! "data")). repeat split.
        rewrite cur_data_db, Hw, lookup_insert_eq. simpl. rewrite !lookup_insert_ne by done. done.
    + split; [done|]. eexists _, (RTaken _ g). split; [done|]. rewrite Hc. split.
      * by apply (load_taken _ (mkCell (default "" (m !! "owner")) g _ true)).
      * right. right. by eexists _, g.
Qed.

Lemma saveLua_step k o g data ms (renew : bool) w : key_ok k w -> o <> "" -> (0 < ms)%Z ->
  forall w' r, saveLua k o g data ms renew w = (w', r) ->
  key_ok k w' /\ exists s, lstep "" (cell k w) (OSave o g (if renew then None else Some data)) s (cell k w') /\
    ((s = RDone /\ r = 1%Z) \/ (s = RRefused /\ r = 0%Z)).
Proof.
  intros Hok Ho Hms w' r. unfold saveLua. destruct (matches k o g w) eqn:Em.
  2:{ simpl. intros [= <- <-]. split; [done|]. exists RRefused. split; [|by right]. apply save_refused.
      intros Hh. apply (matches_held k o g w Hok Ho) in Hh. congruence. }
  pose proof Em as (c & Hc & Hco & Hcg)%(matches_held k o g w Hok Ho).
  destruct (db w !! k) as [e|] eqn:E; [|by rewrite cell_absent in Hc].
  destruct (cell_present k w e Hok E) as (g' & t & Hg & Ht & Hp & Hc'). rewrite Hc in Hc'. injection Hc' as ->.
  simpl in Hco, Hcg. subst g'. simpl. rewrite (proj2 (Z.ltb_lt 0 ms) Hms).
  intros [= <- <-]. destruct e as [m tt]. simpl in *. destruct renew; simpl.
  - pose proof (HSET_PEXPIRE_db k [("owner", o); ("generation", tostring g)] ms w ltac:(done) Hms) as Hw.
    rewrite E in Hw. simpl in Hw.
    destruct (written_ok _ _ _ _ _ g o (default "" (m !! "data")) Hw Hms) as [H1 H2].
    { rewrite lookup_insert_eq. apply tonumber_tostring. }
    { rewrite lookup_insert_ne, lookup_insert_eq by done. done. }
    { rewrite !lookup_insert_ne by done. done. }
    split; [done|]. exists RDone. split; [|by left]. rewrite H2, Hc. rewrite <- Hco.
    apply (save_done _ (mkCell (default "" (m !! "owner")) g (default "" (m !! "data")) true) None).
  - pose proof (HSET_PEXPIRE_db k [("owner", o); ("generation", tostring g); ("data", data)] ms w ltac:(done) Hms) as Hw.
    rewrite E in Hw. simpl in Hw.
    destruct (written_ok _ _ _ _ _ g o data Hw Hms) as [H1 H2].
    { rewrite lookup_insert_ne, lookup_insert_eq by done. apply tonumber_tostring. }
    { rewrite !lookup_insert_ne, lookup_insert_eq by done. done. }
    { by rewrite lookup_insert_eq. }
    split; [done|]. exists RDone. split; [|by left]. rewrite H2, Hc. rewrite <- Hco.
    apply (save_done _ (mkCell (default "" (m !! "owner")) g (default "" (m !! "data")) true) (Some data)).
Qed.

Lemma releaseLua_step k o g w : key_ok k w -> o <> "" ->
  forall w' r, releaseLua k o g w = (w', r) ->
  key_ok k w' /\ exists s, lstep "" (cell k w) (ORelease o g) s (cell k w') /\
    ((s = RDone /\ r = 1%Z) \/ (s = RRefused /\ r = 0%Z)).
Proof.
  intros Hok Ho w' r. unfold releaseLua. destruct (matches k o g w) eqn:Em.
  2:{ intros [= <- <-]. split; [done|]. exists RRefused. split; [|by right]. apply release_refused.
      intros Hh. apply (matches_held k o g w Hok Ho) in Hh. congruence. }
  pose proof Em as (c & Hc & Hco & Hcg)%(matches_held k o g w Hok Ho).
  destruct (db w !! k) as [e|] eqn:E; [|by rewrite cell_absent in Hc].
  destruct (cell_present k w e Hok E) as (g' & t & Hg & Ht & Hp & Hc'). rewrite Hc in Hc'. injection Hc' as ->.
  simpl in Hco, Hcg. subst g'. intros [= <- <-]. destruct e as [m tt]. simpl in *. subst tt.
  assert (written k (<["owner" := ""]> m) t (HSET k [("owner", "")] w) w) as Hw.
  { unfold written. rewrite HSET_db, E by done. done. }
  destruct (written_ok _ _ _ _ _ g "" (default "" (m !! "data")) Hw Hp) as [H1 H2].
  { by rewrite lookup_insert_ne by done. }
  { by rewrite lookup_insert_eq. }
  { by rewrite lookup_insert_ne by done. }
  split; [done|]. exists RDone. split; [|by left]. rewrite H2, Hc. rewrite <- Hco.
  apply (release_done _ (mkCell (default "" (m !! "owner")) g (default "" (m !! "data")) true)).
Qed.

Lemma forceLua_step k ms w : key_ok k w -> (0 < ms)%Z ->
  forall w' r, forceLua k ms w = (w', r) ->
  key_ok k w' /\ exists g, r = Some g /\ lstep "" (cell k w) OForce (RForced g) (cell k w').
Proof.
  intros Hok Hms w' r. unfold forceLua. rewrite cur_gen_db, (proj2 (Z.ltb_lt 0 ms) Hms).
  destruct (db w !! k) as [e|] eqn:E.
  - destruct (cell_present k w e Hok E) as (g & t & Hg & Ht & Hp & Hc). rewrite Hg. intros [= <- <-].
    pose proof (HSET_PEXPIRE_db k [("owner", ""); ("generation", tostring (g + 1))] ms w ltac:(done) Hms) as Hw.
    rewrite E in Hw. simpl in Hw.
    destruct (written_ok _ _ _ _ _ (g + 1) "" (default "" (e.1 !! "data")) Hw Hms) as [H1 H2].
    { rewrite lookup_insert_eq. apply tonumber_tostring. }
    { rewrite lookup_insert_ne, lookup_insert_eq by done. done. }
    { rewrite !lookup_insert_ne by done. done. }
    split; [done|]. exists (g + 1)%Z. split; [done|]. rewrite H2, Hc.
    apply (force_old _ (mkCell (default "" (e.1 !! "owner")) g (default "" (e.1 !! "data")) true)).
  - intros [= <- <-].
    pose proof (HSET_PEXPIRE_db k [("owner", ""); ("generation", tostring (0 + 1))] ms w ltac:(done) Hms) as Hw.
    rewrite E in Hw. simpl in Hw.
    destruct (written_ok _ _ _ _ _ 1 "" "" Hw Hms) as [H1 H2]; [done..|].
    split; [done|]. exists 1%Z. split; [done|]. rewrite H2, cell_absent by done. constructor.
Qed.

(** ** The way to the server and back *)

(** A script whose effect is a step of the protocol, sent over the network. *)
Lemma run_script_step {X} b (f : W -> W * option X) k op w :
  key_ok k w ->
  (forall w1, key_ok k w1 -> cell k w1 = cell k w -> forall w2 x, f w1 = (w2, x) ->
     key_ok k w2 /\ exists s, lstep "" (cell k w) op s (cell k w2)) ->
  forall w' r, run_script b f w = (w', r) ->
  key_ok k w' /\
  ((exists e, r = inr e /\ lstep "" (cell k w) op RFailed (cell k w')) \/
   (exists w1 x, key_ok k w1 /\ cell k w1 = cell k w /\ f w1 = (w', x) /\
      r = match x with Some x => inl x | None => inr script_error end)).
Proof.
  intros Hok Hf w' r. unfold run_script. pose proof (send_db b w) as Hs.
  destruct (send b w) as [w1 s]. simpl in Hs.
  assert (key_ok k w1) as Hok1 by (unfold key_ok; by rewrite Hs).
  assert (cell k w1 = cell k w) as Hc1 by (unfold cell; by rewrite Hs).
  destruct s as [|e|e].
  - destruct (f w1) as [w2 x] eqn:E. intros [= <- <-].
    destruct (Hf w1 Hok1 Hc1 _ _ E) as [H1 _]. split; [done|]. right. by exists w1, x.
  - intros [= <- <-]. split; [done|]. left. exists e. split; [done|]. rewrite Hc1. apply not_sent.
  - intros [= <- <-]. destruct (f w1) as [w2 x] eqn:E. simpl.
    destruct (Hf w1 Hok1 Hc1 _ _ E) as [H1 [s H2]]. split; [done|]. left. exists e. split; [done|].
    by eapply reply_lost.
Qed.

(** ** The driver *)

(** The lease lasts a millisecond at least (a shorter one is a time to live of zero). *)
Definition timeout_ok d : Prop := (1000000 <= leaseTimeout d)%Z.

Lemma timeout_ms d : timeout_ok d -> (0 < Milliseconds (leaseTimeout d))%Z.
Proof.
  unfold timeout_ok, Milliseconds. intros H.
  apply (Z.lt_le_trans _ (Z.quot 1000000 1000000)); [done|]. apply Z.quot_le_mono; lia.
Qed.

Lemma save_ttl_pos d : timeout_ok d -> (0 < save_ttl d)%Z.
Proof. intros H%timeout_ms. unfold save_ttl. destruct (Z.leb_spec (Milliseconds (dataTTL d)) 0); lia. Qed.

Definition redis_ok d w (t i : string) : Prop := timeout_ok d /\ key_ok (key d t i) w.
Definition redis_cell d w (t i : string) : option (lcell string) := cell (key d t i) w.

(** What a snapshot is stored as; one that cannot be encoded is not stored. *)
Definition enc_snapshot (p : P) : option string :=
  match marshalData (SrcPtr p) with inl data => Some data | inr _ => None end.

Lemma Load_refines d w b t i o (dst : option P) : redis_ok d w t i -> o <> "" ->
  forall w' dst' x, Load d w b t i o dst = (w', dst', x) ->
  redis_ok d w' t i /\ exists r, lstep "" (redis_cell d w t i) (OLoad o) r (redis_cell d w' t i) /\ load_agrees i o r x.
Proof.
  intros [Ht Hok] Ho w' dst' x. unfold Load, redis_cell, redis_ok.
  destruct (run_script _ _ _) as [w1 r] eqn:E.
  eapply (run_script_step b _ (key d t i) (OLoad o)) in E as [Hok1 Hr]; [|exact Hok|].
  2:{ intros w2 H1 H2 w3 y Hy. destruct (loadLua_step _ _ _ _ H1 Ho (timeout_ms _ Ht) _ _ Hy) as (H3 & l & s & _ & H4 & _).
      rewrite <- H2. eauto. }
  destruct Hr as [(e & -> & Hst)|(w2 & y & Hok2 & Hc2 & Hf & ->)].
  - intros [= <- <- <-]. split; [done|]. exists RFailed. split; [done|]. right. by eexists.
  - destruct (loadLua_step _ _ _ _ Hok2 Ho (timeout_ms _ Ht) _ _ Hf) as (_ & l & s & -> & Hst & Hl). rewrite Hc2 in Hst.
    destruct Hl as [(g & data & -> & -> & _)|[(-> & -> & _)|(o' & g & -> & ->)]]; cbn -[unmarshalData].
    + destruct (unmarshalData data dst) as [dst1 [e|]]; intros [= <- <- <-]; (split; [done|]).
      * exists (RGranted g). split; [done|]. by exists e.
      * exists RFailed. split; [by eapply reply_lost|by left].
    + intros [= <- <- <-]. split; [done|]. exists RFailed. split; [by eapply reply_lost|by left].
    + intros [= <- <- <-]. split; [done|]. by exists (RTaken o' g).
Qed.

Lemma Save_refines d w b t i o (src : option P) g : redis_ok d w t i -> o <> "" ->
  forall w' x, Save d w b t i o src g = (w', x) ->
  redis_ok d w' t i /\ exists r, lstep "" (redis_cell d w t i) (OSave o g (src ≫= enc_snapshot)) r (redis_cell d w' t i) /\
    done_agrees r x.
Proof.
  intros [Ht Hok] Ho w' x. unfold Save, redis_cell, redis_ok.
  set (op := OSave o g (src ≫= enc_snapshot)).
  destruct (match src with Some p => marshalData (SrcPtr p) | None => inl "" end) as [data|e] eqn:Em.
  2:{ intros [= <- <-]. split; [done|]. exists RFailed. split; [apply not_sent|done]. }
  assert (op = OSave o g (if match src with None => true | Some _ => false end then None else Some data)) as Hop.
  { unfold op, enc_snapshot. destruct src as [p|]; cbn [mbind option_bind]; [by rewrite Em|done]. }
  destruct (run_script _ _ _) as [w1 r] eqn:E.
  eapply (run_script_step b _ (key d t i) op) in E as [Hok1 Hr]; [|exact Hok|].
  2:{ intros w2 H1 H2 w3 y. unfold total. destruct (saveLua _ _ _ _ _ _ _) as [w4 z] eqn:Hz. intros [= <- <-].
      destruct (saveLua_step _ _ _ _ _ _ _ H1 Ho (save_ttl_pos _ Ht) _ _ Hz) as (H3 & s & H4 & _).
      split; [done|]. exists s. rewrite Hop, <- H2. done. }
  destruct Hr as [(e & -> & Hst)|(w2 & y & Hok2 & Hc2 & Hf & ->)]; intros [= <- <-]; (split; [done|]).
  - exists RFailed. done.
  - unfold total in Hf. destruct (saveLua _ _ _ _ _ _ _) as [w4 z] eqn:Hz. injection Hf as -> <-.
    destruct (saveLua_step _ _ _ _ _ _ _ Hok2 Ho (save_ttl_pos _ Ht) _ _ Hz) as (_ & s & Hst & Hs).
    rewrite <- Hop, Hc2 in Hst. exists s. split; [done|]. by destruct Hs as [[-> ->]|[-> ->]].
Qed.

Lemma Release_refines d w b t i o g : redis_ok d w t i -> o <> "" ->
  forall w' x, Release d w b t i o g = (w', x) ->
  redis_ok d w' t i /\ exists r, lstep "" (redis_cell d w t i) (ORelease o g) r (redis_cell d w' t i) /\ done_agrees r x.
Proof.
  intros [Ht Hok] Ho w' x. unfold Release, redis_cell, redis_ok.
  destruct (run_script _ _ _) as [w1 r] eqn:E.
  eapply (run_script_step b _ (key d t i) (ORelease o g)) in E as [Hok1 Hr]; [|exact Hok|].
  2:{ intros w2 H1 H2 w3 y. unfold total. destruct (releaseLua _ _ _ _) as [w4 z] eqn:Hz. intros [= <- <-].
      destruct (releaseLua_step _ _ _ _ H1 Ho _ _ Hz) as (H3 & s & H4 & _). rewrite <- H2. eauto. }
  destruct Hr as [(e & -> & Hst)|(w2 & y & Hok2 & Hc2 & Hf & ->)]; intros [= <- <-]; (split; [done|]).
  - by exists RFailed.
  - unfold total in Hf. destruct (releaseLua _ _ _ _) as [w4 z] eqn:Hz. injection Hf as -> <-.
    destruct (releaseLua_step _ _ _ _ Hok2 Ho _ _ Hz) as (_ & s & Hst & Hs).
    rewrite Hc2 in Hst. exists s. split; [done|]. by destruct Hs as [[-> ->]|[-> ->]].
Qed.

Lemma ForceRelease_refines d w b t i : redis_ok d w t i ->
  forall w' x, ForceRelease d w b t i = (w', x) ->
  redis_ok d w' t i /\ exists r, lstep "" (redis_cell d w t i) OForce r (redis_cell d w' t i) /\ force_agrees r x.
Proof.
  intros [Ht Hok] w' x. unfold ForceRelease, redis_cell, redis_ok.
  destruct (run_script _ _ _) as [w1 r] eqn:E.
  eapply (run_script_step b _ (key d t i) OForce) in E as [Hok1 Hr]; [|exact Hok|].
  2:{ intros w2 H1 H2 w3 y Hy. destruct (forceLua_step _ _ _ H1 (timeout_ms _ Ht) _ _ Hy) as (H3 & g & _ & H4).
      rewrite <- H2. eauto. }
  destruct Hr as [(e & -> & Hst)|(w2 & y & Hok2 & Hc2 & Hf & ->)]; intros [= <- <-]; (split; [done|]).
  - by exists RFailed.
  - destruct (forceLua_step _ _ _ Hok2 (timeout_ms _ Ht) _ _ Hf) as (_ & g & -> & Hst).
    rewrite Hc2 in Hst. by exists (RForced g).
Qed.

#[export] Instance redis_leases : LeaseLaws RedisDriver W P string "" := {|
  dr_ok := redis_ok;
  dr_cell := redis_cell;
  enc := enc_snapshot;
  good_owner o := o <> "";
  good_owner_not_empty _ Ho := Ho;
  Load_law := Load_refines;
  Save_law := Save_refines;
  Release_law := Release_refines;
  ForceRelease_law := ForceRelease_refines;
|}.

End RedisSpec.

Section properties.
Context {W : Type} `{!Redis W, !RedisLaws W}.
Context {P : Type} `{!Marshal P}.


(** C20 Fencing: when [Load] granted a node the lease of a grain and, after any calls of any
    nodes on that grain, [Save] accepts a snapshot with that lease, then the lease was the
    node's all along: nobody else was granted it, and it was neither released nor
    forced, as long as the key did not expire in between. *)
Theorem redis_fencing (d : RedisDriver) (t i o : string) (w w0 w1 w2 : W) b b' (dst dst' src : option P) g e ws :
  redis_ok d w t i -> o <> "" ->
  Load d w b t i o dst = (w0, dst', Some (Some (mkLease i o g), e)) ->
  world_run (P := P) (nodata := "") d t i w0 ws w1 ->
  Save d w1 b' t i o src g = (w2, None) ->
  Forall (fun w => holder_is o g (redis_cell d w t i)) (w0 :: ws).
Proof. apply (accepted_save_fences (LeaseLaws0 := redis_leases) d t i). Qed.

End properties.

(** ** A Redis with one table *)
Module RedisWitness.
Definition table := gmap string (hash * option Z).

#[export] Instance table_redis : Redis table := {|
  EXISTS k w := match w !! k with Some _ => 1%Z | None => 0%Z end;
  HGET k f w := w !! k ≫= fun e => e.1 !! f;
  HSET k fs w := <[k := match w !! k with
                        | Some (m, t) => (hset fs m, t)
                        | None => (hset fs ∅, None)
                        end]> w;
  PEXPIRE k ms w := if (0 <? ms)%Z then alter (fun e => (e.1, Some ms)) k w else delete k w;
  PTTL k w := match w !! k with None => (-2)%Z | Some (_, None) => (-1)%Z | Some (_, Some t) => t end;
  send canceled w := (w, if canceled then NotSent CtxCanceled else Executed);
|}.

#[export, program] Instance table_laws : RedisLaws table := {| db w := w |}.
Solve All Obligations with done.

#[export] Instance string_marshal : Marshal string := {|
  MarshalBinary := Some inl;
  MarshalJSON := None;
  UnmarshalBinary := Some (fun s _ => (s, None));
  UnmarshalJSON := None;
  as_bytes := None;
|}.

Definition drv := NewRedisDriver "g:" "n" 0 0.
Definition k1 := "g:player:7".
(** The key after [ForceRelease] on a new grain. *)
Definition freed : table := (ForceRelease drv ∅ false "player" "7").1.
Definition granted : table := (Load drv freed false "player" "7" "a" (Some "")).1.1.

Lemma freed_ok : redis_ok drv freed "player" "7".
Proof.
  split; [by vm_compute|]. intros e. unfold freed.
  destruct (ForceRelease drv ∅ false "player" "7") as [w' x] eqn:E.
  assert (redis_ok drv (∅ : table) "player" "7") as H0 by (split; [by vm_compute|by intros e0 H0; exfalso; exact (lookup_empty_Some (M := gmap string) _ _ H0)]).
  destruct (ForceRelease_refines _ _ _ _ _ H0 _ _ E) as [[_ H] _]. apply H.
Qed.


Lemma redis_fencing_witness :
  holder_is "a" 2 (redis_cell drv granted "player" "7").
Proof.
  pose proof (redis_fencing drv "player" "7" "a" freed granted
    (after (P := string) drv "player" "7" false (CLoad "b" (Some "")) granted)
    (Save drv (after (P := string) drv "player" "7" false (CLoad "b" (Some "")) granted) false "player" "7" "a" (Some "hp=3") 2).1
    false false (Some "") (Some "") (Some "hp=3") 2 None
    [after (P := string) drv "player" "7" false (CLoad "b" (Some "")) granted]
    freed_ok ltac:(done)) as H.
  assert (Forall (fun w => holder_is "a" 2 (redis_cell drv w "player" "7"))
    [granted; after (P := string) drv "player" "7" false (CLoad "b" (Some "")) granted]) as HF.
  { apply H.
    - vm_cast_no_check (@eq_refl (table * option string * option (option LeaseInfo * option error))
        (granted, Some "", Some (Some (mkLease "7" "a" 2), None))).
    - eapply wr_cons; [|apply wr_nil]. apply ws_call. by intros o [= <-].
    - match goal with |- _ = (?w, _) => vm_cast_no_check (@eq_refl (table * option error) (w, None)) end. }
  by apply Forall_cons in HF as [? _].
Defined.

(** ** What the driver does not keep *)

(** The reply of the script to the first [Load] of a grain has four elements, and says
    that the grain was found: [Load] reads a fifth and panics, for every snapshot type. *)
Remark first_load_panics `{!Marshal P} (d : RedisDriver) (t i o : string) (dst : option P) :
  (Load d (∅ : table) false t i o dst).2 = None.
Proof. done. Qed.

(** The next [Load] by the same node finds the empty key: no [ErrNotFound], nothing read,
    so the grain counts as loaded although it was never saved. *)
Remark second_load_is_loaded :
  (Load drv (Load drv ∅ false "player" "7" "a" (Some "zero")).1.1 false "player" "7" "a" (Some "zero")).2
  = Some (Some (mkLease "7" "a" 1), None).
Proof. by vm_compute. Qed.

(** The data is a field of the leased key: when the key expires the snapshot is gone, and the
    generation starts again, so a lease from before the loss is accepted again. *)
Remark expired_lease_accepted :
  let w1 := (Load drv (∅ : table) false "player" "7" "a" (Some "")).1.1 in
  let w2 := (Save drv w1 false "player" "7" "a" (Some "hp=3") 1).1 in
  let expired := delete k1 w2 in
  let w3 := (Load drv expired false "player" "7" "a" (Some "")).1.1 in
  (Load drv w3 false "player" "7" "a" (Some "")).1.2 = Some "" /\
  (Save drv w3 false "player" "7" "a" (Some "stale") 1).2 = None.
Proof. by vm_compute. Qed.

(** A snapshot type that is [[]byte] is read but never saved: [Save] is given a
    pointer, and the type switch looks for the slice. *)
Remark bytes_not_saved (f : string -> string) (p : string) :
  let M := {| MarshalBinary := None; MarshalJSON := None; UnmarshalBinary := None;
              UnmarshalJSON := None; as_bytes := Some f |} in
  marshalData (Marshal0 := M) (SrcPtr p) = inr ErrRedisMarshalFailed.
Proof. done. Qed.
End RedisWitness.
