(* ===== verification/FileDriver.v ===== *)
(** * The JSON file driver

    grain/driver_json.go: one file per grain. The files of package os are a table with
    the errors they may answer; package encoding/json is the class [Json], with what the
    driver relies on in [JsonLaws]. There is no lease here: [Load] never refuses. *)

From S2P Require Import Prelude ActorTypes Lease.

Local Open Scope string_scope.

(** ** Files

    [fails op path] is the error, other than a missing file, of an operation. *)
Inductive fsop := FMkdir | FOpen | FCreate | FWrite.

Record disk := mkDisk { files : gmap string string; fails : fsop -> string -> option error }.

Definition set_files f d := mkDisk f (fails d).

Definition ErrNotExist : error := ErrNew "file does not exist".

Definition os_Open (path : string) (d : disk) : string + error :=
  match fails d FOpen path with
  | Some e => inr e
  | None => match files d !! path with Some s => inl s | None => inr ErrNotExist end
  end.

(** Whether [os.IsNotExist] holds of the error of [os.Open]. *)
Definition not_exist (path : string) (d : disk) : bool :=
  match fails d FOpen path with
  | Some _ => false
  | None => match files d !! path with Some _ => false | None => true end
  end.

(** [os.Create] truncates the file. *)
Definition os_Create (path : string) (d : disk) : disk + error :=
  match fails d FCreate path with
  | Some e => inr e
  | None => inl (set_files (<[path := ""]> (files d)) d)
  end.

(** A write to the file just created: what was not written stays out of it. *)
Definition file_Write (path s : string) (d : disk) : disk * option error :=
  match fails d FWrite path with
  | Some e => (d, Some e)
  | None => (set_files (<[path := s]> (files d)) d, None)
  end.

(** ** JSON

    A raw message is the text of a value, [""] the missing one. [encode_doc] is the
    indented document with the two fields [generation] and [data], whose decoding leaves
    the data field raw. *)
Definition raw := string.

Class Json (P : Type) : Type := {
  json_Marshal : P -> raw + error;
  json_Unmarshal : raw -> P -> P * option error;
  encode_doc : Z -> raw -> string;
  decode_doc : string -> (Z * raw) + error;
}.

(** Decoding gives back the generation, and data that reads as what was written; an empty
    file is not a document. [json_zero] is the zero value, the destination of a first
    read: the snapshot type is one whose JSON form is complete. *)
Class JsonLaws (P : Type) `{!Json P} : Type := {
  json_zero : P;
  valid : raw -> Prop;
  doc_roundtrip g r : valid r -> exists r', decode_doc (encode_doc g r) = inl (g, r') /\ valid r' /\
    forall p, json_Unmarshal r' p = json_Unmarshal r p;
  decode_empty : exists e, decode_doc "" = inr e;
  valid_not_empty r : valid r -> r <> "";
  valid_null : valid "null";
  valid_marshal p r : json_Marshal p = inl r -> valid r;
  unmarshal_marshal p r : json_Marshal p = inl r -> json_Unmarshal r json_zero = (p, None);
  unmarshal_null q : json_Unmarshal "null" q = (q, None);
}.

(** ** The driver *)
Record JsonDriver := mkJsonDriver { dir : string }.
Definition NewJsonDriver (dir : string) : JsonDriver := mkJsonDriver dir.

Section driver.
(** [filepath.Join] and [filepath.Dir]. *)
Context (Join : list string -> string) (Dir : string -> string).

Definition filePath (d : JsonDriver) (actorType id : string) : string := Join [dir d; actorType; id +:+ ".json"].

Definition os_MkdirAll (path : string) (w : disk) : option error := fails w FMkdir path.

Section snapshot.
Context {P : Type} `{!Json P}.

Definition invalid_dst : error := ErrNew "json: Unmarshal(nil)".

Definition Load (d : JsonDriver) (w : disk) (actorType id owner : string) (dst : option P)
    : option P * (option LeaseInfo * option error) :=
  let path := filePath d actorType id in
  match os_Open path w with
  | inr e =>
      if not_exist path w then (dst, (Some (mkLease id owner 1), Some ErrNotFound))
      else (dst, (None, Some e))
  | inl f =>
      match decode_doc f with
      | inr e => (dst, (None, Some e))
      | inl (Generation_, Data) =>
          let lease := Some (mkLease id owner (wrap64 (Generation_ + 1))) in
          if String.eqb Data "" then (dst, (lease, None))
          else match dst with
               | None => (dst, (None, Some invalid_dst))
               | Some p =>
                   let '(p', e) := json_Unmarshal Data p in
                   (Some p', match e with Some e => (None, Some e) | None => (lease, None) end)
               end
      end
  end.

Definition readData (path : string) (w : disk) : raw + error :=
  match os_Open path w with
  | inr e => inr e
  | inl f => match decode_doc f with inr e => inr e | inl (_, Data) => inl Data end
  end.

(** A raw message is encoded as it is, the missing one as null. *)
Definition raw_or_null (r : raw) : raw := if String.eqb r "" then "null" else r.

(** The value of [data any] at the end of [Save]. *)
Definition save_data (path : string) (src : option P) (w : disk) : raw + error :=
  match src with
  | Some p => json_Marshal p
  | None => match readData path w with inl r => inl (raw_or_null r) | inr _ => inl "null" end
  end.

(** The document is encoded after the file was created, that is, truncated; what the
    nil [src] keeps was read before. *)
Definition write_doc (path : string) (gen : Z) (data : raw + error) (w : disk) : disk * option error :=
  match os_Create path w with
  | inr e => (w, Some e)
  | inl w1 =>
      match data with
      | inr e => (w1, Some e)
      | inl r => file_Write path (encode_doc gen r) w1
      end
  end.

Definition Save (d : JsonDriver) (w : disk) (actorType id : string) (src : option P) (gen : Z) : disk * option error :=
  let path := filePath d actorType id in
  match os_MkdirAll (Dir path) w with
  | Some e => (w, Some e)
  | None => write_doc path gen (save_data path src w) w
  end.

Definition Release (d : JsonDriver) (w : disk) (actorType id : string) (gen : Z) : disk * option error :=
  let path := filePath d actorType id in (w, None).

Definition writeForceReleaseDoc (path : string) (gen : Z) (data : raw) (w : disk) : disk * option error :=
  write_doc path gen (inl (raw_or_null data)) w.

Definition ForceRelease (d : JsonDriver) (w : disk) (actorType id : string) : disk * (Z * option error) :=
  let path := filePath d actorType id in
  match os_MkdirAll (Dir path) w with
  | Some e => (w, (0%Z, Some e))
  | None =>
      match os_Open path w with
      | inr e =>
          if not_exist path w then
            let '(w1, err) := writeForceReleaseDoc path 1 "" w in (w1, (1%Z, err))
          else (w, (0%Z, Some e))
      | inl f =>
          match decode_doc f with
          | inr e => (w, (0%Z, Some e))
          | inl (Generation_, Data) =>
              let newGen := wrap64 (Generation_ + 1) in
              let '(w1, err) := writeForceReleaseDoc path newGen Data w in (w1, (newGen, err))
          end
      end
  end.

(** The context and the owner are ignored. *)
#[export] Instance json_driver : Driver JsonDriver disk P := {|
  driver_Load d w _ t i o dst := let '(dst', x) := Load d w t i o dst in (w, dst', Some x);
  driver_Save d w _ t i _ src gen := Save d w t i src gen;
  driver_Release d w _ t i _ gen := Release d w t i gen;
  driver_ForceRelease d w _ t i := ForceRelease d w t i;
|}.
End snapshot.
End driver.
