(* ===== verification/FileSpec.v ===== *)
(** * The JSON file driver keeps what it saved *)

From Stdlib Require Import Ascii.
From S2P Require Import Prelude ActorTypes Lease FileDriver.

Local Open Scope string_scope.

(** No operation fails. *)
Definition healthy (w : disk) : Prop := forall op path, fails w op path = None.

(** ** What may happen to a grain between a save and the next load

    Renewals (a nil snapshot), releases and forced releases, for any file driver. *)
Inductive keep := KRenew (gen : Z) | KRelease (gen : Z) | KForce.

Definition keep_gen (g : Z) (k : keep) : Z :=
  match k with KRenew g' => g' | KRelease _ => g | KForce => wrap64 (g + 1) end.

Definition keeps_gen (g : Z) (ks : list keep) : Z := fold_left keep_gen ks g.

Section keeps.
Context {Dr P : Type} `{!Driver Dr disk P} (d : Dr) (t i : string).

Definition do_keep (w : disk) (k : keep) : disk :=
  match k with
  | KRenew g => (driver_Save (P := P) d w false t i "" None g).1
  | KRelease g => (driver_Release (P := P) d w false t i "" g).1
  | KForce => (driver_ForceRelease (P := P) d w false t i).1
  end.

Definition do_keeps (ks : list keep) (w : disk) : disk := fold_left do_keep ks w.

Lemma keeps_hold (holds : Z -> disk -> Prop) :
  (forall g w k, holds g w -> holds (keep_gen g k) (do_keep w k)) ->
  forall ks g w, holds g w -> holds (keeps_gen g ks) (do_keeps ks w).
Proof. intros Hstep ks. induction ks as [|k ks IH]; intros g w H; [done|]. apply IH. by apply Hstep. Qed.
End keeps.

Section FileSpec.
Context (Join : list string -> string) (Dir : string -> string).
Context {P : Type} `{!Json P, !JsonLaws P}.
Implicit Types (w : disk) (d : JsonDriver).
Abbreviation Load := (Load Join).
Abbreviation Save := (Save Join Dir).
Abbreviation ForceRelease := (ForceRelease (P := P) Join Dir).

(** The file holds the generation [g] and data that reads as [p]. *)
Definition saved (path : string) (g : Z) (p : P) w : Prop :=
  exists s r, files w !! path = Some s /\ decode_doc s = inl (g, r) /\ valid r /\
    json_Unmarshal r json_zero = (p, None).

Lemma write_doc_ok path g r w :
  healthy w -> write_doc (P := P) path g (inl r) w =
  (set_files (<[path := encode_doc g r]> (files w)) w, None).
Proof.
  intros H. unfold write_doc, os_Create. rewrite H. unfold file_Write. simpl. rewrite H.
  unfold set_files. simpl. by rewrite insert_insert_eq.
Qed.

Lemma write_doc_saved path g r w p :
  healthy w -> valid r -> json_Unmarshal r json_zero = (p, None) ->
  let w' := (write_doc (P := P) path g (inl r) w).1 in healthy w' /\ saved path g p w'.
Proof.
  intros H Hv Hp. rewrite write_doc_ok by done. split; [done|].
  destruct (doc_roundtrip g r Hv) as (r' & Hd & Hv' & Hr). exists (encode_doc g r), r'.
  split; [apply lookup_insert_eq|]. by rewrite Hr.
Qed.

Lemma raw_or_null_valid r : valid r -> raw_or_null r = r.
Proof. intros Hv. unfold raw_or_null. destruct (String.eqb_spec r ""); [|done]. by apply valid_not_empty in Hv. Qed.

Lemma open_saved path g p w : healthy w -> saved path g p w -> exists s r,
  os_Open path w = inl s /\ decode_doc s = inl (g, r) /\ valid r /\ json_Unmarshal r json_zero = (p, None).
Proof. intros H (s & r & Hs & Hd & Hv & Hp). exists s, r. unfold os_Open. by rewrite H, Hs. Qed.

Lemma Load_saved d w t i o g p :
  healthy w -> saved (filePath Join d t i) g p w ->
  Load d w t i o (Some json_zero) = (Some p, (Some (mkLease i o (wrap64 (g + 1))), None)).
Proof.
  intros H Hs. destruct (open_saved _ _ _ _ H Hs) as (s & r & Ho & Hd & Hv & Hp).
  unfold FileDriver.Load. rewrite Ho, Hd. destruct (String.eqb_spec r ""); [by apply valid_not_empty in Hv|].
  by rewrite Hp.
Qed.

Lemma Save_saved d w t i p g r :
  healthy w -> json_Marshal p = inl r ->
  exists w', Save d w t i (Some p) g = (w', None) /\ healthy w' /\ saved (filePath Join d t i) g p w'.
Proof.
  intros H Hm. unfold FileDriver.Save, os_MkdirAll. rewrite H. unfold save_data. rewrite Hm.
  destruct (write_doc_saved (filePath Join d t i) g r w p H (valid_marshal _ _ Hm) (unmarshal_marshal _ _ Hm)) as [H1 H2].
  rewrite write_doc_ok in * by done. by eexists.
Qed.

Lemma renew_saved d w t i p g g' :
  healthy w -> saved (filePath Join d t i) g p w ->
  exists w', Save d w t i (None : option P) g' = (w', None) /\ healthy w' /\ saved (filePath Join d t i) g' p w'.
Proof.
  intros H Hs. destruct (open_saved _ _ _ _ H Hs) as (s & r & Ho & Hd & Hv & Hp).
  unfold FileDriver.Save, os_MkdirAll. rewrite H. unfold save_data, readData. rewrite Ho, Hd, raw_or_null_valid by done.
  destruct (write_doc_saved (filePath Join d t i) g' r w p H Hv Hp) as [H1 H2].
  rewrite write_doc_ok in * by done. by eexists.
Qed.

Lemma force_saved d w t i p g :
  healthy w -> saved (filePath Join d t i) g p w ->
  exists w', ForceRelease d w t i = (w', (wrap64 (g + 1), None)) /\ healthy w' /\
    saved (filePath Join d t i) (wrap64 (g + 1)) p w'.
Proof.
  intros H Hs. destruct (open_saved _ _ _ _ H Hs) as (s & r & Ho & Hd & Hv & Hp).
  unfold FileDriver.ForceRelease, os_MkdirAll. rewrite H, Ho, Hd. unfold writeForceReleaseDoc. rewrite raw_or_null_valid by done.
  destruct (write_doc_saved (filePath Join d t i) (wrap64 (g + 1)) r w p H Hv Hp) as [H1 H2].
  rewrite write_doc_ok in * by done. by eexists.
Qed.

Abbreviation do_keeps := (do_keeps (Driver0 := json_driver Join Dir)).

Lemma keeps_saved d t i ks p w g :
  healthy w -> saved (filePath Join d t i) g p w ->
  healthy (do_keeps d t i ks w) /\ saved (filePath Join d t i) (keeps_gen g ks) p (do_keeps d t i ks w).
Proof.
  intros H Hs. apply (keeps_hold d t i (fun g w => healthy w /\ saved (filePath Join d t i) g p w)); [|done].
  clear. intros g w [g'|g'|] [H Hs]; simpl; [|done|].
  - by destruct (renew_saved d w t i p g g' H Hs) as (w' & -> & ? & ?).
  - by destruct (force_saved d w t i p g H Hs) as (w' & -> & ? & ?).
Qed.

(** C24 A snapshot saved to a JSON file is read back: after [Save], and any renewals, releases
    and forced releases of the grain, [Load] succeeds, fills a zero destination with the
    snapshot and grants the generation that follows the last one written. *)
Theorem json_save_load d w t i o p g r ks :
  healthy w -> json_Marshal p = inl r ->
  exists w', Save d w t i (Some p) g = (w', None) /\
    Load d (do_keeps d t i ks w') t i o (Some json_zero) =
      (Some p, (Some (mkLease i o (wrap64 (keeps_gen g ks + 1))), None)).
Proof.
  intros H Hm. destruct (Save_saved d w t i p g r H Hm) as (w' & Hw & H' & Hs).
  exists w'. split; [done|]. destruct (keeps_saved d t i ks p w' g H' Hs) as [H1 H2].
  by apply Load_saved.
Qed.

(** A snapshot that cannot be encoded destroys the saved one: the file is truncated first,
    and no later [Load] succeeds. *)
Remark failed_save_destroys d w t i o p e g (dst : option P) :
  healthy w -> json_Marshal p = inr e ->
  exists w' e', Save d w t i (Some p) g = (w', Some e) /\ Load d w' t i o dst = (dst, (None, Some e')).
Proof.
  intros H Hm. destruct (decode_empty (P := P)) as [e' He].
  unfold FileDriver.Save, os_MkdirAll. rewrite H. unfold save_data. rewrite Hm. unfold write_doc, os_Create. rewrite H.
  eexists _, e'. split; [done|]. unfold FileDriver.Load, os_Open. simpl. by rewrite H, lookup_insert_eq, He.
Qed.

(** A renewal that cannot read the file writes the document anew, with null for the saved
    data. *)
Remark unreadable_renewal_destroys d w t i e g :
  let path := filePath Join d t i in
  fails w FOpen path = Some e -> (forall op p, op <> FOpen -> fails w op p = None) ->
  Save d w t i (None : option P) g = (set_files (<[path := encode_doc g "null"]> (files w)) w, None).
Proof.
  intros path Ho H. unfold FileDriver.Save, os_MkdirAll. rewrite H by done. unfold save_data, readData, os_Open. fold path.
  rewrite Ho. unfold write_doc, os_Create. rewrite H by done. unfold file_Write. simpl. rewrite H by done.
  unfold set_files. simpl. by rewrite insert_insert_eq.
Qed.

(** A forced release of a grain that was never saved leaves a file without data: the
    next [Load] reports a grain that was found, and changes nothing. *)
Remark forced_new_is_found d w t i o (p : P) :
  healthy w -> files w !! filePath Join d t i = None ->
  Load d (ForceRelease d w t i).1 t i o (Some p) = (Some p, (Some (mkLease i o 2), None)).
Proof.
  intros H Hn. unfold FileDriver.ForceRelease, os_MkdirAll, os_Open, not_exist. rewrite !H, Hn.
  unfold writeForceReleaseDoc. rewrite write_doc_ok by done. simpl.
  destruct (doc_roundtrip 1 "null" valid_null) as (r & Hd & Hv & Hr).
  unfold FileDriver.Load, os_Open. simpl. rewrite H, lookup_insert_eq.
  unfold raw_or_null. simpl. rewrite Hd. destruct (String.eqb_spec r ""); [by apply valid_not_empty in Hv|].
  by rewrite Hr, unmarshal_null.
Qed.
End FileSpec.

(** ** A JSON of strings *)
Module FileWitness.
Fixpoint bits (p : positive) : string :=
  match p with
  | xH => ""
  | xO p => String.String "0"%char (bits p)
  | xI p => String.String "1"%char (bits p)
  end.

Fixpoint unbits (s : string) : positive :=
  match s with
  | EmptyString => xH
  | String.String c s => if Ascii.eqb c "0"%char then xO (unbits s) else xI (unbits s)
  end.

Lemma unbits_bits p : unbits (bits p) = p.
Proof. induction p as [p IH|p IH|]; simpl; by rewrite ?IH. Qed.

#[export] Instance string_json : Json string := {|
  json_Marshal p := if String.eqb p "chan" then inr (ErrNew "json: unsupported type") else inl ("v" +:+ p);
  json_Unmarshal r q := match r with
                        | String.String c s => if Ascii.eqb c "v"%char then (s, None) else (q, None)
                        | EmptyString => (q, Some (ErrNew "unexpected end of JSON input"))
                        end;
  encode_doc g r := String.String "{"%char (bits (encode (g, r)));
  decode_doc s := match s with
                  | String.String _ s => match decode (unbits s) with
                                         | Some (g, r) => inl (g, r)
                                         | None => inr (ErrNew "invalid character")
                                         end
                  | EmptyString => inr (ErrNew "EOF")
                  end;
|}.

#[export, program] Instance string_laws : JsonLaws string := {|
  json_zero := "";
  valid r := r <> "";
|}.
Next Obligation.
  intros g r Hr. exists r. simpl. rewrite unbits_bits, decode_encode. done.
Qed.
Next Obligation. by eexists. Qed.
Next Obligation. done. Qed.
Next Obligation. done. Qed.
Next Obligation. intros p r. simpl. destruct (String.eqb p "chan"); by intros [= <-]. Qed.
Next Obligation. intros p r. simpl. destruct (String.eqb p "chan"); by intros [= <-]. Qed.
Next Obligation. done. Qed.

Definition no_disk : disk := mkDisk ∅ (fun _ _ => None).
Definition json := NewJsonDriver "data".

Lemma json_save_load_witness :
  exists w', Save (String.concat "/") id json no_disk "player" "7" (Some "hp=3") 4 = (w', None) /\
    Load (String.concat "/") json
      (do_keeps (Driver0 := json_driver (String.concat "/") id) json "player" "7" [KRenew 4; KForce; KRelease 5] w')
      "player" "7" "a" (Some "") = (Some "hp=3", (Some (mkLease "7" "a" 6), None)).
Proof.
  exact (json_save_load (String.concat "/") id json no_disk "player" "7" "a" "hp=3" 4 "vhp=3"
    [KRenew 4; KForce; KRelease 5] (fun _ _ => eq_refl) eq_refl).
Defined.
End FileWitness.
