(* ===== verification/Grain.v ===== *)
(** * Grains: actors whose state is leased and persisted

    grain/manager.go, grain/snapshot.go, grain/lifecycle.go and grain/grain_lifecycle.go.
    A grain is an actor whose state is a [State]; its OnSpawn function, its timer
    callback and its quit hook are the ones [SetupGrain] installs, so the runtime of
    Runtime runs it as an instance of [UserCode]. The driver is reached through the
    interface of Lease. *)

From S2P Require Import Prelude ActorTypes Control Registry Runtime Lease.

Local Open Scope string_scope.

(** ** Snapshots

    A pointer to a snapshot ([*P]): nil, a new object, or a pointer into the data of the
    grain, so that what is read through it or written to it is that part of the data. *)
Inductive pptr (D P : Type) :=
  | PNil
  | PNew (v : P)
  | PInto (get : D -> P) (put : P -> D -> D).
Arguments PNil {D P}.
Arguments PNew {D P} v.
Arguments PInto {D P} get put.

Definition deref {D P} (p : pptr D P) (d : D) : option P :=
  match p with PNil => None | PNew v => Some v | PInto get _ => Some (get d) end.

(** What a callee left in the object a pointer refers to. *)
Definition write_through {D P} (p : pptr D P) (v : option P) (d : D) : pptr D P * D :=
  match p, v with
  | PNew _, Some v => (PNew v, d)
  | PInto _ put, Some v => (p, put v d)
  | _, _ => (p, d)
  end.

(** [Snapshotter]: user code, which may change the world and the data. *)
Class Snapshotter (W T D P : Type) : Type := {
  NewPersist : T -> W -> D -> W * D * pptr D P;
  LoadSnapshot : T -> W -> D -> pptr D P -> W * D;
  TakeSnapshot : T -> W -> D -> W * D * pptr D P;
}.

(** [ShotSelf]: the snapshot is the data. Its pointer into the data is the data. *)
Inductive ShotSelf (D : Type) := mkShotSelf.
Arguments mkShotSelf {D}.

#[export] Instance shot_self (W D : Type) : Snapshotter W (ShotSelf D) D D := {|
  NewPersist _ w d := (w, d, PInto id (fun v _ => v));
  LoadSnapshot _ w d p := (w, match p with PNew v => v | PNil | PInto _ _ => d end);
  TakeSnapshot _ w d := (w, d, PInto id (fun v _ => v));
|}.

(** ** [PersistenceManager] *)
Record PersistenceManager (Dr : Type) := mkPM { driver : option Dr; pm_nodeId : string; persistInterval : Z }.
Arguments mkPM {Dr} _ _ _.
Arguments driver {Dr} _.
Arguments pm_nodeId {Dr} _.
Arguments persistInterval {Dr} _.

Definition PersistenceManagerOption (Dr : Type) := PersistenceManager Dr -> PersistenceManager Dr.

Section manager.
Context {Dr : Type}.
Definition WithDriver (d : option Dr) : PersistenceManagerOption Dr := fun pm => mkPM d (pm_nodeId pm) (persistInterval pm).
Definition WithNodeId (i : string) : PersistenceManagerOption Dr := fun pm => mkPM (driver pm) i (persistInterval pm).
Definition WithAutoPersistInterval (d : Z) : PersistenceManagerOption Dr := fun pm => mkPM (driver pm) (pm_nodeId pm) d.

Definition NewPersistenceManager (opts : list (PersistenceManagerOption Dr)) : PersistenceManager Dr :=
  fold_left (fun pm opt => opt pm) opts (mkPM None "" 0).

(** The methods [Driver] and [NodeId]. *)
Definition pm_Driver (pm : PersistenceManager Dr) : option Dr := driver pm.
Definition NodeId (pm : PersistenceManager Dr) : string := pm_nodeId pm.

Definition ForceRelease {W P : Type} `{!Driver Dr W P} (pm : PersistenceManager Dr) (w : W) (canceled : bool)
    (actorType id : string) : W * (Z * option error) :=
  match driver pm with
  | None => (w, (0%Z, Some ErrNoDriver))
  | Some d => driver_ForceRelease d w canceled actorType id
  end.
End manager.

(** ** [State] *)
Inductive ActivateResult := ActivateCreated | ActivateLoaded.

#[export] Instance ActivateResult_eq_dec : EqDecision ActivateResult.
Proof. solve_decision. Defined.

Record State (Dr D T : Type) := mkState {
  Data : D;
  lease : option LeaseInfo;
  pm : option (PersistenceManager Dr);
  snap : T;
}.
Arguments mkState {Dr D T} _ _ _ _.
Arguments Data {Dr D T} _.
Arguments lease {Dr D T} _.
Arguments pm {Dr D T} _.
Arguments snap {Dr D T} _.

Definition set_Data {Dr D T} (d : D) (s : State Dr D T) : State Dr D T := mkState d (lease s) (pm s) (snap s).

(** [Activated] *)
Definition Activated {Dr D T} (s : State Dr D T) : bool :=
  match pm s, lease s with Some _, Some _ => true | _, _ => false end.

(** How a call ends: a return, or a panic with a value that is an error or not. *)
Inductive ending (X : Type) := Returns (x : X) | Panics (v : option error).
Arguments Returns {X} x.
Arguments Panics {X} v.

Definition nil_deref {X} : ending X :=
  Panics (Some (ErrNew "runtime error: invalid memory address or nil pointer dereference")).

Definition as_taken (e : error) : option unit := match e with ErrLeaseTaken _ _ _ => Some tt | _ => None end.
Definition as_not_found (e : error) : option unit := match e with ErrNotFound => Some tt | _ => None end.
Definition is_taken (e : error) : bool := bool_decide (errors_as as_taken e = Some tt).
Definition is_not_found (e : error) : bool := bool_decide (errors_as as_not_found e = Some tt).

(** ** The hooks a grain has: its own, and those of the user *)
Inductive grainHook (UH : Type) := QuitHook | UserHook (h : UH).
Arguments QuitHook {UH}.
Arguments UserHook {UH} h.
Inductive grainCB (UC : Type) := AutoPersist | UserCB (c : UC).
Arguments AutoPersist {UC}.
Arguments UserCB {UC} c.

Section Grain.
Context {W I Q R : Type} `{!ActorId I} `{!Poster W I Q R}.
Context {Dr D P T UH UC : Type} `{!Driver Dr W P} `{!Snapshotter W T D P}.
Abbreviation ctx := (ActorContext I Q (grainHook UH) (grainCB UC) (State Dr D T)).
Implicit Types (w : W) (c : ctx) (b : bool).

Definition with_Data (d : D) c : ctx := SetState (set_Data d (state c)) c.
Definition actorType (c : ctx) : string := ActorType (ctx_id c).
Definition ctx_canceled (c : ctx) : bool := canceled (ctrl c).

(** [activate] *)
Definition activate (pm0 : option (PersistenceManager Dr)) (sn : T) w c : W * ctx * ending (ActivateResult * option error) :=
  match pm (state c) with
  | Some _ => (w, c, Returns (ActivateLoaded, None))
  | None =>
      let '(w1, d1, snapshot) := NewPersist sn w (Data (state c)) in
      let c1 := with_Data d1 c in
      match pm0 ≫= driver, pm0 with
      | Some dr, Some p =>
          let '(w2, v, r) := driver_Load dr w1 (ctx_canceled c) (actorType c) (String (ctx_id c)) (pm_nodeId p) (deref snapshot d1) in
          let '(snapshot, d2) := write_through snapshot v d1 in
          let c2 := with_Data d2 c1 in
          match r with
          | None => (w2, c2, Panics (Some (ErrNew "runtime error")))
          | Some (l, Some err) =>
              if is_taken err then (w2, c2, Returns (ActivateLoaded, Some err))
              else if is_not_found err then
                let c3 := SetState (mkState d2 l pm0 sn) c2 in
                match l with
                | Some _ => (w2, c3, Returns (ActivateCreated, None))
                | None => (w2, c3, nil_deref)
                end
              else (w2, c2, Returns (ActivateLoaded, Some err))
          | Some (l, None) =>
              let '(w3, d3) := LoadSnapshot sn w2 d2 snapshot in
              let c3 := SetState (mkState d3 l pm0 sn) c2 in
              match l with
              | Some _ => (w3, c3, Returns (ActivateLoaded, None))
              | None => (w3, c3, nil_deref)
              end
          end
      | _, _ => (w1, c1, nil_deref)
      end
  end.

(** [Activate] *)
Definition Activate pm0 sn w c : W * ctx * ending (ActivateResult * option error) :=
  let '(w1, c1, r) := activate pm0 sn w c in
  match r with
  | Returns (res, None) => (w1, ctx_Open c1, r)
  | _ => (w1, c1, r)
  end.

(** [persist], with the context of the caller. *)
Definition persist (canceled : bool) w c : W * ctx * ending (option error) :=
  match pm (state c) with
  | None => (w, c, Panics None)
  | Some p =>
      match lease (state c) with
      | None => (w, c, nil_deref)
      | Some l =>
          let '(w1, d1, snapshot) := TakeSnapshot (snap (state c)) w (Data (state c)) in
          let c1 := with_Data d1 c in
          match driver p with
          | None => (w1, c1, nil_deref)
          | Some dr =>
              let '(w2, err) := driver_Save dr w1 canceled (actorType c) (String (ctx_id c)) (pm_nodeId p)
                                  (deref snapshot d1) (Generation l) in
              (w2, c1, Returns err)
          end
      end
  end.

Definition Persist w c : W * ctx * ending (option error) := persist (ctx_canceled c) w c.

(** [release]: an error is only logged. *)
Definition release (canceled : bool) w c : W * ending unit :=
  match lease (state c) with
  | None => (w, Returns tt)
  | Some l =>
      match pm (state c) ≫= driver, pm (state c) with
      | Some dr, Some p =>
          ((driver_Release dr w canceled (actorType c) (String (ctx_id c)) (pm_nodeId p) (Generation l)).1, Returns tt)
      | _, _ => (w, nil_deref)
      end
  end.

(** [Deactivate]: the save is the one of [persist], whose error is logged. *)
Definition Deactivate w c : W * ctx * ending unit :=
  let '(w1, c1, r) := persist (ctx_canceled c) w c in
  match r with
  | Panics v => (w1, c1, Panics v)
  | Returns _ =>
      let '(w2, r2) := release (ctx_canceled c) w1 c1 in
      match r2 with
      | Panics v => (w2, c1, Panics v)
      | Returns _ => (w2, ctx_Quit c1, Returns tt)
      end
  end.

(** ** [SetupGrain] *)

(** The closure of [SetOnSpawn] captures the three arguments; [UA] are the user's
    activation callbacks. *)
Context {UA : Type}.
Class ActivateCode : Type :=
  run_onActivate : UA -> W -> ctx -> bool -> W * ctx * spawn_end.
Context `{!ActivateCode}.

Record GrainSetup := mkSetup { su_pm : option (PersistenceManager Dr); su_snap : T; su_onActivate : option UA }.

Definition SetupGrain {T0 F} (b : RegistryBuilder T0 F GrainSetup) pm0 sn onActivate : RegistryBuilder T0 F GrainSetup :=
  SetOnSpawn (Some (mkSetup pm0 sn onActivate)) b.

(** The rest of the closure, once activated: timer and quit hook. *)
Definition arm (pm0 : option (PersistenceManager Dr)) c : ctx :=
  let c1 := match pm0 with
            | Some p => if (0 <? persistInterval p)%Z
                        then (ctx_Timer "grain_auto_persist" (FnUser AutoPersist) c).1 else c
            | None => c
            end in
  set_ctrl (PushOnQuit (Some QuitHook) (ctrl c1)) c1.

Definition on_spawn (s : GrainSetup) w c : W * ctx * spawn_end :=
  let '(w1, c1, r) := Activate (su_pm s) (su_snap s) w c in
  match r with
  | Panics v => (w1, c1, SPanic v)
  | Returns (created, Some err) => (w1, c1, SReturn (Some err))
  | Returns (created, None) =>
      match su_onActivate s with
      | None => (w1, arm (su_pm s) c1, SReturn None)
      | Some f =>
          let '(w2, c2, e) := run_onActivate f w1 c1 (bool_decide (created = ActivateCreated)) in
          match e with
          | SReturn None => (w2, arm (su_pm s) c2, SReturn None)
          | _ => (w2, c2, e)
          end
      end
  end.

(** The timer callback: an error is logged; the flag is a panic. *)
Definition auto_persist w c : W * ctx * bool :=
  let '(w1, c1, r) := Persist w c in
  (w1, c1, match r with Returns _ => false | Panics _ => true end).

(** The quit hook, with a context that is not cancelled. *)
Definition quit_hook w c : W * ctx * bool :=
  let '(w1, c1, r) := persist false w c in
  match r with
  | Panics _ => (w1, c1, true)
  | Returns _ =>
      let '(w2, r2) := release false w1 c1 in
      (w2, c1, match r2 with Returns _ => false | Panics _ => true end)
  end.

(** ** A grain as user code of the runtime: handlers, user hooks and user callbacks
    are the program's. *)
Class GrainUser (U F : Type) : Type := {
  user_handler : F -> W -> ctx -> request U -> bool -> W * ctx * handler_end R;
  user_hook : UH -> W -> ctx -> W * ctx * bool;
  user_callback : UC -> W -> ctx -> W * ctx * bool;
  user_close : R -> W -> W;
  zero_data : D;
  zero_snap : T;
}.

#[export] Instance grain_code {U F} `{!GrainUser U F} :
    UserCode W I Q (grainHook UH) (grainCB UC) (State Dr D T) U R F GrainSetup := {|
  run_handler := user_handler;
  run_spawn := on_spawn;
  run_hook h := match h with QuitHook => quit_hook | UserHook h => user_hook h end;
  run_callback cb := match cb with AutoPersist => auto_persist | UserCB cb => user_callback cb end;
  run_close := user_close;
  zero_state := mkState zero_data None None zero_snap;
|}.

(** [ControlState] and [CIS] of the package: handlers on control, identifier and data. *)
Definition ControlState c := (ctrl c, ctx_id c, Data (state c)).

Definition CIS {RQ : Type}
    (cis : W -> ActorControl I Q (grainHook UH) (grainCB UC) -> I -> D -> RQ -> bool ->
           W * (ActorControl I Q (grainHook UH) (grainCB UC) * D) * handler_end R)
    : W -> ctx -> RQ -> bool -> W * ctx * handler_end R :=
  fun w a req spawning =>
    let '(c, i, s) := ControlState a in
    let '(w', (c', s'), e) := cis w c i s req spawning in
    (w', mkContext i c' (set_Data s' (state a)), e).
End Grain.
