(* ===== verification/GrainSpec.v ===== *)
(** * Grains are activated under a lease, saved when they quit, and fenced *)

From S2P Require Import Prelude ActorTypes Control ControlProps Registry Runtime Lease RedisDriver RedisSpec Grain.

Local Open Scope string_scope.

(** ** The quit hooks and the end of a context *)
Section hooks.
Context {W I Q R : Type} `{!ActorId I} `{!Poster W I Q R} {Hook CB : Type}.
Implicit Types (a : ActorControl I Q Hook CB) (w : W).

Lemma stopPostponeFlush_OnQuit a : OnQuit (stopPostponeFlush a) = OnQuit a.
Proof. unfold stopPostponeFlush, StopTimer. destruct (_ =? _)%Z; [done|]. by destruct (timers a !! _). Qed.

Lemma poseponePost_OnQuit w a : OnQuit (poseponePost w a).2 = OnQuit a.
Proof.
  unfold poseponePost. destruct (postpone a) as [|x l]; [done|].
  destruct (retry_items_frame w (set_postpone [] (postponeSet a) a) (x :: l)) as [n Hn].
  destruct (retry_items _ _ _) as [[w1 a1] kept]. simpl in Hn. subst a1.
  destruct kept; simpl; [by rewrite stopPostponeFlush_OnQuit|done].
Qed.

Lemma stop_all_timers_OnQuit a : OnQuit (stop_all_timers a) = OnQuit a.
Proof. unfold stop_all_timers. simpl. by induction (_ <$> map_to_list (timers a)) as [|t l IH]. Qed.

Lemma clear_OnQuit w a : OnQuit (clear w a).1.2 = OnQuit a.
Proof.
  unfold clear, flushPostpone. pose proof (stopPostponeFlush_OnQuit a) as H.
  destruct (postpone (stopPostponeFlush a)) as [|x l]; [cbn [fst snd]; unfold set_canceled; cbn [OnQuit]; by rewrite stop_all_timers_OnQuit|].
  pose proof (poseponePost_OnQuit w (stopPostponeFlush a)) as H1.
  destruct (poseponePost w (stopPostponeFlush a)) as [w1 a1]. cbn [fst snd] in *.
  unfold set_canceled. cbn [OnQuit]. rewrite stop_all_timers_OnQuit. cbn [set_postpone OnQuit]. congruence.
Qed.

(** A context in which nothing happened yet ends without effect. *)
Lemma clear_new w nm f : (clear w (set_from f (new_control (I := I) (Q := Q) (Hook := Hook) (CB := CB) nm))).1.1 = w.
Proof. done. Qed.
End hooks.

Section GrainSpec.
Context {W I Q R : Type} `{!ActorId I} `{!Poster W I Q R}.
Context {Dr D P T UH UC UA : Type} `{!Driver Dr W P} `{!Snapshotter W T D P}.
Context `{ACode : !ActivateCode (W := W) (I := I) (Q := Q) (Dr := Dr) (D := D) (T := T) (UH := UH) (UC := UC) (UA := UA)}.
Context {TT U F : Type} `{!Requests TT U I}.
Context `{GUser : !GrainUser (W := W) (I := I) (Q := Q) (R := R) (Dr := Dr) (D := D) (T := T) (UH := UH) (UC := UC) U F}.
Abbreviation ctx := (ActorContext I Q (grainHook UH) (grainCB UC) (State Dr D T)).
Abbreviation msg := (invokable TT U F (grainCB UC)).
Abbreviation setup := (GrainSetup (Dr := Dr) (T := T) (UA := UA)).
Implicit Types (w : W) (c : ctx).

(** The lease of an activated grain: its driver, its node and the lease. *)
Definition leased c (dr : Dr) (node : string) (l : LeaseInfo) : Prop :=
  exists p, pm (state c) = Some p /\ driver p = Some dr /\ pm_nodeId p = node /\ lease (state c) = Some l.

(** ** What the operations of an activated grain do *)
Lemma persist_leased canceled w c dr node l :
  leased c dr node l ->
  let '(w1, d1, s) := TakeSnapshot (snap (state c)) w (Data (state c)) in
  let r := driver_Save dr w1 canceled (ActorType (ctx_id c)) (String (ctx_id c)) node (deref s d1) (Generation l) in
  persist canceled w c = (r.1, with_Data d1 c, Returns r.2) /\ leased (with_Data d1 c) dr node l.
Proof.
  intros (p & Hp & Hd & Hn & Hl). unfold persist. rewrite Hp, Hl.
  destruct (TakeSnapshot _ _ _) as [[w1 d1] s]. rewrite Hd, Hn. unfold actorType.
  destruct (driver_Save _ _ _ _ _ _ _ _) as [w2 err]. split; [done|]. by exists p.
Qed.

Lemma release_leased canceled w c dr node l :
  leased c dr node l ->
  release canceled w c =
  ((driver_Release dr w canceled (ActorType (ctx_id c)) (String (ctx_id c)) node (Generation l)).1, Returns tt).
Proof. intros (p & Hp & Hd & Hn & Hl). unfold release. rewrite Hl, Hp. simpl. by rewrite Hd, Hn. Qed.

(** The world a save and a release leave. *)
Definition saved_released (dr : Dr) (node : string) (l : LeaseInfo) (canceled : bool) (i : I) w (src : option P) : W :=
  let w1 := (driver_Save dr w canceled (ActorType i) (String i) node src (Generation l)).1 in
  (driver_Release dr w1 canceled (ActorType i) (String i) node (Generation l)).1.

Lemma quit_hook_leased w c dr node l :
  leased c dr node l ->
  let '(w1, d1, s) := TakeSnapshot (snap (state c)) w (Data (state c)) in
  quit_hook w c = (saved_released dr node l false (ctx_id c) w1 (deref s d1), with_Data d1 c, false).
Proof.
  intros Hl. pose proof (persist_leased false w c dr node l Hl) as Hp.
  destruct (TakeSnapshot _ _ _) as [[w1 d1] s]. destruct Hp as [Hp Hl1].
  unfold quit_hook. rewrite Hp. by rewrite (release_leased _ _ _ _ _ _ Hl1).
Qed.

Lemma Deactivate_leased w c dr node l :
  leased c dr node l ->
  let '(w1, d1, s) := TakeSnapshot (snap (state c)) w (Data (state c)) in
  Deactivate w c = (saved_released dr node l (canceled (ctrl c)) (ctx_id c) w1 (deref s d1),
                    ctx_Quit (with_Data d1 c), Returns tt).
Proof.
  intros Hl. pose proof (persist_leased (canceled (ctrl c)) w c dr node l Hl) as Hp.
  destruct (TakeSnapshot _ _ _) as [[w1 d1] s]. destruct Hp as [Hp Hl1].
  unfold Deactivate, ctx_canceled. rewrite Hp. by rewrite (release_leased _ _ _ _ _ _ Hl1).
Qed.

(** ** Activation *)

(** The user hooks in front of the one of the grain, run without a panic. *)
Fixpoint pass_hooks (hs : list UH) w c : option (W * ctx) :=
  match hs with
  | [] => Some (w, c)
  | h :: hs => let '(w1, c1, p) := user_hook h w c in if p then None else pass_hooks hs w1 c1
  end.

Lemma run_hooks_pass hs hs' w c w1 c1 :
  pass_hooks hs w c = Some (w1, c1) ->
  run_hooks ((UserHook <$> hs) ++ hs')%list w c = run_hooks hs' w1 c1.
Proof.
  revert w c. induction hs as [|h hs IH]; intros w c; simpl; [by intros [= <- <-]|].
  destruct (user_hook h w c) as [[w2 c2] p]. destruct p; [done|]. apply IH.
Qed.

Lemma ctx_clear_hooks w c h hs :
  OnQuit (ctrl c) = h :: hs ->
  ctx_clear w c = let '(w1, a1, _) := clear w (ctrl c) in
    (run_hooks (h :: hs) w1 (set_ctrl (invokeLogger (MakeFrom (ctx_id c) "OnQuit") a1) c)).1.
Proof.
  intros Hq. unfold ctx_clear. pose proof (clear_OnQuit w (ctrl c)) as H.
  destruct (clear w (ctrl c)) as [[w1 a1] dropped]. simpl in H. rewrite H, Hq. done.
Qed.

(** C22 A grain that quits is saved and its lease released: when the context of a grain ends,
    whatever ended it, the last thing that happens (after the postponed messages were tried
    and the user's newer quit hooks ran without a panic) is one [Save] of the snapshot taken
    of the current data, with the lease of the grain and a context that is not cancelled,
    and then the [Release] of that lease. *)
Theorem grain_quit_persists w c (hs : list UH) w1 a1 dropped w2 c2 dr node l :
  OnQuit (ctrl c) = ((UserHook <$> hs) ++ [QuitHook])%list ->
  clear w (ctrl c) = (w1, a1, dropped) ->
  pass_hooks hs w1 (set_ctrl (invokeLogger (MakeFrom (ctx_id c) "OnQuit") a1) c) = Some (w2, c2) ->
  leased c2 dr node l ->
  let '(w3, d, s) := TakeSnapshot (snap (state c2)) w2 (Data (state c2)) in
  ctx_clear w c = saved_released dr node l false (ctx_id c2) w3 (deref s d).
Proof.
  intros Hq Hc Hp Hl. pose proof (quit_hook_leased w2 c2 dr node l Hl) as Hh.
  destruct (TakeSnapshot _ _ _) as [[w3 d] s].
  assert (exists h0 hs0, ((UserHook <$> hs) ++ [QuitHook])%list = h0 :: hs0) as (h0 & hs0 & E) by (destruct hs; eauto).
  rewrite E in Hq. rewrite (ctx_clear_hooks _ _ _ _ Hq), Hc, <- E, (run_hooks_pass _ _ _ _ _ _ Hp).
  simpl. by rewrite Hh.
Qed.

(** The auto-persist timer fires once: its callback does not start it again. *)
Remark auto_persist_once w c : ctrl (auto_persist w c).1.2 = ctrl c.
Proof.
  unfold auto_persist, Persist, persist. destruct (pm (state c)) as [p|]; [|done].
  destruct (lease (state c)) as [l|]; [|done]. destruct (TakeSnapshot _ _ _) as [[w1 d1] s].
  destruct (driver p) as [dr|]; [|done]. by destruct (driver_Save _ _ _ _ _ _ _ _).
Qed.

(** The context in which the first message of a grain finds it, and what activation makes
    of it when the lease is granted. *)
Definition fresh (id : I) : ctx := newActorContext zero_state id.

Lemma fresh_fields id : pm (state (fresh id)) = None /\ Data (state (fresh id)) = zero_data /\
  ctx_id (fresh id) = id /\ canceled (ctrl (fresh id)) = false /\ ctrl (fresh id) = new_control (actorNameOf id).
Proof. done. Qed.

Definition active_with (su : setup) (p : PersistenceManager Dr) (l : LeaseInfo) (d : D) c : Prop :=
  active (ctrl c) = true /\ state c = mkState d (Some l) (Some p) (su_snap su) /\ OnQuit (ctrl c) = [QuitHook] /\
  (exists t, gotimers (ctrl c) = if (0 <? persistInterval p)%Z then {[t := mkStub (FnUser AutoPersist) 1 t]} else ∅).

Lemma arm_active (su : setup) p l d c :
  active (ctrl c) = true -> state c = mkState d (Some l) (Some p) (su_snap su) ->
  OnQuit (ctrl c) = [] -> gotimers (ctrl c) = ∅ -> timers (ctrl c) = ∅ -> timerId (ctrl c) = 0%Z ->
  active_with su p l d (arm (Some p) c).
Proof.
  intros Ha Hs Hq Hg Ht Hi. unfold arm, active_with.
  destruct (0 <? persistInterval p)%Z; simpl; [|rewrite Hq; do 3 (split; [done|]); by exists 0].
  rewrite Ht, Hi, Hq, Hg, lookup_empty. do 3 (split; [done|]). by exists (next_timer (ctrl c)).
Qed.

(** What [activate] does in a context that is not activated, when the manager and its
    driver are there; [r] is the answer of the driver, [d2] the data behind the snapshot. *)
Definition activated (su : setup) w2 (d1 d2 : D) (ptr' : pptr D P) (r : option (option LeaseInfo * option error)) c
    : W * ctx * ending (ActivateResult * option error) :=
  let c2 := with_Data d2 (with_Data d1 c) in
  match r with
  | None => (w2, c2, Panics (Some (ErrNew "runtime error")))
  | Some (l, Some err) =>
      if is_taken err then (w2, c2, Returns (ActivateLoaded, Some err))
      else if is_not_found err then
        let c3 := SetState (mkState d2 l (su_pm su) (su_snap su)) c2 in
        match l with
        | Some _ => (w2, c3, Returns (ActivateCreated, None))
        | None => (w2, c3, nil_deref)
        end
      else (w2, c2, Returns (ActivateLoaded, Some err))
  | Some (l, None) =>
      let '(w3, d3) := LoadSnapshot (su_snap su) w2 d2 ptr' in
      let c3 := SetState (mkState d3 l (su_pm su) (su_snap su)) c2 in
      match l with
      | Some _ => (w3, c3, Returns (ActivateLoaded, None))
      | None => (w3, c3, nil_deref)
      end
  end.

Lemma activate_eq id (su : setup) w c p dr w1 d1 ptr w2 v r ptr' d2 :
  su_pm su = Some p -> driver p = Some dr ->
  ctx_id c = id -> pm (state c) = None -> Data (state c) = zero_data -> canceled (ctrl c) = false ->
  NewPersist (su_snap su) w zero_data = (w1, d1, ptr) ->
  driver_Load dr w1 false (ActorType id) (String id) (pm_nodeId p) (deref ptr d1) = (w2, v, r) ->
  write_through ptr v d1 = (ptr', d2) ->
  activate (su_pm su) (su_snap su) w c = activated su w2 d1 d2 ptr' r c.
Proof.
  intros Hp Hd Hi Hs HD Hc EN EL EW. unfold activate, activated, actorType, ctx_canceled.
  rewrite Hs, HD, EN, Hi, Hc, Hp. simpl. by rewrite Hd, EL, EW.
Qed.

(** The context OnSpawn is run in. *)
Abbreviation at_spawn id := (set_ctrl (invokeLogger (MakeFrom id "OnSpawn") (ctrl (fresh id))) (fresh id)).

Lemma spawn_granted id (su : setup) (b : bstate W R) p l d d1 d2 w3 res :
  su_pm su = Some p -> su_onActivate su = None ->
  activate (su_pm su) (su_snap su) (bw b) (at_spawn id)
  = (w3, SetState (mkState d (Some l) (su_pm su) (su_snap su)) (with_Data d2 (with_Data d1 (at_spawn id))), Returns (res, None)) ->
  exists c, do_spawn id (Some su) b (fresh id) = (set_bw w3 b, SpawnOk c) /\ active_with su p l d c.
Proof.
  intros Hp Hu Ha. unfold do_spawn. cbv beta zeta delta [run_spawn grain_code]. unfold on_spawn, Activate. rewrite Ha, Hu.
  eexists. split; [done|]. rewrite Hp. by apply arm_active.
Qed.

Lemma spawn_refused id (su : setup) (m : msg) (b : bstate W R) d1 d2 w2 err :
  allowed m true = true ->
  activate (su_pm su) (su_snap su) (bw b) (at_spawn id)
  = (w2, with_Data d2 (with_Data d1 (at_spawn id)), Returns (ActivateLoaded, Some err)) ->
  batch_body id (Some su) m b None = (do! b2 := Fail_ m err (set_bw w2 b) in Go (b2, MsgDone None))%go.
Proof.
  intros Hm Ha.
  assert (exists c, do_spawn id (Some su) b (fresh id) = (set_bw w2 b, SpawnErr c err) /\
                    bclear (set_bw w2 b) c = set_bw w2 b) as (c & Hs & Hc).
  { unfold do_spawn. cbv beta zeta delta [run_spawn grain_code]. unfold on_spawn, Activate. rewrite Ha. by eexists. }
  unfold batch_body. rewrite Hm. fold (fresh id). by rewrite Hs, Hc.
Qed.


End GrainSpec.

(** ** Fencing of grains *)
Section fencing.
Context {W I Q R : Type} `{!ActorId I} `{!Poster W I Q R}.
Context {Dr D P T UH UC B : Type} {nodata : B} `{!Driver Dr W P} `{!LeaseLaws Dr W P B nodata} `{!Snapshotter W T D P}.
Abbreviation ctx := (ActorContext I Q (grainHook UH) (grainCB UC) (State Dr D T)).
Implicit Types (w : W) (c : ctx).

Definition grain_cell c (dr : Dr) w : option (lcell B) := dr_cell dr w (ActorType (ctx_id c)) (String (ctx_id c)).
Definition grain_ok c (dr : Dr) w : Prop := dr_ok dr w (ActorType (ctx_id c)) (String (ctx_id c)).

(** Taking a snapshot does not touch the store. *)
Definition quiet_snapshots c (dr : Dr) : Prop := forall w d,
  let w1 := (TakeSnapshot (snap (state c)) w d).1.1 in
  grain_cell c dr w1 = grain_cell c dr w /\ (grain_ok c dr w -> grain_ok c dr w1).

(** A save and a release with a lease that is not the one in the store. *)
Lemma stale_save_release b c dr node l w (src : option P) :
  good_owner node -> grain_ok c dr w -> ~ holder_is node (Generation l) (grain_cell c dr w) ->
  (let r := driver_Save dr w b (ActorType (ctx_id c)) (String (ctx_id c)) node src (Generation l) in
   grain_cell c dr r.1 = grain_cell c dr w /\ r.2 <> None) /\
  grain_cell c dr (saved_released dr node l b (ctx_id c) w src) = grain_cell c dr w.
Proof.
  intros Hn Hok Hh. unfold saved_released, grain_cell, grain_ok in *. simpl.
  destruct (driver_Save _ _ _ _ _ _ _ _) as [w1 x] eqn:E1. simpl.
  destruct (Save_law _ _ _ _ _ _ _ _ Hok Hn _ _ E1) as (Hok1 & r & Hst & Ha).
  apply save_unheld in Hst as [Hc Hr]; [|done]. rewrite Hc. split.
  - split; [done|]. by destruct r.
  - destruct (driver_Release _ _ _ _ _ _ _) as [w2 x2] eqn:E2. simpl.
    destruct (Release_law _ _ _ _ _ _ _ Hok1 Hn _ _ E2) as (Hok2 & r2 & Hst2 & _).
    rewrite Hc in Hst2. by apply release_unheld in Hst2 as [-> _].
Qed.

(** C19 A grain that lost its lease writes nothing: when the store says that the lease of an
    active grain is another's (granted to another node, released, forced or expired), then
    [Persist] (so also the auto-persist timer) answers an error, and neither it nor
    [Deactivate] nor the quit hook changes the owner, the generation or the data in the store. *)
Theorem stale_grain_writes_nothing b c (dr : Dr) node l w :
  leased c dr node l -> good_owner node -> grain_ok c dr w -> quiet_snapshots c dr ->
  ~ holder_is node (Generation l) (grain_cell c dr w) ->
  (exists w1 c1 e, persist b w c = (w1, c1, Returns (Some e)) /\ grain_cell c dr w1 = grain_cell c dr w) /\
  grain_cell c dr (Deactivate w c).1.1 = grain_cell c dr w /\
  grain_cell c dr (quit_hook w c).1.1 = grain_cell c dr w.
Proof.
  intros Hl Hn Hok Hq Hh.
  pose proof (persist_leased b w c dr node l Hl) as Hp. pose proof (Deactivate_leased w c dr node l Hl) as Hd.
  pose proof (quit_hook_leased w c dr node l Hl) as Hk. destruct (Hq w (Data (state c))) as [Hq1 Hq2].
  destruct (TakeSnapshot _ _ _) as [[w1 d1] s]. simpl in Hq1, Hq2.
  assert (~ holder_is node (Generation l) (grain_cell c dr w1)) as Hh1 by (by rewrite Hq1).
  rewrite Hd, Hk. cbn [fst]. destruct Hp as [-> _].
  destruct (stale_save_release b c dr node l w1 (deref s d1) Hn (Hq2 Hok) Hh1) as [[H1 H2] _].
  split; [|split].
  - destruct (driver_Save _ _ _ _ _ _ _ _) as [w2 [e|]]; [|done]. eexists _, _, e. split; [done|]. simpl in *. congruence.
  - destruct (stale_save_release (canceled (ctrl c)) c dr node l w1 (deref s d1) Hn (Hq2 Hok) Hh1) as [_ H]. congruence.
  - destruct (stale_save_release false c dr node l w1 (deref s d1) Hn (Hq2 Hok) Hh1) as [_ H]. congruence.
Qed.
End fencing.

(** ** Players on the Redis of RedisSpec: identifier 7 is the grain of its witness, the
    data is a string, the handler writes a new one, the activation callback fails. *)
Module GrainWitness.
Import RedisWitness.

#[export] Instance player_id : ActorId nat :=
  {| ActorType := fun _ => "player"; String := fun n => pretty (Z.of_nat n); zero_id := 0 |}.

#[export] Instance silent : Poster table nat unit unit := {|
  fpost := fun w _ _ _ => (w, None);
  fcall := fun w _ _ _ => (w, (None, None));
  fmulticast := fun w _ ids _ => (w, ((fun i => mkIdErr i None) <$> ids, None));
  fbroadcast := fun w _ _ => (w, (0, None));
  wsleep := fun w _ => w;
|}.

#[export] Instance one_request : Requests unit unit nat :=
  {| user_type := id; user_ReqType := fun _ => "Hit"; user_id0 := fun _ => 0 |}.

Abbreviation player := (ActorContext nat unit (grainHook unit) (grainCB unit) (State RedisDriver string (ShotSelf string))).

#[export] Instance failing : ActivateCode (W := table) (I := nat) (Q := unit) (Dr := RedisDriver) (D := string)
    (T := ShotSelf string) (UH := unit) (UC := unit) (UA := unit) :=
  fun _ w c _ => (w, c, SReturn (Some (ErrNew "bad data"))).

#[export] Instance player_code : GrainUser (W := table) (I := nat) (Q := unit) (R := unit) (Dr := RedisDriver)
    (D := string) (T := ShotSelf string) (UH := unit) (UC := unit) unit unit := {|
  user_handler _ w c _ _ := (w, with_Data "hp=3" c, HReturn (Some tt) None);
  user_hook _ w c := (w, c, false);
  user_callback _ w c := (w, c, false);
  user_close _ w := w;
  zero_data := "";
  zero_snap := mkShotSelf;
|}.

Definition manager (node : string) (interval : Z) : PersistenceManager RedisDriver :=
  NewPersistenceManager [WithDriver (Some drv); WithNodeId node; WithAutoPersistInterval interval].
Definition su (node : string) (f : option unit) : GrainSetup (Dr := RedisDriver) (T := ShotSelf string) :=
  mkSetup (Some (manager node 30)) mkShotSelf f.
Definition hit : invokable unit unit unit (grainCB unit) :=
  MInvoke (mkInvoke (mkFrom "x" "x") (mkEntry (TUser tt) "Hit" true true tt) (UserReq tt) None false).
Definition world (w : table) : bstate table unit := mkB w 0 ∅.

(** The grain of node a, active with generation 2. *)
Definition lease2 := mkLease "7" "a" 2.
Definition c7 (d : string) : player :=
  mkContext 7 (new_control "player.7") (mkState d (Some lease2) (Some (manager "a" 30)) mkShotSelf).
(** The store after node b took the lease: forced by the cluster, loaded again. *)
Definition taken : table :=
  (Load drv (RedisDriver.ForceRelease drv granted false "player" "7").1 false "player" "7" "b" (Some "")).1.1.

Lemma granted_ok : redis_ok drv granted "player" "7".
Proof.
  destruct (Load drv freed false "player" "7" "a" (Some "")) as [[w' d'] x] eqn:E.
  unfold granted. rewrite E. by eapply (Load_refines drv freed false "player" "7" "a" (Some "") freed_ok).
Qed.

Lemma taken_ok : redis_ok drv taken "player" "7".
Proof.
  unfold taken. destruct (RedisDriver.ForceRelease drv granted false "player" "7") as [w1 x1] eqn:E1.
  destruct (ForceRelease_refines _ _ _ _ _ granted_ok _ _ E1) as [H1 _]. cbn [fst].
  destruct (Load drv w1 false "player" "7" "b" (Some "")) as [[w' d'] x] eqn:E.
  by eapply (Load_refines drv w1 false "player" "7" "b" (Some "") H1).
Qed.

Lemma taken_cell : redis_cell drv taken "player" "7" = Some (mkCell "b" 4 "" true).
Proof. vm_cast_no_check (@eq_refl (option (lcell string)) (Some (mkCell "b" 4 "" true))). Qed.

Lemma stale_grain_writes_nothing_witness :
  exists w1 c1 e, persist false taken (c7 "hp=1") = (w1, c1, Returns (Some e)) /\
    redis_cell drv w1 "player" "7" = redis_cell drv taken "player" "7".
Proof.
  pose proof (stale_grain_writes_nothing (UH := unit) (UC := unit) (LeaseLaws0 := redis_leases) false (c7 "hp=1") drv "a" lease2 taken) as H.
  destruct H as [H _].
  - by exists (manager "a" 30).
  - done.
  - exact taken_ok.
  - intros w d. split; [done|]. by intros Hok.
  - intros (x & Hx & Ho & Hg). change (redis_cell drv taken "player" "7" = Some x) in Hx.
    rewrite taken_cell in Hx. injection Hx as <-. simpl in Ho. discriminate Ho.
  - exact H.
Defined.
(** The same grain with its hook pushed, whose data was changed by a handler. *)
Definition c7q : player := set_ctrl (PushOnQuit (Some QuitHook) (new_control "player.7")) (c7 "hp=3").

Lemma grain_quit_persists_witness :
  redis_cell drv (ctx_clear (R := unit) (U := unit) (F := unit) (SF := GrainSetup) granted c7q) "player" "7"
  = Some (mkCell "" 2 "hp=3" true).
Proof.
  pose proof (grain_quit_persists (R := unit) granted c7q [] granted _ [] granted
    (set_ctrl (invokeLogger (MakeFrom 7 "OnQuit") (clear (I := nat) (Q := unit) (R := unit) granted (ctrl c7q)).1.2) c7q)
    drv "a" lease2 eq_refl eq_refl eq_refl) as H.
  specialize (H (ex_intro _ (manager "a" 30) (conj eq_refl (conj eq_refl (conj eq_refl eq_refl))))).
  refine (eq_trans (f_equal (fun w => redis_cell drv w "player" "7") H) _).
  vm_cast_no_check (@eq_refl (option (lcell string)) (Some (mkCell "" 2 "hp=3" true))).
Defined.


(** ** What the lifecycle does not do *)

(** When the user's activation callback fails, the spawn fails, and the lease that was just
    granted is not released: the quit hook is only pushed afterwards. *)
Remark failed_onActivate_keeps_lease :
  match batch_body 7 (Some (su "a" (Some tt))) hit (world freed) None with
  | Go (b, MsgDone None) => Some (redis_cell drv (bw b) "player" "7")
  | _ => None
  end = Some (Some (mkCell "a" 2 "" true)).
Proof. vm_cast_no_check (@eq_refl (option (option (lcell string))) (Some (Some (mkCell "a" 2 "" true)))). Qed.
End GrainWitness.
