(* ===== verification/MongoDriver.v ===== *)
(** * The MongoDB driver

    grain/driver_mongo.go. MongoDB is a service: its four operations are a class, and
    [MongoLaws] says that they have the documented effect, given here by the functions on a
    database of documents (query conditions, update operators and aggregation expressions,
    as far as the driver uses them). Dates are milliseconds, as BSON keeps them. *)

From Stdlib Require Import Ascii.
From S2P Require Import Prelude ActorTypes Lease.

Local Open Scope string_scope.

(** ** Documents *)
Section documents.
Context {B : Type}.

(** A BSON value: what the driver stores; [VObj] stands for any other sub-document. *)
Inductive value := VStr (s : string) | VInt (z : Z) | VDate (ms : Z) | VBool (b : bool) | VSnap (b : B) | VObj.

Abbreviation doc := (gmap string value).

(** ** Query conditions: equality and [$lt] on a field, and [$or] of equalities *)
#[warnings="-register-all"]
Inductive cond :=
  | CEqStr (f : string) (s : string)
  | CEqInt (f : string) (z : Z)
  | CLtDate (f : string) (ms : Z)
  | COr (l : list cond).

(** A comparison only holds for a field of the type compared with. *)
Fixpoint meets (d : doc) (c : cond) : bool :=
  match c with
  | CEqStr f s => match d !! f with Some (VStr s') => String.eqb s' s | _ => false end
  | CEqInt f z => match d !! f with Some (VInt z') => (z' =? z)%Z | _ => false end
  | CLtDate f ms => match d !! f with Some (VDate t) => (t <? ms)%Z | _ => false end
  | COr l => existsb (meets d) l
  end.

(** A filter is on [_id] and further conditions. *)
Record filter := mkFilter { f_id : string; f_conds : list cond }.

(** ** Aggregation expressions

    A string that begins with a dollar sign is the path of a field; an object that is not an
    operator is a literal; the value of a missing field is [None]. *)
#[warnings="-register-all"]
Inductive expr :=
  | EStr (s : string)
  | EInt (z : Z)
  | EDate (ms : Z)
  | EObject (l : list (string * expr))
  | EOr (l : list expr)
  | ENe (x y : expr)
  | ELt (x y : expr)
  | EAdd (x y : expr)
  | EIfNull (x y : expr)
  | ECond (i t e : expr).

(** The order of the types in comparisons. *)
Definition type_rank (v : option value) : Z :=
  match v with
  | None => 0 | Some (VInt _) => 1 | Some (VStr _) => 2 | Some (VSnap _) | Some VObj => 3
  | Some (VBool _) => 4 | Some (VDate _) => 5
  end%Z.

Definition value_lt (x y : option value) : bool :=
  if (type_rank x =? type_rank y)%Z then
    match x, y with
    | Some (VInt a), Some (VInt b) | Some (VDate a), Some (VDate b) => (a <? b)%Z
    | Some (VStr a), Some (VStr b) => String.ltb a b
    | Some (VBool a), Some (VBool b) => negb a && b
    | _, _ => false
    end
  else (type_rank x <? type_rank y)%Z.

Definition value_eq (x y : option value) : bool :=
  match x, y with
  | None, None => true
  | Some (VInt a), Some (VInt b) | Some (VDate a), Some (VDate b) => (a =? b)%Z
  | Some (VStr a), Some (VStr b) => String.eqb a b
  | Some (VBool a), Some (VBool b) => Bool.eqb a b
  | _, _ => false
  end.

Definition truthy (v : option value) : bool :=
  match v with
  | None => false
  | Some (VBool b) => b
  | Some (VInt z) => negb (z =? 0)%Z
  | Some _ => true
  end.

Fixpoint eval (d : doc) (e : expr) : option value :=
  match e with
  | EStr s => match s with
              | String.String c f => if Ascii.eqb c "$"%char then d !! f else Some (VStr s)
              | EmptyString => Some (VStr s)
              end
  | EInt z => Some (VInt z)
  | EDate ms => Some (VDate ms)
  | EObject _ => Some VObj
  | EOr l => Some (VBool (existsb (fun e => truthy (eval d e)) l))
  | ENe x y => Some (VBool (negb (value_eq (eval d x) (eval d y))))
  | ELt x y => Some (VBool (value_lt (eval d x) (eval d y)))
  | EAdd x y => match eval d x, eval d y with
                | Some (VInt a), Some (VInt b) => Some (VInt (a + b))
                | _, _ => None
                end
  | EIfNull x y => match eval d x with Some v => Some v | None => eval d y end
  | ECond i t e => if truthy (eval d i) then eval d t else eval d e
  end.

(** ** Updates: a pipeline of one [$set] stage, or the operators [$set] and [$inc] *)
Inductive update :=
  | UPipeline (sets : list (string * expr))
  | UOps (sets : list (string * value)) (incs : list (string * Z)).

Definition set_field (d : doc) (f : string) (v : option value) : doc :=
  match v with Some v => <[f := v]> d | None => d end.

Definition inc_field (d : doc) (f : string) (n : Z) : doc :=
  match d !! f with Some (VInt z) => <[f := VInt (z + n)]> d | Some _ => d | None => <[f := VInt n]> d end.

(** The expressions of a stage are evaluated on the document the stage is given. *)
Definition apply_update (u : update) (d : doc) : doc :=
  match u with
  | UPipeline sets => fold_left (fun d' fe => set_field d' fe.1 (eval d fe.2)) sets d
  | UOps sets incs =>
      fold_left (fun d' fn => inc_field d' fn.1 fn.2) incs
        (fold_left (fun d' fv => set_field d' fv.1 (Some fv.2)) sets d)
  end.

(** ** The effect of the operations, on the documents by collection and [_id] *)
Inductive merror := DuplicateKey | NoDocuments | MErr (e : error).

Abbreviation database := (gmap (string * string) (gmap string value)).

Definition matching (col : string) (q : filter) (m : database) : option doc :=
  match m !! (col, f_id q) with
  | Some d => if forallb (meets d) (f_conds q) then Some d else None
  | None => None
  end.

(** [findOneAndUpdate] with [ReturnDocument] after; an upsert whose filter did not match
    a document that exists inserts a second one with its [_id], a duplicate key. *)
Definition find_and_update (col : string) (q : filter) (u : update) (upsert : bool) (m : database)
    : database * (doc + merror) :=
  match matching col q m with
  | Some d => let d' := apply_update u d in (<[(col, f_id q) := d']> m, inl d')
  | None =>
      if upsert then
        match m !! (col, f_id q) with
        | Some _ => (m, inr DuplicateKey)
        | None => let d' := apply_update u ∅ in (<[(col, f_id q) := d']> m, inl d')
        end
      else (m, inr NoDocuments)
  end.

Definition find_one (col : string) (q : filter) (m : database) : database * (doc + merror) :=
  (m, match matching col q m with Some d => inl d | None => inr NoDocuments end).

(** [updateOne] and [replaceOne] without upsert answer the number of documents matched. *)
Definition update_one (col : string) (q : filter) (f : doc -> doc) (m : database) : database * (Z + merror) :=
  match matching col q m with
  | Some d => (<[(col, f_id q) := f d]> m, inl 1%Z)
  | None => (m, inl 0%Z)
  end.
End documents.

Arguments value B : clear implicits.
Arguments update B : clear implicits.

Abbreviation doc B := (gmap string (value B)).
Abbreviation database B := (gmap (string * string) (gmap string (value B))).

Class Mongo (W B : Type) : Type := {
  mongo_now : W -> Z;
  FindOneAndUpdate : bool -> string -> filter -> update B -> bool -> W -> W * (doc B + merror);
  FindOne : bool -> string -> filter -> W -> W * (doc B + merror);
  UpdateOne : bool -> string -> filter -> update B -> W -> W * (Z + merror);
  ReplaceOne : bool -> string -> filter -> doc B -> W -> W * (Z + merror);
}.

(** An operation has its effect and answers its result; or it fails before, or after it
    had its effect. Time is taken to pass between the operations. *)
Section did.
Context {W B : Type} `{!Mongo W B}.
Definition did {X : Type} (db : W -> database B) (f : database B -> database B * (X + merror)) (w w' : W) (r : X + merror) : Prop :=
  mongo_now w' = mongo_now w /\
  ((db w' = db w /\ exists e, r = inr (MErr e)) \/
   (db w' = (f (db w)).1 /\ (r = (f (db w)).2 \/ exists e, r = inr (MErr e)))).
End did.

Class MongoLaws (W B : Type) `{!Mongo W B} : Type := {
  db : W -> database B;
  FindOneAndUpdate_did b col q u ups w : let '(w', r) := FindOneAndUpdate b col q u ups w in
    did db (find_and_update col q u ups) w w' r;
  FindOne_did b col q w : let '(w', r) := FindOne b col q w in did db (find_one col q) w w' r;
  UpdateOne_did b col q u w : let '(w', r) := UpdateOne b col q u w in
    did db (update_one col q (apply_update u)) w w' r;
  ReplaceOne_did b col q d w : let '(w', r) := ReplaceOne b col q d w in
    did db (update_one col q (fun _ => d)) w w' r;
}.

(** How a snapshot is a BSON document. *)
Class Bson (P B : Type) : Type := {
  bson_Marshal : P -> B + error;
  bson_Unmarshal : B -> P -> P * option error;
}.

(** ** The driver *)
Record MongoDriver := mkMongoDriver { collection : gmap string string; nodeId : string; leaseTimeout : Z }.

Definition NewMongoDriver (node : string) (lease : Z) : MongoDriver :=
  mkMongoDriver ∅ node (if (lease <=? 0)%Z then DefaultLeaseTimeout else lease).

Definition NewMongoDriverFromClient (node : string) (lease : Z) : MongoDriver := NewMongoDriver node lease.

Definition RegisterCollection (actorType collectionName : string) (d : MongoDriver) : MongoDriver :=
  mkMongoDriver (<[actorType := collectionName]> (collection d)) (nodeId d) (leaseTimeout d).

Definition col (d : MongoDriver) (actorType : string) : string := default actorType (collection d !! actorType).

(** A time in BSON. *)
Definition to_ms (t : Z) : Z := t / 1000000.

Section driver.
Context {W B : Type} `{!Mongo W B}.
Context {P : Type} `{!Bson P B}.

(** [mongoDoc], as a document and decoded from one; a missing field is the zero value, a
    field of another type an error. *)
Definition mongoDoc (owner : string) (gen updated : Z) (snapshot : B) : doc B :=
  <["owner" := VStr owner]> (<["generation" := VInt gen]>
    (<["updated_at" := VDate updated]> {["snapshot" := VSnap snapshot]})).

Definition decode_error : error := ErrNew "error decoding key".

Definition dec_owner (d : doc B) : option string :=
  match d !! "owner" with None => Some "" | Some (VStr s) => Some s | _ => None end.
Definition dec_generation (d : doc B) : option Z :=
  match d !! "generation" with None => Some 0%Z | Some (VInt z) => Some z | _ => None end.
Definition dec_snapshot (d : doc B) : option (option B) :=
  match d !! "snapshot" with None => Some None | Some (VSnap b) => Some (Some b) | _ => None end.

(** [mongo.IsDuplicateKeyError], and the error a caller gets. *)
Definition merror_error (e : merror) : error :=
  match e with DuplicateKey => ErrNew "E11000 duplicate key error" | NoDocuments => ErrNew "mongo: no documents in result" | MErr e => e end.

Definition load_filter (id owner : string) (expire : Z) : filter :=
  mkFilter id [COr [CEqStr "owner" ""; CEqStr "owner" owner; CLtDate "updated_at" expire]].

Definition load_update (owner : string) (now expire : Z) : update B :=
  UPipeline [("owner", EStr owner); ("updated_at", EDate now);
             ("generation",
              ECond (EOr [EObject [("owner", EStr "")]; ENe (EStr "$owner") (EStr owner);
                          ELt (EStr "$updated_at") (EDate expire)])
                    (EAdd (EIfNull (EStr "$generation") (EInt 0)) (EInt 1))
                    (EIfNull (EStr "$generation") (EInt 1)))].

(** [Load]: the nil destination is an error of [bson.Unmarshal]. *)
Definition Load (d : MongoDriver) (w : W) (canceled : bool) (actorType id owner : string) (dst : option P)
    : W * option P * option (option LeaseInfo * option error) :=
  let c := col d actorType in
  let now := mongo_now w in
  let expireTime := to_ms (now - leaseTimeout d) in
  let '(w1, r) := FindOneAndUpdate canceled c (load_filter id owner expireTime)
                    (load_update owner (to_ms now) expireTime) true w in
  match r with
  | inr DuplicateKey =>
      let '(w2, r2) := FindOne canceled c (mkFilter id []) w1 in
      (w2, dst, Some (None, Some match r2 with
                                 | inr e => merror_error e
                                 | inl existing =>
                                     match dec_owner existing, dec_generation existing with
                                     | Some o, Some g => ErrLeaseTaken id o g
                                     | _, _ => decode_error
                                     end
                                 end))
  | inr e => (w1, dst, Some (None, Some (merror_error e)))
  | inl x =>
      match dec_owner x, dec_generation x, dec_snapshot x with
      | Some o, Some g, Some snapshot =>
          let lease := mkLease id o g in
          match snapshot, dst with
          | None, _ => (w1, dst, Some (Some lease, Some ErrNotFound))
          | Some _, None => (w1, dst, Some (None, Some (ErrNew "bson: Unmarshal(nil)")))
          | Some s, Some p =>
              let '(p', e) := bson_Unmarshal s p in
              (w1, Some p', Some match e with Some e => (None, Some e) | None => (Some lease, None) end)
          end
      | _, _, _ => (w1, dst, Some (None, Some decode_error))
      end
  end.

Definition refused (what : string) : error :=
  ErrNew ("grain: " +:+ what +:+ " failed, lease expired or taken by another owner").

(** What becomes of the number of documents matched. *)
Definition matched (what : string) (r : Z + merror) : option error :=
  match r with
  | inr e => Some (merror_error e)
  | inl n => if (n =? 0)%Z then Some (refused what) else None
  end.

(** The filter on the lease: [_id], owner and generation. *)
Definition lease_filter (id owner : string) (gen : Z) : filter :=
  mkFilter id [CEqStr "owner" owner; CEqInt "generation" gen].

Definition Save (d : MongoDriver) (w : W) (canceled : bool) (actorType id owner : string) (src : option P) (gen : Z)
    : W * option error :=
  let now := to_ms (mongo_now w) in
  match src with
  | None =>
      let '(w1, r) := UpdateOne canceled (col d actorType) (lease_filter id owner gen)
                        (UOps [("generation", VInt gen); ("updated_at", VDate now)] []) w in
      (w1, matched "save" r)
  | Some p =>
      match bson_Marshal p with
      | inr e => (w, Some e)
      | inl s =>
          let '(w1, r) := ReplaceOne canceled (col d actorType) (lease_filter id owner gen) (mongoDoc owner gen now s) w in
          (w1, matched "save" r)
      end
  end.

Definition Release (d : MongoDriver) (w : W) (canceled : bool) (actorType id owner : string) (gen : Z) : W * option error :=
  let '(w1, r) := UpdateOne canceled (col d actorType) (lease_filter id owner gen)
                    (UOps [("owner", VStr ""); ("updated_at", VDate (to_ms (mongo_now w)))] []) w in
  (w1, matched "release" r).

Definition ForceRelease (d : MongoDriver) (w : W) (canceled : bool) (actorType id : string) : W * (Z * option error) :=
  let '(w1, r) := FindOneAndUpdate canceled (col d actorType) (mkFilter id [])
                    (UOps [("owner", VStr ""); ("updated_at", VDate (to_ms (mongo_now w)))] [("generation", 1%Z)]) true w in
  (w1, match r with
       | inr e => (0%Z, Some (merror_error e))
       | inl x => match dec_owner x, dec_generation x with
                  | Some _, Some g => (g, None)
                  | _, _ => (0%Z, Some decode_error)
                  end
       end).

#[export] Instance mongo_driver : Driver MongoDriver W P := {|
  driver_Load := Load;
  driver_Save := Save;
  driver_Release := Release;
  driver_ForceRelease := ForceRelease;
|}.
End driver.
