(* ===== verification/MongoSpec.v ===== *)
(** * The MongoDB driver follows the lease protocol

    Every operation is a step of the protocol of Lease; each load raises the generation,
    also the repeated load of the owner. *)

From Stdlib Require Import Ascii.
From S2P Require Import Prelude ActorTypes Lease MongoDriver.

Local Open Scope string_scope.

Section MongoSpec.
Context {W B : Type} `{!Mongo W B, !MongoLaws W B}.
Context {P : Type} `{!Bson P B}.
Implicit Types (w : W) (d : MongoDriver) (x : doc B).

(** ** The cell of a document *)

(** The document of a grain: owner, generation, date and, once saved, the snapshot. *)
Definition doc_is x (o : string) (g t : Z) (s : option B) : Prop :=
  x !! "owner" = Some (VStr o) /\ x !! "generation" = Some (VInt g) /\
  x !! "updated_at" = Some (VDate t) /\ x !! "snapshot" = VSnap <$> s.

Definition doc_ok x : Prop := exists o g t s, doc_is x o g t s.

Definition expire_at d (now : Z) : Z := to_ms (now - leaseTimeout d).

Definition doc_cell (expire : Z) x : option (lcell (option B)) :=
  match x !! "owner", x !! "generation", x !! "updated_at", dec_snapshot x with
  | Some (VStr o), Some (VInt g), Some (VDate t), Some s => Some (mkCell o g s (negb (t <? expire)%Z))
  | _, _, _, _ => None
  end.

Definition mongo_ok d w (t i : string) : Prop :=
  (0 <= leaseTimeout d)%Z /\ forall x, db w !! (col d t, i) = Some x -> doc_ok x.

Definition mongo_cell d w (t i : string) : option (lcell (option B)) :=
  db w !! (col d t, i) ≫= doc_cell (expire_at d (mongo_now w)).

Lemma dec_is x o g t s : doc_is x o g t s ->
  dec_owner x = Some o /\ dec_generation x = Some g /\ dec_snapshot x = Some s.
Proof.
  intros (H1 & H2 & H3 & H4). unfold dec_owner, dec_generation, dec_snapshot. rewrite H1, H2, H4. by destruct s.
Qed.

Lemma doc_cell_is x o g t s expire : doc_is x o g t s ->
  doc_cell expire x = Some (mkCell o g s (negb (t <? expire)%Z)).
Proof.
  intros Hx. destruct (dec_is _ _ _ _ _ Hx) as (_ & _ & Hs). destruct Hx as (H1 & H2 & H3 & _).
  unfold doc_cell. by rewrite H1, H2, H3, Hs.
Qed.

(** A date written now is not older than the lease. *)
Lemma not_expired d now : (0 <= leaseTimeout d)%Z -> (to_ms now <? expire_at d now)%Z = false.
Proof. intros H. apply Z.ltb_ge. unfold expire_at, to_ms. apply Z.div_le_mono; lia. Qed.

(** A world whose database differs in the document of the grain. *)
Lemma written_cell d w w' t i x o g s :
  (0 <= leaseTimeout d)%Z -> mongo_now w' = mongo_now w ->
  db w' = <[(col d t, i) := x]> (db w) -> doc_is x o g (to_ms (mongo_now w)) s ->
  mongo_ok d w' t i /\ mongo_cell d w' t i = Some (mkCell o g s true).
Proof.
  intros Hl Hn Hd Hx. split.
  - split; [done|]. intros y. rewrite Hd, lookup_insert_eq. intros [= <-]. by eexists _, _, _, _.
  - unfold mongo_cell. rewrite Hd, lookup_insert_eq, Hn. simpl. rewrite (doc_cell_is _ _ _ _ _ _ Hx).
    by rewrite not_expired.
Qed.

Lemma same_db d w w' t i : mongo_now w' = mongo_now w -> db w' = db w -> mongo_ok d w t i ->
  mongo_ok d w' t i /\ mongo_cell d w' t i = mongo_cell d w t i.
Proof. intros Hn Hd [Hl Hok]. unfold mongo_ok, mongo_cell. rewrite Hn, Hd. done. Qed.

(** ** An operation of the service

    If its effect is a step of the protocol, so is what happens. *)
Lemma did_step {X : Type} d (f : database B -> database B * (X + merror)) t i op s w w' (r : X + merror) :
  did db f w w' r -> mongo_ok d w t i ->
  (forall w1, mongo_now w1 = mongo_now w -> db w1 = (f (db w)).1 ->
     mongo_ok d w1 t i /\ lstep None (mongo_cell d w t i) op s (mongo_cell d w1 t i)) ->
  mongo_ok d w' t i /\
  ((exists e, r = inr (MErr e) /\ lstep None (mongo_cell d w t i) op RFailed (mongo_cell d w' t i)) \/
   (r = (f (db w)).2 /\ lstep None (mongo_cell d w t i) op s (mongo_cell d w' t i))).
Proof.
  intros [Hn [[Hd [e ->]]|[Hd Hr]]] Hok Hf.
  - destruct (same_db d w w' t i Hn Hd Hok) as [H1 H2]. split; [done|]. left. exists e. split; [done|].
    rewrite H2. apply not_sent.
  - destruct (Hf w' Hn Hd) as [H1 H2]. split; [done|]. destruct Hr as [-> |[e ->]]; [by right|].
    left. exists e. split; [done|]. by eapply reply_lost.
Qed.

(** ** [Load] *)

(** A node name is not empty, and not the path of a field. *)
Definition plain (o : string) : Prop := o <> "" /\ String.get 0 o <> Some "$"%char.

Lemma eval_plain x o : plain o -> eval x (EStr o) = Some (VStr o).
Proof.
  intros [_ H]. destruct o as [|c o]; [done|]. simpl in *. destruct (Ascii.eqb_spec c "$"%char); [|done]. by subst.
Qed.

(** The condition on the generation always holds: its first alternative is a literal. *)
Lemma load_update_new o now expire : plain o ->
  doc_is (apply_update (load_update (B := B) o now expire) ∅) o 1 now None.
Proof.
  intros Ho. unfold load_update, apply_update. cbn [fold_left fst snd]. rewrite (eval_plain _ _ Ho). done.
Qed.

Lemma load_update_old o now expire x o' g t s : plain o -> doc_is x o' g t s ->
  doc_is (apply_update (load_update o now expire) x) o (g + 1) now s.
Proof.
  intros Ho (H1 & H2 & H3 & H4). unfold load_update, apply_update. cbn [fold_left fst snd]. rewrite (eval_plain _ _ Ho).
  assert (eval x (ECond (EOr [EObject [("owner", EStr "")]; ENe (EStr "$owner") (EStr o); ELt (EStr "$updated_at") (EDate expire)])
            (EAdd (EIfNull (EStr "$generation") (EInt 0)) (EInt 1)) (EIfNull (EStr "$generation") (EInt 1)))
          = Some (VInt (g + 1))) as ->.
  { cbn. by rewrite H2. }
  cbn. unfold doc_is. repeat split; simplify_map_eq; done.
Qed.

Lemma load_matches x o' g t s o expire : doc_is x o' g t s ->
  forallb (meets x) (f_conds (load_filter "" o expire)) = String.eqb o' "" || (String.eqb o' o || (t <? expire)%Z).
Proof. intros (H1 & H2 & H3 & H4). cbn. rewrite H1, H3. by rewrite orb_false_r, andb_true_r. Qed.

(** The reply of [Load] once the document was claimed. *)
Definition claimed (id o : string) (g : Z) (s : option B) (dst : option P)
    : option P * option (option LeaseInfo * option error) :=
  match s, dst with
  | None, _ => (dst, Some (Some (mkLease id o g), Some ErrNotFound))
  | Some _, None => (dst, Some (None, Some (ErrNew "bson: Unmarshal(nil)")))
  | Some s, Some p =>
      let '(p', e) := bson_Unmarshal s p in
      (Some p', Some match e with Some e => (None, Some e) | None => (Some (mkLease id o g), None) end)
  end.

Lemma claimed_agrees (c c' : option (lcell (option B))) id o g s dst :
  lstep None c (OLoad o) (RGranted g) c' ->
  exists r, lstep None c (OLoad o) r c' /\ load_agrees id o r (claimed id o g s dst).2.
Proof.
  intros Hst. unfold claimed. destruct s as [s|]; [destruct dst as [p|]|].
  - destruct (bson_Unmarshal s p) as [p' [e|]].
    + exists RFailed. split; [by eapply reply_lost|]. right. by exists e.
    + exists (RGranted g). split; [done|]. by exists None.
  - exists RFailed. split; [by eapply reply_lost|]. right. by eexists.
  - exists (RGranted g). split; [done|]. by eexists.
Qed.

Lemma Load_claimed d w b t i o (dst : option P) x o' g w1 s tm :
  FindOneAndUpdate b (col d t) (load_filter i o (expire_at d (mongo_now w)))
    (load_update o (to_ms (mongo_now w)) (expire_at d (mongo_now w))) true w = (w1, inl x) ->
  doc_is x o' g tm s -> Load d w b t i o dst = (w1, (claimed i o' g s dst).1, (claimed i o' g s dst).2).
Proof.
  intros E Hx. destruct (dec_is _ _ _ _ _ Hx) as (H1 & H2 & H3).
  unfold Load. fold (expire_at d (mongo_now w)). rewrite E, H1, H2, H3. unfold claimed.
  destruct s as [s|]; [|by destruct dst]. destruct dst as [p|]; [|done]. by destruct (bson_Unmarshal s p).
Qed.

Lemma Load_failed d w b t i o (dst : option P) w1 e :
  FindOneAndUpdate b (col d t) (load_filter i o (expire_at d (mongo_now w)))
    (load_update o (to_ms (mongo_now w)) (expire_at d (mongo_now w))) true w = (w1, inr (MErr e)) ->
  Load d w b t i o dst = (w1, dst, Some (None, Some e)).
Proof. intros E. unfold Load. fold (expire_at d (mongo_now w)). by rewrite E. Qed.

(** A [Load] that writes: if what it writes is a step of the protocol, so is what happens. *)
Lemma Load_writes d w b t i o (dst : option P) x g s w' dst' y :
  let ex := expire_at d (mongo_now w) in
  find_and_update (col d t) (load_filter i o ex) (load_update o (to_ms (mongo_now w)) ex) true (db w) =
    (<[(col d t, i) := x]> (db w), inl x) ->
  doc_is x o g (to_ms (mongo_now w)) s -> mongo_ok d w t i ->
  lstep None (mongo_cell d w t i) (OLoad o) (RGranted g) (Some (mkCell o g s true)) ->
  Load d w b t i o dst = (w', dst', y) ->
  mongo_ok d w' t i /\ exists r, lstep None (mongo_cell d w t i) (OLoad o) r (mongo_cell d w' t i) /\ load_agrees i o r y.
Proof.
  intros ex Hf Hx Hok Hst. set (up := load_update (B := B) o (to_ms (mongo_now w)) ex) in *.
  pose proof (FindOneAndUpdate_did b (col d t) (load_filter i o ex) up true w) as Hdid.
  destruct (FindOneAndUpdate _ _ _ _ _ _) as [w1 r] eqn:E.
  eapply (did_step d _ t i (OLoad o) (RGranted g)) in Hdid as [Hok1 Hr]; [|done|].
  2:{ intros w2 Hn Hd. rewrite Hf in Hd.
      destruct (written_cell d w w2 t i _ o g s (proj1 Hok) Hn Hd Hx) as [H1 H2]. split; [done|]. by rewrite H2. }
  rewrite Hf in Hr. destruct Hr as [(e & -> & Hs)|[-> Hs]].
  - rewrite (Load_failed _ _ _ _ _ _ dst _ _ E). intros [= <- <- <-]. split; [done|]. exists RFailed.
    split; [done|]. right. by eexists.
  - rewrite (Load_claimed _ _ _ _ _ _ dst _ _ _ _ _ _ E Hx). intros [= <- <- <-]. split; [done|].
    exact (claimed_agrees _ _ i o g s dst Hs).
Qed.

(** A [Load] that finds the lease taken: a duplicate key, and the owner looked up. *)
Lemma Load_taken d w b t i o (dst : option P) x o' g tm s w' dst' y :
  let ex := expire_at d (mongo_now w) in
  find_and_update (col d t) (load_filter i o ex) (load_update o (to_ms (mongo_now w)) ex) true (db w) =
    (db w, inr DuplicateKey) ->
  db w !! (col d t, i) = Some x -> doc_is x o' g tm s ->
  lstep None (mongo_cell d w t i) (OLoad o) (RTaken o' g) (mongo_cell d w t i) -> mongo_ok d w t i ->
  Load d w b t i o dst = (w', dst', y) ->
  mongo_ok d w' t i /\ exists r, lstep None (mongo_cell d w t i) (OLoad o) r (mongo_cell d w' t i) /\ load_agrees i o r y.
Proof.
  intros ex Hf Ex Hx Hst Hok. set (up := load_update (B := B) o (to_ms (mongo_now w)) ex) in *.
  pose proof (FindOneAndUpdate_did b (col d t) (load_filter i o ex) up true w) as Hdid.
  destruct (FindOneAndUpdate _ _ _ _ _ _) as [w1 r] eqn:E. destruct Hdid as [Hn Hdid]. rewrite Hf in Hdid. simpl in Hn, Hdid.
  assert (db w1 = db w) as Hd by (by destruct Hdid as [[? _]|[? _]]).
  destruct (same_db d w w1 t i Hn Hd Hok) as [Hok1 Hc1].
  assert ((exists e, r = inr (MErr e)) \/ r = inr DuplicateKey) as [[e ->]| -> ].
  { destruct Hdid as [[_ He]|[_ [-> |He]]]; auto. }
  { rewrite (Load_failed _ _ _ _ _ _ dst _ _ E). intros [= <- <- <-]. split; [done|]. exists RFailed. rewrite Hc1.
    split; [apply not_sent|]. right. by eexists. }
  unfold Load. fold (expire_at d (mongo_now w)). fold ex. fold up. rewrite E.
  pose proof (FindOne_did b (col d t) (mkFilter i []) w1) as Hdid2.
  destruct (FindOne _ _ _ _) as [w2 r2]. intros [= <- <- <-].
  destruct Hdid2 as [Hn2 Hdid2]. simpl in Hdid2.
  assert (db w2 = db w) as Hd2 by (rewrite <- Hd; by destruct Hdid2 as [[? _]|[? _]]).
  destruct (same_db d w w2 t i ltac:(congruence) Hd2 Hok) as [Hok2 Hc2]. split; [done|]. rewrite Hc2.
  assert ((exists e, r2 = inr (MErr e)) \/ r2 = inl x) as [[e ->]| -> ].
  { destruct Hdid2 as [[_ He]|[_ [-> |He]]]; auto. right. unfold matching. simpl. by rewrite Hd, Ex. }
  - exists RFailed. split; [apply not_sent|]. right. by eexists.
  - destruct (dec_is _ _ _ _ _ Hx) as (-> & -> & _). by exists (RTaken o' g).
Qed.

Lemma mongo_Load_refines d w b t i o (dst : option P) : mongo_ok d w t i -> plain o ->
  forall w' dst' y, Load d w b t i o dst = (w', dst', y) ->
  mongo_ok d w' t i /\ exists r, lstep None (mongo_cell d w t i) (OLoad o) r (mongo_cell d w' t i) /\ load_agrees i o r y.
Proof.
  intros Hok Ho w' dst' y HL. set (ex := expire_at d (mongo_now w)).
  destruct (db w !! (col d t, i)) as [x0|] eqn:Ex.
  2:{ (* no document *)
    eapply (Load_writes d w b t i o dst _ 1); [|exact (load_update_new o _ ex Ho)|done| |exact HL].
    - unfold find_and_update, matching. simpl. by rewrite Ex.
    - unfold mongo_cell. rewrite Ex. constructor. }
  destruct (proj2 Hok _ Ex) as (o' & g & tm & s & Hx).
  assert (mongo_cell d w t i = Some (mkCell o' g s (negb (tm <? ex)%Z))) as Hc.
  { unfold mongo_cell. rewrite Ex. simpl. by apply doc_cell_is. }
  pose proof (load_matches _ _ _ _ _ o ex Hx) as Hm. simpl f_conds in Hm.
  destruct (String.eqb o' "" || (String.eqb o' o || (tm <? ex)%Z)) eqn:Em.
  - (* claimed *)
    eapply (Load_writes d w b t i o dst _ (g + 1)); [|exact (load_update_old o _ ex _ _ _ _ _ Ho Hx)|done| |exact HL].
    + unfold find_and_update, matching. simpl f_id. simpl f_conds. fold ex. by rewrite Ex, Hm.
    + rewrite Hc. destruct (String.eqb_spec o' o) as [->|Hne].
      * apply (load_again _ (mkCell o g s _)); [done|by right].
      * apply (load_free _ (mkCell o' g s _)). simpl.
        destruct (String.eqb_spec o' ""); [by left|]. right. simpl in Em. by rewrite Em.
  - apply orb_false_iff in Em as [E1 [E2 E3]%orb_false_iff].
    eapply (Load_taken d w b t i o dst x0); [|done|exact Hx| |done|exact HL].
    + unfold find_and_update, matching. simpl f_id. simpl f_conds. fold ex. by rewrite Ex, Hm.
    + rewrite Hc. apply (load_taken _ (mkCell o' g s (negb (tm <? ex)%Z))); simpl; [by apply String.eqb_neq..|by rewrite E3].
Qed.

(** ** The operations under the lease filter *)

Lemma lease_matches x o' g' t s id o g : doc_is x o' g' t s ->
  forallb (meets x) (f_conds (lease_filter id o g)) = String.eqb o' o && (g' =? g)%Z.
Proof. intros (H1 & H2 & H3 & H4). cbn. rewrite H1, H2. by rewrite andb_true_r. Qed.

(** An update under the filter: done when the lease matches, refused when not. *)
Lemma update_step d w t i o g op (f : doc B -> doc B) w' r o' s' what :
  mongo_ok d w t i ->
  did db (update_one (col d t) (lease_filter i o g) f) w w' r ->
  (forall x tm s, doc_is x o g tm s -> doc_is (f x) o' g (to_ms (mongo_now w)) (s' s)) ->
  (forall s l l', l' = true -> lstep None (Some (mkCell o g s l)) op RDone (Some (mkCell o' g (s' s) l'))) ->
  (forall c, ~ holder_is o g c -> lstep None c op RRefused c) ->
  mongo_ok d w' t i /\ exists r', lstep None (mongo_cell d w t i) op r' (mongo_cell d w' t i) /\ done_agrees r' (matched what r).
Proof.
  intros Hok Hdid Hf Hdone Href.
  assert (forall s, ((update_one (col d t) (lease_filter i o g) f (db w)) = (db w, inl 0%Z) /\ s = RRefused) \/
    ((update_one (col d t) (lease_filter i o g) f (db w)).2 = inl 1%Z /\ s = RDone) -> 
    (forall w1, mongo_now w1 = mongo_now w -> db w1 = (update_one (col d t) (lease_filter i o g) f (db w)).1 ->
       mongo_ok d w1 t i /\ lstep None (mongo_cell d w t i) op s (mongo_cell d w1 t i)) ->
    mongo_ok d w' t i /\ exists r', lstep None (mongo_cell d w t i) op r' (mongo_cell d w' t i) /\ done_agrees r' (matched what r)) as Hend.
  { intros s Hs Hstep. destruct (did_step d _ t i op s w w' r Hdid Hok Hstep) as [H1 [(e & -> & H2)|[-> H2]]]; (split; [done|]).
    - by exists RFailed.
    - exists s. split; [done|]. destruct Hs as [[-> ->]|[-> ->]]; done. }
  unfold update_one, matching in *. simpl f_id in *.
  destruct (db w !! (col d t, i)) as [x|] eqn:Ex.
  2:{ apply (Hend RRefused); [by left|]. intros w1 Hn Hd. simpl in Hd.
      destruct (same_db d w w1 t i Hn Hd Hok) as [H1 ->]. split; [done|]. apply Href.
      unfold mongo_cell. rewrite Ex. by intros (? & ? & _). }
  destruct (proj2 Hok _ Ex) as (ox & gx & tm & s & Hx).
  assert (mongo_cell d w t i = Some (mkCell ox gx s (negb (tm <? expire_at d (mongo_now w))%Z))) as Hc.
  { unfold mongo_cell. rewrite Ex. simpl. by apply doc_cell_is. }
  rewrite (lease_matches _ _ _ _ _ i o g Hx) in Hend.
  destruct (String.eqb_spec ox o) as [Ho|Hno]; [destruct (Z.eqb_spec gx g) as [Hg|Hng]|]; simpl in Hend.
  - subst ox gx. apply (Hend RDone); [by right|]. intros w1 Hn Hd.
    destruct (written_cell d w w1 t i _ o' g (s' s) (proj1 Hok) Hn Hd (Hf _ _ _ Hx)) as [H1 ->].
    split; [done|]. rewrite Hc. by apply Hdone.
  - apply (Hend RRefused); [by left|]. intros w1 Hn Hd. destruct (same_db d w w1 t i Hn Hd Hok) as [H1 ->].
    split; [done|]. rewrite Hc. apply Href. by intros (y & [= <-] & _ & ?).
  - apply (Hend RRefused); [by left|]. intros w1 Hn Hd. destruct (same_db d w w1 t i Hn Hd Hok) as [H1 ->].
    split; [done|]. rewrite Hc. apply Href. by intros (y & [= <-] & ? & _).
Qed.

(** What a snapshot is stored as. *)
Definition enc_snapshot (p : P) : option (option B) :=
  match bson_Marshal p with inl b => Some (Some b) | inr _ => None end.

Lemma mongo_Save_refines d w b t i o (src : option P) g : mongo_ok d w t i ->
  forall w' y, Save d w b t i o src g = (w', y) ->
  mongo_ok d w' t i /\ exists r, lstep None (mongo_cell d w t i) (OSave o g (src ≫= enc_snapshot)) r (mongo_cell d w' t i) /\
    done_agrees r y.
Proof.
  intros Hok w' y. unfold Save. destruct src as [p|]; simpl mbind; [unfold enc_snapshot; destruct (bson_Marshal p) as [s|e]|].
  - pose proof (ReplaceOne_did b (col d t) (lease_filter i o g) (mongoDoc o g (to_ms (mongo_now w)) s) w) as Hdid.
    destruct (ReplaceOne _ _ _ _ _) as [w1 r]. intros [= <- <-].
    eapply (update_step d w t i o g _ _ w1 r o (fun _ => Some s)); [done|exact Hdid| | |].
    + intros x tm s0 _. unfold doc_is, mongoDoc. repeat split; simplify_map_eq; done.
    + intros s0 l l' ->. apply (save_done _ (mkCell o g s0 l) (Some (Some s))).
    + intros c Hc. by apply save_refused.
  - intros [= <- <-]. split; [done|]. exists RFailed. split; [apply not_sent|done].
  - pose proof (UpdateOne_did b (col d t) (lease_filter i o g)
      (UOps [("generation", VInt g); ("updated_at", VDate (to_ms (mongo_now w)))] []) w) as Hdid.
    destruct (UpdateOne _ _ _ _ _) as [w1 r]. intros [= <- <-].
    eapply (update_step d w t i o g _ _ w1 r o (fun s => s)); [done|exact Hdid| | |].
    + intros x tm s0 (H1 & H2 & H3 & H4). unfold doc_is. simpl. repeat split; simplify_map_eq; done.
    + intros s0 l l' ->. apply (save_done _ (mkCell o g s0 l) None).
    + intros c Hc. by apply save_refused.
Qed.

Lemma mongo_Release_refines d w b t i o g : mongo_ok d w t i ->
  forall w' y, Release d w b t i o g = (w', y) ->
  mongo_ok d w' t i /\ exists r, lstep None (mongo_cell d w t i) (ORelease o g) r (mongo_cell d w' t i) /\ done_agrees r y.
Proof.
  intros Hok w' y. unfold Release.
  pose proof (UpdateOne_did b (col d t) (lease_filter i o g)
    (UOps [("owner", VStr ""); ("updated_at", VDate (to_ms (mongo_now w)))] []) w) as Hdid.
  destruct (UpdateOne _ _ _ _ _) as [w1 r]. intros [= <- <-].
  eapply (update_step d w t i o g _ _ w1 r "" (fun s => s)); [done|exact Hdid| | |].
  - intros x tm s0 (H1 & H2 & H3 & H4). unfold doc_is. simpl. repeat split; simplify_map_eq; done.
  - intros s0 l l' ->. apply (release_done _ (mkCell o g s0 l)).
  - intros c Hc. by apply release_refused.
Qed.

Lemma mongo_ForceRelease_refines d w b t i : mongo_ok d w t i ->
  forall w' y, ForceRelease d w b t i = (w', y) ->
  mongo_ok d w' t i /\ exists r, lstep None (mongo_cell d w t i) OForce r (mongo_cell d w' t i) /\ force_agrees r y.
Proof.
  intros Hok w' y. unfold ForceRelease.
  set (up := UOps (B := B) [("owner", VStr ""); ("updated_at", VDate (to_ms (mongo_now w)))] [("generation", 1%Z)]).
  pose proof (FindOneAndUpdate_did b (col d t) (mkFilter i []) up true w) as Hdid.
  destruct (FindOneAndUpdate _ _ _ _ _ _) as [w1 r]. intros [= <- <-].
  assert (exists x g s, find_and_update (col d t) (mkFilter i []) up true (db w) = (<[(col d t, i) := x]> (db w), inl x) /\
    doc_is x "" g (to_ms (mongo_now w)) s /\
    (forall c', c' = Some (mkCell "" g s true) -> lstep None (mongo_cell d w t i) OForce (RForced g) c')) as (x & g & s & Hf & Hx & Hst).
  { unfold find_and_update, matching. simpl f_id. destruct (db w !! (col d t, i)) as [x|] eqn:Ex.
    - destruct (proj2 Hok _ Ex) as (o' & g & tm & s & Hx). eexists _, (g + 1)%Z, s. split; [done|]. split.
      + destruct Hx as (H1 & H2 & H3 & H4). unfold doc_is. simpl. unfold inc_field.
        rewrite !lookup_insert_ne, H2 by done. repeat split; simplify_map_eq; done.
      + intros c' ->. unfold mongo_cell. rewrite Ex. simpl. rewrite (doc_cell_is _ _ _ _ _ _ Hx).
        apply (force_old _ (mkCell o' g s _)).
    - eexists _, 1%Z, None. split; [done|]. split; [done|]. intros c' ->. unfold mongo_cell. rewrite Ex. constructor. }
  eapply (did_step d _ t i OForce (RForced g)) in Hdid as [Hok1 Hr]; [|done|].
  2:{ intros w2 Hn Hd. rewrite Hf in Hd. destruct (written_cell d w w2 t i _ "" g s (proj1 Hok) Hn Hd Hx) as [H1 H2].
      split; [done|]. by apply Hst. }
  split; [done|]. rewrite Hf in Hr. destruct Hr as [(e & -> & Hs)|[-> Hs]].
  - by exists RFailed.
  - destruct (dec_is _ _ _ _ _ Hx) as (H1 & H2 & _). exists (RForced g). split; [done|]. cbn [snd]. by rewrite H1, H2.
Qed.

#[export] Instance mongo_leases : LeaseLaws MongoDriver W P (option B) None := {|
  dr_ok := mongo_ok;
  dr_cell := mongo_cell;
  enc := enc_snapshot;
  good_owner := plain;
  good_owner_not_empty _ Ho := proj1 Ho;
  Load_law := mongo_Load_refines;
  Save_law d w b t i o src g H _ := mongo_Save_refines d w b t i o src g H;
  Release_law d w b t i o g H _ := mongo_Release_refines d w b t i o g H;
  ForceRelease_law := mongo_ForceRelease_refines;
|}.
End MongoSpec.

Section properties.
Context {W B : Type} `{!Mongo W B, !MongoLaws W B}.
Context {P : Type} `{!Bson P B}.

(** C25 The MongoDB driver follows the lease protocol: whatever the network does, the effect of
    [Load], [Save], [Release] and [ForceRelease] on the document of a grain is one step of the
    protocol on its cell (owner, generation, snapshot), what they return agrees with the
    result of that step, and the document stays well formed. *)
Theorem mongo_follows_leases (d : MongoDriver) (w : W) b t i o (dst src : option P) g :
  mongo_ok d w t i -> plain o ->
  (let '(w', _, y) := Load d w b t i o dst in mongo_ok d w' t i /\
     exists r, lstep None (mongo_cell d w t i) (OLoad o) r (mongo_cell d w' t i) /\ load_agrees i o r y) /\
  (let '(w', y) := Save d w b t i o src g in mongo_ok d w' t i /\
     exists r, lstep None (mongo_cell d w t i) (OSave o g (src ≫= enc_snapshot)) r (mongo_cell d w' t i) /\ done_agrees r y) /\
  (let '(w', y) := Release d w b t i o g in mongo_ok d w' t i /\
     exists r, lstep None (mongo_cell d w t i) (ORelease o g) r (mongo_cell d w' t i) /\ done_agrees r y) /\
  (let '(w', y) := ForceRelease d w b t i in mongo_ok d w' t i /\
     exists r, lstep None (mongo_cell d w t i) OForce r (mongo_cell d w' t i) /\ force_agrees r y).
Proof.
  intros Hok Ho. split; [|split; [|split]].
  - destruct (Load d w b t i o dst) as [[w' dst'] y] eqn:E. by eapply mongo_Load_refines.
  - destruct (Save d w b t i o src g) as [w' y] eqn:E. by eapply mongo_Save_refines.
  - destruct (Release d w b t i o g) as [w' y] eqn:E. by eapply mongo_Release_refines.
  - destruct (ForceRelease d w b t i) as [w' y] eqn:E. by eapply mongo_ForceRelease_refines.
Qed.
End properties.

(** ** A database in memory: snapshots are strings *)
Module MongoWitness.
Record memory := mkMemory { mdb : database string; mnow : Z }.

Definition run_op {X : Type} (canceled : bool) (f : database string -> database string * (X + merror)) (w : memory)
    : memory * (X + merror) :=
  if canceled then (w, inr (MErr CtxCanceled)) else let '(m, r) := f (mdb w) in (mkMemory m (mnow w), r).

#[export] Instance memory_mongo : Mongo memory string := {|
  mongo_now := mnow;
  FindOneAndUpdate b col q u ups := run_op b (find_and_update col q u ups);
  FindOne b col q := run_op b (find_one col q);
  UpdateOne b col q u := run_op b (update_one col q (apply_update u));
  ReplaceOne b col q d := run_op b (update_one col q (fun _ => d));
|}.

Lemma run_op_did {X : Type} (b : bool) (f : database string -> database string * (X + merror)) (w : memory) :
  let '(w', r) := run_op b f w in did mdb f w w' r.
Proof.
  unfold run_op, did. destruct b; [split; [done|]; left; by eauto|].
  destruct (f (mdb w)) as [m r]. simpl. auto.
Qed.

#[export] Instance memory_laws : MongoLaws memory string := {|
  db := mdb;
  FindOneAndUpdate_did b col q u ups w := run_op_did b _ w;
  FindOne_did b col q w := run_op_did b _ w;
  UpdateOne_did b col q u w := run_op_did b _ w;
  ReplaceOne_did b col q d w := run_op_did b _ w;
|}.

#[export] Instance string_bson : Bson string string := {|
  bson_Marshal := inl;
  bson_Unmarshal s _ := (s, None);
|}.

Definition drv := NewMongoDriver "n" 0.
Definition empty_db := mkMemory ∅ 1000000000000.
Definition loaded := (Load drv empty_db false "player" "7" "a" (Some "")).1.1.

Lemma empty_ok : mongo_ok drv empty_db "player" "7".
Proof. split; [by vm_compute|]. intros x H. exfalso. exact (lookup_empty_Some (M := gmap (string * string)) _ _ H). Qed.

Lemma plain_a : plain "a".
Proof. by split. Qed.

Lemma mongo_follows_leases_witness :
  exists r, lstep None (mongo_cell drv empty_db "player" "7") (OLoad "a") r (mongo_cell drv loaded "player" "7") /\
            load_agrees "7" "a" r (Load drv empty_db false "player" "7" "a" (Some "")).2.
Proof.
  destruct (mongo_follows_leases drv empty_db false "player" "7" "a" (Some "") (Some "hp=3") 1 empty_ok plain_a)
    as (H & _ & _ & _).
  exact (proj2 H).
Defined.

(** A repeated load by the owner raises the generation, so that the lease it was granted
    before is refused. *)
Remark reload_raises_generation :
  (Load drv loaded false "player" "7" "a" (Some "")).2 = Some (Some (mkLease "7" "a" 2), Some ErrNotFound) /\
  (Save drv (Load drv loaded false "player" "7" "a" (Some "")).1.1 false "player" "7" "a" (Some "hp=3") 1).2
  = Some (refused "save").
Proof. by vm_compute. Qed.
End MongoWitness.
