(* ===== verification/Logger.v ===== *)
(** * The logger

    logger/logutil.go and logger/logger.go: the text of a log line, and the writer that
    turns any Go value into JSON with the log tags of struct fields obeyed. A value as
    package reflect shows it is a tree [gval]; what is written to the builder is the text
    returned. *)

From Stdlib Require Import Ascii.
From S2P Require Import Prelude ActorTypes.

Local Open Scope string_scope.

(** ** Text *)
Definition quote : string := String.String "034"%char "".
Definition backslash : string := String.String "092"%char "".

(** [FormatInt] stands for [strconv.FormatUint] too. *)
Definition FormatBool (b : bool) : string := if b then "true" else "false".

(** [strings.Split] by a comma. *)
Fixpoint split_comma (s : string) : list string :=
  match s with
  | EmptyString => [""]
  | String.String c s =>
      if Ascii.eqb c ","%char then "" :: split_comma s
      else match split_comma s with
           | x :: l => String.String c x :: l
           | [] => [String.String c ""]
           end
  end.

(** The text of a field tag without its options. *)
Record fieldOptions := mkOpts { skip : bool; mask : bool; omitempty : bool; debug : bool }.

Definition add_option (o : fieldOptions) (opt : string) : fieldOptions :=
  if String.eqb opt "-" then mkOpts true (mask o) (omitempty o) (debug o)
  else if String.eqb opt "mask" then mkOpts (skip o) true (omitempty o) (debug o)
  else if String.eqb opt "omitempty" then mkOpts (skip o) (mask o) true (debug o)
  else if String.eqb opt "debug" then mkOpts (skip o) (mask o) (omitempty o) true
  else o.

Definition getFieldOptions (logTag : string) : fieldOptions :=
  fold_left add_option (split_comma logTag) (mkOpts false false false false).

(** [hexChar] on a byte below 16, and [escapeString]: quotes, backslashes and control
    characters. *)
Definition hexChar (b : N) : ascii :=
  if (b <? 10)%N then ascii_of_N (48 + b) else ascii_of_N (97 + b - 10).

Definition escape_char (c : ascii) : string :=
  let n := N_of_ascii c in
  if (n =? 34)%N then backslash +:+ quote
  else if (n =? 92)%N then backslash +:+ backslash
  else if (n =? 10)%N then backslash +:+ "n"
  else if (n =? 13)%N then backslash +:+ "r"
  else if (n =? 9)%N then backslash +:+ "t"
  else if (n <? 32)%N
       then backslash +:+ "u00" +:+ String.String (hexChar (N.shiftr n 4)) (String.String (hexChar (N.land n 15)) "")
  else String.String c "".

Fixpoint escapeString (s : string) : string :=
  match s with
  | EmptyString => ""
  | String.String c s => escape_char c +:+ escapeString s
  end.

Definition quoted (s : string) : string := quote +:+ s +:+ quote.

(** [hex.EncodeToString] *)
Fixpoint hex_encode (b : string) : string :=
  match b with
  | EmptyString => ""
  | String.String c b =>
      let n := N_of_ascii c in
      String.String (hexChar (N.shiftr n 4)) (String.String (hexChar (N.land n 15)) (hex_encode b))
  end.

(** ** Values *)
Section values.
(** The floats, and their text with the fewest digits that identify them. *)
Context {Fl : Type} (FormatFloat : Fl -> string) (float_zero : Fl -> bool).

(** A struct field: the text of its log tag; whether it is unexported ([PkgPath] is not
    empty) and embedded. *)
Record field := mkField { f_name : string; f_unexported : bool; f_anonymous : bool; f_tag : string }.

(** A value: [GNil] is a nil pointer or interface (or no value), [GPtr] one that is not;
    the flag of a slice or a map says that it is nil; the pairs of a map come in the
    order the iteration finds them. [GOther] is any other kind. *)
#[warnings="-register-all"]
Inductive gval :=
  | GNil
  | GPtr (v : gval)
  | GStruct (fs : list (field * gval))
  | GBytes (isnil : bool) (b : string)
  | GSlice (isnil : bool) (l : list gval)
  | GArray (l : list gval)
  | GMap (isnil : bool) (l : list (gval * gval))
  | GString (s : string)
  | GInt (z : Z)
  | GUint (z : Z)
  | GFloat (f : Fl)
  | GBool (b : bool)
  | GOther (zero : bool).

(** [reflect.Value.IsZero] *)
Fixpoint IsZero (v : gval) : bool :=
  match v with
  | GNil => true
  | GPtr _ => false
  | GStruct fs => forallb (fun fv => IsZero fv.2) fs
  | GBytes isnil _ | GSlice isnil _ | GMap isnil _ => isnil
  | GArray l => forallb IsZero l
  | GString s => String.eqb s ""
  | GInt z | GUint z => (z =? 0)%Z
  | GFloat f => float_zero f
  | GBool b => negb b
  | GOther z => z
  end.

(** The fields [getFieldMetas] keeps, and [CanInterface]. *)
Definition is_meta (f : field) : bool := negb (f_unexported f && negb (f_anonymous f)).
(** [fieldMeta]: the type of the field is in the value, see below. *)
Record fieldMeta := mkMeta { Name : string; Index : nat; LogTag : fieldOptions }.

Definition field_meta (i : nat) (f : field) : option fieldMeta :=
  if is_meta f then Some (mkMeta (f_name f) i (getFieldOptions (f_tag f))) else None.

(** The loop of [getFieldMetas] over the fields of a type. *)
Definition metas_of (fs : list field) : list fieldMeta := omap id (imap field_meta fs).

(** [getFieldMetas] with the cache of the package; [fields] are the fields of a type. *)
Definition getFieldMetas {Ty} `{Countable Ty} (fields : Ty -> list field) (typ : Ty) (fieldCache : gmap Ty (list fieldMeta))
    : gmap Ty (list fieldMeta) * list fieldMeta :=
  match fieldCache !! typ with
  | Some cached => (fieldCache, cached)
  | None => let metas := metas_of (fields typ) in (<[typ := metas]> fieldCache, metas)
  end.

Definition CanInterface (f : field) : bool := negb (f_unexported f).

Definition LevelDebug : Z := -4.

(** The [continue]s of [writeStruct]. *)
Definition shown (level : Z) (f : field) (v : gval) : bool :=
  let tag := getFieldOptions (f_tag f) in
  is_meta f && CanInterface f && negb (skip tag) && negb (omitempty tag && IsZero v) &&
  negb (debug tag && (level <=? LevelDebug)%Z).

Definition masked (f : field) : bool := mask (getFieldOptions (f_tag f)).

(** [formatBasicValue]: the text of a map key. *)
Definition formatBasicValue (v : gval) : string :=
  match v with
  | GString s => s
  | GInt z | GUint z => FormatInt z
  | GFloat f => FormatFloat f
  | GBool b => FormatBool b
  | _ => "<key>"
  end.

Definition comma (needComma : bool) : string := if needComma then "," else "".

Definition maxLen : nat := 1000.

(** [writeValue] with [writeStruct], [writeSlice] and [writeMap]; a byte array is written
    element by element. *)
Fixpoint writeValue (level : Z) (v : gval) : string :=
  let writeSlice := fix writeSlice (needComma : bool) (l : list gval) : string :=
    match l with
    | [] => ""
    | v :: l => comma needComma +:+ writeValue level v +:+ writeSlice true l
    end in
  let writeList := fun l =>
    if (maxLen <? length l)%nat
    then "{" +:+ quoted "len" +:+ ":" +:+ FormatInt (Z.of_nat (length l)) +:+ "," +:+ quoted "truncated" +:+ ":true}"
    else "[" +:+ writeSlice false l +:+ "]" in
  match v with
  | GNil => "null"
  | GPtr v => writeValue level v
  | GStruct fs =>
      "{" +:+ (fix writeStruct (needComma : bool) (fs : list (field * gval)) : string :=
         match fs with
         | [] => ""
         | (f, v) :: fs =>
             if shown level f v then
               comma needComma +:+ quoted (f_name f) +:+ ":" +:+
               (if masked f then quote +:+ ":" +:+ quoted "***" else writeValue level v) +:+
               writeStruct true fs
             else writeStruct needComma fs
         end) false fs +:+ "}"
  | GBytes _ b => quoted (hex_encode b)
  | GSlice _ l | GArray l => writeList l
  | GMap _ l =>
      "{" +:+ (fix writeMap (needComma : bool) (l : list (gval * gval)) : string :=
         match l with
         | [] => ""
         | (k, v) :: l =>
             comma needComma +:+ quoted (escapeString (formatBasicValue k)) +:+ ":" +:+ writeValue level v +:+
             writeMap true l
         end) false l +:+ "}"
  | GString s => quoted (escapeString s)
  | GInt z | GUint z => FormatInt z
  | GFloat f => FormatFloat f
  | GBool b => FormatBool b
  | GOther _ => quoted "<unsupported>"
  end.

(** [unwrapValue] *)
Fixpoint unwrapValue (v : gval) : gval :=
  match v with GPtr v => unwrapValue v | _ => v end.

Definition StructToJSONString (v : gval) (level : Z) : string :=
  match unwrapValue v with
  | GNil => "null"
  | v => writeValue level v
  end.

(** ** Log lines *)

(** An attribute: its key, its value and what [Value.String] makes of it. A record: the
    time as it is formatted, the level, the message and the attributes. *)
Record Attr := mkAttr { attr_key : string; attr_any : gval; attr_String : string }.
Record Record_ := mkRecord { time_text : string; Level : Z; Message : string; Attrs : list Attr }.

(** The writers a handler may have, what writing does to the world and the error it
    returns. *)
Context {Writer World Err : Type} (Write : Writer -> string -> World -> World * Err).

Record TracingHandler := mkHandler { tag : string; lvl : Z; out : Writer }.

Definition NewTracingHandler (out : Writer) (leveler : Z) : TracingHandler := mkHandler "" leveler out.

Definition Enabled (level : Z) (h : TracingHandler) : bool := (lvl h <=? level)%Z.

(** [level_String] is the text of the other levels. *)
Definition levelAbbr (level_String : Z -> string) (l : Z) : string :=
  if (l =? -4)%Z then "DEB" else if (l =? 0)%Z then "INF" else if (l =? 4)%Z then "WRN"
  else if (l =? 8)%Z then "ERR" else level_String l.

Definition newline : string := String.String "010"%char "".

Definition write_attr (level : Z) (a : Attr) : string :=
  " " +:+ attr_key a +:+ "=" +:+ StructToJSONString (attr_any a) level.

Definition line (level_String : Z -> string) (r : Record_) (h : TracingHandler) : string :=
  time_text r +:+ " " +:+ levelAbbr level_String (Level r) +:+ " " +:+ tag h +:+ " " +:+ Message r +:+
  String.concat "" (write_attr (Level r) <$> Attrs r) +:+ newline.

Definition Handle (level_String : Z -> string) (r : Record_) (h : TracingHandler) (w : World) : World * Err :=
  Write (out h) (line level_String r h) w.

Definition WithAttrs (attrs : list Attr) (h : TracingHandler) : TracingHandler :=
  let t := String.concat "." (attr_String <$> attrs) in
  mkHandler (if String.eqb (tag h) "" then t else tag h +:+ "/" +:+ t) (lvl h) (out h).

Definition WithGroup (name : string) (h : TracingHandler) : TracingHandler := h.
End values.

Arguments gval Fl : clear implicits.
Arguments GNil {Fl}.
