(* ===== verification/LoggerSpec.v ===== *)
(** * What the logger writes is JSON, and shows no masked value

    A reader of JSON text (the compact form, as RFC 8259 has it) is the reference: it reads
    the text of a value back as the document the value stands for. *)

From Stdlib Require Import Ascii DecimalString DecimalZ DecimalPos DecimalFacts.
From S2P Require Import Prelude ActorTypes Logger.

Local Open Scope string_scope.

(** ** A reader of JSON *)
#[warnings="-register-all"]
Inductive json :=
  | JNull
  | JBool (b : bool)
  | JNum (text : string)
  | JStr (s : string)
  | JArr (l : list json)
  | JObj (l : list (string * json)).

Definition hex_value (c : ascii) : option N :=
  let n := N_of_ascii c in
  if ((48 <=? n) && (n <=? 57))%N then Some (n - 48)%N
  else if ((97 <=? n) && (n <=? 102))%N then Some (n - 87)%N
  else if ((65 <=? n) && (n <=? 70))%N then Some (n - 55)%N
  else None.

Definition unescape (e : ascii) : option ascii :=
  let n := N_of_ascii e in
  if (n =? 34)%N || (n =? 92)%N || (n =? 47)%N then Some e
  else if (n =? 98)%N then Some (ascii_of_N 8)
  else if (n =? 102)%N then Some (ascii_of_N 12)
  else if (n =? 110)%N then Some (ascii_of_N 10)
  else if (n =? 114)%N then Some (ascii_of_N 13)
  else if (n =? 116)%N then Some (ascii_of_N 9)
  else None.

Definition cons_char (c : ascii) (r : option (string * string)) : option (string * string) :=
  match r with Some (s, rest) => Some (String.String c s, rest) | None => None end.

(** The rest of a string literal, after its opening quote. *)
Fixpoint parse_str (s : string) : option (string * string) :=
  match s with
  | EmptyString => None
  | String.String c s =>
      let n := N_of_ascii c in
      if (n =? 34)%N then Some ("", s)
      else if (n =? 92)%N then
        match s with
        | String.String e s =>
            if (N_of_ascii e =? 117)%N then
              match s with
              | String.String a (String.String b (String.String h (String.String l s))) =>
                  if ((N_of_ascii a =? 48) && (N_of_ascii b =? 48))%N then
                    match hex_value h, hex_value l with
                    | Some h, Some l => cons_char (ascii_of_N (16 * h + l)) (parse_str s)
                    | _, _ => None
                    end
                  else None
              | _ => None
              end
            else match unescape e with Some c => cons_char c (parse_str s) | None => None end
        | EmptyString => None
        end
      else if (n <? 32)%N then None
      else cons_char c (parse_str s)
  end.

(** Numbers: the longest run of the characters they are made of, checked. *)
Definition is_digit (c : ascii) : bool := let n := N_of_ascii c in ((48 <=? n) && (n <=? 57))%N.
Definition num_char (c : ascii) : bool :=
  let n := N_of_ascii c in is_digit c || (n =? 45)%N || (n =? 43)%N || (n =? 46)%N || (n =? 69)%N || (n =? 101)%N.

Fixpoint span (f : ascii -> bool) (s : string) : string * string :=
  match s with
  | EmptyString => ("", "")
  | String.String c s' => if f c then let '(a, b) := span f s' in (String.String c a, b) else ("", s)
  end.

Definition is_exponent (s : string) : bool :=
  match s with
  | EmptyString => true
  | String.String c s =>
      if ((N_of_ascii c =? 69) || (N_of_ascii c =? 101))%N then
        let s' := match s with
                  | String.String d s' => if ((N_of_ascii d =? 43) || (N_of_ascii d =? 45))%N then s' else s
                  | EmptyString => s
                  end in
        let '(a, b) := span is_digit s' in negb (String.eqb a "") && String.eqb b ""
      else false
  end.

Definition is_fraction (s : string) : bool :=
  match s with
  | String.String c s' =>
      if (N_of_ascii c =? 46)%N
      then let '(a, b) := span is_digit s' in negb (String.eqb a "") && is_exponent b
      else is_exponent s
  | EmptyString => true
  end.

Definition is_unsigned (s : string) : bool :=
  let '(a, b) := span is_digit s in
  match a with
  | EmptyString => false
  | String.String c a' => (negb (N_of_ascii c =? 48)%N || String.eqb a' "") && is_fraction b
  end.

Definition is_number (s : string) : bool :=
  match s with
  | String.String c s' => if (N_of_ascii c =? 45)%N then is_unsigned s' else is_unsigned s
  | EmptyString => false
  end.

Fixpoint strip (p s : string) : option string :=
  match p, s with
  | EmptyString, _ => Some s
  | String.String c p, String.String d s => if Ascii.eqb c d then strip p s else None
  | _, _ => None
  end.

Definition literal (s : string) : option (json * string) :=
  match strip "null" s, strip "true" s, strip "false" s with
  | Some r, _, _ => Some (JNull, r)
  | _, Some r, _ => Some (JBool true, r)
  | _, _, Some r => Some (JBool false, r)
  | None, None, None =>
      let '(a, b) := span num_char s in if is_number a then Some (JNum a, b) else None
  end.

(** The key of a member, with its colon. *)
Definition parse_key (s : string) : option (string * string) :=
  match strip quote s with
  | Some r => match parse_str r with
              | Some (k, r) => match strip ":" r with Some r => Some (k, r) | None => None end
              | None => None
              end
  | None => None
  end.

Fixpoint parse_value (n : nat) (s : string) {struct n} : option (json * string) :=
  match n with
  | O => None
  | S n =>
      match s with
      | EmptyString => None
      | String.String c r =>
          let k := N_of_ascii c in
          if (k =? 34)%N then match parse_str r with Some (t, r) => Some (JStr t, r) | None => None end
          else if (k =? 91)%N then
            match strip "]" r with
            | Some r => Some (JArr [], r)
            | None => match parse_elems n r with Some (l, r) => Some (JArr l, r) | None => None end
            end
          else if (k =? 123)%N then
            match strip "}" r with
            | Some r => Some (JObj [], r)
            | None => match parse_members n r with Some (l, r) => Some (JObj l, r) | None => None end
            end
          else literal s
      end
  end
with parse_elems (n : nat) (s : string) {struct n} : option (list json * string) :=
  match n with
  | O => None
  | S n =>
      match parse_value n s with
      | Some (v, r) =>
          match strip "," r, strip "]" r with
          | Some r, _ => match parse_elems n r with Some (l, r) => Some (v :: l, r) | None => None end
          | None, Some r => Some ([v], r)
          | None, None => None
          end
      | None => None
      end
  end
with parse_members (n : nat) (s : string) {struct n} : option (list (string * json) * string) :=
  match n with
  | O => None
  | S n =>
      match parse_key s with
      | Some (k, r) =>
          match parse_value n r with
          | Some (v, r) =>
              match strip "," r, strip "}" r with
              | Some r, _ => match parse_members n r with Some (l, r) => Some ((k, v) :: l, r) | None => None end
              | None, Some r => Some ([(k, v)], r)
              | None, None => None
              end
          | None => None
          end
      | None => None
      end
  end.

(** ** Strings *)
Lemma parse_escape_char c t : parse_str (escape_char c +:+ t) = cons_char c (parse_str t).
Proof. destruct c as [[] [] [] [] [] [] [] []]; reflexivity. Qed.

Lemma append_assoc (a b c : string) : (a +:+ b) +:+ c = a +:+ b +:+ c.
Proof. induction a as [|x a IH]; [done|]. exact (f_equal (String.String x) IH). Qed.

Lemma parse_escape s t : parse_str (escapeString s +:+ quote +:+ t) = Some (s, t).
Proof.
  induction s as [|c s IH]; [done|]. change (escapeString (String.String c s)) with (escape_char c +:+ escapeString s).
  rewrite append_assoc, parse_escape_char, IH. done.
Qed.

(** Text without a character to escape. *)
Definition plain (s : string) : bool := String.eqb (escapeString s) s.

Lemma parse_plain s t : plain s = true -> parse_str (s +:+ quote +:+ t) = Some (s, t).
Proof. intros H%String.eqb_eq. rewrite <- (parse_escape s t). by rewrite H. Qed.

Lemma hex_digit_char c : exists a b,
  hexChar (N.shiftr (N_of_ascii c) 4) = a /\ hexChar (N.land (N_of_ascii c) 15) = b /\
  escape_char a = String.String a "" /\ escape_char b = String.String b "".
Proof. destruct c as [[] [] [] [] [] [] [] []]; eexists _, _; (split; [reflexivity|]); (split; [reflexivity|]); split; reflexivity. Qed.

Lemma plain_hex b : plain (hex_encode b) = true.
Proof.
  unfold plain. apply String.eqb_eq. induction b as [|c b IH]; [done|]. simpl.
  destruct (hex_digit_char c) as (x & y & -> & -> & Hx & Hy). by rewrite Hx, Hy, IH.
Qed.

(** ** Numbers *)
Definition all_digits (s : string) : bool := forallb is_digit (String.list_ascii_of_string s).

Lemma span_all f s t : forallb f (String.list_ascii_of_string s) = true ->
  match t with String.String c _ => f c = false | EmptyString => True end -> span f (s +:+ t) = (s, t).
Proof.
  intros Hs Ht. induction s as [|c s IH]; simpl in *.
  - destruct t as [|c t]; [done|]. simpl. by rewrite Ht.
  - apply andb_true_iff in Hs as [-> Hs]. by rewrite IH.
Qed.

Lemma append_empty s : s +:+ "" = s.
Proof. induction s as [|c s IH]; [done|]. exact (f_equal (String.String c) IH). Qed.

Lemma uint_digits d : all_digits (NilEmpty.string_of_uint d) = true.
Proof. induction d; simpl; try done. Qed.

(** A number has no leading zero. *)
Lemma to_uint_head p d : Pos.to_uint p <> Decimal.D0 d.
Proof.
  intros E. assert (Decimal.unorm (Pos.to_uint p) = Pos.to_uint p) as Hn.
  { pose proof (DecimalZ.to_of (Z.to_int (Z.pos p))) as H. rewrite DecimalZ.of_to in H. simpl in H. by injection H as <-. }
  intros. rewrite E in Hn. unfold Decimal.unorm in Hn.
  destruct (Decimal.nzhead (Decimal.D0 d)) eqn:En; try discriminate Hn.
  - injection Hn as <-. by apply (Unsigned.to_uint_nonzero p).
  - by apply (nzhead_nonzero (Decimal.D0 d)) in En.
Qed.

Lemma unsigned_uint d : d <> Decimal.Nil -> (forall e, d = Decimal.D0 e -> e = Decimal.Nil) ->
  is_unsigned (NilEmpty.string_of_uint d) = true.
Proof.
  intros Hd H0. pose proof (uint_digits d) as H. unfold is_unsigned. unfold all_digits in H.
  rewrite <- (append_empty (NilEmpty.string_of_uint d)), (span_all _ _ ""); [|done|done].
  destruct d; try done. by rewrite (H0 _ eq_refl).
Qed.

Lemma is_number_FormatInt z : is_number (FormatInt z) = true.
Proof.
  unfold FormatInt. destruct z as [|p|p]; [done| |]; cbn [Z.to_int NilZero.string_of_int NilZero.string_of_uint];
    pose proof (Unsigned.to_uint_nonnil p) as Hn;
    assert (is_unsigned (NilEmpty.string_of_uint (Pos.to_uint p)) = true) as H
      by (apply unsigned_uint; [done|]; intros e E; by apply to_uint_head in E).
  - unfold is_number. destruct (Pos.to_uint p); try done; exact H.
  - unfold is_number. destruct (Pos.to_uint p); try done; exact H.
Qed.

Lemma num_chars_span s a b : span is_digit s = (a, b) ->
  forallb num_char (String.list_ascii_of_string b) = true -> forallb num_char (String.list_ascii_of_string s) = true.
Proof.
  revert a b. induction s as [|c s IH]; simpl; intros a b; [by intros [= <- <-]|].
  destruct (is_digit c) eqn:Ec; [|by intros [= <- <-]].
  destruct (span is_digit s) as [x y]. intros [= <- <-] Hb. rewrite (IH x y eq_refl Hb).
  unfold num_char. by rewrite Ec.
Qed.

Lemma num_chars_exponent s : is_exponent s = true -> forallb num_char (String.list_ascii_of_string s) = true.
Proof.
  destruct s as [|c s]; [done|]. unfold is_exponent.
  destruct ((N_of_ascii c =? 69) || (N_of_ascii c =? 101))%N eqn:Ec; [|done].
  intros H. assert (num_char c = true) as Hc.
  { unfold num_char. apply orb_true_iff in Ec as [-> | ->]; by rewrite ?orb_true_r. }
  simpl. rewrite Hc. simpl.
  assert (forall t, (let '(a, b) := span is_digit t in negb (String.eqb a "") && String.eqb b "") = true ->
            forallb num_char (String.list_ascii_of_string t) = true) as Hd.
  { intros t Ht. destruct (span is_digit t) as [a b] eqn:E. apply andb_true_iff in Ht as [_ ->%String.eqb_eq].
    by eapply num_chars_span. }
  destruct s as [|d s]; [by apply Hd|].
  destruct ((N_of_ascii d =? 43) || (N_of_ascii d =? 45))%N eqn:Ed; [|by apply Hd].
  simpl. rewrite (Hd _ H). unfold num_char. apply orb_true_iff in Ed as [-> | ->]; by rewrite ?orb_true_r.
Qed.

Lemma num_chars_unsigned s : is_unsigned s = true -> forallb num_char (String.list_ascii_of_string s) = true.
Proof.
  unfold is_unsigned. destruct (span is_digit s) as [a b] eqn:E. destruct a as [|c a]; [done|].
  intros [_ H]%andb_true_iff. eapply num_chars_span; [exact E|].
  unfold is_fraction in H. destruct b as [|x b]; [done|].
  destruct (N_of_ascii x =? 46)%N eqn:Ex; [|by apply num_chars_exponent].
  destruct (span is_digit b) as [a1 b1] eqn:E1. apply andb_true_iff in H as [_ H].
  simpl. rewrite (num_chars_span _ _ _ E1 (num_chars_exponent _ H)).
  unfold num_char. rewrite Ex. by rewrite ?orb_true_r.
Qed.

Lemma num_chars s : is_number s = true -> forallb num_char (String.list_ascii_of_string s) = true.
Proof.
  destruct s as [|c s]; [done|]. unfold is_number. destruct (N_of_ascii c =? 45)%N eqn:Ec; [|by apply num_chars_unsigned].
  intros H. simpl. rewrite (num_chars_unsigned _ H). unfold num_char. rewrite Ec. by rewrite ?orb_true_r.
Qed.

Lemma number_head s : is_number s = true -> exists c s', s = String.String c s' /\ (N_of_ascii c = 45%N \/ is_digit c = true).
Proof.
  destruct s as [|c s]; [done|]. intros H. exists c, s. split; [done|]. unfold is_number in H.
  destruct (N.eqb_spec (N_of_ascii c) 45); [by left|]. right.
  unfold is_unsigned in H. simpl in H. destruct (is_digit c); [done|]. done.
Qed.

(** What may follow a value: the end, a comma or a closing bracket. *)
Definition delim (t : string) : bool :=
  match t with
  | EmptyString => true
  | String.String c _ => let n := N_of_ascii c in (n =? 44)%N || (n =? 93)%N || (n =? 125)%N
  end.

Lemma delim_span t : delim t = true -> match t with String.String c _ => num_char c = false | EmptyString => True end.
Proof.
  destruct t as [|c t]; [done|]. simpl. unfold num_char, is_digit.
  intros [[->%N.eqb_eq | ->%N.eqb_eq]%orb_true_iff | ->%N.eqb_eq]%orb_true_iff; done.
Qed.

Lemma parse_number n s t : is_number s = true -> delim t = true -> parse_value (S n) (s +:+ t) = Some (JNum s, t).
Proof.
  intros Hs Ht. pose proof (span_all num_char s t (num_chars s Hs) (delim_span t Ht)) as Hsp.
  destruct (number_head s Hs) as (c & s' & -> & Hc).
  assert (literal (String.String c s' +:+ t) = Some (JNum (String.String c s'), t)) as Hl.
  { unfold literal. rewrite Hsp, Hs.
    assert (Ascii.eqb "n" c = false /\ Ascii.eqb "t" c = false /\ Ascii.eqb "f" c = false) as (H1 & H2 & H3).
    { repeat split; apply Ascii.eqb_neq; intros <-; by destruct Hc. }
    change (String.String c s' +:+ t) with (String.String c (s' +:+ t)). cbn [strip]. by rewrite H1, H2, H3. }
  simpl. simpl in Hl. rewrite Hl.
  assert (forall k, k = 34%N \/ k = 91%N \/ k = 123%N -> (N_of_ascii c =? k)%N = false) as Hk.
  { intros k Hk. apply N.eqb_neq. intros E. unfold is_digit in Hc. rewrite E in Hc.
    destruct Hk as [-> |[-> | ->]], Hc as [Hc|Hc]; try lia; done. }
  by rewrite !Hk by auto.
Qed.

(** ** The document a value stands for *)
Section view.
Context {Fl : Type} (FormatFloat : Fl -> string) (float_zero : Fl -> bool).
Variable level : Z.
Abbreviation gval := (gval Fl).
Abbreviation shown := (shown float_zero level).
Abbreviation writeValue := (writeValue FormatFloat float_zero level).

Fixpoint view (v : gval) : json :=
  let view_list := fun l =>
    if (maxLen <? length l)%nat
    then JObj [("len", JNum (FormatInt (Z.of_nat (length l)))); ("truncated", JBool true)]
    else JArr (map view l) in
  match v with
  | GNil => JNull
  | GPtr v => view v
  | GStruct fs =>
      JObj ((fix members (fs : list (field * gval)) : list (string * json) :=
        match fs with
        | [] => []
        | (f, v) :: fs => if shown f v then (f_name f, view v) :: members fs else members fs
        end) fs)
  | GBytes _ b => JStr (hex_encode b)
  | GSlice _ l | GArray l => view_list l
  | GMap _ l => JObj (map (fun kv => (formatBasicValue FormatFloat kv.1, view kv.2)) l)
  | GString s => JStr s
  | GInt z | GUint z => JNum (FormatInt z)
  | GFloat f => JNum (FormatFloat f)
  | GBool b => JBool b
  | GOther _ => JStr "<unsupported>"
  end.

(** No masked field is shown, field names need no escape (Go's identifiers do not), and
    the floats that are written are finite. *)
Fixpoint printable (v : gval) : bool :=
  let printable_list := fun l => if (maxLen <? length l)%nat then true else forallb printable l in
  match v with
  | GPtr v => printable v
  | GStruct fs =>
      forallb (fun fv => if shown fv.1 fv.2 then negb (masked fv.1) && plain (f_name fv.1) && printable fv.2 else true) fs
  | GSlice _ l | GArray l => printable_list l
  | GMap _ l => forallb (fun kv => printable kv.2) l
  | GFloat f => is_number (FormatFloat f)
  | _ => true
  end.

(** The depth of recursion the reader needs. *)
Fixpoint fuel (v : gval) : nat :=
  match v with
  | GPtr v => fuel v
  | GStruct fs => S (list_sum (map (fun fv => S (fuel fv.2)) fs))
  | GSlice _ l | GArray l => 5 + list_sum (map (fun v => S (fuel v)) l)
  | GMap _ l => S (list_sum (map (fun kv => S (fuel kv.2)) l))
  | _ => 1
  end.

(** Induction on values, through their lists. *)
Lemma gval_ind' (Q : gval -> Prop) :
  Q GNil -> (forall v, Q v -> Q (GPtr v)) -> (forall fs, Forall (fun fv => Q fv.2) fs -> Q (GStruct fs)) ->
  (forall n b, Q (GBytes n b)) -> (forall n l, Forall Q l -> Q (GSlice n l)) -> (forall l, Forall Q l -> Q (GArray l)) ->
  (forall n l, Forall (fun kv => Q kv.2) l -> Q (GMap n l)) ->
  (forall s, Q (GString s)) -> (forall z, Q (GInt z)) -> (forall z, Q (GUint z)) -> (forall f, Q (GFloat f)) ->
  (forall b, Q (GBool b)) -> (forall z, Q (GOther z)) -> forall v, Q v.
Proof.
  intros H1 H2 H3 H4 H5 H6 H7 H8 H9 H10 H11 H12 H13. fix IH 1.
  intros [|v|fs|n b|n l|l|n l|s|z|z|f|b|z];
    [exact H1|apply H2, IH|apply H3|apply H4|apply H5|apply H6|apply H7|apply H8|apply H9|apply H10|apply H11|apply H12|apply H13].
  - induction fs as [|[f v] fs IHl]; constructor; [apply IH|exact IHl].
  - induction l as [|v l IHl]; constructor; [apply IH|exact IHl].
  - induction l as [|v l IHl]; constructor; [apply IH|exact IHl].
  - induction l as [|[k v] l IHl]; constructor; [apply IH|exact IHl].
Qed.

(** ** The writer in terms of comma-separated items *)
Fixpoint items (needComma : bool) (l : list string) : string :=
  match l with [] => "" | x :: l => comma needComma +:+ x +:+ items true l end.

Definition member (kv : string * string) : string := quoted kv.1 +:+ ":" +:+ kv.2.

Definition shown_members (fs : list (field * gval)) : list (string * gval) :=
  (fun fv => (f_name fv.1, fv.2)) <$> filter (fun fv => shown fv.1 fv.2 = true) fs.

Definition list_text (l : list gval) : string :=
  if (maxLen <? length l)%nat
  then "{" +:+ quoted "len" +:+ ":" +:+ FormatInt (Z.of_nat (length l)) +:+ "," +:+ quoted "truncated" +:+ ":true}"
  else "[" +:+ items false (writeValue <$> l) +:+ "]".

Lemma write_slice_items b l :
  (fix writeSlice (needComma : bool) (l : list gval) : string :=
    match l with [] => "" | v :: l => comma needComma +:+ writeValue v +:+ writeSlice true l end) b l
  = items b (writeValue <$> l).
Proof.
  revert b. induction l as [|v l IH]; intros b; [done|].
  exact (f_equal (fun x => comma b +:+ writeValue v +:+ x) (IH true)).
Qed.

(** A member among items, with the text of the writer regrouped. *)
Lemma items_member b k t l :
  items b (member (k, t) :: l) = comma b +:+ quoted k +:+ ":" +:+ t +:+ items true l.
Proof. cbn [items]. unfold member. cbn [fst snd]. by rewrite !append_assoc. Qed.

Lemma writeValue_list l n : writeValue (GSlice n l) = list_text l /\ writeValue (GArray l) = list_text l.
Proof. unfold list_text. rewrite <- write_slice_items. done. Qed.

Lemma write_map_items b l :
  (fix writeMap (needComma : bool) (l : list (gval * gval)) : string :=
     match l with
     | [] => ""
     | (k, v) :: l =>
         comma needComma +:+ quoted (escapeString (formatBasicValue FormatFloat k)) +:+ ":" +:+ writeValue v +:+
         writeMap true l
     end) b l
  = items b ((fun kv => member (escapeString (formatBasicValue FormatFloat kv.1), writeValue kv.2)) <$> l).
Proof.
  revert b. induction l as [|[k v] l IH]; intros b; [done|]. rewrite fmap_cons, items_member.
  exact (f_equal (fun x => comma b +:+ quoted (escapeString (formatBasicValue FormatFloat k)) +:+ ":" +:+ writeValue v +:+ x) (IH true)).
Qed.

Lemma writeValue_map n l : writeValue (GMap n l) =
  "{" +:+ items false ((fun kv => member (escapeString (formatBasicValue FormatFloat kv.1), writeValue kv.2)) <$> l) +:+ "}".
Proof. rewrite <- write_map_items. done. Qed.

Fixpoint write_struct (needComma : bool) (fs : list (field * gval)) : string :=
  match fs with
  | [] => ""
  | (f, v) :: fs =>
      if shown f v then
        comma needComma +:+ quoted (f_name f) +:+ ":" +:+
        (if masked f then quote +:+ ":" +:+ quoted "***" else writeValue v) +:+ write_struct true fs
      else write_struct needComma fs
  end.

Lemma writeValue_fields fs : writeValue (GStruct fs) = "{" +:+ write_struct false fs +:+ "}".
Proof. done. Qed.

Lemma write_struct_items b fs : printable (GStruct fs) = true ->
  write_struct b fs
  = items b ((fun kv => member (kv.1, writeValue kv.2)) <$> shown_members fs).
Proof.
  cbn [printable]. revert b. induction fs as [|[f v] fs IH]; intros b Hp; [done|].
  cbn [forallb fst snd] in Hp. apply andb_true_iff in Hp as [Hf Hp].
  unfold shown_members in *. rewrite filter_cons. cbn [fst snd write_struct]. destruct (decide _) as [Hs|Hs].
  - rewrite Hs in *. apply andb_true_iff in Hf as [[Hm _]%andb_true_iff _]. apply negb_true_iff in Hm. rewrite Hm.
    rewrite !fmap_cons, items_member.
    exact (f_equal (fun x => comma b +:+ quoted (f_name f) +:+ ":" +:+ writeValue v +:+ x) (IH true Hp)).
  - apply not_true_iff_false in Hs. rewrite Hs. exact (IH b Hp).
Qed.

Lemma writeValue_struct fs : printable (GStruct fs) = true -> writeValue (GStruct fs) =
  "{" +:+ items false ((fun kv => member (kv.1, writeValue kv.2)) <$> shown_members fs) +:+ "}".
Proof. intros Hp. by rewrite writeValue_fields, write_struct_items. Qed.

Lemma view_struct fs : view (GStruct fs) = JObj ((fun kv => (kv.1, view kv.2)) <$> shown_members fs).
Proof.
  cbn [view]. f_equal. induction fs as [|[f v] fs IH]; [done|]. unfold shown_members in *. rewrite filter_cons. cbn [fst snd].
  destruct (decide _) as [Hs|Hs]; [rewrite Hs; cbn; by rewrite IH|]. apply not_true_iff_false in Hs. by rewrite Hs.
Qed.
(** Items separated by commas. *)
Fixpoint join (l : list string) : string :=
  match l with
  | [] => ""
  | x :: l => x +:+ match l with [] => "" | _ => "," +:+ join l end
  end.

Lemma items_join l : items false l = join l.
Proof.
  induction l as [|x [|y l] IH]; [done..|].
  exact (f_equal (fun r => x +:+ "," +:+ r) IH).
Qed.

Lemma join_one x t : join [x] +:+ t = x +:+ t.
Proof. simpl join. by rewrite append_empty. Qed.

Lemma join_cons x y l t : join (x :: y :: l) +:+ t = x +:+ "," +:+ join (y :: l) +:+ t.
Proof. change (join (x :: y :: l)) with (x +:+ "," +:+ join (y :: l)). by rewrite !append_assoc. Qed.
End view.

(** ** Reading text back *)

(** The text [x] is read as [j], given the fuel [f] at least, whatever follows. *)
Definition reads (f : nat) (x : string) (j : json) : Prop := forall n t, f <= n -> delim t = true ->
  parse_value n (x +:+ t) = Some (j, t).

Lemma parse_object n r : parse_value (S n) ("{" +:+ r) =
  match strip "}" r with
  | Some r => Some (JObj [], r)
  | None => match parse_members n r with Some (l, r) => Some (JObj l, r) | None => None end
  end.
Proof. done. Qed.

Lemma parse_array n r : parse_value (S n) ("[" +:+ r) =
  match strip "]" r with
  | Some r => Some (JArr [], r)
  | None => match parse_elems n r with Some (l, r) => Some (JArr l, r) | None => None end
  end.
Proof. done. Qed.

Lemma parse_quoted n r : parse_value (S n) (quote +:+ r) =
  match parse_str r with Some (t, r) => Some (JStr t, r) | None => None end.
Proof. done. Qed.

Lemma string_reads x s : (forall r, parse_str (x +:+ quote +:+ r) = Some (s, r)) -> reads 1 (quoted x) (JStr s).
Proof.
  intros H n t Hn _. destruct n as [|n]; [lia|]. unfold quoted. by rewrite !append_assoc, parse_quoted, H.
Qed.

Lemma number_reads s : is_number s = true -> reads 1 s (JNum s).
Proof. intros H n t Hn Ht. destruct n as [|n]; [lia|]. by apply parse_number. Qed.

Lemma bool_reads b : reads 1 (FormatBool b) (JBool b).
Proof. intros n t Hn _. destruct n as [|n]; [lia|]. by destruct b. Qed.

Lemma list_sum_cons x l : list_sum (x :: l) = x + list_sum l.
Proof. done. Qed.

(** Elements and members: the text, what it is read as, and the fuel that takes. *)
Record item := mkItem { i_text : string; i_json : json; i_fuel : nat }.
Definition item_reads (i : item) : Prop := reads (i_fuel i) (i_text i) (i_json i).

Lemma elems_read l : forall n t, Forall item_reads l -> l <> [] -> list_sum (map (fun i => S (i_fuel i)) l) <= n ->
  parse_elems n (join (map i_text l) +:+ "]" +:+ t) = Some (map i_json l, t).
Proof.
  induction l as [|i l IH]; intros n t Hf Hne Hn; [done|]. apply Forall_cons in Hf as [Hi Hl]. cbn [map] in Hn |- *.
  rewrite list_sum_cons in Hn. destruct n as [|n]; [lia|]. destruct l as [|i' l].
  - cbn [map]. rewrite join_one. cbn [parse_elems]. rewrite (Hi n ("]" +:+ t)) by (done || lia). done.
  - cbn [map] in IH |- *. rewrite join_cons. cbn [parse_elems]. rewrite (Hi n) by (done || lia).
    change (strip "," ("," +:+ ?x)) with (Some x). cbv beta iota.
    rewrite IH; [done|done|done|]. cbn [map] in *. lia.
Qed.

(** A key: its text between the quotes, and what that is read as. *)
Record keyed := mkKeyed { k_text : string; k_name : string; k_item : item }.
Definition keyed_text (k : keyed) : string := member (k_text k, i_text (k_item k)).
Definition keyed_reads (k : keyed) : Prop :=
  (forall r, parse_str (k_text k +:+ quote +:+ r) = Some (k_name k, r)) /\ item_reads (k_item k).

Lemma members_read l : forall n t, Forall keyed_reads l -> l <> [] ->
  list_sum (map (fun k => S (i_fuel (k_item k))) l) <= n ->
  parse_members n (join (map keyed_text l) +:+ "}" +:+ t) = Some (map (fun k => (k_name k, i_json (k_item k))) l, t).
Proof.
  induction l as [|k l IH]; intros n t Hf Hne Hn; [done|]. apply Forall_cons in Hf as [[Hk Hi] Hl].
  cbn [map] in Hn |- *. rewrite list_sum_cons in Hn. destruct n as [|n]; [lia|].
  assert (forall r, parse_key (keyed_text k +:+ r) = Some (k_name k, i_text (k_item k) +:+ r)) as Hm.
  { intros r. unfold keyed_text, member, quoted, parse_key. cbn [fst snd]. rewrite !append_assoc.
    change (strip quote (quote +:+ ?x)) with (Some x). cbv beta iota. by rewrite Hk. }
  destruct l as [|k' l].
  - cbn [map]. rewrite join_one. cbn [parse_members]. rewrite Hm, (Hi n ("}" +:+ t)) by (done || lia). done.
  - cbn [map] in IH |- *. rewrite join_cons. cbn [parse_members]. rewrite Hm, (Hi n) by (done || lia).
    change (strip "," ("," +:+ ?x)) with (Some x). cbv beta iota.
    rewrite IH; [done|done|done|]. cbn [map] in *. lia.
Qed.

(** The text of a value never begins with a closing bracket. *)
Lemma reads_no_close f x j t : 1 <= f -> reads f x j -> delim t = true -> strip "]" (x +:+ t) = None.
Proof.
  intros Hf Hx Ht. specialize (Hx f t (le_n _) Ht). destruct f as [|f]; [lia|].
  destruct (x +:+ t) as [|c r]; [done|]. cbn [strip].
  destruct (Ascii.eqb_spec "]"%char c) as [<-|]; [|done]. exfalso. discriminate Hx.
Qed.

Lemma array_reads l : Forall item_reads l -> Forall (fun i => 1 <= i_fuel i) l ->
  reads (S (list_sum (map (fun i => S (i_fuel i)) l))) ("[" +:+ join (map i_text l) +:+ "]") (JArr (map i_json l)).
Proof.
  intros Hl Hp n t Hn Ht. destruct n as [|n]; [lia|]. rewrite !append_assoc, parse_array.
  destruct l as [|i l]; [done|].
  assert (strip "]" (join (map i_text (i :: l)) +:+ "]" +:+ t) = None) as ->.
  { apply Forall_cons in Hl as [Hi _]. apply Forall_cons in Hp as [Hp _]. cbn [map]. destruct (map i_text l) as [|y ys].
    - rewrite join_one. by eapply reads_no_close.
    - rewrite join_cons. by eapply reads_no_close. }
  rewrite elems_read; [done|done|done|lia].
Qed.

Lemma object_reads l : Forall keyed_reads l ->
  reads (S (list_sum (map (fun k => S (i_fuel (k_item k))) l))) ("{" +:+ join (map keyed_text l) +:+ "}")
    (JObj (map (fun k => (k_name k, i_json (k_item k))) l)).
Proof.
  intros Hl n t Hn Ht. destruct n as [|n]; [lia|]. rewrite !append_assoc, parse_object.
  destruct l as [|k l]; [done|].
  assert (strip "}" (join (map keyed_text (k :: l)) +:+ "}" +:+ t) = None) as ->.
  { cbn [map]. destruct (map keyed_text l) as [|y ys]; [rewrite join_one|rewrite join_cons]; unfold keyed_text at 1, member, quoted;
      rewrite !append_assoc; done. }
  rewrite members_read; [done|done|done|lia].
Qed.

Lemma reads_le f g x j : f <= g -> reads f x j -> reads g x j.
Proof. intros Hf Hx n t Hn. apply Hx. lia. Qed.

Section correct.
Context {Fl : Type} (FormatFloat : Fl -> string) (float_zero : Fl -> bool).
Variable level : Z.
Abbreviation gval := (gval Fl).
Abbreviation writeValue := (writeValue FormatFloat float_zero level).
Abbreviation view := (view FormatFloat float_zero level).
Abbreviation printable := (printable FormatFloat float_zero level).
Abbreviation shown_members := (shown_members float_zero level).

Lemma fuel_pos (v : gval) : 1 <= fuel v.
Proof. induction v using gval_ind'; cbn [fuel]; lia. Qed.

Definition as_item (v : gval) : item := mkItem (writeValue v) (view v) (fuel v).

(** What stands for a long list. *)
Definition truncated (n : string) : list keyed :=
  [mkKeyed "len" "len" (mkItem n (JNum n) 1); mkKeyed "truncated" "truncated" (mkItem "true" (JBool true) 1)].

Lemma truncated_text n :
  "{" +:+ quoted "len" +:+ ":" +:+ n +:+ "," +:+ quoted "truncated" +:+ ":true}" =
  "{" +:+ join (map keyed_text (truncated n)) +:+ "}".
Proof. unfold truncated. cbn [map join]. unfold keyed_text, member, quoted. cbn [fst snd k_text k_item i_text]. by rewrite !append_assoc. Qed.

Lemma truncated_reads n : is_number n = true -> Forall keyed_reads (truncated n).
Proof.
  intros Hn. unfold truncated. apply Forall_cons; split; [|apply Forall_cons; split; [|done]]; split.
  1: by intros r; apply (parse_plain "len"). 2: by intros r; apply (parse_plain "truncated").
  - exact (number_reads n Hn).
  - exact (bool_reads true).
Qed.

Lemma list_reads (l : list gval) : Forall (fun v => printable v = true -> item_reads (as_item v)) l ->
  printable (GArray l) = true -> reads (fuel (GArray l)) (writeValue (GArray l)) (view (GArray l)).
Proof.
  intros Hl Hp. rewrite (proj2 (writeValue_list _ _ _ l false)). unfold list_text. cbn [view printable fuel] in *.
  destruct (maxLen <? length l)%nat.
  - rewrite truncated_text. eapply reads_le; [|apply object_reads, truncated_reads, is_number_FormatInt].
    cbn. lia.
  - rewrite items_join. assert (Forall item_reads (map as_item l)) as Hi.
    { apply Forall_map. rewrite forallb_forall in Hp. rewrite List.Forall_forall in Hl |- *. intros v Hv.
      by apply Hl, Hp. }
    pose proof (array_reads (map as_item l) Hi) as H. rewrite !map_map in H. cbn [i_text i_json i_fuel as_item] in H.
    eapply reads_le; [|apply H, Forall_map, Forall_true; intros v; apply fuel_pos]. lia.
Qed.

Definition as_keyed (k n : string) (v : gval) : keyed := mkKeyed k n (as_item v).

Lemma map_reads (l : list (gval * gval)) : Forall (fun kv => printable kv.2 = true -> item_reads (as_item kv.2)) l ->
  printable (GMap false l) = true -> reads (fuel (GMap false l)) (writeValue (GMap false l)) (view (GMap false l)).
Proof.
  intros Hl Hp. rewrite writeValue_map, items_join. cbn [view printable fuel] in *.
  set (key := fun kv : gval * gval => formatBasicValue FormatFloat kv.1).
  assert (Forall keyed_reads (map (fun kv => as_keyed (escapeString (key kv)) (key kv) kv.2) l)) as Hi.
  { apply Forall_map. rewrite forallb_forall in Hp. rewrite List.Forall_forall in Hl |- *. intros kv Hkv. split.
    - intros r. apply parse_escape.
    - by apply Hl, Hp. }
  pose proof (object_reads _ Hi) as H. rewrite !map_map in H. exact H.
Qed.

Lemma shown_members_cons f v fs : shown_members ((f, v) :: fs) =
  if shown float_zero level f v then (f_name f, v) :: shown_members fs else shown_members fs.
Proof.
  unfold LoggerSpec.shown_members. rewrite filter_cons. cbn [fst snd]. destruct (decide _) as [Hs|Hs]; [by rewrite Hs|].
  apply not_true_iff_false in Hs. by rewrite Hs.
Qed.

Lemma shown_members_fuel fs :
  (list_sum (map (fun kv => S (fuel kv.2)) (shown_members fs)) <= list_sum (map (fun fv => S (fuel fv.2)) fs))%nat.
Proof.
  induction fs as [|[f v] fs IH]; [done|]. rewrite shown_members_cons. cbn [map]. rewrite list_sum_cons.
  destruct (shown float_zero level f v); [|lia]. cbn [map fst snd]. rewrite list_sum_cons. cbn [fst snd]. lia.
Qed.

Lemma shown_members_read fs : Forall (fun fv => printable fv.2 = true -> item_reads (as_item fv.2)) fs ->
  printable (GStruct fs) = true -> Forall keyed_reads (map (fun kv => as_keyed kv.1 kv.1 kv.2) (shown_members fs)).
Proof.
  cbn [printable]. induction fs as [|[f v] fs IH]; intros Hl Hp; [done|]. apply Forall_cons in Hl as [Hv Hl].
  cbn [forallb fst snd] in Hp. apply andb_true_iff in Hp as [Hp1 Hp]. specialize (IH Hl Hp). rewrite shown_members_cons.
  destruct (shown float_zero level f v); [|done]. apply andb_true_iff in Hp1 as [[_ Hpl]%andb_true_iff Hpv].
  apply Forall_cons; split; [|done]. split; [intros r; by apply parse_plain|by apply Hv].
Qed.

Lemma struct_reads (fs : list (field * gval)) : Forall (fun fv => printable fv.2 = true -> item_reads (as_item fv.2)) fs ->
  printable (GStruct fs) = true -> reads (fuel (GStruct fs)) (writeValue (GStruct fs)) (view (GStruct fs)).
Proof.
  intros Hl Hp. rewrite writeValue_struct by done. rewrite view_struct, items_join.
  pose proof (object_reads _ (shown_members_read fs Hl Hp)) as H. rewrite !map_map in H.
  eapply reads_le; [|exact H]. cbn [fuel]. apply le_n_S. etransitivity; [|apply shown_members_fuel]. done.
Qed.

Lemma value_reads (v : gval) : printable v = true -> reads (fuel v) (writeValue v) (view v).
Proof.
  induction v as [|v IH|fs IH|n b|n l IH|l IH|n l IH|s|z|z|f|b|z] using gval_ind'; intros Hp.
  - intros n t Hn _. destruct n as [|n]; [cbn in Hn; lia|done].
  - exact (IH Hp).
  - by apply struct_reads.
  - apply string_reads. intros r. apply parse_plain, plain_hex.
  - exact (list_reads l IH Hp).
  - exact (list_reads l IH Hp).
  - exact (map_reads l IH Hp).
  - apply string_reads, parse_escape.
  - apply number_reads, is_number_FormatInt.
  - apply number_reads, is_number_FormatInt.
  - by apply number_reads.
  - apply bool_reads.
  - apply string_reads. intros r. by apply (parse_plain "<unsupported>").
Qed.

Lemma StructToJSONString_writeValue (v : gval) : StructToJSONString FormatFloat float_zero v level = writeValue v.
Proof. induction v using gval_ind'; done. Qed.

(** C33. What [StructToJSONString] writes for a value with no masked field shown, plain
    field names and finite floats is one JSON document, and a reader gets back the document
    the value stands for: strings with the very characters they have, numbers with their
    digits, the shown fields of a struct by name and in order, a list longer than 1000 by
    its length. *)
Theorem writes_json (v : gval) n : printable v = true -> fuel v <= n ->
  parse_value n (StructToJSONString FormatFloat float_zero v level) = Some (view v, "").
Proof.
  intros Hp Hn. rewrite StructToJSONString_writeValue. rewrite <- (append_empty (writeValue v)).
  by apply (value_reads v Hp).
Qed.

(** ** Secrets *)

(** What is left of a value that must not be shown: whether it is its type's zero. *)
Definition hide (v : gval) : gval := if IsZero float_zero v then GNil else GOther false.

Definition secret (f : field) : bool :=
  skip (getFieldOptions (f_tag f)) || masked f || f_unexported f.

Fixpoint scrub (v : gval) : gval :=
  match v with
  | GPtr v => GPtr (scrub v)
  | GStruct fs => GStruct (map (fun fv => (fv.1, if secret fv.1 then hide fv.2 else scrub fv.2)) fs)
  | GSlice b l => GSlice b (map scrub l)
  | GArray l => GArray (map scrub l)
  | GMap b l => GMap b (map (fun kv => (kv.1, scrub kv.2)) l)
  | v => v
  end.

Lemma IsZero_hide v : IsZero float_zero (hide v) = IsZero float_zero v.
Proof. unfold hide. by destruct (IsZero float_zero v). Qed.

Lemma IsZero_scrub v : IsZero float_zero (scrub v) = IsZero float_zero v.
Proof.
  induction v as [|v IH|fs IH|n b|n l IH|l IH|n l IH|s|z|z|f|b|z] using gval_ind'; try done; cbn [scrub IsZero].
  - induction IH as [|[f v] fs Hv _ IH]; [done|]. cbn [map forallb fst snd]. rewrite IH. f_equal.
    destruct (secret f); [apply IsZero_hide|done].
  - induction IH as [|v l Hv _ IH]; [done|]. cbn [map forallb]. by rewrite IH, Hv.
Qed.

Lemma shown_scrub f v : shown float_zero level f (if secret f then hide v else scrub v) = shown float_zero level f v.
Proof. unfold shown. destruct (secret f); by rewrite ?IsZero_hide, ?IsZero_scrub. Qed.

Lemma shown_not_secret f v : shown float_zero level f v = true -> masked f = false -> secret f = false.
Proof.
  unfold shown, secret, CanInterface. intros H Hm. rewrite Hm. rewrite !andb_true_iff, !negb_true_iff in H.
  destruct H as [[[[_ ->] ->] _] _]. done.
Qed.

Lemma list_text_scrub l : Forall (fun v => writeValue (scrub v) = writeValue v) l ->
  list_text FormatFloat float_zero level (map scrub l) = list_text FormatFloat float_zero level l.
Proof.
  intros H. unfold list_text. rewrite length_map. assert (writeValue <$> map scrub l = writeValue <$> l) as ->; [|done].
  induction H as [|v l Hv _ IH]; [done|]. cbn [map]. by rewrite !fmap_cons, Hv, IH.
Qed.

Lemma write_struct_scrub fs b : Forall (fun fv => writeValue (scrub fv.2) = writeValue fv.2) fs ->
  write_struct FormatFloat float_zero level b (map (fun fv => (fv.1, if secret fv.1 then hide fv.2 else scrub fv.2)) fs) =
  write_struct FormatFloat float_zero level b fs.
Proof.
  intros H. revert b. induction H as [|[f v] fs Hv _ IH]; intros b; [done|]. cbn [snd] in Hv. cbn [map fst snd write_struct].
  rewrite shown_scrub. destruct (shown float_zero level f v) eqn:Hs; [|apply IH]. rewrite IH. do 3 f_equal.
  destruct (masked f) eqn:Hm; [done|]. by rewrite (shown_not_secret f v Hs Hm), Hv.
Qed.

Lemma writeValue_scrub v : writeValue (scrub v) = writeValue v.
Proof.
  induction v as [|v IH|fs IH|n b|n l IH|l IH|n l IH|s|z|z|f|b|z] using gval_ind'; try done; cbn [scrub].
  - rewrite !writeValue_fields. by rewrite write_struct_scrub.
  - rewrite !(proj1 (writeValue_list _ _ _ _ _)). by apply list_text_scrub.
  - rewrite !(proj2 (writeValue_list _ _ _ _ false)). by apply list_text_scrub.
  - rewrite !writeValue_map. do 3 f_equal.
    induction IH as [|[k v] l Hv _ IH]; [done|]. cbn [map snd] in Hv |- *. rewrite !fmap_cons. cbn [fst snd]. by rewrite IH, Hv.
Qed.

(** C32. No secret reaches the log. Take two values that differ only in struct fields
    tagged to be masked or skipped, or unexported, at any depth (what such fields hold is
    forgotten by [scrub], but for being zero, which [omitempty] looks at): the same text is
    written for both, at every level. *)
Theorem log_hides_secrets (v w : gval) : scrub v = scrub w ->
  StructToJSONString FormatFloat float_zero v level = StructToJSONString FormatFloat float_zero w level.
Proof.
  intros H. rewrite !StructToJSONString_writeValue. rewrite <- (writeValue_scrub v), <- (writeValue_scrub w).
  by rewrite H.
Qed.

(** ** One line per record *)
Definition one_line (s : string) : bool := forallb (fun c => negb (Ascii.eqb c "010")) (String.list_ascii_of_string s).

Lemma one_line_app a b : one_line (a +:+ b) = one_line a && one_line b.
Proof. induction a as [|c a IH]; [done|]. unfold one_line in *. simpl. by rewrite IH, andb_assoc. Qed.

Lemma one_line_escape s : one_line (escapeString s) = true.
Proof.
  induction s as [|c s IH]; [done|]. change (escapeString (String.String c s)) with (escape_char c +:+ escapeString s).
  rewrite one_line_app, IH, andb_true_r. destruct c as [[] [] [] [] [] [] [] []]; reflexivity.
Qed.

Lemma one_line_hex b : one_line (hex_encode b) = true.
Proof. pose proof (plain_hex b) as H. apply String.eqb_eq in H. rewrite <- H. apply one_line_escape. Qed.

Lemma one_line_number s : is_number s = true -> one_line s = true.
Proof.
  intros H%num_chars. unfold one_line. rewrite forallb_forall in H |- *. intros c Hc. specialize (H c Hc).
  apply negb_true_iff, Ascii.eqb_neq. intros ->. done.
Qed.

(** Field names and floats take one line. *)
Fixpoint inline (v : gval) : bool :=
  match v with
  | GPtr v => inline v
  | GStruct fs => forallb (fun fv => one_line (f_name fv.1) && inline fv.2) fs
  | GSlice _ l | GArray l => forallb inline l
  | GMap _ l => forallb (fun kv => inline kv.2) l
  | GFloat f => one_line (FormatFloat f)
  | _ => true
  end.

Lemma one_line_items l b : Forall (fun x => one_line x = true) l -> one_line (items b l) = true.
Proof. intros H. revert b. induction H as [|x l Hx _ IH]; intros b; [done|]. cbn [items]. rewrite !one_line_app, Hx, IH. by destruct b. Qed.

Lemma one_line_quoted s : one_line (quoted s) = one_line s.
Proof. unfold quoted. rewrite !one_line_app. change (one_line quote) with true. by rewrite andb_true_r. Qed.

Lemma one_line_list l : Forall (fun v => inline v = true -> one_line (writeValue v) = true) l -> forallb inline l = true ->
  one_line (list_text FormatFloat float_zero level l) = true.
Proof.
  intros Hl Hi. unfold list_text. destruct (maxLen <? length l)%nat.
  - rewrite !one_line_app, !one_line_quoted, (one_line_number (FormatInt _)) by apply is_number_FormatInt. done.
  - rewrite !one_line_app, one_line_items; [done|]. apply Forall_fmap. rewrite forallb_forall in Hi.
    rewrite List.Forall_forall in Hl |- *. intros v Hv. by apply Hl, Hi.
Qed.

Lemma one_line_struct fs b : Forall (fun fv => inline fv.2 = true -> one_line (writeValue fv.2) = true) fs ->
  inline (GStruct fs) = true -> one_line (write_struct FormatFloat float_zero level b fs) = true.
Proof.
  cbn [inline]. intros H. revert b. induction H as [|[f v] fs Hv _ IH]; intros b Hi; [done|]. cbn [snd] in Hv.
  cbn [forallb fst snd] in Hi. apply andb_true_iff in Hi as [[Hn Hi]%andb_true_iff Hr]. cbn [write_struct].
  destruct (shown float_zero level f v); [|by apply IH]. rewrite !one_line_app, one_line_quoted, Hn, (IH true Hr).
  destruct b, (masked f); rewrite ?(Hv Hi); done.
Qed.

Lemma one_line_value v : inline v = true -> one_line (writeValue v) = true.
Proof.
  induction v as [|v IH|fs IH|n b|n l IH|l IH|n l IH|s|z|z|f|b|z] using gval_ind'; intros Hi.
  - done.
  - exact (IH Hi).
  - rewrite writeValue_fields, !one_line_app, one_line_struct by done. done.
  - change (one_line (quoted (hex_encode b)) = true). rewrite one_line_quoted. apply one_line_hex.
  - rewrite (proj1 (writeValue_list _ _ _ _ _)). by apply one_line_list.
  - rewrite (proj2 (writeValue_list _ _ _ _ false)). by apply one_line_list.
  - rewrite writeValue_map, !one_line_app, one_line_items; [done|]. apply Forall_fmap. cbn [inline] in Hi.
    rewrite forallb_forall in Hi. rewrite List.Forall_forall in IH |- *. intros kv Hkv. unfold compose, member. cbn [fst snd].
    rewrite !one_line_app, one_line_quoted, one_line_escape, (IH kv Hkv (Hi kv Hkv)). done.
  - change (one_line (quoted (escapeString s)) = true). rewrite one_line_quoted. apply one_line_escape.
  - apply one_line_number, is_number_FormatInt.
  - apply one_line_number, is_number_FormatInt.
  - exact Hi.
  - by destruct b.
  - done.
Qed.
End correct.

(** ** The cache of the field lists

    A cache that only holds what was computed answers what would be computed, and stays
    one; the list names the fields that are kept, in order, each with its index. *)
Definition cache_ok {Ty} `{Countable Ty} (fields : Ty -> list field) (cache : gmap Ty (list fieldMeta)) : Prop :=
  forall t ms, cache !! t = Some ms -> ms = metas_of (fields t).

Theorem getFieldMetas_memo {Ty} `{Countable Ty} (fields : Ty -> list field) t cache :
  cache_ok fields cache ->
  (getFieldMetas fields t cache).2 = metas_of (fields t) /\ cache_ok fields (getFieldMetas fields t cache).1.
Proof.
  intros Hc. unfold getFieldMetas. destruct (cache !! t) as [ms|] eqn:E; [by apply Hc in E as ->|]. split; [done|].
  intros t' ms H'. cbn [fst] in H'. apply lookup_insert_Some in H' as [[<- <-]|[_ H']]; [done|by apply Hc].
Qed.

Lemma metas_of_kept fs m :
  m ∈ metas_of fs <->
  exists f, fs !! Index m = Some f /\ is_meta f = true /\ m = mkMeta (f_name f) (Index m) (getFieldOptions (f_tag f)).
Proof.
  unfold metas_of. rewrite list_elem_of_omap. split.
  - intros (o & Ho & Hid). apply list_elem_of_lookup in Ho as [i Hi]. rewrite list_lookup_imap in Hi.
    destruct (fs !! i) as [f|] eqn:Ef; [|done]. injection Hi as <-. unfold id, field_meta in Hid.
    destruct (is_meta f) eqn:Em; [|done]. injection Hid as <-. by exists f.
  - intros (f & Hf & Hm & E). exists (Some m). split; [|done]. apply list_elem_of_lookup. exists (Index m).
    rewrite list_lookup_imap, Hf. simpl. unfold field_meta. by rewrite Hm, <- E.
Qed.

Section records.
Context {Fl : Type} (FormatFloat : Fl -> string) (float_zero : Fl -> bool).
Context {Writer World Err : Type} (Write : Writer -> string -> World -> World * Err) (level_String : Z -> string).

(** The parts of a record that are written as they are. *)
Definition inline_record (r : Record_ (Fl := Fl)) (h : TracingHandler (Writer := Writer)) : bool :=
  one_line (time_text r) && one_line (level_String (Level r)) && one_line (tag h) && one_line (Message r) &&
  forallb (fun a => one_line (attr_key a) && inline FormatFloat (attr_any a)) (Attrs r).

Lemma one_line_attrs level (l : list (Attr (Fl := Fl))) :
  forallb (fun a => one_line (attr_key a) && inline FormatFloat (attr_any a)) l = true ->
  one_line (String.concat "" (write_attr FormatFloat float_zero level <$> l)) = true.
Proof.
  induction l as [|a l IH]; intros H; [done|]. cbn [forallb] in H. apply andb_true_iff in H as [[Hk Hv]%andb_true_iff Hl].
  assert (one_line (write_attr FormatFloat float_zero level a) = true) as Ha.
  { unfold write_attr. rewrite !one_line_app, Hk, StructToJSONString_writeValue, one_line_value by done. done. }
  specialize (IH Hl). rewrite fmap_cons. revert IH. generalize (write_attr FormatFloat float_zero level <$> l). intros [|x y] IH; [exact Ha|].
  cbn [String.concat] in IH |- *. rewrite !one_line_app, Ha. exact IH.
Qed.

Lemma one_line_level l : one_line (level_String l) = true -> one_line (levelAbbr level_String l) = true.
Proof. intros H. unfold levelAbbr. by repeat destruct (_ =? _)%Z. Qed.

(** A record makes one line: the text given to the handler's writer, in one call, is
    one line feed at the end of text without any, whatever the strings in the attribute
    values hold, provided the tag, the message and the attribute keys, which are written
    as they are, have no line feed. *)
Theorem Handle_one_line (r : Record_) (h : TracingHandler) (w : World) : inline_record r h = true ->
  exists text, one_line text = true /\ Handle FormatFloat float_zero Write level_String r h w = Write (out h) (text +:+ newline) w.
Proof.
  unfold inline_record. rewrite !andb_true_iff. intros [[[[Ht Hl] Hg] Hm] Ha].
  eexists (time_text r +:+ " " +:+ levelAbbr level_String (Level r) +:+ " " +:+ tag h +:+ " " +:+ Message r +:+
    String.concat "" (write_attr FormatFloat float_zero (Level r) <$> Attrs r)). split.
  - rewrite !one_line_app, Ht, Hg, Hm, one_line_level, one_line_attrs by done. done.
  - unfold Handle, line. by rewrite !append_assoc.
Qed.
End records.

(** ** Concrete values *)
Definition account (password : string) : gval Z :=
  GPtr (GStruct
    [(mkField "Name" false false "", GString ("a" +:+ quote +:+ newline));
     (mkField "Password" false false "omitempty,mask", GString password);
     (mkField "Trace" false false "-", GBytes false "x");
     (mkField "Scores" false false "", GSlice false [GInt (-5); GBool true; GNil]);
     (mkField "Tags" false false "omitempty", GMap false [(GUint 7, GFloat 25%Z)])]).

(** A value without a password shows nothing masked, and reads back. *)
Example writes_json_witness :
  printable FormatInt (Z.eqb 0) 0 (account "") = true /\
  parse_value 30 (StructToJSONString FormatInt (Z.eqb 0) (account "") 0) =
    Some (JObj [("Name", JStr ("a" +:+ quote +:+ newline)); ("Scores", JArr [JNum "-5"; JBool true; JNull]);
                ("Tags", JObj [("7", JNum "25")])], "").
Proof.
  split; [vm_compute; reflexivity|].
  rewrite (writes_json FormatInt (Z.eqb 0) 0 (account "") 30); [reflexivity|vm_compute; reflexivity|apply Nat.leb_le; vm_compute; reflexivity].
Defined.

Example log_hides_secrets_witness :
  scrub (Z.eqb 0) (account "one") = scrub (Z.eqb 0) (account "two") /\
  StructToJSONString FormatInt (Z.eqb 0) (account "one") 0 = StructToJSONString FormatInt (Z.eqb 0) (account "two") 0.
Proof. split; [vm_compute; reflexivity|]. apply (log_hides_secrets FormatInt (Z.eqb 0) 0). vm_compute. reflexivity. Defined.

(** A writer that appends, and a record whose attribute value holds a line feed. *)
Definition append_line (_ : unit) (s : string) (w : list string) : list string * bool := ((w ++ [s])%list, true).
Definition record1 : Record_ (Fl := Z) :=
  mkRecord "0102.150405.000" 4 "signed in" [mkAttr "who" (account "secret") "{}"].

Example Handle_one_line_witness :
  let h := WithAttrs [mkAttr (Fl := Z) "logtag" (GString "n1") "n1"] (NewTracingHandler tt 0) in
  inline_record FormatInt (fun _ => "LVL") record1 h = true /\
  exists text, one_line text = true /\
    Handle FormatInt (Z.eqb 0) append_line (fun _ => "LVL") record1 h ["first"] = (["first"; text +:+ newline], true).
Proof.
  intros h. assert (inline_record FormatInt (fun _ => "LVL") record1 h = true) as H by (vm_compute; reflexivity).
  split; [exact H|]. destruct (Handle_one_line FormatInt (Z.eqb 0) append_line (fun _ => "LVL") record1 h ["first"] H) as (text & H1 & H2).
  exists text. split; [exact H1|exact H2].
Defined.

(** ** What modelling showed *)

(** The text written for a masked field is not JSON: its colon is written twice. *)
Remark masked_not_json : forall n,
  n = 30%nat -> parse_value n (StructToJSONString FormatInt (Z.eqb 0) (account "secret") 0) = None.
Proof. intros n ->. vm_compute. reflexivity. Qed.

(** A field tagged for debugging is left out of the lines of level debug and written on
    all others. *)
Remark debug_inverted {Fl} (float_zero : Fl -> bool) name (v : gval Fl) level :
  shown float_zero level (mkField name false false "debug") v = negb (level <=? LevelDebug)%Z.
Proof. done. Qed.
