(* ===== verification/YamlDriver.v ===== *)
(** * The YAML file driver

    grain/driver_yaml.go: one file per grain, on the disk of FileDriver. A renewal edits
    the document tree in place; a forced release carries the data node over. The package
    yaml.v3 is the class [Yaml]; of its [Node] the fields the driver reads or writes are
    kept. *)

From S2P Require Import Prelude ActorTypes Lease FileDriver.

Local Open Scope string_scope.

(** ** YAML *)
Inductive NodeKind := NoKind | DocumentNode | SequenceNode | MappingNode | ScalarNode | AliasNode.

#[warnings="-register-all"]
Inductive Node := mkNode (Kind : NodeKind) (Tag Value : string) (Content : list Node).

Definition Kind (n : Node) : NodeKind := let 'mkNode k _ _ _ := n in k.
Definition Value (n : Node) : string := let 'mkNode _ _ v _ := n in v.
Definition Content (n : Node) : list Node := let 'mkNode _ _ _ c := n in c.

#[export] Instance NodeKind_eq_dec : EqDecision NodeKind.
Proof. solve_decision. Defined.

(** [yaml.Node{}] *)
Definition zero_node : Node := mkNode NoKind "" "" [].

(** What the package does: the decoding of a file into a document with the fields
    [generation] and [data] (a node), or into its tree; [Node.Decode] into a snapshot
    (into a nil pointer it may panic, [None]); the encoding of such documents and of
    trees. An encoder writes text, and may end with an error. *)
Class Yaml (P : Type) : Type := {
  decode_doc : string -> (Z * Node) + error;
  decode_tree : string -> Node + error;
  decode_node : Node -> P -> P * option error;
  decode_nil : Node -> option (option error);
  encode_value : Z -> P -> string * option error;
  encode_data : Z -> option Node -> string * option error;
  encode_tree : Node -> string * option error;
}.

Definition str_node (s : string) : Node := mkNode ScalarNode "!!str" s [].
Definition int_node (z : Z) : Node := mkNode ScalarNode "!!int" (FormatInt z) [].
Definition null_node : Node := mkNode ScalarNode "!!null" "null" [].

(** The tree of a document with both fields. *)
Definition doc_tree (g : Z) (n : Node) : Node :=
  mkNode DocumentNode "" "" [mkNode MappingNode "!!map" "" [str_node "generation"; int_node g; str_node "data"; n]].

(** The text [s] is the document of the generation [g] and the node [n]. *)
Definition is_doc {P} `{!Yaml P} (s : string) (g : Z) (n : Node) : Prop :=
  decode_tree s = inl (doc_tree g n) /\ decode_doc s = inl (g, n).

(** Documents decode to what was encoded; [valid] are the nodes that decoding yields, and
    they are encoded and decoded unchanged; a missing node is null. [yaml_zero] is the zero
    value; the snapshot type is one whose YAML form is complete. *)
Class YamlLaws (P : Type) `{!Yaml P} : Type := {
  yaml_zero : P;
  valid : Node -> Prop;
  value_doc g p s : encode_value g p = (s, None) ->
    exists n, valid n /\ is_doc s g n /\ decode_node n yaml_zero = (p, None);
  data_doc g n : valid n -> exists s, encode_data g (Some n) = (s, None) /\ is_doc s g n;
  tree_doc g n : valid n -> exists s, encode_tree (doc_tree g n) = (s, None) /\ is_doc s g n;
  missing_doc g n : n = None \/ n = Some zero_node -> exists s, encode_data g n = (s, None) /\ is_doc s g null_node;
  valid_null : valid null_node;
  null_decodes p : exists p', decode_node null_node p = (p', None);
}.

(** ** The driver *)
Record YamlDriver := mkYamlDriver { dir : string }.
Definition NewYamlDriver (dir : string) : YamlDriver := mkYamlDriver dir.

Section driver.
(** [filepath.Join] and [filepath.Dir]. *)
Context (Join : list string -> string) (Dir : string -> string).

Definition filePath (d : YamlDriver) (actorType id : string) : string := Join [dir d; actorType; id +:+ ".yaml"].

(** Creating a file and encoding into it: the file is truncated first, and holds what
    the encoder wrote before an error. *)
Definition create_encode (path : string) (out : string * option error) (w : disk) : disk * option error :=
  match os_Create path w with
  | inr e => (w, Some e)
  | inl w1 =>
      let '(w2, err) := file_Write path out.1 w1 in
      (w2, match err with Some e => Some e | None => out.2 end)
  end.

Section snapshot.
Context {P : Type} `{!Yaml P}.

Definition Load (d : YamlDriver) (w : disk) (actorType id owner : string) (dst : option P)
    : option P * option (option LeaseInfo * option error) :=
  let path := filePath d actorType id in
  match os_Open path w with
  | inr e =>
      if not_exist path w then (dst, Some (Some (mkLease id owner 1), Some ErrNotFound))
      else (dst, Some (None, Some e))
  | inl f =>
      match decode_doc f with
      | inr e => (dst, Some (None, Some e))
      | inl (Generation_, Data) =>
          let finish (e : option error) :=
            match e with
            | Some e => (None, Some e)
            | None => (Some (mkLease id owner (wrap64 (Generation_ + 1))), None)
            end in
          match dst with
          | None => (dst, finish <$> decode_nil Data)
          | Some p => let '(p', e) := decode_node Data p in (Some p', Some (finish e))
          end
      end
  end.

(** The edit of [renewOnlyYaml]: every value of the key [generation] at the top. *)
Definition set_int (gen : Z) (val : Node) : Node :=
  let 'mkNode k _ _ c := val in mkNode k "!!int" (FormatInt gen) c.

Fixpoint renew_pairs (gen : Z) (content : list Node) : list Node :=
  match content with
  | key :: val :: content =>
      key :: (if String.eqb (Value key) "generation" then set_int gen val else val) :: renew_pairs gen content
  | _ => content
  end.

Definition renew_mapping (gen : Z) (mapping : Node) : Node :=
  let 'mkNode k t v c := mapping in
  if decide (k = MappingNode) then mkNode k t v (renew_pairs gen c) else mapping.

Definition renew_root (gen : Z) (root : Node) : Node :=
  match root with
  | mkNode DocumentNode t v (mapping :: rest) => mkNode DocumentNode t v (renew_mapping gen mapping :: rest)
  | _ => renew_mapping gen root
  end.

Definition writeRenewDoc (path : string) (gen : Z) (data : option Node) (w : disk) : disk * option error :=
  create_encode path (encode_data gen data) w.

Definition renewOnlyYaml (path : string) (gen : Z) (w : disk) : disk * option error :=
  match os_Open path w with
  | inr e => if not_exist path w then writeRenewDoc path gen None w else (w, Some e)
  | inl f =>
      match decode_tree f with
      | inr e => (w, Some e)
      | inl root => create_encode path (encode_tree (renew_root gen root)) w
      end
  end.

Definition Save (d : YamlDriver) (w : disk) (actorType id : string) (src : option P) (gen : Z) : disk * option error :=
  let path := filePath d actorType id in
  match os_MkdirAll (Dir path) w with
  | Some e => (w, Some e)
  | None =>
      match src with
      | None => renewOnlyYaml path gen w
      | Some p => create_encode path (encode_value gen p) w
      end
  end.

Definition Release (d : YamlDriver) (w : disk) (actorType id : string) (gen : Z) : disk * option error :=
  let path := filePath d actorType id in (w, None).

Definition writeForceReleaseYaml (path : string) (gen : Z) (data : Node) (w : disk) : disk * option error :=
  create_encode path (encode_data gen (Some data)) w.

Definition ForceRelease (d : YamlDriver) (w : disk) (actorType id : string) : disk * (Z * option error) :=
  let path := filePath d actorType id in
  match os_MkdirAll (Dir path) w with
  | Some e => (w, (0%Z, Some e))
  | None =>
      match os_Open path w with
      | inr e =>
          if not_exist path w then
            let '(w1, err) := writeForceReleaseYaml path 1 zero_node w in (w1, (1%Z, err))
          else (w, (0%Z, Some e))
      | inl f =>
          match decode_doc f with
          | inr e => (w, (0%Z, Some e))
          | inl (Generation_, Data) =>
              let newGen := wrap64 (Generation_ + 1) in
              let '(w1, err) := writeForceReleaseYaml path newGen Data w in (w1, (newGen, err))
          end
      end
  end.

(** The context and the owner are ignored. *)
#[export] Instance yaml_driver : Driver YamlDriver disk P := {|
  driver_Load d w _ t i o dst := let '(dst', x) := Load d w t i o dst in (w, dst', x);
  driver_Save d w _ t i _ src gen := Save d w t i src gen;
  driver_Release d w _ t i _ gen := Release d w t i gen;
  driver_ForceRelease d w _ t i := ForceRelease d w t i;
|}.
End snapshot.
End driver.
