(* ===== verification/YamlSpec.v ===== *)
(** * The YAML file driver keeps what it saved *)

From Stdlib Require Import Ascii.
From S2P Require Import Prelude ActorTypes Lease FileDriver FileSpec YamlDriver.

Local Open Scope string_scope.

Section YamlSpec.
Context (Join : list string -> string) (Dir : string -> string).
Context {P : Type} `{!Yaml P, !YamlLaws P}.
Implicit Types (w : disk) (d : YamlDriver).
Abbreviation Load := (Load Join).
Abbreviation Save := (Save Join Dir).
Abbreviation ForceRelease := (ForceRelease (P := P) Join Dir).
Abbreviation do_keeps := (do_keeps (Driver0 := yaml_driver Join Dir)).

(** The file is a document of the generation [g] whose data reads as [p]. *)
Definition saved (path : string) (g : Z) (p : P) w : Prop :=
  exists s n, files w !! path = Some s /\ is_doc (P := P) s g n /\ valid n /\ decode_node n yaml_zero = (p, None).

(** The renewal edits exactly the generation of such a document. *)
Lemma renew_doc_tree g g' n : renew_root g' (doc_tree g n) = doc_tree g' n.
Proof. done. Qed.

Lemma create_encode_ok path s w :
  healthy w -> create_encode path (s, None) w = (set_files (<[path := s]> (files w)) w, None).
Proof.
  intros H. unfold create_encode, os_Create. rewrite H. unfold file_Write. simpl. rewrite H.
  unfold set_files. simpl. by rewrite insert_insert_eq.
Qed.

Lemma create_encode_saved path s g n p w :
  healthy w -> is_doc (P := P) s g n -> valid n -> decode_node n yaml_zero = (p, None) ->
  exists w', create_encode path (s, None) w = (w', None) /\ healthy w' /\ saved path g p w'.
Proof.
  intros H Hd Hv Hp. rewrite create_encode_ok by done. eexists. split; [done|]. split; [done|].
  exists s, n. split; [apply lookup_insert_eq|done].
Qed.

Lemma yaml_open_saved path g p w : healthy w -> saved path g p w -> exists s n,
  os_Open path w = inl s /\ is_doc (P := P) s g n /\ valid n /\ decode_node n yaml_zero = (p, None).
Proof. intros H (s & n & Hs & Hn). exists s, n. unfold os_Open. by rewrite H, Hs. Qed.

Lemma yaml_Load_saved d w t i o g p :
  healthy w -> saved (filePath Join d t i) g p w ->
  Load d w t i o (Some yaml_zero) = (Some p, Some (Some (mkLease i o (wrap64 (g + 1))), None)).
Proof.
  intros H Hs. destruct (yaml_open_saved _ _ _ _ H Hs) as (s & n & Ho & [_ Hd] & Hv & Hp).
  unfold YamlDriver.Load. by rewrite Ho, Hd, Hp.
Qed.

Lemma yaml_Save_saved d w t i p g s :
  healthy w -> encode_value g p = (s, None) ->
  exists w', Save d w t i (Some p) g = (w', None) /\ healthy w' /\ saved (filePath Join d t i) g p w'.
Proof.
  intros H He. destruct (value_doc g p s He) as (n & Hv & Hd & Hp).
  unfold YamlDriver.Save, os_MkdirAll. rewrite H, He. by apply (create_encode_saved _ s g n).
Qed.

Lemma yaml_renew_saved d w t i p g g' :
  healthy w -> saved (filePath Join d t i) g p w ->
  exists w', Save d w t i (None : option P) g' = (w', None) /\ healthy w' /\ saved (filePath Join d t i) g' p w'.
Proof.
  intros H Hs. destruct (yaml_open_saved _ _ _ _ H Hs) as (s & n & Ho & [Ht _] & Hv & Hp).
  unfold YamlDriver.Save, os_MkdirAll. rewrite H. unfold renewOnlyYaml. rewrite Ho, Ht, renew_doc_tree.
  destruct (tree_doc g' n Hv) as (s' & -> & Hd'). by apply (create_encode_saved _ s' g' n).
Qed.

Lemma yaml_force_saved d w t i p g :
  healthy w -> saved (filePath Join d t i) g p w ->
  exists w', ForceRelease d w t i = (w', (wrap64 (g + 1), None)) /\ healthy w' /\
    saved (filePath Join d t i) (wrap64 (g + 1)) p w'.
Proof.
  intros H Hs. destruct (yaml_open_saved _ _ _ _ H Hs) as (s & n & Ho & [_ Hd] & Hv & Hp).
  unfold YamlDriver.ForceRelease, os_MkdirAll. rewrite H, Ho, Hd. unfold writeForceReleaseYaml.
  destruct (data_doc (wrap64 (g + 1)) n Hv) as (s' & -> & Hd').
  destruct (create_encode_saved (filePath Join d t i) s' _ n p w H Hd' Hv Hp) as (w' & -> & H').
  by exists w'.
Qed.

Lemma yaml_keeps_saved d t i ks p w g :
  healthy w -> saved (filePath Join d t i) g p w ->
  healthy (do_keeps d t i ks w) /\ saved (filePath Join d t i) (keeps_gen g ks) p (do_keeps d t i ks w).
Proof.
  intros H Hs. apply (keeps_hold d t i (fun g w => healthy w /\ saved (filePath Join d t i) g p w)); [|done].
  clear. intros g w [g'|g'|] [H Hs]; simpl; [|done|].
  - by destruct (yaml_renew_saved d w t i p g g' H Hs) as (w' & -> & ? & ?).
  - by destruct (yaml_force_saved d w t i p g H Hs) as (w' & -> & ? & ?).
Qed.

(** A snapshot saved to a YAML file is read back: after [Save], and any renewals, which
    edit the document tree, releases and forced releases of the grain, [Load] succeeds,
    fills a zero destination with the snapshot and grants the generation that follows the
    last one written. *)
Theorem yaml_save_load d w t i o p g s ks :
  healthy w -> encode_value g p = (s, None) ->
  exists w', Save d w t i (Some p) g = (w', None) /\
    Load d (do_keeps d t i ks w') t i o (Some yaml_zero) =
      (Some p, Some (Some (mkLease i o (wrap64 (keeps_gen g ks + 1))), None)).
Proof.
  intros H He. destruct (yaml_Save_saved d w t i p g s H He) as (w' & Hw & H' & Hs).
  exists w'. split; [done|]. destruct (yaml_keeps_saved d t i ks p w' g H' Hs) as [H1 H2].
  by apply yaml_Load_saved.
Qed.

(** A renewal or a forced release that cannot read the file leaves the disk as it was. *)
Remark unreadable_is_kept d w t i e g :
  fails w FOpen (filePath Join d t i) = Some e ->
  (Save d w t i (None : option P) g).1 = w /\ (ForceRelease d w t i).1 = w.
Proof.
  intros Ho. unfold YamlDriver.Save, YamlDriver.ForceRelease, renewOnlyYaml, os_MkdirAll, os_Open, not_exist. rewrite Ho.
  by destruct (fails w FMkdir _).
Qed.

(** A snapshot whose encoding fails replaces the saved one by what was written of it. *)
Remark yaml_failed_save_destroys d w t i p s e g :
  healthy w -> encode_value g p = (s, Some e) ->
  Save d w t i (Some p) g = (set_files (<[filePath Join d t i := s]> (files w)) w, Some e).
Proof.
  intros H He. unfold YamlDriver.Save, os_MkdirAll, create_encode, os_Create. rewrite !H, He. unfold file_Write. simpl.
  rewrite H. unfold set_files. simpl. by rewrite insert_insert_eq.
Qed.

(** A forced release, or a renewal, of a grain that was never saved leaves a file without
    data: the next [Load] reports a grain that was found. *)
Remark yaml_new_is_found d w t i o (p : P) :
  healthy w -> files w !! filePath Join d t i = None ->
  exists p' p'',
    Load d (ForceRelease d w t i).1 t i o (Some p) = (Some p', Some (Some (mkLease i o 2), None)) /\
    Load d (Save d w t i (None : option P) 1).1 t i o (Some p) = (Some p'', Some (Some (mkLease i o 2), None)).
Proof.
  intros H Hn. unfold YamlDriver.ForceRelease, YamlDriver.Save, renewOnlyYaml, os_MkdirAll, os_Open, not_exist. rewrite !H, Hn.
  unfold writeForceReleaseYaml, writeRenewDoc.
  destruct (missing_doc 1 (Some zero_node) (or_intror eq_refl)) as (s1 & -> & _ & Hd1).
  destruct (missing_doc 1 None (or_introl eq_refl)) as (s2 & -> & _ & Hd2).
  rewrite !create_encode_ok by done. unfold YamlDriver.Load, os_Open. simpl. rewrite H, !lookup_insert_eq, Hd1, Hd2.
  destruct (null_decodes p) as [p' ->]. by exists p', p'.
Qed.
End YamlSpec.

(** ** A YAML of strings

    A document is the code of its tree. *)
Module YamlWitness.
#[export] Instance NodeKind_countable : Countable NodeKind.
Proof.
  refine (inj_countable' (fun k => match k with NoKind => 0 | DocumentNode => 1 | SequenceNode => 2 | MappingNode => 3
                                              | ScalarNode => 4 | AliasNode => 5 end)
    (fun n => match n with 0 => NoKind | 1 => DocumentNode | 2 => SequenceNode | 3 => MappingNode
                         | 4 => ScalarNode | _ => AliasNode end) _).
  by intros [].
Defined.

Fixpoint to_tree (n : Node) : gen_tree (NodeKind * string * string) :=
  let 'mkNode k t v c := n in GenNode 0 (GenLeaf (k, t, v) :: map to_tree c).

Fixpoint of_tree (g : gen_tree (NodeKind * string * string)) : Node :=
  match g with
  | GenNode _ (GenLeaf (k, t, v) :: c) => mkNode k t v (map of_tree c)
  | _ => zero_node
  end.

Lemma of_to_tree : forall n, of_tree (to_tree n) = n.
Proof.
  fix IH 1. intros [k t v c]. cbn. f_equal. induction c as [|n c IHc]; [reflexivity|].
  cbn. rewrite IH. f_equal. exact IHc.
Qed.

Definition text (n : Node) : string := String.String "-"%char (FileWitness.bits (encode (to_tree n))).

Definition tree_of (s : string) : option Node :=
  match s with
  | String.String _ s => of_tree <$> decode (FileWitness.unbits s)
  | EmptyString => None
  end.

Lemma tree_of_text n : tree_of (text n) = Some n.
Proof. simpl. rewrite FileWitness.unbits_bits, decode_encode. simpl. by rewrite of_to_tree. Qed.

Definition doc_of (n : Node) : option (Z * Node) :=
  match n with
  | mkNode _ _ _ [mkNode _ _ _ [_; gen; _; data]] => (fun g => (g, data)) <$> ParseInt (Value gen)
  | _ => None
  end.

Lemma doc_of_doc_tree g n : doc_of (doc_tree g n) = Some (g, n).
Proof. simpl. by rewrite ParseInt_FormatInt. Qed.

Definition or_eof {X} (x : option X) : X + error := match x with Some x => inl x | None => inr (ErrNew "EOF") end.

#[export] Instance string_yaml : Yaml string := {|
  decode_doc s := or_eof (tree_of s ≫= doc_of);
  decode_tree s := or_eof (tree_of s);
  decode_node n p := (if decide (Kind n = ScalarNode) then Value n else p, None);
  decode_nil _ := None;
  encode_value g p := (text (doc_tree g (str_node p)), None);
  encode_data g n := (text (doc_tree g (match n with
                                        | Some n => if decide (Kind n = NoKind) then null_node else n
                                        | None => null_node
                                        end)), None);
  encode_tree n := (text n, None);
|}.

Lemma text_is_doc g n : is_doc (P := string) (text (doc_tree g n)) g n.
Proof.
  split; cbn -[text tree_of doc_of]; rewrite tree_of_text; [done|].
  change (or_eof (doc_of (doc_tree g n)) = inl (g, n)). by rewrite doc_of_doc_tree.
Qed.

#[export, program] Instance string_yaml_laws : YamlLaws string := {|
  yaml_zero := "";
  valid n := Kind n <> NoKind;
|}.
Next Obligation. intros g p s [= <-]. exists (str_node p). split; [done|]. split; [apply text_is_doc|done]. Qed.
Next Obligation.
  intros g n Hn. eexists. split; [reflexivity|]. cbn. rewrite decide_False by done. apply text_is_doc.
Qed.
Next Obligation. intros g n Hn. eexists. split; [reflexivity|]. apply text_is_doc. Qed.
Next Obligation. intros g n [-> | ->]; eexists; (split; [reflexivity|]); apply text_is_doc. Qed.
Next Obligation. done. Qed.
Next Obligation. intros p. by eexists. Qed.

Definition yaml := NewYamlDriver "data".

Lemma yaml_save_load_witness :
  exists w', Save (String.concat "/") id yaml FileWitness.no_disk "player" "7" (Some "hp: 3") 4 = (w', None) /\
    Load (String.concat "/") yaml
      (do_keeps (Driver0 := yaml_driver (String.concat "/") id) yaml "player" "7" [KRenew 4; KForce; KRelease 5] w')
      "player" "7" "a" (Some "") = (Some "hp: 3", Some (Some (mkLease "7" "a" 6), None)).
Proof.
  exact (yaml_save_load (String.concat "/") id yaml FileWitness.no_disk "player" "7" "a" "hp: 3" 4
    (text (doc_tree 4 (str_node "hp: 3"))) [KRenew 4; KForce; KRelease 5] (fun _ _ => eq_refl) eq_refl).
Defined.
End YamlWitness.
