(* ===== verification/Text.v ===== *)
(** * Text: functions of package strings on lists of bytes

    The prefixes and suffixes, the white space of [unicode.IsSpace] as it is encoded in
    UTF-8, splitting, the fields of a line, lower case, and numbers as strconv reads them. *)

From Stdlib Require Import Ascii.
From S2P Require Import Prelude.

Local Open Scope string_scope.

Abbreviation text := (list ascii).
Definition lit (s : string) : text := String.list_ascii_of_string s.

Definition LF : ascii := ascii_of_N 10.
Definition CR : ascii := ascii_of_N 13.
Definition tab : ascii := ascii_of_N 9.

(** [HasPrefix] with [TrimPrefix], [HasSuffix] with [TrimSuffix]: the rest, if there. *)
Fixpoint cut_prefix (p s : text) : option text :=
  match p, s with
  | [], _ => Some s
  | c :: p, d :: s => if Ascii.eqb c d then cut_prefix p s else None
  | _, _ => None
  end.
Definition cut_suffix (p s : text) : option text := @rev ascii <$> cut_prefix (rev p) (rev s).

Definition HasPrefix (s p : text) : bool := match cut_prefix p s with Some _ => true | None => false end.
Definition HasSuffix (s p : text) : bool := match cut_suffix p s with Some _ => true | None => false end.
Definition TrimPrefix (s p : text) : text := default s (cut_prefix p s).
Definition TrimSuffix (s p : text) : text := default s (cut_suffix p s).

(** White space of one, two and three bytes in UTF-8, as [unicode.IsSpace] has it. *)
Definition space1 (a : ascii) : bool :=
  let n := N_of_ascii a in ((9 <=? n) && (n <=? 13) || (n =? 32))%N.
Definition space2 (a b : ascii) : bool :=
  ((N_of_ascii a =? 194) && ((N_of_ascii b =? 133) || (N_of_ascii b =? 160)))%N.
Definition space3 (a b c : ascii) : bool :=
  let '(x, y, z) := (N_of_ascii a, N_of_ascii b, N_of_ascii c) in
  ((x =? 225) && (y =? 154) && (z =? 128) ||
   (x =? 226) && (y =? 128) && ((128 <=? z) && (z <=? 138) || (z =? 168) || (z =? 169) || (z =? 175)) ||
   (x =? 226) && (y =? 129) && (z =? 159) ||
   (x =? 227) && (y =? 128) && (z =? 128))%N.

Section trim.
Variables (p1 : ascii -> bool) (p2 : ascii -> ascii -> bool) (p3 : ascii -> ascii -> ascii -> bool).
Fixpoint trim_front (s : text) : text :=
  match s with
  | [] => []
  | a :: s1 =>
      if p1 a then trim_front s1
      else match s1 with
           | [] => s
           | b :: s2 =>
               if p2 a b then trim_front s2
               else match s2 with
                    | [] => s
                    | c :: s3 => if p3 a b c then trim_front s3 else s
                    end
           end
  end.
End trim.

Definition TrimSpace (s : text) : text :=
  rev (trim_front space1 (fun b a => space2 a b) (fun c b a => space3 a b c)
    (rev (trim_front space1 space2 space3 s))).

(** [strings.Split] by one character. *)
Fixpoint split_on (sep : ascii) (s : text) : list text :=
  match s with
  | [] => [[]]
  | c :: s =>
      if Ascii.eqb c sep then [] :: split_on sep s
      else match split_on sep s with l :: ls => (c :: l) :: ls | [] => [[c]] end
  end.

(** [strings.Join] with a space, [strings.Contains]. *)
Fixpoint join_words (l : list text) : text :=
  match l with
  | [] => []
  | [x] => x
  | x :: l => x ++ " "%char :: join_words l
  end.

Fixpoint Contains (s p : text) : bool :=
  HasPrefix s p || match s with [] => false | _ :: s => Contains s p end.

(** [strings.Fields]: [cur] holds the bytes of the field that is being read, reversed. *)
Definition flush (cur : text) (l : list text) : list text :=
  match cur with [] => l | _ => rev cur :: l end.

Fixpoint fields_from (cur s : text) : list text :=
  match s with
  | [] => flush cur []
  | a :: s1 =>
      if space1 a then flush cur (fields_from [] s1)
      else match s1 with
           | [] => flush (a :: cur) []
           | b :: s2 =>
               if space2 a b then flush cur (fields_from [] s2)
               else match s2 with
                    | c :: s3 => if space3 a b c then flush cur (fields_from [] s3) else fields_from (a :: cur) s1
                    | [] => fields_from (a :: cur) s1
                    end
           end
  end.
Definition Fields (s : text) : list text := fields_from [] s.

(** [strings.ToLower] of text in ASCII; other text is lowered rune by rune, by the tables
    of package unicode. *)
Definition is_ascii (s : text) : bool := forallb (fun c => N_of_ascii c <? 128)%N s.
Definition lower1 (c : ascii) : ascii :=
  let n := N_of_ascii c in if ((65 <=? n) && (n <=? 90))%N then ascii_of_N (n + 32) else c.

Class Unicode : Type := lower_runes : text -> text.
Definition ToLower `{!Unicode} (s : text) : text := if is_ascii s then lower1 <$> s else lower_runes s.

(** [strconv.Atoi], for the callers that drop its error: 0 when the text is no number, the
    nearest integer when it is out of range. *)
Definition digit (c : ascii) : option Z :=
  let n := Z.of_N (N_of_ascii c) in if ((48 <=? n) && (n <=? 57))%Z then Some (n - 48)%Z else None.

(** [ParseUint] gives up at the first digit with which the number leaves 64 bits. *)
Fixpoint digits (acc : Z) (s : text) : option Z :=
  match s with
  | [] => Some acc
  | c :: s =>
      match digit c with
      | Some d => let acc := (10 * acc + d)%Z in if (2 ^ 64 <=? acc)%Z then Some (2 ^ 64 - 1)%Z else digits acc s
      | None => None
      end
  end.

Definition clamp64 (z : Z) : Z := Z.max (- 2 ^ 63) (Z.min (2 ^ 63 - 1) z).

Definition Atoi (s : text) : Z :=
  let '(neg, ds) := match s with
                    | c :: s' => if Ascii.eqb c "-"%char then (true, s') else if Ascii.eqb c "+"%char then (false, s') else (false, s)
                    | [] => (false, [])
                    end in
  match ds with
  | [] => 0
  | _ => match digits 0 ds with
         | Some n => clamp64 (if neg then - n else n)
         | None => 0
         end
  end%Z.

Definition newline : string := String.String LF EmptyString.

(** ** Runes and columns

    The bytes of the rune at the head of a text, 1 for a byte that starts none. *)
Definition between (lo hi : N) (c : ascii) : bool := (lo <=? N_of_ascii c)%N && (N_of_ascii c <=? hi)%N.

Definition rune_width (s : text) : nat :=
  match s with
  | [] => 0
  | a :: s =>
      let n := N_of_ascii a in
      if (n <? 194)%N then 1
      else if (n <? 224)%N then match s with b :: _ => if between 128 191 b then 2 else 1 | _ => 1 end
      else if (n <? 240)%N then
        match s with
        | b :: c :: _ =>
            if between (if (n =? 224)%N then 160 else 128) (if (n =? 237)%N then 159 else 191) b && between 128 191 c
            then 3 else 1
        | _ => 1
        end
      else if (n <? 245)%N then
        match s with
        | b :: c :: d :: _ =>
            if between (if (n =? 240)%N then 144 else 128) (if (n =? 244)%N then 143 else 191) b &&
               between 128 191 c && between 128 191 d
            then 4 else 1
        | _ => 1
        end
      else 1
  end.

(** [utf8.RuneCountInString]; [skip] bytes belong to the rune counted last. *)
Fixpoint rune_count (skip : nat) (s : text) : nat :=
  match s with
  | [] => 0
  | _ :: rest => match skip with S k => rune_count k rest | O => S (rune_count (pred (rune_width s)) rest) end
  end.

(** The verb [%-ns] of package fmt. *)
Definition pad (n : nat) (s : string) : string :=
  s +:+ String.string_of_list_ascii (repeat " "%char (n - rune_count 0 (lit s))).
