(* ===== verification/ReadmeGen.v ===== *)
(** * The README generator

    cmd/readmegen/main.go: the regions marked in the example tests are copied into the
    READMEs between markers, and a check mode tells whether a README is up to date. Text is
    a list of bytes (see Text); the files are those of FileDriver's disk. *)

From Stdlib Require Import Ascii.
From S2P Require Import Prelude ActorTypes Lease FileDriver.
From S2P Require Export Text.

Local Open Scope string_scope.

(** ** Lines *)

(** [strings.Split] by a line feed, and [strings.Join] with it. *)
Fixpoint split_lines (s : text) : list text :=
  match s with
  | [] => [[]]
  | c :: s =>
      if Ascii.eqb c LF then [] :: split_lines s
      else match split_lines s with
           | l :: ls => (c :: l) :: ls
           | [] => [[c]]
           end
  end.

Fixpoint join_lines (l : list text) : text :=
  match l with
  | [] => []
  | [x] => x
  | x :: l => x ++ LF :: join_lines l
  end.

(** The replacements of the line ends, and [Contains] of CR LF. *)
Fixpoint crlf_to_lf (s : text) : text :=
  match s with
  | [] => []
  | c :: s1 =>
      match s1 with
      | d :: s2 => if Ascii.eqb c CR && Ascii.eqb d LF then LF :: crlf_to_lf s2 else c :: crlf_to_lf s1
      | [] => [c]
      end
  end.

Definition toLF (s : text) : text := List.filter (fun c => negb (Ascii.eqb c CR)) (crlf_to_lf s).
Definition lf_to_crlf (s : text) : text := flat_map (fun c => if Ascii.eqb c LF then [CR; LF] else [c]) s.

Fixpoint has_crlf (s : text) : bool :=
  match s with
  | c :: (d :: _) as s1 => Ascii.eqb c CR && Ascii.eqb d LF || has_crlf s1
  | _ => false
  end.

Definition regionBegin := lit "// region: ".
Definition regionEnd := lit "// endregion: ".
Definition markerBegin := lit "<!-- example: ".
Definition markerEnd := lit "<!-- /example: ".
Definition markerClose := lit " -->".
Definition fence_go := lit "```go".
Definition fence := lit "```".

Abbreviation regions_t := (gmap text (list text)).

(** The errors: a path with a line number, and the names they show. *)
Inductive gen_error :=
  | EFile (e : error)
  | ENotEnded (path : string) (line : nat) (name : text)
  | EEndRegion (path : string) (line : nat) (end_ name : text)
  | ETwice (path : string) (line : nat) (key : text)
  | ENoRegions (root : string)
  | EUnknown (path : string) (line : nat) (name : text)
  | EEndMarker (path : string) (line : nat) (end_ name : text)
  | ENotClosed (path : string) (line : nat) (name : text)
  | EUnused (path : string) (name : text)
  | EUnmanaged (path : string) (line : nat)
  | EStale (path : string) (diff : option nat).

(** ** Regions *)
Definition is_blank (line : text) : bool := match TrimSpace line with [] => true | _ => false end.

Fixpoint commonPrefix (a b : text) : text :=
  match a, b with
  | x :: a, y :: b => if Ascii.eqb x y then x :: commonPrefix a b else []
  | _, _ => []
  end.

(** The leading spaces and tabs of a line. *)
Fixpoint indent (line : text) : text :=
  match line with
  | c :: line => if Ascii.eqb c " "%char || Ascii.eqb c tab then c :: indent line else []
  | [] => []
  end.

(** The first loop of [dedent], at the index [i]. *)
Fixpoint dedent_prefix (i : nat) (prefix : text) (lines : list text) : text :=
  match lines with
  | [] => prefix
  | line :: lines =>
      if is_blank line then dedent_prefix (S i) prefix lines
      else if (i =? 0)%nat || match prefix with [] => true | _ => false end
           then dedent_prefix (S i) (indent line) lines
           else dedent_prefix (S i) (commonPrefix prefix (indent line)) lines
  end.

Definition dedent (lines : list text) : list text :=
  let prefix := dedent_prefix 0 [] lines in
  map (fun line => if is_blank line then [] else TrimPrefix line prefix) lines.

Fixpoint drop_blank (lines : list text) : list text :=
  match lines with
  | line :: rest => if is_blank line then drop_blank rest else lines
  | [] => []
  end.

Definition trimBlank (lines : list text) : list text := rev (drop_blank (rev (drop_blank lines))).

(** [parseRegions] from the line [i] (counted from 0) on; [name] is empty outside of a
    region, [body] has the lines of the open one, last line first. *)
Fixpoint parse_lines (path : string) (pkg : text) (i : nat) (lines : list text)
    (name : text) (body : list text) (line0 : nat) (regions : regions_t) : regions_t + gen_error :=
  match lines with
  | [] => match name with [] => inl regions | _ => inr (ENotEnded path line0 name) end
  | line :: lines =>
      let trimmed := TrimSpace line in
      if HasPrefix trimmed regionBegin then
        match name with
        | [] => parse_lines path pkg (S i) lines (TrimSpace (TrimPrefix trimmed regionBegin)) [] (S i) regions
        | _ => inr (ENotEnded path line0 name)
        end
      else if HasPrefix trimmed regionEnd then
        let end_ := TrimSpace (TrimPrefix trimmed regionEnd) in
        if decide (end_ <> name) then inr (EEndRegion path (S i) end_ name)
        else
          let key := (pkg ++ lit "/" ++ name)%list in
          match regions !! key with
          | Some _ => inr (ETwice path line0 key)
          | None => parse_lines path pkg (S i) lines [] body line0 (<[key := dedent (rev body)]> regions)
          end
      else parse_lines path pkg (S i) lines name (match name with [] => body | _ => line :: body end) line0 regions
  end.

Definition parseRegions (path : string) (pkg src : text) (regions : regions_t) : regions_t + gen_error :=
  parse_lines path pkg 0 (split_lines (toLF src)) [] [] 0 regions.

Section files.
(** [filepath.Join]; [os.ReadDir], the names with whether they are directories. *)
Context (Join : list string -> string) (ReadDir : string -> list (string * bool) + error).

Fixpoint load_entries (root : string) (entries : list (string * bool)) (regions : regions_t) (w : disk)
    : regions_t + gen_error :=
  match entries with
  | [] => inl regions
  | (name, IsDir) :: entries =>
      if IsDir then
        let path := Join [root; name; "example_test.go"] in
        match os_Open path w with
        | inr e => if not_exist path w then load_entries root entries regions w else inr (EFile e)
        | inl data =>
            match parseRegions path (lit name) (lit data) regions with
            | inr e => inr e
            | inl regions => load_entries root entries regions w
            end
        end
      else load_entries root entries regions w
  end.

Definition loadRegions (root : string) (w : disk) : regions_t + gen_error :=
  match ReadDir root with
  | inr e => inr (EFile e)
  | inl entries =>
      match load_entries root entries ∅ w with
      | inr e => inr e
      | inl regions => if decide (regions = ∅) then inr (ENoRegions root) else inl regions
      end
  end.

(** ** Rendering *)
Definition markerName (line prefix : text) : option text :=
  if negb (HasPrefix line prefix) || negb (HasSuffix line markerClose) then None
  else Some (TrimSpace (TrimSuffix (TrimPrefix line prefix) markerClose)).

(** What stands for a region: markers, fences and the body. *)
Definition block (name : text) (body : list text) : list text :=
  [(markerBegin ++ name ++ markerClose)%list; fence_go] ++ trimBlank body ++ [fence; (markerEnd ++ name ++ markerClose)%list].

Definition emit (l : list text) (names : list text) (r : (list text * list text) + gen_error) :=
  match r with inl (out, used) => inl ((l ++ out)%list, (names ++ used)%list) | inr e => inr e end.

(** The loop of [render] from the line [i] on, with the search of the end marker inside:
    the lines written and the names used. *)
Fixpoint render_lines (path : string) (regions : regions_t) (i : nat) (lines : list text)
    : (list text * list text) + gen_error :=
  match lines with
  | [] => inl ([], [])
  | line :: rest =>
      match markerName (TrimSpace line) markerBegin with
      | None => emit [line] [] (render_lines path regions (S i) rest)
      | Some name =>
          match regions !! name with
          | None => inr (EUnknown path (S i) name)
          | Some body =>
              (fix find_end (j : nat) (rest : list text) :=
                 match rest with
                 | [] => inr (ENotClosed path (S i) name)
                 | line :: rest =>
                     match markerName (TrimSpace line) markerEnd with
                     | Some endName =>
                         if decide (endName <> name) then inr (EEndMarker path (S j) endName name)
                         else emit (block name body) [name] (render_lines path regions (S j) rest)
                     | None => find_end (S j) rest
                     end
                 end) (S i) rest
          end
      end
  end.

Fixpoint check_go_blocks (path : string) (prev : text) (i : nat) (lines : list text) : option gen_error :=
  match lines with
  | [] => None
  | line :: lines =>
      let trimmed := TrimSpace line in
      if decide (trimmed <> fence_go)
      then check_go_blocks path (match trimmed with [] => prev | _ => trimmed end) (S i) lines
      else match markerName prev markerBegin with
           | Some _ => check_go_blocks path prev (S i) lines
           | None => Some (EUnmanaged path (S i))
           end
  end.

Definition checkUnmanagedGoBlocks (path : string) (src : text) : option gen_error :=
  check_go_blocks path [] 0 (split_lines src).

(** The order of the map decides which unused region is named. *)
Definition render (path : string) (src : text) (regions : regions_t) : text + gen_error :=
  match render_lines path regions 0 (split_lines src) with
  | inr e => inr e
  | inl (out, used) =>
      let rendered := join_lines out in
      match checkUnmanagedGoBlocks path rendered with
      | Some e => inr e
      | None =>
          match List.find (fun name => negb (bool_decide (name ∈ used))) (map fst (map_to_list regions)) with
          | Some name => inr (EUnused path name)
          | None => inl rendered
          end
      end
  end.

(** The number of the first line that differs, [None] for the end. *)
Fixpoint first_diff_lines (i : nat) (a b : list text) : option nat :=
  match a, b with
  | x :: a, y :: b => if decide (x <> y) then Some (S i) else first_diff_lines (S i) a b
  | [], [] => None
  | _, _ => Some (S i)
  end.

Definition firstDiff (a b : text) : option nat := first_diff_lines 0 (split_lines a) (split_lines b).

Definition os_WriteFile (path : string) (s : text) (w : disk) : disk * option error :=
  match os_Create path w with
  | inr e => (w, Some e)
  | inl w1 => file_Write path (String.string_of_list_ascii s) w1
  end.

Definition syncFile (path : string) (regions : regions_t) (check : bool) (w : disk) : disk * option gen_error :=
  match os_Open path w with
  | inr e => (w, Some (EFile e))
  | inl data =>
      let data := lit data in
      let crlf := has_crlf data in
      match render path (toLF data) regions with
      | inr e => (w, Some e)
      | inl rendered =>
          let rendered := if crlf then lf_to_crlf rendered else rendered in
          if decide (rendered = data) then (w, None)
          else if check then (w, Some (EStale path (firstDiff data rendered)))
          else let '(w1, e) := os_WriteFile path rendered w in (w1, EFile <$> e)
      end
  end.

(** [main], with the values of its flags; an error ends the program with code 1. *)
Fixpoint sync_all (root : string) (regions : regions_t) (check : bool) (names : list text) (w : disk)
    : disk * option gen_error :=
  match names with
  | [] => (w, None)
  | name :: names =>
      let name := TrimSpace name in
      match name with
      | [] => sync_all root regions check names w
      | _ =>
          match syncFile (Join [root; String.string_of_list_ascii name]) regions check w with
          | (w1, Some e) => (w1, Some e)
          | (w1, None) => sync_all root regions check names w1
          end
      end
  end.

Definition main_ (root : string) (check : bool) (readmes : text) (w : disk) : disk * option gen_error :=
  match loadRegions root w with
  | inr e => (w, Some e)
  | inl regions => sync_all root regions check (split_on ","%char readmes) w
  end.
End files.
