(* ===== verification/ReadmeGenSpec.v ===== *)
(** * A README that was generated is up to date *)

From Stdlib Require Import Ascii.
From S2P Require Import Prelude ActorTypes Lease FileDriver ReadmeGen.

Local Open Scope string_scope.

(** ** Trimming *)
Section trim.
Variables (p1 : ascii -> bool) (p2 : ascii -> ascii -> bool) (p3 : ascii -> ascii -> ascii -> bool).
Abbreviation trim := (trim_front p1 p2 p3).

(** The text begins with no white space. *)
Definition no_front (s : text) : bool :=
  match s with
  | [] => true
  | a :: s1 => negb (p1 a) && match s1 with
                              | [] => true
                              | b :: s2 => negb (p2 a b) && match s2 with [] => true | c :: _ => negb (p3 a b c) end
                              end
  end.

Lemma trim_no_front s : no_front s = true -> trim s = s.
Proof.
  destruct s as [|a [|b [|c s]]]; simpl; [done|..]; rewrite ?andb_true_iff, ?negb_true_iff.
  - by intros [-> _].
  - by intros [-> [-> _]].
  - by intros [-> [-> ->]].
Qed.

(** What trimming leaves is the end of the text. *)
Lemma trim_spec n : forall s, (length s <= n)%nat -> no_front (trim s) = true /\ exists w, s = (w ++ trim s)%list.
Proof.
  induction n as [|n IH]; intros s Hn; [destruct s; [by split; [|exists []]|simpl in Hn; lia]|].
  destruct s as [|a s1]; [by split; [|exists []]|]. simpl in Hn |- *.
  destruct (p1 a) eqn:E1.
  { destruct (IH s1) as (H & w & Hw); [lia|]. split; [done|]. exists (a :: w). simpl. by rewrite <- Hw. }
  destruct s1 as [|b s2]; [split; [simpl; by rewrite E1|by exists []]|]. simpl in Hn.
  destruct (p2 a b) eqn:E2.
  { destruct (IH s2) as (H & w & Hw); [lia|]. split; [done|]. exists (a :: b :: w). simpl. by rewrite <- Hw. }
  destruct s2 as [|c s3]; [split; [simpl; by rewrite E1, E2|by exists []]|]. simpl in Hn.
  destruct (p3 a b c) eqn:E3.
  { destruct (IH s3) as (H & w & Hw); [lia|]. split; [done|]. exists (a :: b :: c :: w). simpl. by rewrite <- Hw. }
  split; [simpl; by rewrite E1, E2, E3|by exists []].
Qed.

Lemma trim_front_no_front s : no_front (trim s) = true.
Proof. by apply (trim_spec (length s)). Qed.

Lemma trim_front_suffix s : exists w, s = (w ++ trim s)%list.
Proof. by apply (trim_spec (length s)). Qed.

(** No white space at the front of a text, none at the front of its beginnings. *)
Lemma no_front_app s w : no_front (s ++ w)%list = true -> no_front s = true.
Proof.
  destruct s as [|a [|b [|c s]]]; simpl; [done|..]; rewrite ?andb_true_iff; tauto.
Qed.
End trim.

Abbreviation no_left := (no_front space1 space2 space3).
Abbreviation no_right := (no_front space1 (fun b a => space2 a b) (fun c b a => space3 a b c)).

(** Text that [TrimSpace] leaves alone. *)
Definition trimmed (s : text) : Prop := no_left s = true /\ no_right (rev s) = true.

Lemma TrimSpace_trimmed s : trimmed (TrimSpace s).
Proof.
  unfold TrimSpace. set (y := trim_front space1 space2 space3 s). split; [|rewrite rev_involutive; apply trim_front_no_front].
  destruct (trim_front_suffix space1 (fun b a => space2 a b) (fun c b a => space3 a b c) (rev y)) as [w Hw].
  apply (f_equal (@rev ascii)) in Hw. rewrite rev_involutive, rev_app_distr in Hw.
  apply (no_front_app _ _ _ _ (rev w)). rewrite <- Hw. apply trim_front_no_front.
Qed.

Lemma trimmed_TrimSpace s : trimmed s -> TrimSpace s = s.
Proof.
  intros [Hl Hr]. unfold TrimSpace. rewrite (trim_no_front _ _ _ s Hl), (trim_no_front _ _ _ _ Hr).
  apply rev_involutive.
Qed.

(** [TrimSpace] cuts a piece out of the text. *)
Lemma TrimSpace_sub s c : In c (TrimSpace s) -> In c s.
Proof.
  unfold TrimSpace. rewrite <- in_rev. intros H.
  destruct (trim_front_suffix space1 (fun b a => space2 a b) (fun c b a => space3 a b c) (rev (trim_front space1 space2 space3 s))) as [w Hw].
  assert (In c (rev (trim_front space1 space2 space3 s))) as Hc by (rewrite Hw; apply in_app_iff; by right).
  apply in_rev in Hc. destruct (trim_front_suffix space1 space2 space3 s) as [v Hv]. rewrite Hv. apply in_app_iff. by right.
Qed.

(** ** Prefixes *)
Lemma cut_prefix_app p s : cut_prefix p (p ++ s)%list = Some s.
Proof. induction p as [|c p IH]; [done|]. simpl. by rewrite Ascii.eqb_refl. Qed.

Lemma cut_prefix_Some p s r : cut_prefix p s = Some r -> s = (p ++ r)%list.
Proof.
  revert s. induction p as [|c p IH]; intros [|d s]; simpl; try (by intros [= ->]); try done.
  destruct (Ascii.eqb_spec c d) as [->|]; [|done]. intros H. by rewrite (IH _ H).
Qed.

Lemma cut_suffix_app p s : cut_suffix p (s ++ p)%list = Some s.
Proof. unfold cut_suffix. rewrite rev_app_distr, cut_prefix_app. simpl. by rewrite rev_involutive. Qed.

Lemma HasPrefix_app p s : HasPrefix (p ++ s)%list p = true.
Proof. unfold HasPrefix. by rewrite cut_prefix_app. Qed.
Lemma TrimPrefix_app p s : TrimPrefix (p ++ s)%list p = s.
Proof. unfold TrimPrefix. by rewrite cut_prefix_app. Qed.
Lemma HasSuffix_app p s : HasSuffix (s ++ p)%list p = true.
Proof. unfold HasSuffix. by rewrite cut_suffix_app. Qed.
Lemma TrimSuffix_app p s : TrimSuffix (s ++ p)%list p = s.
Proof. unfold TrimSuffix. by rewrite cut_suffix_app. Qed.

Lemma TrimPrefix_sub s p c : In c (TrimPrefix s p) -> In c s.
Proof.
  unfold TrimPrefix. destruct (cut_prefix p s) as [r|] eqn:E; [|done]. simpl.
  rewrite (cut_prefix_Some _ _ _ E). intros H. apply in_app_iff. by right.
Qed.

Lemma TrimSuffix_sub s p c : In c (TrimSuffix s p) -> In c s.
Proof.
  unfold TrimSuffix, cut_suffix. destruct (cut_prefix (rev p) (rev s)) as [r|] eqn:E; [|done]. simpl.
  intros H%in_rev. apply in_rev. rewrite (cut_prefix_Some _ _ _ E). apply in_app_iff. by right.
Qed.

(** ** Markers *)
Lemma markerName_trimmed line prefix name : markerName line prefix = Some name -> trimmed name.
Proof. unfold markerName. destruct (_ || _); [done|]. intros [= <-]. apply TrimSpace_trimmed. Qed.

Lemma markerName_sub line prefix name c : markerName line prefix = Some name -> In c name -> In c line.
Proof.
  unfold markerName. destruct (_ || _); [done|]. intros [= <-] H.
  by apply (TrimPrefix_sub _ prefix), (TrimSuffix_sub _ markerClose), TrimSpace_sub.
Qed.

Lemma markerName_own prefix name : trimmed name -> markerName (prefix ++ name ++ markerClose)%list prefix = Some name.
Proof.
  intros H. unfold markerName. rewrite HasPrefix_app, TrimPrefix_app, TrimSuffix_app.
  rewrite app_assoc, HasSuffix_app. cbn [negb orb]. by rewrite trimmed_TrimSpace.
Qed.

Lemma marker_line_trimmed prefix name :
  prefix = markerBegin \/ prefix = markerEnd -> trimmed (prefix ++ name ++ markerClose)%list.
Proof. intros Hp. split; [destruct Hp as [-> | ->]; done|]. rewrite !rev_app_distr. done. Qed.

Lemma begin_marker name : trimmed name -> markerName (TrimSpace (markerBegin ++ name ++ markerClose)%list) markerBegin = Some name.
Proof. intros H. rewrite trimmed_TrimSpace by (apply marker_line_trimmed; by left). by apply markerName_own. Qed.

Lemma end_marker name : trimmed name -> markerName (TrimSpace (markerEnd ++ name ++ markerClose)%list) markerEnd = Some name.
Proof. intros H. rewrite trimmed_TrimSpace by (apply marker_line_trimmed; by right). by apply markerName_own. Qed.

(** ** Rendering again *)

(** The text has no line ends. *)
Definition clean (l : text) : Prop := forall c, In c l -> c <> LF /\ c <> CR.

(** No line of a region is an end marker, and none has a line end. *)
Definition bodies_ok (regions : regions_t) : Prop := forall name body, regions !! name = Some body ->
  Forall (fun l => clean l /\ markerName (TrimSpace l) markerEnd = None) body.

Lemma emit_inl l ns o u out used : emit l ns (inl (o, u)) = inl (out, used) -> out = (l ++ o)%list /\ used = (ns ++ u)%list.
Proof. by intros [= <- <-]. Qed.

(** The search of the end marker: its name, and the lines after it. *)
Fixpoint find_end (j : nat) (rest : list text) : option (text * nat * list text) :=
  match rest with
  | [] => None
  | line :: rest =>
      match markerName (TrimSpace line) markerEnd with
      | Some endName => Some (endName, S j, rest)
      | None => find_end (S j) rest
      end
  end.

Lemma render_marker path regions i line rest name body :
  markerName (TrimSpace line) markerBegin = Some name -> regions !! name = Some body ->
  render_lines path regions i (line :: rest) =
  match find_end (S i) rest with
  | None => inr (ENotClosed path (S i) name)
  | Some (endName, j, rest) =>
      if decide (endName <> name) then inr (EEndMarker path j endName name)
      else emit (block name body) [name] (render_lines path regions j rest)
  end.
Proof.
  intros Hm Hb. cbn [render_lines]. rewrite Hm, Hb. generalize (S i) at 2 3. induction rest as [|l rest IH]; intros j; [done|].
  cbn [find_end]. destruct (markerName (TrimSpace l) markerEnd); [done|]. apply IH.
Qed.

Lemma find_end_shorter rest : forall j n j' rest', find_end j rest = Some (n, j', rest') ->
  length rest' < length rest /\ forall l, In l rest' -> In l rest.
Proof.
  induction rest as [|l rest IH]; intros j n j' rest'; [done|]. cbn [find_end length].
  destruct (markerName (TrimSpace l) markerEnd).
  - intros [= <- <- <-]. split; [lia|]. intros x Hx. by right.
  - intros H. destruct (IH _ _ _ _ H) as [H1 H2]. split; [lia|]. intros x Hx. right. auto.
Qed.

Lemma find_end_app l rest j : Forall (fun l => markerName (TrimSpace l) markerEnd = None) l ->
  find_end j (l ++ rest)%list = find_end (length l + j) rest.
Proof.
  intros H. revert j. induction H as [|x l Hx _ IH]; intros j; [done|]. cbn [app find_end]. rewrite Hx, IH. f_equal. simpl. lia.
Qed.

Lemma drop_blank_sub l x : In x (drop_blank l) -> In x l.
Proof. induction l as [|y l IH]; [done|]. simpl. destruct (is_blank y); [|done]. intros H. right. auto. Qed.

Lemma trimBlank_sub l x : In x (trimBlank l) -> In x l.
Proof. unfold trimBlank. rewrite <- in_rev. intros H%drop_blank_sub%in_rev. by apply drop_blank_sub. Qed.

Lemma trimBlank_Forall (Q : text -> Prop) l : Forall Q l -> Forall Q (trimBlank l).
Proof. rewrite !List.Forall_forall. intros H x Hx. by apply H, trimBlank_sub. Qed.

(** The lines of a block are read back as that block. *)
Lemma render_block path regions i name body rest :
  bodies_ok regions -> regions !! name = Some body -> trimmed name ->
  exists j, render_lines path regions i (block name body ++ rest)%list =
    emit (block name body) [name] (render_lines path regions j rest).
Proof.
  intros Hok Hb Hn. unfold block at 1. rewrite <- !app_assoc. cbn [app].
  rewrite (render_marker _ _ _ _ _ name body) by (done || by apply begin_marker).
  cbn [find_end]. change (markerName (TrimSpace fence_go) markerEnd) with (@None text). cbv iota.
  rewrite find_end_app.
  - cbn [find_end]. change (markerName (TrimSpace fence) markerEnd) with (@None text). cbv iota.
    rewrite end_marker by done. rewrite decide_False by (intros H; by apply H). by eexists.
  - eapply Forall_impl; [apply trimBlank_Forall, (Hok _ _ Hb)|]. by intros x [_ Hx].
Qed.

Lemma render_lines_stable path regions n : bodies_ok regions -> forall lines i out used, (length lines <= n)%nat ->
  render_lines path regions i lines = inl (out, used) -> forall i', render_lines path regions i' out = inl (out, used).
Proof.
  intros Hok. induction n as [|n IH]; intros lines i out used Hn Hr i'.
  { destruct lines; [|simpl in Hn; lia]. cbn in Hr. by injection Hr as <- <-. }
  destruct lines as [|line rest]; [cbn in Hr; by injection Hr as <- <-|]. simpl in Hn.
  destruct (markerName (TrimSpace line) markerBegin) as [name|] eqn:Hm.
  - destruct (regions !! name) as [body|] eqn:Hb; [|cbn [render_lines] in Hr; by rewrite Hm, Hb in Hr].
    rewrite (render_marker _ _ _ _ _ _ _ Hm Hb) in Hr.
    destruct (find_end (S i) rest) as [[[e j] rest']|] eqn:He; [|done]. destruct (decide _); [done|].
    destruct (render_lines path regions j rest') as [[o u]|] eqn:Hr'; [|done]. apply emit_inl in Hr as [-> ->].
    destruct (find_end_shorter _ _ _ _ _ He) as [Hlt _].
    destruct (render_block path regions i' name body o Hok Hb (markerName_trimmed _ _ _ Hm)) as [k ->].
    rewrite (IH rest' j o u ltac:(lia) Hr'). done.
  - cbn [render_lines] in Hr. rewrite Hm in Hr.
    destruct (render_lines path regions (S i) rest) as [[o u]|] eqn:Hr'; [|done]. cbn [emit app] in Hr. injection Hr as <- <-.
    cbn [render_lines]. rewrite Hm, (IH rest (S i) o u ltac:(lia) Hr'). done.
Qed.

(** What is written has clean lines, and at least one. *)
Lemma clean_app a b : clean a -> clean b -> clean (a ++ b)%list.
Proof. intros Ha Hb c [H|H]%in_app_iff; auto. Qed.

Lemma clean_lit s : forallb (fun c => negb (Ascii.eqb c LF) && negb (Ascii.eqb c CR)) (lit s) = true -> clean (lit s).
Proof.
  rewrite forallb_forall. intros H c Hc. specialize (H c Hc). apply andb_true_iff in H as [H1 H2].
  apply negb_true_iff in H1, H2. apply Ascii.eqb_neq in H1, H2. done.
Qed.

Lemma block_clean regions name body :
  bodies_ok regions -> regions !! name = Some body -> clean name -> Forall clean (block name body).
Proof.
  intros Hok Hb Hn.
  assert (forall prefix, clean (lit prefix) -> clean (lit prefix ++ name ++ markerClose)%list) as Hm.
  { intros prefix Hp. by apply clean_app; [|apply clean_app; [|apply clean_lit]]. }
  unfold block. apply Forall_cons; split; [by apply Hm, clean_lit|]. apply Forall_cons; split; [by apply clean_lit|].
  apply Forall_app; split.
  - eapply Forall_impl; [apply trimBlank_Forall, (Hok _ _ Hb)|]. by intros x [Hx _].
  - apply Forall_cons; split; [by apply clean_lit|]. apply Forall_cons; split; [by apply Hm, clean_lit|done].
Qed.

Lemma render_lines_clean path regions n : bodies_ok regions -> forall lines i out used, (length lines <= n)%nat ->
  Forall clean lines -> render_lines path regions i lines = inl (out, used) ->
  Forall clean out /\ (lines <> [] -> out <> []).
Proof.
  intros Hok. induction n as [|n IH]; intros lines i out used Hn Hc Hr.
  { destruct lines; [|simpl in Hn; lia]. cbn in Hr. by injection Hr as <- <-. }
  destruct lines as [|line rest]; [cbn in Hr; by injection Hr as <- <-|]. simpl in Hn. apply Forall_cons in Hc as [Hl Hc].
  destruct (markerName (TrimSpace line) markerBegin) as [name|] eqn:Hm.
  - destruct (regions !! name) as [body|] eqn:Hb; [|cbn [render_lines] in Hr; by rewrite Hm, Hb in Hr].
    rewrite (render_marker _ _ _ _ _ _ _ Hm Hb) in Hr.
    destruct (find_end (S i) rest) as [[[e j] rest']|] eqn:He; [|done]. destruct (decide _); [done|].
    destruct (render_lines path regions j rest') as [[o u]|] eqn:Hr'; [|done]. apply emit_inl in Hr as [-> ->].
    destruct (find_end_shorter _ _ _ _ _ He) as [Hlt Hsub]. split; [|done]. apply Forall_app. split.
    + eapply block_clean; [done|done|]. intros c Hc'. by apply Hl, TrimSpace_sub, (markerName_sub _ _ _ _ Hm).
    + eapply IH; [|..|exact Hr']; [lia|]. rewrite List.Forall_forall in Hc |- *. auto.
  - cbn [render_lines] in Hr. rewrite Hm in Hr.
    destruct (render_lines path regions (S i) rest) as [[o u]|] eqn:Hr'; [|done]. cbn [emit app] in Hr. injection Hr as <- <-.
    split; [|done]. constructor; [done|]. eapply IH; [|..|exact Hr']; [lia|done].
Qed.

(** ** Lines and line ends *)
Lemma split_lines_cons s : exists l ls, split_lines s = l :: ls.
Proof. destruct s as [|c s]; [by eexists _, _|]. simpl. destruct (Ascii.eqb c LF), (split_lines s); by eexists _, _. Qed.

Lemma split_lines_app l s : (forall c, In c l -> c <> LF) ->
  split_lines (l ++ s)%list = match split_lines s with x :: ls => (l ++ x)%list :: ls | [] => [] end.
Proof.
  intros Hl. destruct (split_lines_cons s) as (x & ls & E). rewrite E. induction l as [|c l IH]; [done|].
  simpl. destruct (Ascii.eqb_spec c LF) as [->|]; [by destruct (Hl LF); [left|]|].
  rewrite IH; [done|]. intros d Hd. apply Hl. by right.
Qed.

Lemma split_join l : Forall clean l -> l <> [] -> split_lines (join_lines l) = l.
Proof.
  intros H Hne. induction H as [|x l Hx Hl IH]; [done|]. destruct l as [|y l].
  - cbn [join_lines]. rewrite <- (app_nil_r x) at 1. rewrite split_lines_app by (intros c Hc; by apply Hx).
    simpl. by rewrite app_nil_r.
  - change (join_lines (x :: y :: l)) with (x ++ LF :: join_lines (y :: l))%list.
    rewrite split_lines_app by (intros c Hc; by apply Hx). cbn [split_lines]. rewrite Ascii.eqb_refl, IH by done.
    by rewrite app_nil_r.
Qed.

Lemma split_lines_sub s l c : In l (split_lines s) -> In c l -> In c s /\ c <> LF.
Proof.
  revert l. induction s as [|d s IH]; intros l; [intros [<-|[]] []|]. simpl.
  destruct (split_lines_cons s) as (x & ls & E). rewrite E in *. destruct (Ascii.eqb_spec d LF) as [->|Hd].
  - intros [<-|Hl] Hc; [done|]. destruct (IH l Hl Hc). auto.
  - intros [<-|Hl] Hc; [|destruct (IH l (or_intror Hl) Hc); auto]. destruct Hc as [<-|Hc]; [auto|].
    destruct (IH x (or_introl eq_refl) Hc). auto.
Qed.

Definition no_cr (s : text) : Prop := ~ In CR s.

Lemma toLF_no_cr s : no_cr (toLF s).
Proof. unfold toLF. intros [_ H]%filter_In. by rewrite Ascii.eqb_refl in H. Qed.

Lemma clean_lines s : no_cr s -> Forall clean (split_lines s).
Proof.
  intros H. apply List.Forall_forall. intros l Hl c Hc. destruct (split_lines_sub s l c Hl Hc) as [H1 H2].
  split; [done|]. by intros ->.
Qed.

Lemma join_no_cr l : Forall clean l -> no_cr (join_lines l).
Proof.
  unfold no_cr. induction 1 as [|x l Hx Hl IH]; [intros []|]. destruct l as [|y l]; [intros H; by apply (Hx CR)|].
  change (join_lines (x :: y :: l)) with (x ++ LF :: join_lines (y :: l))%list.
  intros [H|[H|H]]%in_app_iff; [by apply (Hx CR)|done|done].
Qed.

Lemma no_cr_cons c s : no_cr (c :: s) -> c <> CR /\ no_cr s.
Proof. unfold no_cr. simpl. tauto. Qed.

Lemma toLF_cons c s : c <> CR -> toLF (c :: s) = c :: toLF s.
Proof.
  intros H. unfold toLF. apply Ascii.eqb_neq in H. destruct s as [|d s]; [simpl; by rewrite H|].
  change (crlf_to_lf (c :: d :: s)) with (if Ascii.eqb c CR && Ascii.eqb d LF then LF :: crlf_to_lf s else c :: crlf_to_lf (d :: s)).
  rewrite H. cbn [andb]. remember (crlf_to_lf (d :: s)) as x. simpl. by rewrite H.
Qed.

Lemma toLF_id s : no_cr s -> toLF s = s.
Proof. induction s as [|c s IH]; [done|]. intros [Hc Hs]%no_cr_cons. by rewrite toLF_cons, IH. Qed.

Lemma toLF_crlf s : no_cr s -> toLF (lf_to_crlf s) = s.
Proof.
  induction s as [|c s IH]; [done|]. intros [Hc Hs]%no_cr_cons. simpl. destruct (Ascii.eqb_spec c LF) as [->|]; cbn [app].
  - change (toLF (CR :: LF :: lf_to_crlf s)) with (LF :: toLF (lf_to_crlf s)). by rewrite IH.
  - by rewrite toLF_cons, IH.
Qed.

Lemma has_crlf_no_cr s : no_cr s -> has_crlf s = false.
Proof.
  induction s as [|c [|d s] IH]; [done..|]. intros [Hc Hs]%no_cr_cons. cbn [has_crlf]. apply Ascii.eqb_neq in Hc.
  rewrite Hc. by apply IH.
Qed.

Lemma has_crlf_cons c s : has_crlf s = true -> has_crlf (c :: s) = true.
Proof. destruct s as [|d s]; [done|]. intros H. cbn [has_crlf]. cbn [has_crlf] in H. rewrite H. apply orb_true_r. Qed.

(** A text whose line feeds were replaced has none if it has no CR LF. *)
Lemma crlf_replaced s : has_crlf (lf_to_crlf s) = false -> lf_to_crlf s = s.
Proof.
  induction s as [|c s IH]; [done|]. simpl. destruct (Ascii.eqb_spec c LF) as [->|]; [done|].
  cbn [app]. intros H. f_equal. apply IH. destruct (has_crlf (lf_to_crlf s)) eqn:E; [|done].
  by rewrite (has_crlf_cons _ _ E) in H.
Qed.

(** Rendering what was rendered changes nothing. *)
Lemma render_stable path src regions r :
  bodies_ok regions -> no_cr src -> render path src regions = inl r -> render path r regions = inl r /\ no_cr r.
Proof.
  intros Hok Hcr. unfold render at 1. destruct (render_lines path regions 0 (split_lines src)) as [[out used]|] eqn:Hr; [|done].
  destruct (render_lines_clean path regions _ Hok _ _ _ _ (le_n _) (clean_lines _ Hcr) Hr) as [Hc Hne].
  destruct (checkUnmanagedGoBlocks path (join_lines out)) eqn:Hu; [done|].
  destruct (List.find _ _) eqn:Hf; [done|]. intros [= <-]. split; [|by apply join_no_cr].
  unfold render. rewrite split_join.
  - rewrite (render_lines_stable path regions _ Hok _ _ _ _ (le_n _) Hr). by rewrite Hu, Hf.
  - done.
  - apply Hne. destruct (split_lines_cons src) as (? & ? & ->). done.
Qed.

(** ** Regions have clean lines *)
Definition regions_clean (regions : regions_t) : Prop := forall name body, regions !! name = Some body -> Forall clean body.

Lemma dedent_clean l : Forall clean l -> Forall clean (dedent l).
Proof.
  intros H. unfold dedent. apply Forall_map. eapply Forall_impl; [exact H|]. intros x Hx c.
  destruct (is_blank x); [done|]. intros Hc. by apply Hx, (TrimPrefix_sub _ (dedent_prefix 0 [] l)).
Qed.

Lemma parse_lines_clean path pkg lines : Forall clean lines -> forall i name body line0 regions regions',
  Forall clean body -> regions_clean regions ->
  parse_lines path pkg i lines name body line0 regions = inl regions' -> regions_clean regions'.
Proof.
  induction 1 as [|line lines Hl _ IH]; intros i name body line0 regions regions' Hb Hr; cbn [parse_lines].
  { destruct name; [|done]. by intros [= <-]. }
  destruct (HasPrefix _ regionBegin); [destruct name; [|done]; by apply IH|].
  destruct (HasPrefix _ regionEnd); [|apply IH; [|done]; destruct name; [done|by constructor]].
  destruct (decide _); [done|]. destruct (regions !! _); [done|]. apply IH; [done|].
  intros k b. rewrite lookup_insert. case_decide; [intros [= <-]|by apply Hr]. by apply dedent_clean, Forall_rev.
Qed.

Lemma load_entries_clean Join root entries w : forall regions regions',
  regions_clean regions -> load_entries Join root entries regions w = inl regions' -> regions_clean regions'.
Proof.
  induction entries as [|[name [|]] entries IH]; intros regions regions' Hr; cbn [load_entries].
  - by intros [= <-].
  - destruct (os_Open _ w) as [data|e]; [|destruct (not_exist _ w); [by apply IH|done]].
    destruct (parseRegions _ _ _ _) as [r|e] eqn:Hp; [|done]. apply IH. unfold parseRegions in Hp.
    eapply parse_lines_clean; [|..|exact Hp]; [apply clean_lines, toLF_no_cr|constructor|done].
  - by apply IH.
Qed.

Lemma loadRegions_clean Join ReadDir root w regions : loadRegions Join ReadDir root w = inl regions -> regions_clean regions.
Proof.
  unfold loadRegions. destruct (ReadDir root) as [entries|]; [|done]. destruct (load_entries _ _ _ _ _) as [r|] eqn:H; [|done].
  destruct (decide _); [done|]. intros [= <-]. eapply load_entries_clean; [|exact H]. intros name body. by rewrite lookup_empty.
Qed.

(** ** Files *)
Lemma lit_string s : lit (String.string_of_list_ascii s) = s.
Proof. apply String.list_ascii_of_string_of_list_ascii. Qed.

Lemma write_read path s w w' : os_WriteFile path s w = (w', None) ->
  fails w' = fails w /\ files w' !! path = Some (String.string_of_list_ascii s).
Proof.
  unfold os_WriteFile, os_Create. destruct (fails w FCreate path); [done|]. unfold file_Write. simpl.
  destruct (fails w FWrite path); [done|]. intros [= <-]. split; [done|]. apply lookup_insert_eq.
Qed.

(** A README that the generator wrote is up to date: when writing succeeded, the check of
    that README succeeds and changes nothing, whatever its line ends were, for regions
    loaded from the examples, none of which holds the end marker of an example. *)
Theorem sync_then_check Join ReadDir root w0 regions path w w' :
  loadRegions Join ReadDir root w0 = inl regions ->
  (forall name body, regions !! name = Some body -> Forall (fun l => markerName (TrimSpace l) markerEnd = None) body) ->
  syncFile path regions false w = (w', None) -> syncFile path regions true w' = (w', None).
Proof.
  intros Hload Hend Hs. assert (bodies_ok regions) as Hok.
  { intros name body Hb. apply Forall_and. split; [by eapply loadRegions_clean|by eapply Hend]. }
  unfold syncFile in Hs. destruct (os_Open path w) as [data|] eqn:Ho; [|done].
  destruct (render path (toLF (lit data)) regions) as [r|] eqn:Hr; [|done].
  destruct (decide _) as [Heq|Hne].
  { injection Hs as <-. unfold syncFile. by rewrite Ho, Hr, decide_True. }
  destruct (os_WriteFile _ _ w) as [w1 [e|]] eqn:Hw; [done|]. injection Hs as <-.
  destruct (render_stable _ _ _ _ Hok (toLF_no_cr _) Hr) as [Hr2 Hcr].
  apply write_read in Hw as [Hf Hd]. unfold syncFile, os_Open. unfold os_Open in Ho. rewrite Hf.
  destruct (fails w FOpen path); [done|]. rewrite Hd, lit_string.
  destruct (has_crlf (lit data)).
  - rewrite toLF_crlf, Hr2 by done. destruct (has_crlf (lf_to_crlf r)) eqn:Hc; [by rewrite decide_True|].
    rewrite decide_True; [done|]. by rewrite crlf_replaced.
  - rewrite toLF_id, Hr2, has_crlf_no_cr by done. by rewrite decide_True.
Qed.

(** ** A repository with one region *)
Module ReadmeWitness.
Definition lines (eol : text) (l : list string) : string :=
  String.string_of_list_ascii (flat_map (fun s => lit s ++ eol)%list l).

Definition example_test : string := lines [LF]
  ["func Example() {"; "  // region: send"; "  actor.Post(mgr)"; "    wait()"; "  // endregion: send"; "}"].
Definition readme : string := lines [CR; LF] ["# actor"; "<!-- example: actor/send -->"; "<!-- /example: actor/send -->"].

Definition repo : disk :=
  mkDisk {[ "./actor/example_test.go" := example_test; "./README.md" := readme ]} (fun _ _ => None).
Definition ReadDir (_ : string) : list (string * bool) + error := inl [("README.md", false); ("actor", true)].
Definition regions1 : regions_t := {[ lit "actor/send" := [lit "actor.Post(mgr)"; lit "  wait()"] ]}.

Lemma regions1_ends name body : regions1 !! name = Some body ->
  Forall (fun l => markerName (TrimSpace l) markerEnd = None) body.
Proof.
  unfold regions1. rewrite lookup_singleton. case_decide; [intros [= <-]|done].
  repeat constructor; vm_compute; reflexivity.
Qed.

Lemma sync_then_check_witness : exists w',
  loadRegions (String.concat "/") ReadDir "." repo = inl regions1 /\
  syncFile "./README.md" regions1 false repo = (w', None) /\
  files w' !! "./README.md" = Some (lines [CR; LF]
    ["# actor"; "<!-- example: actor/send -->"; "```go"; "actor.Post(mgr)"; "  wait()"; "```"; "<!-- /example: actor/send -->"]) /\
  syncFile "./README.md" regions1 true w' = (w', None).
Proof.
  assert (loadRegions (String.concat "/") ReadDir "." repo = inl regions1) as Hl by (vm_compute; reflexivity).
  assert ((syncFile "./README.md" regions1 false repo).2 = None) as Hs by (vm_compute; reflexivity).
  exists (syncFile "./README.md" regions1 false repo).1.
  assert (syncFile "./README.md" regions1 false repo = ((syncFile "./README.md" regions1 false repo).1, None)) as H.
  { rewrite <- Hs. apply surjective_pairing. }
  split; [exact Hl|]. split; [exact H|]. split; [vm_compute; reflexivity|].
  exact (sync_then_check _ _ _ _ _ _ _ _ Hl regions1_ends H).
Defined.

(** A line without indentation does not count: the lines after it lose theirs, although
    it is common to them only. *)
Remark dedent_loses_indent : dedent [lit "if ok {"; lit "  run()"; lit "  // ok"] = [lit "if ok {"; lit "run()"; lit "// ok"].
Proof. vm_compute. reflexivity. Qed.
End ReadmeWitness.
