(* ===== verification/Game.v ===== *)
(** * The engineering example: rules, identifiers, messages

    cmd/engineering_example: game/combat.go, ids/ids.go, protocol/protocol.go, the
    contracts actors/*/api and the domain part of actors/player/player_state.go. The
    program is a small game server on the actor library: connections, players (grains),
    rooms and one world. *)

From S2P Require Import Prelude ActorTypes Control Registry Runtime Store Reader.

Local Open Scope string_scope.
Local Open Scope Z_scope.

(** ** game/combat.go *)
Definition BaseHP : Z := 100.
Definition HPPerLevel : Z := 20.
Definition BaseAtk : Z := 40.
Definition AtkPerLevel : Z := 5.
Definition BaseDef : Z := 0.
Definition DefPerLevel : Z := 1.

(** An int wraps at 64 bits; one wrap at the end is enough for sums and products. *)
Definition Damage (atk def : Z) : Z :=
  let d := wrap64 (atk - def) in if 1 <? d then d else 1.
Definition MaxHPOf (level : Z) : Z := wrap64 (BaseHP + HPPerLevel * (level - 1)).
Definition AtkOf (level : Z) : Z := wrap64 (BaseAtk + AtkPerLevel * (level - 1)).
Definition DefOf (level : Z) : Z := wrap64 (BaseDef + DefPerLevel * (level - 1)).
Definition ExpToLevel (level : Z) : Z := wrap64 (30 * level).
Definition HitReward : Z * Z := (5, 10).
Definition KillReward (level : Z) : Z * Z := (wrap64 (20 * level), wrap64 (40 * level)).
Definition Reward (slain : bool) (targetLevel : Z) : Z * Z :=
  if slain then KillReward targetLevel else HitReward.

(** ** ids/ids.go *)
Record ClientId := mkClientId { Conn : string }.
Record PlayerId := mkPlayerId { OpenID : string }.
Record RoomId := mkRoomId { Seq : Z }.
Record WorldId := mkWorldId { WID : string }.

(** The identifiers of the program in one type. *)
Inductive aid :=
  | AClient (id : ClientId)
  | APlayer (id : PlayerId)
  | ARoom (id : RoomId)
  | AWorld (id : WorldId).

#[export] Instance ClientId_eq_dec : EqDecision ClientId.
Proof. solve_decision. Defined.
#[export] Instance PlayerId_eq_dec : EqDecision PlayerId.
Proof. solve_decision. Defined.
#[export] Instance RoomId_eq_dec : EqDecision RoomId.
Proof. solve_decision. Defined.
#[export] Instance WorldId_eq_dec : EqDecision WorldId.
Proof. solve_decision. Defined.
#[export] Instance aid_eq_dec : EqDecision aid.
Proof. solve_decision. Defined.
#[export] Instance PlayerId_countable : Countable PlayerId.
Proof. by apply (inj_countable' OpenID mkPlayerId); intros []. Defined.
#[export] Instance aid_countable : Countable aid.
Proof.
  apply (inj_countable'
    (fun a => match a with
              | AClient c => inl (inl (Conn c))
              | APlayer p => inl (inr (OpenID p))
              | ARoom r => inr (inl (Seq r))
              | AWorld w => inr (inr (WID w))
              end)
    (fun x => match x with
              | inl (inl c) => AClient (mkClientId c)
              | inl (inr p) => APlayer (mkPlayerId p)
              | inr (inl r) => ARoom (mkRoomId r)
              | inr (inr w) => AWorld (mkWorldId w)
              end)).
  by intros [[]|[]|[]|[]].
Defined.

Definition aid_type (a : aid) : string :=
  match a with AClient _ => "Client" | APlayer _ => "Player" | ARoom _ => "Room" | AWorld _ => "World" end.
Definition aid_String (a : aid) : string :=
  match a with
  | AClient c => Conn c
  | APlayer p => OpenID p
  | ARoom r => pretty (Seq r)
  | AWorld w => WID w
  end.

#[export] Instance aid_ActorId : ActorId aid :=
  {| ActorType := aid_type; String := aid_String; zero_id := APlayer (mkPlayerId "") |}.

Definition TheWorld : WorldId := mkWorldId "w0".

(** ** protocol/protocol.go: what is pushed to a connection *)
Inductive Msg :=
  | LoginOK (Player : string) (Level HP MaxHP Atk Gold Exp Room ExpRate : Z)
  | StateUpdate (Level HP MaxHP Gold Exp : Z) (Reason : string)
  | RoomEvent (Room : Z) (Kind Text : string).

(** ** The contracts, actors/*/api *)
Record Brief := mkBrief { br_OpenID : string; br_Level : Z; br_HP : Z }.
Record PlayerView := mkView {
  pv_Player : string; pv_Level : Z; pv_HP : Z; pv_MaxHP : Z; pv_Atk : Z;
  pv_Gold : Z; pv_Exp : Z; pv_Room : Z; pv_ExpRate : Z;
}.
Record Config := mkConfig { ExpRate : Z }.
Definition DefaultConfig : Config := mkConfig 100.

(** The values of the store: nil or a configuration. *)
Abbreviation Any := (option Config).
#[export] Instance any_nil : GoAny Any := None.
#[export] Instance config_go : GoType Any Config := {| as_V := id; to_any := Some; as_to_any := fun _ => eq_refl |}.

Inductive req :=
  | CLogin (player : string) | CJoin (room : RoomId) | CSay (text : string) | CAttack (target : PlayerId)
  | CStatus | CPush (data : Msg) | CDrain
  | PLogin (client : ClientId) | PJoinRoom (room : RoomId) | PSay (text : string) | PAttack (target : PlayerId)
  | PStatus | PDamage (from_ : PlayerId) (room : RoomId) (amount : Z)
  | PCombatResult (target : PlayerId) (level amount : Z) (slain : bool)
  | PRoomEvent (room : RoomId) (kind text : string) | PRefresh (r : refreshReq Any)
  | RJoin (player : PlayerId) (brief : Brief) | RLeave (player : PlayerId) | RChat (from_ : PlayerId) (text : string)
  | RBriefChanged (player : PlayerId) (brief : Brief) | RReport (actor : PlayerId) (text : string) | RStatus
  | WInit | WSetConfig (expRate : Z).

Inductive rep :=
  | OkRep
  | ViewRep (v : PlayerView)
  | StatusRep (room : Z) (members : list Brief)
  | DrainRep (msgs : list Msg)
  | RefreshRep.

(** ** actors/player/player_state.go: the domain part

    The session fields and the cache are run-time state; the rest is persisted. *)
Record PlayerState := mkPlayer {
  Level : Z; HP : Z; Gold : Z; Exp : Z;
  Client : ClientId; Room : RoomId; Vars : Reader Any;
}.

Definition zero_player : PlayerState := mkPlayer 0 0 0 0 (mkClientId "") (mkRoomId 0) zero_reader.
Definition newPlayer : PlayerState := mkPlayer 1 (MaxHPOf 1) 0 0 (mkClientId "") (mkRoomId 0) zero_reader.

Definition maxHP (s : PlayerState) : Z := MaxHPOf (Level s).
Definition atk (s : PlayerState) : Z := AtkOf (Level s).
Definition def (s : PlayerState) : Z := DefOf (Level s).

Definition set_HP (hp : Z) (s : PlayerState) : PlayerState :=
  mkPlayer (Level s) hp (Gold s) (Exp s) (Client s) (Room s) (Vars s).
Definition set_Client (c : ClientId) (s : PlayerState) : PlayerState :=
  mkPlayer (Level s) (HP s) (Gold s) (Exp s) c (Room s) (Vars s).
Definition set_Room (r : RoomId) (s : PlayerState) : PlayerState :=
  mkPlayer (Level s) (HP s) (Gold s) (Exp s) (Client s) r (Vars s).
Definition set_Vars (r : Reader Any) (s : PlayerState) : PlayerState :=
  mkPlayer (Level s) (HP s) (Gold s) (Exp s) (Client s) (Room s) r.

(** [applyDamage]: the damage taken, whether the player was slain, and whether the hit
    counted at all. *)
Definition applyDamage (attack : Z) (s : PlayerState) : PlayerState * (Z * bool * bool) :=
  if HP s <=? 0 then (s, (0, false, false))
  else
    let taken := Damage attack (def s) in
    let hp := wrap64 (HP s - taken) in
    if hp <=? 0 then (set_HP 0 s, (taken, true, true)) else (set_HP hp s, (taken, false, true)).

(** The loop of [applyReward]; [None] when the fuel does not reach its end. *)
Fixpoint level_up (fuel : nat) (s : PlayerState) (leveled : bool) : option (PlayerState * bool) :=
  match fuel with
  | O => None
  | S fuel =>
      if ExpToLevel (Level s) <=? Exp s then
        let level := wrap64 (Level s + 1) in
        level_up fuel (mkPlayer level (MaxHPOf level) (Gold s) (wrap64 (Exp s - ExpToLevel (Level s)))
                         (Client s) (Room s) (Vars s)) true
      else Some (s, leveled)
  end.

(** A turn takes 30 points at least from a level above zero, and there is one turn at
    level zero at most. *)
Definition level_fuel (s : PlayerState) : nat := S (S (Z.to_nat (Exp s / 30))).

Definition applyReward (gold exp : Z) (s : PlayerState) : option (PlayerState * bool) :=
  let s1 := mkPlayer (Level s) (HP s) (wrap64 (Gold s + gold)) (wrap64 (Exp s + exp)) (Client s) (Room s) (Vars s) in
  level_up (level_fuel s1) s1 false.

Definition brief (id : PlayerId) (s : PlayerState) : Brief := mkBrief (OpenID id) (Level s) (HP s).
Definition view (id : PlayerId) (expRate : Z) (s : PlayerState) : PlayerView :=
  mkView (OpenID id) (Level s) (HP s) (maxHP s) (atk s) (Gold s) (Exp s) (Seq (Room s)) expRate.
