(* ===== verification/GameSpec.v ===== *)
(** * The rules of the engineering example

    Levels, experience and damage: the books balance, the order of rewards does not
    matter, nothing wraps. *)

From S2P Require Import Prelude ActorTypes Store Reader Game.

Local Open Scope Z_scope.

(** All experience a player ever got: the levels below the present one cost 30, 60, ... *)
Definition total_exp (s : PlayerState) : Z := Exp s + 15 * Level s * (Level s - 1).

(** A player in good order whose gold and experience are at most [B]. *)
Record player_ok (B : Z) (s : PlayerState) : Prop := {
  po_level : 1 <= Level s;
  po_exp : 0 <= Exp s < 30 * Level s;
  po_hp : 0 <= HP s <= 100 + 20 * (Level s - 1);
  po_gold : 0 <= Gold s <= B;
  po_total : total_exp s <= B;
}.

Definition limit : Z := 2 ^ 62.

(** Numbers below the limit do not wrap. *)
Lemma wrap64_limit z : - limit <= z <= limit -> wrap64 z = z.
Proof. unfold limit. intros H. apply wrap64_small. lia. Qed.

(** A level whose experience is below the limit is small. *)
Lemma level_small l e : 0 <= e -> 1 <= l -> e + 15 * l * (l - 1) <= limit -> l <= 2 ^ 31.
Proof. unfold limit. intros He Hl H. destruct (Z.le_gt_cases l (2 ^ 31)) as [|Hgt]; [done|]. exfalso. nia. Qed.

Lemma level_small_ok s B : player_ok B s -> B <= limit -> Level s <= 2 ^ 31.
Proof. intros [H1 H2 _ _ H5] HB. apply (level_small _ (Exp s)); [lia|done|]. unfold total_exp in H5. lia. Qed.

Ltac no_wrap := repeat (rewrite wrap64_limit by (unfold limit, BaseHP, HPPerLevel, BaseAtk, AtkPerLevel, BaseDef, DefPerLevel in *; lia)).

Lemma ExpToLevel_eq l : 1 <= l <= 2 ^ 32 -> ExpToLevel l = 30 * l.
Proof. intros H. unfold ExpToLevel. by no_wrap. Qed.

Lemma MaxHPOf_eq l : 1 <= l <= 2 ^ 32 -> MaxHPOf l = 100 + 20 * (l - 1).
Proof. intros H. unfold MaxHPOf. by no_wrap. Qed.

Lemma DefOf_eq l : 1 <= l <= 2 ^ 32 -> DefOf l = l - 1.
Proof. intros H. unfold DefOf. no_wrap. unfold BaseDef, DefPerLevel. lia. Qed.

Lemma AtkOf_eq l : 1 <= l <= 2 ^ 32 -> AtkOf l = 40 + 5 * (l - 1).
Proof. intros H. unfold AtkOf. by no_wrap. Qed.

(** ** Levelling up *)

(** A player with that much experience in all has this level, and no other. *)
Definition at_level (t l : Z) : Prop := 1 <= l /\ 15 * l * (l - 1) <= t < 15 * l * (l + 1).

Lemma at_level_unique t l1 l2 : at_level t l1 -> at_level t l2 -> l1 = l2.
Proof.
  unfold at_level. intros [H1 H2] [H3 H4]. destruct (Z.lt_trichotomy l1 l2) as [H|[H|H]]; [exfalso|done|exfalso]; nia.
Qed.

Lemma div_less e l : (e - 30 * l) / 30 = e / 30 - l.
Proof. replace (e - 30 * l) with (e + (- l) * 30) by lia. rewrite Z.div_add by lia. lia. Qed.

Lemma level_up_spec fuel : forall s lv, (Z.to_nat (Exp s / 30) < fuel)%nat -> 1 <= Level s -> 0 <= Exp s -> total_exp s <= limit ->
  exists s', level_up fuel s lv = Some (s', lv || (Level s <? Level s')) /\
    at_level (total_exp s) (Level s') /\ total_exp s' = total_exp s /\ Level s <= Level s' /\
    HP s' = (if Level s <? Level s' then 100 + 20 * (Level s' - 1) else HP s) /\
    Gold s' = Gold s /\ Client s' = Client s /\ Room s' = Room s /\ Vars s' = Vars s.
Proof.
  unfold at_level, total_exp. induction fuel as [|fuel IH]; intros s lv Hf Hl He Ht; [lia|]. cbn [level_up].
  pose proof (level_small _ _ He Hl Ht) as Hs. rewrite ExpToLevel_eq by lia.
  destruct (Z.leb_spec (30 * Level s) (Exp s)) as [Hle|Hgt].
  - rewrite MaxHPOf_eq by (rewrite wrap64_limit; unfold limit; lia). rewrite (wrap64_limit (Level s + 1)) by (unfold limit; lia).
    rewrite (wrap64_limit (Exp s - _)) by (unfold limit in *; nia).
    set (s1 := mkPlayer _ _ _ _ _ _ _).
    assert (total_exp s1 = total_exp s) as E1 by (unfold total_exp; simpl; lia).
    destruct (IH s1 true) as (s' & H1 & H2 & H3 & H4 & H5 & H6 & H7 & H8 & H9).
    + cbn [Exp s1]. rewrite div_less. pose proof (Z.div_le_lower_bound (Exp s) 30 (Level s)). lia.
    + simpl. lia.
    + simpl. lia.
    + unfold total_exp in E1. lia.
    + exists s'. simpl in H1, H4, H5, H6, H7, H8, H9. unfold total_exp in E1.
      assert ((Level s <? Level s') = true) as Hlt by lia. rewrite Hlt.
      split; [rewrite H1; simpl; by rewrite orb_true_r|]. split; [lia|]. split; [lia|]. split; [lia|].
      split; [|done]. destruct (Z.ltb_spec (Level s + 1) (Level s')); [done|]. rewrite H5. f_equal. lia.
  - exists s. rewrite Z.ltb_irrefl, orb_false_r. repeat split; try done; nia.
Qed.

(** Rewards are booked exactly: [applyReward] ends, adds the gold and the experience in
    full (the experience spent on levels counted), answers whether the level rose, fills up
    the hit points exactly then, touches nothing of the session, and leaves a player in
    good order, as long as gold and experience stay below 2^62. *)
Lemma applyReward_exact B s gold exp :
  player_ok B s -> 0 <= gold -> 0 <= exp -> B + Z.max gold exp <= limit ->
  exists s', applyReward gold exp s = Some (s', Level s <? Level s') /\
    player_ok (B + Z.max gold exp) s' /\ Gold s' = Gold s + gold /\ total_exp s' = total_exp s + exp /\
    Level s <= Level s' /\ HP s' = (if Level s <? Level s' then maxHP s' else HP s) /\
    Client s' = Client s /\ Room s' = Room s /\ Vars s' = Vars s.
Proof.
  intros [H1 H2 H3 H4 H5] Hg He HB. unfold applyReward. unfold total_exp in H5.
  rewrite (wrap64_limit (Gold s + gold)) by (unfold limit in *; lia).
  rewrite (wrap64_limit (Exp s + exp)) by (unfold limit in *; nia).
  set (s1 := mkPlayer _ _ _ _ _ _ _).
  assert (total_exp s1 = total_exp s + exp) as E1 by (unfold total_exp; simpl; lia).
  destruct (level_up_spec (level_fuel s1) s1 false) as (s' & G1 & G2 & G3 & G4 & G5 & G6 & G7 & G8 & G9).
  - unfold level_fuel. lia.
  - done.
  - simpl. lia.
  - unfold total_exp in *. simpl. lia.
  - simpl in G4, G5, G6, G7, G8, G9. simpl in G1. exists s'. destruct G2 as [G2 G2'].
    assert (0 <= Exp s' < 30 * Level s') as Hx by (unfold total_exp in *; lia).
    assert (Level s' <= 2 ^ 31) as Hs.
    { apply (level_small _ (Exp s')); [lia|lia|]. unfold total_exp in *. lia. }
    split; [exact G1|]. split; [|split; [lia|split; [lia|split; [done|split; [|done]]]]].
    + split; [lia|done| |unfold total_exp in *; lia|unfold total_exp in *; lia].
      rewrite G5. destruct (Z.ltb_spec (Level s) (Level s')); lia.
    + unfold maxHP. rewrite MaxHPOf_eq by lia. done.
Qed.

(** ** Any order of rewards *)
Fixpoint rewards (l : list (Z * Z)) (s : PlayerState) : option PlayerState :=
  match l with
  | [] => Some s
  | (gold, exp) :: l => r ← applyReward gold exp s; rewards l r.1
  end.

Definition sum_gold (l : list (Z * Z)) : Z := foldr (fun r n => r.1 + n) 0 l.
Definition sum_exp (l : list (Z * Z)) : Z := foldr (fun r n => r.2 + n) 0 l.
Definition non_negative (l : list (Z * Z)) : Prop := Forall (fun r => 0 <= r.1 /\ 0 <= r.2) l.

Lemma sums_non_negative l : non_negative l -> 0 <= sum_gold l /\ 0 <= sum_exp l.
Proof. induction 1 as [|r l [H1 H2] _ [IH1 IH2]]; simpl; [lia|]. unfold sum_gold, sum_exp in *. lia. Qed.

Lemma sums_perm l1 l2 : Permutation l1 l2 -> sum_gold l1 = sum_gold l2 /\ sum_exp l1 = sum_exp l2.
Proof. induction 1 as [|r l1 l2 _ [IH1 IH2]|r1 r2 l|l1 l2 l3 _ [IH1 IH2] _ [IH3 IH4]]; simpl; unfold sum_gold, sum_exp in *; lia. Qed.

Lemma player_ok_level B s : player_ok B s -> at_level (total_exp s) (Level s).
Proof. intros [H1 H2 _ _ _]. unfold at_level, total_exp. lia. Qed.

(** What the state after some rewards is, in terms of their sums. *)
Lemma rewards_spec l : forall B s, player_ok B s -> non_negative l -> B + sum_gold l + sum_exp l <= limit ->
  exists s', rewards l s = Some s' /\ player_ok (B + sum_gold l + sum_exp l) s' /\
    Gold s' = Gold s + sum_gold l /\ total_exp s' = total_exp s + sum_exp l /\ Level s <= Level s' /\
    HP s' = (if Level s <? Level s' then maxHP s' else HP s) /\
    Client s' = Client s /\ Room s' = Room s /\ Vars s' = Vars s.
Proof.
  induction l as [|[g e] l IH]; intros B s Hok Hn HB.
  - exists s. cbn. rewrite Z.ltb_irrefl. repeat split; try done; try lia; destruct Hok; lia.
  - apply Forall_cons in Hn as [[Hg He] Hn]. simpl in Hg, He. destruct (sums_non_negative l Hn) as [Hsg Hse].
    change (sum_gold ((g, e) :: l)) with (g + sum_gold l) in *. change (sum_exp ((g, e) :: l)) with (e + sum_exp l) in *.
    destruct (applyReward_exact B s g e Hok Hg He ltac:(lia)) as (s1 & H1 & H2 & H3 & H4 & H5 & H6 & H7 & H8 & H9).
    assert (player_ok (B + g + e) s1) as H2' by (destruct H2; split; lia).
    destruct (IH (B + g + e) s1 H2' Hn ltac:(lia)) as (s2 & G1 & G2 & G3 & G4 & G5 & G6 & G7 & G8 & G9).
    exists s2. cbn [rewards]. rewrite H1. cbn. split; [done|]. split; [destruct G2; split; lia|].
    split; [lia|]. split; [lia|]. split; [lia|]. split; [|split; [congruence|split; congruence]].
    rewrite G6, H6. destruct (Z.ltb_spec (Level s1) (Level s2)), (Z.ltb_spec (Level s) (Level s2)),
      (Z.ltb_spec (Level s) (Level s1)); try lia; try done.
    unfold maxHP. f_equal. lia.
Qed.

(** The order in which rewards arrive does not matter: whatever order the replies of
    the targets come in, the player ends in the same state, hit points included. *)
Theorem rewards_any_order B s l1 l2 :
  player_ok B s -> non_negative l1 -> B + sum_gold l1 + sum_exp l1 <= limit -> Permutation l1 l2 ->
  exists s', rewards l1 s = Some s' /\ rewards l2 s = Some s'.
Proof.
  intros Hok Hn HB Hp. destruct (sums_perm _ _ Hp) as [E1 E2].
  assert (non_negative l2) as Hn2 by (unfold non_negative; by rewrite <- Hp).
  destruct (rewards_spec l1 B s Hok Hn HB) as (s1 & H1 & H2 & H3 & H4 & _ & H6 & H7 & H8 & H9).
  destruct (rewards_spec l2 B s Hok Hn2 ltac:(lia)) as (s2 & G1 & G2 & G3 & G4 & _ & G6 & G7 & G8 & G9).
  exists s1. split; [done|]. rewrite G1. f_equal.
  assert (total_exp s2 = total_exp s1) as Et by lia.
  assert (Level s2 = Level s1) as El.
  { apply (at_level_unique (total_exp s1)); [rewrite <- Et|]; by eapply player_ok_level. }
  assert (HP s2 = HP s1) as Eh by (rewrite G6, H6; unfold maxHP; by rewrite El).
  unfold total_exp in Et. rewrite El in Et. assert (Exp s2 = Exp s1) as Ee by lia.
  assert (Gold s2 = Gold s1) as Eg by lia.
  destruct s1, s2. simpl in *. congruence.
Qed.

(** ** Damage *)
Lemma Damage_spec attack d : - limit <= attack <= limit -> 0 <= d <= limit -> Damage attack d = Z.max 1 (attack - d).
Proof.
  unfold Damage, limit. intros Ha Hd. rewrite wrap64_small by lia. destruct (Z.ltb_spec 1 (attack - d)); lia.
Qed.

Lemma applyDamage_spec B s attack : player_ok B s -> B <= limit -> - limit <= attack <= limit ->
  let '(s', (taken, slain, ok)) := applyDamage attack s in
  player_ok B s' /\ ok = (0 <? HP s) /\ HP s' = Z.max 0 (HP s - taken) /\
  slain = (0 <? HP s) && (HP s' =? 0) /\
  (if 0 <? HP s then taken = Z.max 1 (attack - (Level s - 1)) else taken = 0 /\ s' = s) /\
  s' = set_HP (HP s') s.
Proof.
  intros Hok HB Ha. pose proof (level_small_ok _ _ Hok HB) as Hs. destruct Hok as [H1 H2 H3 H4 H5].
  unfold applyDamage, def. rewrite DefOf_eq by lia. destruct (Z.leb_spec (HP s) 0) as [Hle|Hgt].
  - assert ((0 <? HP s) = false) as -> by lia. repeat split; try done; try lia. by destruct s.
  - assert ((0 <? HP s) = true) as -> by lia. rewrite Damage_spec by (unfold limit in *; lia).
    set (taken := Z.max 1 (attack - (Level s - 1))). rewrite wrap64_limit by (unfold limit in *; lia).
    destruct (Z.leb_spec (HP s - taken) 0); simpl; (split; [split; simpl; unfold total_exp in *; simpl; lia|]);
      (split; [done|]); (split; [lia|]); (split; [|done]).
    + done.
    + destruct (Z.eqb_spec (HP s - taken) 0); [lia|done].
Qed.

(** Some hits in a row: the state and the results. *)
Fixpoint hits (l : list Z) (s : PlayerState) : PlayerState * list (Z * bool * bool) :=
  match l with
  | [] => (s, [])
  | a :: l => let '(s1, r) := applyDamage a s in let '(s2, rs) := hits l s1 in (s2, r :: rs)
  end.

Definition slain_in (rs : list (Z * bool * bool)) : nat := countb (fun r => r.1.2) rs.
Definition taken_in (rs : list (Z * bool * bool)) : Z := foldr (fun r n => r.1.1 + n) 0 rs.

(** A player dies once: among any hits between two level-ups, on a player that stands,
    exactly one is answered as the killing one if the player is down at the end, none if
    not; the hit points lost are the damage reported, down to zero; and hits on a player
    who is down report nothing, change nothing and kill nobody. *)
Theorem dies_once B s l : player_ok B s -> B <= limit -> Forall (fun a => - limit <= a <= limit) l ->
  let '(s', rs) := hits l s in
  player_ok B s' /\ HP s' = Z.max 0 (HP s - taken_in rs) /\
  slain_in rs = (if (0 <? HP s) && (HP s' =? 0) then 1%nat else 0%nat) /\
  (HP s = 0 -> s' = s /\ taken_in rs = 0 /\ Forall (fun r => r = (0, false, false)) rs).
Proof.
  intros Hok HB Hl. revert s Hok. induction Hl as [|a l Ha _ IH]; intros s Hok.
  - cbn. destruct Hok as [? ? ? ? ?]. split; [by split|]. split; [lia|]. split; [|done].
    destruct (Z.ltb_spec 0 (HP s)), (Z.eqb_spec (HP s) 0); simpl; lia.
  - cbn [hits]. pose proof (applyDamage_spec B s a Hok HB Ha) as H.
    destruct (applyDamage a s) as [s1 [[taken slain] ok]] eqn:E. destruct H as (H1 & H2 & H3 & H4 & H5 & H6).
    specialize (IH s1 H1). destruct (hits l s1) as [s2 rs]. destruct IH as (G1 & G2 & G3 & G4).
    assert (0 <= HP s1) as Hp1 by (destruct H1; lia). assert (0 <= HP s) as Hp by (destruct Hok; lia).
    split; [done|]. cbn [taken_in slain_in foldr countb fst snd]. fold (taken_in rs) (slain_in rs).
    assert (HP s1 = 0 -> taken_in rs = 0) as Ht0 by (intros Hz; by apply G4).
    split; [|split].
    + rewrite G2, H3. destruct (Z.ltb_spec 0 (HP s)).
      * destruct (Z.leb_spec (HP s - taken) 0); [|lia]. rewrite Ht0 by lia. lia.
      * destruct H5 as [-> ->]. rewrite Ht0 by lia. lia.
    + rewrite G3, H4. destruct (Z.ltb_spec 0 (HP s)); simpl.
      * destruct (Z.eqb_spec (HP s1) 0) as [Hz|]; simpl.
        -- destruct (G4 Hz) as [-> _]. destruct (Z.ltb_spec 0 (HP s1)); [lia|]. simpl.
           destruct (Z.eqb_spec (HP s1) 0); lia.
        -- destruct (Z.ltb_spec 0 (HP s1)); [done|lia].
      * assert (HP s1 = 0) as Hz by lia. destruct (G4 Hz) as [-> _]. rewrite Hz. done.
    + intros Hz. assert ((0 <? HP s) = false) as Hb by lia. rewrite Hb in *. destruct H5 as [-> ->].
      destruct (G4 Hz) as (-> & -> & G5). split; [done|]. split; [done|]. constructor; [|done]. subst. done.
Qed.

(** ** Witnesses *)
Lemma new_player_ok : player_ok 0 newPlayer.
Proof. split; vm_compute; intuition discriminate. Qed.

(** Two rewards of a new player, in both orders: 40 points of experience are level two. *)
Lemma rewards_any_order_witness :
  (exists s', rewards [(5, 10); (20, 40)] newPlayer = Some s' /\ rewards [(20, 40); (5, 10)] newPlayer = Some s') /\
  (fmap (fun s => (Level s, Exp s, Gold s)) (rewards [(5, 10); (20, 40)] newPlayer) = Some (2, 20, 25)).
Proof.
  split; [|vm_compute; reflexivity].
  apply (rewards_any_order 0 newPlayer [(5, 10); (20, 40)] [(20, 40); (5, 10)] new_player_ok).
  - repeat constructor; vm_compute; discriminate.
  - vm_compute. discriminate.
  - apply perm_swap.
Defined.

(** The third hit of 40 kills a new player, the fourth does not count. *)
Lemma dies_once_witness :
  slain_in (hits [40; 40; 40; 40] newPlayer).2 = 1%nat /\ HP (hits [40; 40; 40; 40] newPlayer).1 = 0 /\
  let '(s', rs) := hits [40; 40; 40; 40] newPlayer in player_ok 0 s' /\ HP s' = Z.max 0 (HP newPlayer - taken_in rs).
Proof.
  split; [vm_compute; reflexivity|]. split; [vm_compute; reflexivity|].
  assert (Forall (fun a => - limit <= a <= limit) [40; 40; 40; 40]) as H by (repeat constructor; vm_compute; discriminate).
  pose proof (dies_once 0 newPlayer [40; 40; 40; 40] new_player_ok ltac:(vm_compute; discriminate) H) as D.
  destruct (hits _ _) as [s' rs]. destruct D as (D1 & D2 & _). split; [exact D1|exact D2].
Defined.
