(* ===== verification/Act.v ===== *)
(** * Programs of an actor

    The handlers of the example programs, as a small state monad over the world and the
    context of the actor. A request handler is such a program; [dispatch] makes the
    table of them the user code of Runtime, with the type assertion that the generic
    [register] of actor/registry_builder.go puts in front of each. *)

From S2P Require Import Prelude ActorTypes Control Registry Runtime.

(** [NoFuel]: a loop outlives the fuel it is given. *)
Inductive res (A : Type) := Done (x : A) | Panicked (v : option error) | NoFuel.
Arguments Done {A} x.
Arguments Panicked {A} v.
Arguments NoFuel {A}.

Definition act (I Q : Type) `{!ActorId I} (W Hook CB S A : Type) : Type :=
  W -> ActorContext I Q Hook CB S -> W * ActorContext I Q Hook CB S * res A.

Section act.
Context {I Q : Type} `{!ActorId I} {W Hook CB S : Type}.
Abbreviation act := (act I Q W Hook CB S).

Definition ret {A} (x : A) : act A := fun w c => (w, c, Done x).

Definition bind {A B} (m : act A) (k : A -> act B) : act B := fun w c =>
  let '(w1, c1, r) := m w c in
  match r with
  | Done x => k x w1 c1
  | Panicked v => (w1, c1, Panicked v)
  | NoFuel => (w1, c1, NoFuel)
  end.

Definition panic {A} (v : option error) : act A := fun w c => (w, c, Panicked v).
Definition no_fuel {A} : act A := fun w c => (w, c, NoFuel).

(** The state, the identifier and the control of the context. *)
Definition gets {A} (f : S -> A) : act A := fun w c => (w, c, Done (f (state c))).
Definition modify (f : S -> S) : act unit := fun w c => (w, SetState (f (state c)) c, Done tt).
Definition self_id : act I := fun w c => (w, c, Done (ctx_id c)).
Definition open : act unit := fun w c => (w, ctx_Open c, Done tt).
Definition quit : act unit := fun w c => (w, ctx_Quit c, Done tt).

(** What lies outside the actor: the world is read, or changed. *)
Definition asks {A} (f : W -> A) : act A := fun w c => (w, c, Done (f w)).
Definition tell (f : W -> W) : act unit := fun w c => (f w, c, Done tt).

(** [ctx.Timer] with a callback of the user. *)
Definition timer (nm : string) (cb : CB) : act Z := fun w c =>
  let '(c1, tid) := ctx_Timer nm (FnUser cb) c in (w, c1, Done tid).

(** actor.APost, actor.ACall and actor.AMulticast on [ctx.Control()]. *)
Context {R : Type} `{!Poster W I Q R}.

Definition post (to : I) (q : Q) : act (option error) := fun w c =>
  let '(w1, a1, err) := APost w (ctrl c) to q in (w1, set_ctrl a1 c, Done err).
Definition call (to : I) (q : Q) : act (option R * option error) := fun w c =>
  let '(w1, a1, r) := ACall w (ctrl c) to q in (w1, set_ctrl a1 c, Done r).
Definition multicast (to : list I) (q : Q) : act (list (IdErr I) * option error) := fun w c =>
  let '(w1, a1, r) := AMulticast w (ctrl c) to q in (w1, set_ctrl a1 c, Done r).
End act.

Declare Scope act_scope.
Delimit Scope act_scope with act.
Notation "'let*' x ':=' m 'in' k" := (bind m (fun x => k))
  (at level 10, x pattern, m at level 100, k at level 200,
   format "'let*'  x  ':='  m  'in' '//' k") : act_scope.
Notation "m ';;' k" := (bind m (fun _ => k)) (at level 100, right associativity) : act_scope.

Definition when {I Q} `{!ActorId I} {W Hook CB S} (b : bool) (m : act I Q W Hook CB S unit) : act I Q W Hook CB S unit :=
  if b then m else ret tt.

(** What a handler returns: the reply, nil on an error, and the error. *)
Definition hres (R : Type) : Type := option R * option error.
Definition fail {R} (e : error) : hres R := (None, Some e).

Definition handler_return {I Q} `{!ActorId I} {W Hook CB S R} (r : W * ActorContext I Q Hook CB S * res (hres R))
    : W * ActorContext I Q Hook CB S * handler_end R :=
  let '(w, c, e) := r in
  (w, c, match e with
         | Done (rep, err) => HReturn rep err
         | Panicked v => HPanic v
         | NoFuel => HPanic None
         end).

(** The wrapper of [register]: a request of another type than the handler's panics. *)
Definition dispatch {I Q T} `{!ActorId I, !Requests T Q I} {W Hook CB S R} (h : Q -> bool -> act I Q W Hook CB S (hres R)) (f : T)
    (w : W) (c : ActorContext I Q Hook CB S) (q : request Q) (spawning : bool)
    : W * ActorContext I Q Hook CB S * handler_end R :=
  match q with
  | UserReq u => if bool_decide (user_type u = f) then handler_return (h u spawning w c) else (w, c, HPanic None)
  | PanicReq _ => (w, c, HPanic None)
  end.

Definition spawn_return (r : res (option error)) : spawn_end :=
  match r with Done err => SReturn err | Panicked v => SPanic v | NoFuel => SPanic None end.
