(* ===== verification/GameActors.v ===== *)
(** * The engineering example: the actors

    actors/client, actors/player, actors/room and actors/world of
    cmd/engineering_example: the handlers, as programs of Act, the registration tables,
    and the actors as user code of Runtime; the player is a grain. Logging is left out. *)

From S2P Require Import Prelude ActorTypes Control Registry Runtime Store Reader Lease Grain Game.
From S2P Require Export Act.

Local Open Scope string_scope.

(** The programs of Act, at the identifiers, requests and replies of the game. *)
Abbreviation act := (act aid req).
Abbreviation hres := (hres rep).
Abbreviation handler W Hook CB S := (act W Hook CB S hres).

Local Open Scope act_scope.

Definition ok : hres := (Some OkRep, None).

(** The identifier of a context, at the type of its group. *)
Definition client_of (a : aid) : ClientId := match a with AClient c => c | _ => mkClientId "" end.
Definition player_of (a : aid) : PlayerId := match a with APlayer p => p | _ => mkPlayerId "" end.
Definition room_of (a : aid) : RoomId := match a with ARoom r => r | _ => mkRoomId 0 end.

(** ** actors/client *)
Module Client.
Record State := mkState { Self : PlayerId; Inbox : list Msg }.

Section handlers.
Context {W Hook CB : Type} `{!Poster W aid req rep}.
Abbreviation act := (act W Hook CB State).
Abbreviation handler := (handler W Hook CB State).

Definition handleLogin (openid : string) (spawning : bool) : handler :=
  when spawning open ;;
  let self := mkPlayerId openid in
  let* id := self_id in
  let* (_, err) := call (APlayer self) (PLogin (client_of id)) in
  match err with
  | Some e => ret (fail (ErrWrap ("client: 登录 " +:+ openid +:+ " 失败: " +:+ Error e) [e]))
  | None => modify (fun s => mkState self (Inbox s)) ;; ret ok
  end.

Definition forward (q : req) : handler :=
  let* self := gets Self in
  if String.eqb (OpenID self) "" then ret (fail (ErrNew "client: 尚未登录"))
  else call (APlayer self) q.

Definition handleJoin (room : RoomId) : handler := forward (PJoinRoom room).
Definition handleSay (text : string) : handler := forward (PSay text).
Definition handleAttack (target : PlayerId) : handler := forward (PAttack target).
Definition handleStatus : handler := forward PStatus.

Definition handlePush (data : Msg) : handler :=
  modify (fun s => mkState (Self s) (Inbox s ++ [data])) ;; ret ok.

Definition handleDrain : handler :=
  let* msgs := gets Inbox in
  modify (fun s => mkState (Self s) []) ;;
  ret (Some (DrainRep msgs), None).
End handlers.
End Client.

(** ** actors/world *)
Module World.
Record State := mkState { Config : Game.Config }.

(** The key of the configuration, actors/world/api: one minute of life in a cache. *)
Definition configKeyDef : Store.Def Any :=
  match Define "example/world/config" [WithTTL (60 * Second)] ∅ with
  | Ok (_, d) => d
  | Err _ | Panic _ => mkDef (mkDefInfo "" 0 0 None false)
  end.
Definition ConfigKey : Store.Key Any := Of configKeyDef [].

Section handlers.
Context {W Hook CB : Type} `{!StoreClient W aid Any} (g : storeGlobals).
Abbreviation act := (act W Hook CB State).
Abbreviation handler := (handler W Hook CB State).

Definition publish : act (option error) := fun w c =>
  match PublishWaitFrom (I := aid) g ConfigKey (Config (state c)) w with
  | Ok (w1, err) => (w1, c, Done err)
  | Err e => (w, c, Done (Some e))
  | Panic why => (w, c, Panicked None)
  end.

Definition handleInit (spawning : bool) : handler :=
  when spawning (open ;; modify (fun _ => mkState DefaultConfig)) ;;
  let* err := publish in
  ret (Some OkRep, err).

Definition handleSetConfig (expRate : Z) : handler :=
  when (0 <? expRate)%Z (modify (fun _ => mkState (mkConfig expRate))) ;;
  let* err := publish in
  ret (Some OkRep, err).
End handlers.
End World.

(** ** actors/room *)
Module Room.
(** [None] is the nil map. *)
Record State := mkState { Members : option (gmap PlayerId Brief) }.

Definition ensure (s : State) : State :=
  match Members s with None => mkState (Some ∅) | Some _ => s end.

(** Reading a nil map finds nothing, deleting from it does nothing; [put] is only
    reached with a map. *)
Definition table (s : State) : gmap PlayerId Brief := default ∅ (Members s).
Definition remove (p : PlayerId) (s : State) : State := mkState (delete p <$> Members s).
Definition put (p : PlayerId) (b : Brief) (s : State) : State := mkState (<[p := b]> <$> Members s).

Definition before (a b : PlayerId) : Prop := stdpp.strings.String.le (OpenID a) (OpenID b).
#[export] Instance before_dec : RelDecision before.
Proof. intros a b. unfold before. apply _. Defined.

Definition members (s : State) : list PlayerId := merge_sort before (map_to_list (table s)).*1.
Definition briefs (s : State) : list Brief :=
  (fun id => default (mkBrief "" 0 0) (table s !! id)) <$> members s.

Section handlers.
Context {W Hook CB : Type} `{!Poster W aid req rep}.
Abbreviation act := (act W Hook CB State).
Abbreviation handler := (handler W Hook CB State).

(** The loop over the results of the multicast. *)
Definition drop_failed (errs : list (IdErr aid)) (s : State) : State :=
  foldl (fun s e => match IErr e with None => s | Some _ => remove (player_of (Id e)) s end) s errs.

Definition broadcast (kind text : string) : act unit :=
  let* ms := gets members in
  match ms with
  | [] => ret tt
  | _ =>
      let* id := self_id in
      let* (errs, _) := multicast (APlayer <$> ms) (PRoomEvent (room_of id) kind text) in
      modify (drop_failed errs)
  end.

Definition handleJoin (player : PlayerId) (brief : Brief) (spawning : bool) : handler :=
  modify ensure ;;
  let* existed := gets (fun s => bool_decide (is_Some (table s !! player))) in
  modify (put player brief) ;;
  when spawning open ;;
  let* id := self_id in
  when (negb existed) (broadcast "join" (OpenID player +:+ " 进入房间 " +:+ pretty (Seq (room_of id)))) ;;
  ret ok.

Definition handleLeave (player : PlayerId) : handler :=
  let* there := gets (fun s => table s !! player) in
  match there with
  | None => ret ok
  | Some _ =>
      modify (remove player) ;;
      let* id := self_id in
      broadcast "leave" (OpenID player +:+ " 离开房间 " +:+ pretty (Seq (room_of id))) ;;
      ret ok
  end.

Definition handleBriefChanged (player : PlayerId) (brief : Brief) : handler :=
  let* there := gets (fun s => table s !! player) in
  match there with
  | None => ret ok
  | Some _ => modify (put player brief) ;; ret ok
  end.

Definition handleChat (from_ : PlayerId) (text : string) : handler :=
  let* there := gets (fun s => table s !! from_) in
  let* id := self_id in
  match there with
  | None => ret (fail (ErrNew ("room: " +:+ OpenID from_ +:+ " 不在房间 " +:+ pretty (Seq (room_of id)) +:+ " 里")))
  | Some _ => broadcast "chat" (OpenID from_ +:+ ": " +:+ text) ;; ret ok
  end.

Definition handleReport (actor : PlayerId) (text : string) : handler :=
  broadcast "report" (OpenID actor +:+ " " +:+ text) ;; ret ok.

Definition handleStatus : handler :=
  let* id := self_id in
  let* bs := gets briefs in
  ret (Some (StatusRep (Seq (room_of id)) bs), None).
End handlers.
End Room.

(** ** actors/player *)
Module Player.
Section handlers.
Context {W Dr UH UC : Type} `{!Poster W aid req rep, !Clock W, !StoreClient W aid Any}.
Context (g : storeGlobals) (bs : bindings).
Abbreviation PlayerGrainState := (Grain.State Dr PlayerState (ShotSelf PlayerState)).
Abbreviation act := (act W (grainHook UH) (grainCB UC) PlayerGrainState).
Abbreviation handler := (handler W (grainHook UH) (grainCB UC) PlayerGrainState).

(** [ctx.State().Data] *)
Definition data {A} (f : PlayerState -> A) : act A := gets (fun s => f (Data s)).
Definition update (f : PlayerState -> PlayerState) : act unit := modify (fun s => set_Data (f (Data s)) s).

(** ctx.Id() *)
Definition me : act PlayerId := let* id := self_id in ret (player_of id).

(** player_state.go: [expRate]. *)
Definition expRate : act Z := fun w c =>
  let '(w1, r1, cfg) := Watch (V := Config) g bs c World.ConfigKey w (Vars (Data (state c))) in
  let c1 := with_Data (set_Vars r1 (Data (state c))) c in
  match cfg with
  | Ok cfg => (w1, c1, Done (ExpRate cfg))
  | Err _ => (w1, c1, Done (ExpRate DefaultConfig))
  | Panic why => (w1, c1, Panicked None)
  end.

(** player_notify.go; the errors of the posts are logged. *)
Definition push (msg : Msg) : act unit :=
  let* client := data Client in
  if String.eqb (Conn client) "" then ret tt
  else post (AClient client) (CPush msg) ;; ret tt.

(** The fields of the message are read before [expRate], the last one. *)
Definition pushLoginOK : act unit :=
  let* id := me in
  let* s := data (fun s => s) in
  let* rate := expRate in
  push (LoginOK (OpenID id) (Level s) (HP s) (maxHP s) (atk s) (Gold s) (Exp s) (Seq (Room s)) rate).

Definition pushState (reason : string) : act unit :=
  let* s := data (fun s => s) in
  push (StateUpdate (Level s) (HP s) (maxHP s) (Gold s) (Exp s) reason).

Definition reportBrief : act unit :=
  let* s := data (fun s => s) in
  if (Seq (Room s) =? 0)%Z then ret tt
  else
    let* id := me in
    post (ARoom (Room s)) (RBriefChanged id (brief id s)) ;; ret tt.

Definition report (text : string) : act unit :=
  let* room := data Room in
  if (Seq room =? 0)%Z then ret tt
  else
    let* id := me in
    post (ARoom room) (RReport id text) ;; ret tt.

Definition roomEventMsg (room : RoomId) (kind text : string) : Msg := RoomEvent (Seq room) kind text.

(** player_handler_client.go *)
Definition handleLogin (client : ClientId) : handler :=
  update (set_Client client) ;;
  pushLoginOK ;;
  ret ok.

Definition handleJoinRoom (room : RoomId) : handler :=
  let* s := data (fun s => s) in
  if bool_decide (Room s = room) then ret ok
  else
    let prev := Room s in
    let* id := me in
    let* (_, err) := call (ARoom room) (RJoin id (brief id s)) in
    match err with
    | Some e => ret (fail (ErrWrap ("player: 进入房间 " +:+ pretty (Seq room) +:+ " 失败: " +:+ Error e) [e]))
    | None =>
        update (set_Room room) ;;
        (if (Seq prev =? 0)%Z then ret tt else post (ARoom prev) (RLeave id) ;; ret tt) ;;
        pushState "join" ;;
        ret ok
    end.

Definition handleSay (text : string) : handler :=
  let* room := data Room in
  if (Seq room =? 0)%Z then ret (fail (ErrNew "player: 还没进入任何房间"))
  else
    let* id := me in
    let* (_, err) := call (ARoom room) (RChat id text) in
    match err with
    | Some e => ret (fail (ErrWrap ("player: 发言失败: " +:+ Error e) [e]))
    | None => ret ok
    end.

Definition handleAttack (target : PlayerId) : handler :=
  let* s := data (fun s => s) in
  let* id := me in
  if bool_decide (target = id) then ret (fail (ErrNew "player: 不能攻击自己"))
  else if (HP s <=? 0)%Z then ret (fail (ErrNew "player: 已经倒地，无法攻击"))
  else
    let* err := post (APlayer target) (PDamage id (Room s) (atk s)) in
    match err with
    | Some e => ret (fail (ErrWrap ("player: 攻击 " +:+ OpenID target +:+ " 失败: " +:+ Error e) [e]))
    | None => ret ok
    end.

(** The arguments of [view] are evaluated before it reads the state. *)
Definition handleStatus : handler :=
  let* id := me in
  let* rate := expRate in
  let* v := data (view id rate) in
  ret (Some (ViewRep v), None).

(** player_handler_event.go *)
Definition handleDamage (from_ : PlayerId) (amount : Z) : handler :=
  let* (s, (taken, slain, counts)) := data (applyDamage amount) in
  update (fun _ => s) ;;
  if negb counts then ret ok
  else
    let* id := me in
    post (APlayer from_) (PCombatResult id (Level s) taken slain) ;;
    pushState "damage" ;;
    reportBrief ;;
    ret ok.

(** Go's division truncates. *)
Definition scaled (exp rate : Z) : Z := Z.quot (wrap64 (exp * rate)) 100.

Definition handleCombatResult (target : PlayerId) (level : Z) (slain : bool) : handler :=
  let '(gold, exp) := Reward slain level in
  let* rate := expRate in
  let* r := data (applyReward gold (scaled exp rate)) in
  match r with
  | None => no_fuel
  | Some (s, _) =>
      update (fun _ => s) ;;
      pushState "combat" ;;
      reportBrief ;;
      when slain (report ("击倒了 " +:+ OpenID target)) ;;
      ret ok
  end.

Definition handleRoomEvent (room : RoomId) (kind text : string) : handler :=
  push (roomEventMsg room kind text) ;; ret ok.

(** The handler [shared.ServeReader] registers. *)
Definition handleRefresh (q : refreshReq Any) : handler := fun w c =>
  (w, with_Data (set_Vars (on_refresh q w (Vars (Data (state c)))) (Data (state c))) c, Done (Some RefreshRep, None)).

(** player_register.go: [handleSpawn], the activation callback of the grain. *)
Definition handleSpawn (created : bool) : act (option error) :=
  when created (update (fun _ => newPlayer)) ;; ret None.
End handlers.
End Player.

(** ** Request types *)
Inductive reqT :=
  | TCLogin | TCJoin | TCSay | TCAttack | TCStatus | TCPush | TCDrain
  | TPLogin | TPJoinRoom | TPSay | TPAttack | TPStatus | TPDamage | TPCombatResult | TPRoomEvent | TPRefresh
  | TRJoin | TRLeave | TRChat | TRBriefChanged | TRReport | TRStatus
  | TWInit | TWSetConfig.

#[export] Instance reqT_eq_dec : EqDecision reqT.
Proof. solve_decision. Defined.

Definition req_type (q : req) : reqT :=
  match q with
  | CLogin _ => TCLogin | CJoin _ => TCJoin | CSay _ => TCSay | CAttack _ => TCAttack | CStatus => TCStatus
  | CPush _ => TCPush | CDrain => TCDrain
  | PLogin _ => TPLogin | PJoinRoom _ => TPJoinRoom | PSay _ => TPSay | PAttack _ => TPAttack | PStatus => TPStatus
  | PDamage _ _ _ => TPDamage | PCombatResult _ _ _ _ => TPCombatResult | PRoomEvent _ _ _ => TPRoomEvent
  | PRefresh _ => TPRefresh
  | RJoin _ _ => TRJoin | RLeave _ => TRLeave | RChat _ _ => TRChat | RBriefChanged _ _ => TRBriefChanged
  | RReport _ _ => TRReport | RStatus => TRStatus
  | WInit => TWInit | WSetConfig _ => TWSetConfig
  end.

(** The [ReqType] methods. *)
Definition req_ReqType (t : reqT) : string :=
  match t with
  | TCLogin | TPLogin => "Login"
  | TCJoin | TRJoin => "Join"
  | TPJoinRoom => "JoinRoom"
  | TCSay | TPSay => "Say"
  | TCAttack | TPAttack => "Attack"
  | TCStatus | TPStatus | TRStatus => "Status"
  | TCPush => "Push"
  | TCDrain => "Drain"
  | TPDamage => "Damage"
  | TPCombatResult => "CombatResult"
  | TPRoomEvent => "RoomEvent"
  | TPRefresh => "__shared_refresh__"
  | TRLeave => "Leave"
  | TRChat => "Chat"
  | TRBriefChanged => "BriefChanged"
  | TRReport => "Report"
  | TWInit => "Init"
  | TWSetConfig => "SetConfig"
  end.

(** The zero identifier of the group a request type is for. *)
Definition zero_client : aid := AClient (mkClientId "").
Definition zero_playerid : aid := APlayer (mkPlayerId "").
Definition zero_room : aid := ARoom (mkRoomId 0).
Definition zero_world : aid := AWorld (mkWorldId "").

Definition req_id0 (t : reqT) : aid :=
  match t with
  | TCLogin | TCJoin | TCSay | TCAttack | TCStatus | TCPush | TCDrain => zero_client
  | TPLogin | TPJoinRoom | TPSay | TPAttack | TPStatus | TPDamage | TPCombatResult | TPRoomEvent | TPRefresh => zero_playerid
  | TRJoin | TRLeave | TRChat | TRBriefChanged | TRReport | TRStatus => zero_room
  | TWInit | TWSetConfig => zero_world
  end.

#[export] Instance game_Requests : Requests reqT req aid :=
  {| user_type := req_type; user_ReqType := req_ReqType; user_id0 := req_id0 |}.

(** ** Registration: the handlers are known by the request type they serve *)
Abbreviation builder := (RegistryBuilder reqT reqT).

Definition serve {SF} (t : reqT) (b : builder SF) : builder SF := RegisterServe b (TUser t) t.
Definition query {SF} (t : reqT) (b : builder SF) : builder SF := RegisterQuery b (TUser t) t.
Definition spawn {SF} (t : reqT) (b : builder SF) : builder SF := RegisterSpawn b (TUser t) t.
Definition queries {SF} (ts : list reqT) (b : builder SF) : builder SF := foldl (fun b t => query t b) b ts.

Definition client_registry : builder Empty_set :=
  queries [TCJoin; TCSay; TCAttack; TCStatus; TCPush; TCDrain] (serve TCLogin NewRegistryBuilder).
Definition room_registry : builder Empty_set :=
  queries [TRLeave; TRChat; TRBriefChanged; TRReport; TRStatus] (serve TRJoin NewRegistryBuilder).
Definition world_registry : builder Empty_set :=
  query TWSetConfig (spawn TWInit NewRegistryBuilder).

(** The player: [ServeReader], which binds the type too, [SetupGrain] and the rest. *)
Definition player_registry {Dr} (p : PersistenceManager Dr) : builder (GrainSetup (Dr := Dr) (T := ShotSelf PlayerState) (UA := unit)) :=
  queries [TPDamage; TPCombatResult; TPRoomEvent]
    (queries [TPJoinRoom; TPSay; TPAttack; TPStatus]
      (serve TPLogin (SetupGrain (query TPRefresh NewRegistryBuilder) (Some p) mkShotSelf (Some tt)))).

Definition player_bindings (fresh : binding) (bs : bindings) : bindings := ServeReader_bind zero_playerid fresh bs.

(** ** The actors as user code

    A handler that outlives its fuel ends in a panic: no handler of a player in good
    order does. *)
Section code.
Context {W : Type} `{!Poster W aid req rep, !Clock W, !StoreClient W aid Any}.
Context (g : storeGlobals) (bs : bindings).

Definition client_handle {Hook CB} (q : req) (spawning : bool) : handler W Hook CB Client.State :=
  match q with
  | CLogin p => Client.handleLogin p spawning
  | CJoin r => Client.handleJoin r
  | CSay t => Client.handleSay t
  | CAttack p => Client.handleAttack p
  | CStatus => Client.handleStatus
  | CPush m => Client.handlePush m
  | CDrain => Client.handleDrain
  | _ => panic None
  end.

Definition room_handle {Hook CB} (q : req) (spawning : bool) : handler W Hook CB Room.State :=
  match q with
  | RJoin p b => Room.handleJoin p b spawning
  | RLeave p => Room.handleLeave p
  | RChat p t => Room.handleChat p t
  | RBriefChanged p b => Room.handleBriefChanged p b
  | RReport p t => Room.handleReport p t
  | RStatus => Room.handleStatus
  | _ => panic None
  end.

Definition world_handle {Hook CB} (q : req) (spawning : bool) : handler W Hook CB World.State :=
  match q with
  | WInit => World.handleInit g spawning
  | WSetConfig r => World.handleSetConfig g r
  | _ => panic None
  end.

Definition player_handle {Dr UH UC} (q : req) : handler W (grainHook UH) (grainCB UC) (Grain.State Dr PlayerState (ShotSelf PlayerState)) :=
  match q with
  | PLogin c => Player.handleLogin g bs c
  | PJoinRoom r => Player.handleJoinRoom r
  | PSay t => Player.handleSay t
  | PAttack p => Player.handleAttack p
  | PStatus => Player.handleStatus g bs
  | PDamage p _ a => Player.handleDamage p a
  | PCombatResult p l _ s => Player.handleCombatResult g bs p l s
  | PRoomEvent r k t => Player.handleRoomEvent r k t
  | PRefresh q => Player.handleRefresh q
  | _ => panic None
  end.

#[export] Instance client_code : UserCode W aid req Empty_set Empty_set Client.State req rep reqT Empty_set := {|
  run_handler := dispatch client_handle;
  run_spawn f w c := match (f : Empty_set) with end;
  run_hook h w c := match (h : Empty_set) with end;
  run_callback cb w c := match (cb : Empty_set) with end;
  run_close _ w := w;
  zero_state := Client.mkState (mkPlayerId "") [];
|}.

#[export] Instance room_code : UserCode W aid req Empty_set Empty_set Room.State req rep reqT Empty_set := {|
  run_handler := dispatch room_handle;
  run_spawn f w c := match (f : Empty_set) with end;
  run_hook h w c := match (h : Empty_set) with end;
  run_callback cb w c := match (cb : Empty_set) with end;
  run_close _ w := w;
  zero_state := Room.mkState None;
|}.

#[export] Instance world_code : UserCode W aid req Empty_set Empty_set World.State req rep reqT Empty_set := {|
  run_handler := dispatch world_handle;
  run_spawn f w c := match (f : Empty_set) with end;
  run_hook h w c := match (h : Empty_set) with end;
  run_callback cb w c := match (cb : Empty_set) with end;
  run_close _ w := w;
  zero_state := World.mkState (mkConfig 0);
|}.

#[export] Instance player_user {Dr} : GrainUser (Dr := Dr) (R := rep) (UH := Empty_set) (UC := Empty_set) (T := ShotSelf PlayerState) req reqT := {|
  user_handler := dispatch (fun q _ => player_handle q);
  user_hook h w c := match (h : Empty_set) with end;
  user_callback cb w c := match (cb : Empty_set) with end;
  user_close _ w := w;
  zero_data := zero_player;
  zero_snap := mkShotSelf;
|}.

#[export] Instance player_activate {Dr UH UC} :
    ActivateCode (W := W) (Q := req) (Dr := Dr) (D := PlayerState) (UH := UH) (UC := UC) (T := ShotSelf PlayerState) (UA := unit) :=
  fun _ w c created =>
    let '(w1, c1, r) := Player.handleSpawn created w c in
    (w1, c1, spawn_return r).
End code.

(** ** setup/setup.go *)
Module Setup.
Record Config := mkConfig { DataDir : string; NodeID : string; Persist : Z }.

Definition defaults (cfg : Config) : Config :=
  mkConfig (if String.eqb (DataDir cfg) "" then "./data" else DataDir cfg)
    (if String.eqb (NodeID cfg) "" then "example-node" else NodeID cfg) (Persist cfg).

(** What is installed when the manager starts: the store with its options, the groups by
    their mailbox sizes and handlers, and the globals of package shared. *)
Record Server (Dr : Type) := mkServer {
  sv_pm : PersistenceManager Dr;
  sv_store : StoreOptions;
  sv_globals : storeGlobals;
  sv_bindings : bindings;
  sv_world : nat * builder Empty_set;
  sv_room : nat * builder Empty_set;
  sv_player : nat * builder (GrainSetup (Dr := Dr) (T := ShotSelf PlayerState) (UA := unit));
  sv_client : nat * builder Empty_set;
}.
Arguments mkServer {Dr} _ _ _ _ _ _ _ _.

Definition persistence {Dr} (NewJsonDriver : string -> Dr) (cfg : Config) : PersistenceManager Dr :=
  NewPersistenceManager
    [WithDriver (Some (NewJsonDriver (DataDir cfg))); WithNodeId (NodeID cfg); WithAutoPersistInterval (Persist cfg)].

(** [New]; [call_init] is the call of the world with [WInit], [close] is [Close]: closing
    the manager and joining it. *)
Definition New {W Dr} (NewJsonDriver : string -> Dr) (call_init : W -> Server Dr -> W * option error) (close : W -> W)
    (cfg : Config) (g : storeGlobals) (bs : bindings) (fresh : binding) (w : W) : outcome error (W * (Server Dr + error)) :=
  let cfg := defaults cfg in
  let pm := persistence NewJsonDriver cfg in
  (let! (opts, g) := Serve_globals (mkStoreOptions 1 0 0 0 0 0) g in
   let srv := mkServer pm opts g (player_bindings fresh bs) (64%nat, world_registry) (128%nat, room_registry)
                (128%nat, player_registry pm) (256%nat, client_registry) in
   let '(w1, err) := call_init w srv in
   match err with
   | Some e => Ok (close w1, inr (ErrWrap ("setup: 初始化世界失败: " +:+ Error e) [e]))
   | None => Ok (w1, inl srv)
   end)%go.
End Setup.
