(* ===== verification/GameCalls.v ===== *)
(** * Who calls whom in the engineering example

    A synchronous call blocks the goroutine of the caller, so a cycle of calls is a
    deadlock. Here: the calls of every handler go down the chain connection, player,
    room or store, never to a peer and never up. *)

From S2P Require Import Prelude ActorTypes Control Registry Runtime Store Reader Grain Game GameActors.

Local Open Scope string_scope.

(** Whoever can be called: an actor of the program, or the store actor of a shard. *)
Inductive node := NActor (a : aid) | NStore (shard : Z).

(** ** The calls of a goroutine

    [calls w] are the calls the running goroutine made, in order. [nd] names a target. *)
Class CallLog {W I Q R : Type} (P : Poster W I Q R) (nd : I -> node) (calls : W -> list node) : Prop := {
  log_fpost : forall w f id q, calls (fpost w f id q).1 = calls w;
  log_fcall : forall w f id q, calls (fcall w f id q).1 = (calls w ++ [nd id])%list;
  log_fmulticast : forall w f ids q, calls (fmulticast w f ids q).1 = calls w;
  log_wsleep : forall w d, calls (wsleep w d) = calls w;
}.

Class StoreLog {W : Type} (P : StoreClient W aid Any) (calls : W -> list node) : Prop := {
  log_store_Call : forall w d shard q, calls (store_Call w d shard q).1 = (calls w ++ [NStore shard])%list;
  log_store_Post : forall w shard q, calls (store_Post w shard q).1 = calls w;
}.

(** Sending from an actor. *)
Section control.
Context {W I Q R : Type} `{!ActorId I} {P : Poster W I Q R} {Hook CB : Type}.
Context {nd : I -> node} {calls : W -> list node} `{!CallLog P nd calls}.
Implicit Types (a : ActorControl I Q Hook CB) (w : W).

Lemma calls_retry_items w a l : calls (retry_items w a l).1.1 = calls w.
Proof.
  revert w a. induction l as [|it l IH]; intros w a; simpl; [done|].
  destruct (run_item w a it) as [[w1 a1] err] eqn:E.
  assert (calls w1 = calls w) as Hw.
  { unfold run_item in E. simpl in E. pose proof (log_fpost w (fromSeq a (from a)).2 (pp_id it) (pp_req it)) as H.
    simpl in H. destruct (fpost w _ _ _). by simplify_eq. }
  specialize (IH w1 a1). destruct (retry_items w1 a1 l) as [[w2 a2] kept]. simpl in IH.
  destruct err as [e|]; [destruct (is_busy e)|]; simpl; congruence.
Qed.

Lemma calls_poseponePost w a : calls (poseponePost w a).1 = calls w.
Proof.
  unfold poseponePost. destruct (postpone a) as [|it l]; [done|].
  pose proof (calls_retry_items w (set_postpone [] (postponeSet a) a) (it :: l)) as H.
  by destruct (retry_items _ _ _) as [[w1 a1] kept].
Qed.

Lemma calls_APost w a id q : calls (APost w a id q).1.1 = calls w.
Proof.
  unfold APost. pose proof (calls_poseponePost w a) as H. destruct (poseponePost w a) as [w1 a1]. simpl in H.
  destruct (hasPostpone a1 id); [done|]. simpl.
  pose proof (log_fpost w1 (fromSeq a1 (from a1)).2 id q) as H2. simpl in H2.
  destruct (fpost w1 _ id q) as [w2 [e|]]; [destruct (is_busy e)|]; simpl in *; congruence.
Qed.

Lemma calls_AMulticast w a ids q : calls (AMulticast w a ids q).1.1 = calls w.
Proof.
  unfold AMulticast. pose proof (calls_poseponePost w a) as H. destruct (poseponePost w a) as [w1 a1]. simpl in H.
  destruct (splitPostpone a1 ids) as [p np]. simpl.
  pose proof (log_fmulticast w1 (fromSeq a1 (from a1)).2 np q) as H2. simpl in H2.
  destruct (fmulticast w1 _ np q) as [w2 [l [e|]]]; simpl in *; [congruence|].
  destruct (splitIdErr l). simpl. congruence.
Qed.

(** At most three calls, all to the target. *)
Lemma calls_acall_loop is_ : forall w a id q last,
  exists n, (n <= length is_)%nat /\ calls (acall_loop is_ w a id q last).1.1 = (calls w ++ replicate n (nd id))%list.
Proof.
  induction is_ as [|i is_ IH]; intros w a id q last.
  { exists 0. split; [done|]. simpl. by rewrite app_nil_r. }
  cbn [acall_loop]. set (w0 := if (0 <? i)%Z then _ else _).
  assert (calls w0 = calls w) as H0 by (unfold w0; destruct (0 <? i)%Z; [apply log_wsleep|done]).
  assert (exists k, (k <= 1)%nat /\ calls (acall_turn w0 a id q last.1).1.1.1 = (calls w ++ replicate k (nd id))%list) as (k & Hk & Et).
  { unfold acall_turn. pose proof (calls_poseponePost w0 a) as H. destruct (poseponePost w0 a) as [w1 a1]. simpl in H.
    destruct (hasPostpone a1 id); [exists 0; simpl; rewrite app_nil_r; split; [lia|congruence]|]. simpl.
    pose proof (log_fcall w1 (fromSeq a1 (from a1)).2 id q) as H2. simpl in H2.
    destruct (fcall w1 _ id q) as [w2 [rp err]]. exists 1. simpl in *. split; [done|congruence]. }
  destruct (acall_turn w0 a id q last.1) as [[[w1 a1] r] again]. simpl in Et. destruct again.
  - destruct (IH w1 a1 id q r) as (n & Hn & E). exists (k + n). split; [simpl; lia|].
    rewrite E, Et, <- app_assoc, replicate_add. done.
  - exists k. split; [simpl; lia|done].
Qed.
End control.

(** ** Programs that call certain nodes only *)
Section logic.
Context {W Hook CB S : Type} {calls : W -> list node}.

Definition calls_only {A} (P : node -> Prop) (m : act W Hook CB S A) : Prop :=
  forall w c, ctx_id (m w c).1.2 = ctx_id c /\ exists l, calls (m w c).1.1 = (calls w ++ l)%list /\ Forall P l.

Lemma calls_none {A} P (m : act W Hook CB S A) :
  (forall w c, ctx_id (m w c).1.2 = ctx_id c /\ calls (m w c).1.1 = calls w) -> calls_only P m.
Proof. intros H w c. destruct (H w c) as [H1 H2]. split; [done|]. exists []. by rewrite app_nil_r. Qed.

Lemma calls_ret {A} P (x : A) : calls_only P (ret x).
Proof. by apply calls_none. Qed.
Lemma calls_panic {A} P v : calls_only P (panic v : act W Hook CB S A).
Proof. by apply calls_none. Qed.
Lemma calls_no_fuel {A} P : calls_only P (no_fuel : act W Hook CB S A).
Proof. by apply calls_none. Qed.
Lemma calls_gets {A} P (f : S -> A) : calls_only P (gets f).
Proof. by apply calls_none. Qed.
Lemma calls_modify P f : calls_only P (modify f).
Proof. by apply calls_none. Qed.
Lemma calls_self P : calls_only P self_id.
Proof. by apply calls_none. Qed.
Lemma calls_open P : calls_only P open.
Proof. by apply calls_none. Qed.
Lemma calls_when P b m : calls_only P m -> calls_only P (when b m).
Proof. destruct b; [done|intros _; apply calls_ret]. Qed.

Lemma calls_bind {A B} P (m : act W Hook CB S A) (k : A -> act W Hook CB S B) :
  calls_only P m -> (forall x, calls_only P (k x)) -> calls_only P (bind m k).
Proof.
  intros Hm Hk w c. unfold bind. destruct (Hm w c) as (H1 & l & H2 & H3).
  destruct (m w c) as [[w1 c1] [x|v|]]; simpl in *; [|split; [done|by exists l]..].
  destruct (Hk x w1 c1) as (G1 & l' & G2 & G3). split; [congruence|]. exists (l ++ l')%list.
  rewrite G2, H2, app_assoc. split; [done|by apply Forall_app].
Qed.

Context {PO : Poster W aid req rep} `{!CallLog PO NActor calls}.

Lemma calls_post P to q : calls_only P (post to q).
Proof.
  apply calls_none. intros w c. unfold post. pose proof (calls_APost w (ctrl c) to q) as H.
  by destruct (APost w (ctrl c) to q) as [[w1 a1] e].
Qed.
Lemma calls_multicast P to q : calls_only P (multicast to q).
Proof.
  apply calls_none. intros w c. unfold multicast. pose proof (calls_AMulticast w (ctrl c) to q) as H.
  by destruct (AMulticast w (ctrl c) to q) as [[w1 a1] e].
Qed.
Lemma calls_call (P : node -> Prop) to q : P (NActor to) -> calls_only P (call to q).
Proof.
  intros HP w c. unfold call, ACall. destruct (calls_acall_loop (calls := calls) [0; 1; 2]%Z w (ctrl c) to q (None, None)) as (n & _ & H).
  destruct (acall_loop _ w (ctrl c) to q _) as [[w1 a1] r]. split; [done|]. exists (replicate n (NActor to)).
  split; [done|]. by apply Forall_replicate.
Qed.
End logic.

(** ** The ranks *)
Definition rank (x : node) : nat :=
  match x with
  | NActor (AClient _) => 3
  | NActor (APlayer _) => 2
  | NActor (ARoom _) | NActor (AWorld _) => 1
  | NStore _ => 0
  end.
Definition below (n : nat) (x : node) : Prop := rank x < n.

Ltac calls_step :=
  first
    [ apply calls_ret | apply calls_panic | apply calls_no_fuel | apply calls_gets | apply calls_modify
    | apply calls_self | apply calls_open | apply calls_post | apply calls_multicast
    | apply calls_call; unfold below; simpl; lia
    | apply calls_when
    | apply calls_bind; [|intros ?]
    | match goal with |- calls_only _ (match ?x with _ => _ end) => destruct x end
    | assumption ].
Ltac calls_go := repeat calls_step.

Section handlers.
Context {W : Type} `{!Clock W} {PO : Poster W aid req rep} {SC : StoreClient W aid Any}.
Context {calls : W -> list node} `{!CallLog PO NActor calls, !StoreLog SC calls}.
Context (g : storeGlobals) (bs : bindings).

Lemma client_calls {Hook CB} q sp : calls_only (Hook := Hook) (CB := CB) (calls := calls) (below 3) (client_handle q sp).
Proof.
  destruct q; cbn [client_handle]; unfold Client.handleLogin, Client.handleJoin, Client.handleSay, Client.handleAttack,
    Client.handleStatus, Client.handlePush, Client.handleDrain, Client.forward; calls_go.
Qed.

Lemma broadcast_calls {Hook CB} P kind text : calls_only (Hook := Hook) (CB := CB) (calls := calls) P (Room.broadcast kind text).
Proof. unfold Room.broadcast. calls_go. Qed.

Lemma room_calls {Hook CB} q sp : calls_only (Hook := Hook) (CB := CB) (calls := calls) (fun _ => False) (room_handle q sp).
Proof.
  destruct q; cbn [room_handle]; unfold Room.handleJoin, Room.handleLeave, Room.handleBriefChanged, Room.handleChat,
    Room.handleReport, Room.handleStatus; repeat first [apply broadcast_calls | calls_step].
Qed.

Lemma publish_calls {Hook CB} : calls_only (Hook := Hook) (CB := CB) (calls := calls) (below 1) (World.publish g).
Proof.
  intros w c. unfold World.publish, PublishWaitFrom. destruct (shardOf g _) as [shard|e|why]; cbn [obind].
  - destruct (publishMessage _ _) as [q|e|why]; cbn [obind].
    + pose proof (log_store_Call w (fetchTimeout g) shard q) as H. destruct (store_Call w _ shard q) as [w1 [r err]]. simpl in *.
      split; [done|]. eexists. split; [exact H|]. repeat constructor.
    + split; [done|]. exists []. by rewrite app_nil_r.
    + split; [done|]. exists []. by rewrite app_nil_r.
  - split; [done|]. exists []. by rewrite app_nil_r.
  - split; [done|]. exists []. by rewrite app_nil_r.
Qed.

Lemma world_calls {Hook CB} q sp : calls_only (Hook := Hook) (CB := CB) (calls := calls) (below 1) (world_handle g q sp).
Proof.
  destruct q; cbn [world_handle]; unfold World.handleInit, World.handleSetConfig; repeat first [apply publish_calls | calls_step].
Qed.

Section player.
Context {Dr UH UC : Type}.
Abbreviation act A := (act W (grainHook UH) (grainCB UC) (Grain.State Dr PlayerState (ShotSelf PlayerState)) A).
Abbreviation calls_only := (calls_only (calls := calls)).

Lemma expRate_calls : calls_only (below 2) (Player.expRate g bs : act Z).
Proof.
  intros w c. unfold Player.expRate, Watch, WatchFrom.
  assert (forall (x : W * Reader Any * outcome error Config), (calls x.1.1 = calls w \/ exists shard, calls x.1.1 = (calls w ++ [NStore shard])%list) ->
    let r := (let '(w1, r1, cfg) := x in
      let c1 := with_Data (set_Vars r1 (Data (state c))) c in
      match cfg with
      | Ok cfg => (w1, c1, Done (ExpRate cfg))
      | Err _ => (w1, c1, Done (ExpRate DefaultConfig))
      | Panic why => (w1, c1, Panicked None)
      end) in
    ctx_id r.1.2 = ctx_id c /\ exists l, calls r.1.1 = (calls w ++ l)%list /\ Forall (below 2) l) as K.
  { intros [[w1 r1] cfg] Hx. simpl in Hx.
    assert (exists l, calls w1 = (calls w ++ l)%list /\ Forall (below 2) l) as Hl.
    { destruct Hx as [->|[shard ->]]; [exists []; by rewrite app_nil_r|]. exists [NStore shard]. repeat constructor. }
    by destruct cfg. }
  apply K. destruct (lookupBinding bs _) as [b|]; [|by left]. destruct (cacheGet w _ _); [by left|].
  destruct (shardOf g _) as [shard|e|why]; [|by left..].
  pose proof (log_store_Call w (fetchTimeout g) shard (subscribeReq (key_name World.ConfigKey) (ctx_id c) (Some b))) as H.
  destruct (store_Call w _ shard _) as [w1 [r err]]. simpl in H. right. exists shard. rewrite <- H.
  destruct err; [done|]. destruct r as [[]|]; try done. destruct (as_V Value); done.
Qed.

Lemma push_calls P m : calls_only P (Player.push m : act unit).
Proof. unfold Player.push, Player.data. calls_go. Qed.

Lemma me_calls P : calls_only P (Player.me : act PlayerId).
Proof. unfold Player.me. calls_go. Qed.

Ltac player_calls := repeat first
  [ apply push_calls | apply me_calls | apply expRate_calls
  | match goal with
    | |- calls_only _ (Player.pushState _) => unfold Player.pushState
    | |- calls_only _ (Player.pushLoginOK _ _) => unfold Player.pushLoginOK
    | |- calls_only _ Player.reportBrief => unfold Player.reportBrief
    | |- calls_only _ (Player.report _) => unfold Player.report
    | |- calls_only _ (Player.data _) => unfold Player.data
    | |- calls_only _ (Player.update _) => unfold Player.update
    end
  | calls_step ].

Lemma player_calls q : calls_only (below 2) (player_handle g bs q : act hres).
Proof.
  destruct q; cbn [player_handle]; unfold Player.handleLogin, Player.handleJoinRoom, Player.handleSay, Player.handleAttack,
    Player.handleStatus, Player.handleDamage, Player.handleCombatResult, Player.handleRoomEvent; player_calls.
Qed.

Lemma spawn_calls created P : calls_only P (Player.handleSpawn created : act (option error)).
Proof. unfold Player.handleSpawn. player_calls. Qed.
End player.
End handlers.

(** ** The store actor *)
Section store.
Context {W Hook : Type} `{!Clock W} {PS : Poster W aid (refreshReq Any) (storeRep Any)}.
Context {calls : W -> list node} `{!CallLog PS NActor calls}.
Context (is_R : binding -> aid -> bool).

Lemma deliver_all_calls binds : forall w a rq, calls (deliver_all (Hook := Hook) is_R binds w a rq).1.1.1 = calls w.
Proof.
  induction binds as [|[b subs] binds IH]; intros w a rq; [done|]. cbn [deliver_all].
  assert (calls (bind_deliver w a subs rq).1.1 = calls w) as H.
  { unfold bind_deliver. destruct (elements subs) as [|i ids]; [done|].
    pose proof (calls_AMulticast w a (i :: ids) rq) as H. by destruct (AMulticast w a (i :: ids) rq) as [[w1 a1] [errs e]]. }
  destruct (bind_deliver w a subs rq) as [[w1 a1] gone]. simpl in H. specialize (IH w1 a1 rq).
  destruct (deliver_all is_R binds w1 a1 rq) as [[[w2 a2] bs] l]. simpl in *. congruence.
Qed.

Lemma send_at_calls p w c : calls (send_at (Hook := Hook) is_R p w c).1.1 = calls w.
Proof.
  unfold send_at, sendRefresh. destruct (size _ =? 0)%nat; [done|].
  pose proof (deliver_all_calls (map_to_list (e_subs (get_entry p (state c)))) w (ctrl c) (refresh_of (get_entry p (state c)))) as H.
  by destruct (deliver_all _ _ _ _ _) as [[[w1 a1] binds] l].
Qed.

(** A request to the store and a timer of it make no call. *)
Lemma store_calls opts q sp w c : calls (handle (Hook := Hook) is_R opts q sp w c).1.1.1 = calls w.
Proof.
  destruct q; cbn [handle].
  - unfold publish. destruct (entry_ptr _ _) as [s p]. set (c2 := SetState _ _). unfold scheduleRefresh.
    destruct (e_pending _); [done|]. destruct (_ || _); [|done].
    pose proof (send_at_calls p w c2) as H. by destruct (send_at is_R p w c2) as [[w1 c3] l].
  - by destruct (subscribe _ _ _ _ _).
  - done.
  - done.
Qed.

Lemma store_timer_calls opts cb w c : calls (store_callback (Hook := Hook) is_R opts cb w c).1.1 = calls w.
Proof. destruct cb; [apply send_at_calls|done]. Qed.
End store.

(** ** No cycle of calls *)

(** Whoever runs a handler that calls [b] waits for [b]. *)
Inductive waits {W : Type} `{!Clock W} {PO : Poster W aid req rep} {SC : StoreClient W aid Any}
    {PS : Poster W aid (refreshReq Any) (storeRep Any)} (calls : W -> list node) : node -> node -> Prop :=
  | waits_client Hook CB id q sp w (c : ActorContext aid req Hook CB Client.State) w' c' r l b :
      ctx_id c = AClient id -> client_handle q sp w c = (w', c', r) -> calls w' = (calls w ++ l)%list -> In b l ->
      waits calls (NActor (AClient id)) b
  | waits_player Dr UH UC g bs id q w c w' c' r l b :
      ctx_id c = APlayer id -> player_handle (Dr := Dr) (UH := UH) (UC := UC) g bs q w c = (w', c', r) ->
      calls w' = (calls w ++ l)%list -> In b l -> waits calls (NActor (APlayer id)) b
  | waits_room Hook CB id q sp w (c : ActorContext aid req Hook CB Room.State) w' c' r l b :
      ctx_id c = ARoom id -> room_handle q sp w c = (w', c', r) -> calls w' = (calls w ++ l)%list -> In b l ->
      waits calls (NActor (ARoom id)) b
  | waits_world Hook CB id g q sp w (c : ActorContext aid req Hook CB World.State) w' c' r l b :
      ctx_id c = AWorld id -> world_handle g q sp w c = (w', c', r) -> calls w' = (calls w ++ l)%list -> In b l ->
      waits calls (NActor (AWorld id)) b
  | waits_store Hook is_R shard opts q sp w c w' (c' : ActorContext aid (refreshReq Any) Hook storeCB (storeState aid Any)) r d l b :
      handle is_R opts q sp w c = (w', c', r, d) -> calls w' = (calls w ++ l)%list -> In b l ->
      waits calls (NStore shard) b.

Section cycle.
Context {W : Type} `{!Clock W} {PO : Poster W aid req rep} {SC : StoreClient W aid Any}.
Context {PS : Poster W aid (refreshReq Any) (storeRep Any)} (calls : W -> list node).
Context `{!CallLog PO NActor calls, !StoreLog SC calls, !CallLog PS NActor calls}.

Lemma calls_only_In {Hook CB S A} P (m : act W Hook CB S A) w c w' c' r l b :
  calls_only (calls := calls) P m -> m w c = (w', c', r) -> calls w' = (calls w ++ l)%list -> In b l -> P b.
Proof.
  intros Hm E Hl Hb. destruct (Hm w c) as (_ & l' & H2 & H3). rewrite E in H2. simpl in H2.
  assert (l = l') as -> by (apply (app_inv_head (calls w)); congruence). by eapply List.Forall_forall in H3.
Qed.

Lemma waits_down a b : waits calls a b -> rank b < rank a.
Proof.
  destruct 1 as [Hook CB id q sp w c w' c' r l b Hid E Hl Hb|Dr UH UC g bs id q w c w' c' r l b Hid E Hl Hb
    |Hook CB id q sp w c w' c' r l b Hid E Hl Hb|Hook CB id g q sp w c w' c' r l b Hid E Hl Hb
    |Hook is_R shard opts q sp w c w' c' r d l b E Hl Hb].
  - exact (calls_only_In _ _ _ _ _ _ _ _ _ (client_calls q sp) E Hl Hb).
  - exact (calls_only_In _ _ _ _ _ _ _ _ _ (player_calls g bs q) E Hl Hb).
  - destruct (calls_only_In _ _ _ _ _ _ _ _ _ (room_calls q sp) E Hl Hb).
  - exact (calls_only_In _ _ _ _ _ _ _ _ _ (world_calls g q sp) E Hl Hb).
  - pose proof (store_calls is_R opts q sp w c) as H. rewrite E in H. simpl in H. rewrite H in Hl.
    rewrite <- (app_nil_r (calls w)) in Hl at 1. apply app_inv_head in Hl as <-. destruct Hb.
Qed.

Lemma waits_tc_down a b : tc (waits calls) a b -> rank b < rank a.
Proof. induction 1 as [a b H|a b d H _ IH]; [by apply waits_down|]. apply waits_down in H. lia. Qed.

(** C34 Synchronous calls cannot deadlock: in the graph of who waits for whom, over all
    handlers of connections, players, rooms, the world and the store shards, from any
    state and with any request, there is no cycle, and no chain of more than three calls. *)
Theorem no_call_cycle :
  (forall x, ~ tc (waits calls) x x) /\
  (forall n x y, nsteps (waits calls) n x y -> n <= 3).
Proof.
  split.
  - intros x H. apply waits_tc_down in H. lia.
  - intros n x y H. assert (rank y + n <= rank x) as Hr.
    { induction H as [|n x y z H _ IH]; [lia|]. apply waits_down in H. lia. }
    assert (rank x <= 3) by (destruct x as [[]|]; simpl; lia). lia.
Qed.
End cycle.

(** A world that keeps the calls, in which nothing answers. *)
Module CallWorld.
Definition W : Type := list node.
#[export] Instance clock : Clock W := fun _ => 0%Z.
#[export] Instance poster {Q R} : Poster W aid Q R := {|
  fpost w _ _ _ := (w, None);
  fcall w _ id _ := ((w ++ [NActor id])%list, (None, None));
  fmulticast w _ _ _ := (w, ([], None));
  fbroadcast w _ _ := (w, (0%nat, None));
  wsleep w _ := w;
|}.
#[export] Instance store : StoreClient W aid Any := {|
  store_Call w _ shard _ := ((w ++ [NStore shard])%list, (None, None));
  store_Post w _ _ := (w, None);
|}.
#[export] Instance logs {Q R} : CallLog (Q := Q) (R := R) poster NActor (fun w => w).
Proof. by split. Qed.
#[export] Instance store_logs : StoreLog store (fun w => w).
Proof. by split. Qed.

(** A connection that logs in waits for the player. *)
Lemma login_waits : waits (PS := poster) (fun w : W => w) (NActor (AClient (mkClientId "c1"))) (NActor (APlayer (mkPlayerId "ann"))).
Proof.
  pose (c := newActorContext (Q := req) (Hook := Empty_set) (CB := Empty_set) (Client.mkState (mkPlayerId "") [])
               (AClient (mkClientId "c1"))).
  pose (x := client_handle (CLogin "ann") true ([] : W) c).
  exact (waits_client _ Empty_set Empty_set (mkClientId "c1") (CLogin "ann") true [] c x.1.1 x.1.2 x.2
    [NActor (APlayer (mkPlayerId "ann"))] _ eq_refl eq_refl eq_refl (or_introl eq_refl)).
Qed.
End CallWorld.

Import CallWorld.

(** A connection waits for a player, and there is no cycle. *)
Lemma no_call_cycle_witness :
  waits (PS := CallWorld.poster) (fun w : CallWorld.W => w) (NActor (AClient (mkClientId "c1"))) (NActor (APlayer (mkPlayerId "ann"))) /\
  (forall x, ~ tc (waits (PS := CallWorld.poster) (fun w : CallWorld.W => w)) x x).
Proof. split; [exact CallWorld.login_waits|exact (proj1 (no_call_cycle (fun w : CallWorld.W => w)))]. Defined.
