(* ===== verification/GameLogic.v ===== *)
(** * Good players, good messages

    A player in good order stays so whatever good messages it gets, and every actor of
    the engineering example sends good messages only, as long as it gets good ones: what
    one actor assumes of its messages is what the others promise. The rest of the system
    is reached through an invariant of the world. *)

From S2P Require Import Prelude ActorTypes Control ControlProps Registry Runtime Store Reader Lease Grain Game GameSpec GameActors.

Local Open Scope string_scope.
Local Open Scope Z_scope.

(** ** What a message promises *)
Section good.
(** [R]: no configuration asks for more than that rate, in percent. *)
Context (R : Z).

Definition cfg_good (c : Config) : Prop := 0 < ExpRate c <= R.
Definition any_good (v : Any) : Prop := match v with None => True | Some c => cfg_good c end.

Definition req_good (q : req) : Prop :=
  match q with
  | PDamage _ _ amount => 0 <= amount <= limit
  | PCombatResult _ level _ _ => 1 <= level <= 2 ^ 31
  | PRefresh r => any_good (rq_value r)
  | WSetConfig rate => rate <= R
  | _ => True
  end.

Definition store_good (q : storeReq aid Any) : Prop :=
  match q with publishReq _ v _ => any_good v | _ => True end.
Definition rep_good (r : option (storeRep Any)) : Prop :=
  match r with Some (subscribeRep _ v) | Some (fetchRep _ v) => any_good v | _ => True end.

(** [Inv] is an invariant of the world that sending good messages keeps, such as "every
    message under way is good and so is every published value". *)
Class Carrier {W : Type} (PO : Poster W aid req rep) (SC : StoreClient W aid Any) (Inv : W -> Prop) : Prop := {
  inv_fpost : forall w f id q, Inv w -> req_good q -> Inv (fpost w f id q).1;
  inv_fcall : forall w f id q, Inv w -> req_good q -> Inv (fcall w f id q).1;
  inv_fmulticast : forall w f ids q, Inv w -> req_good q -> Inv (fmulticast w f ids q).1;
  inv_wsleep : forall w d, Inv w -> Inv (wsleep w d);
  inv_store_Call : forall w d shard q, Inv w -> store_good q ->
    Inv (store_Call w d shard q).1 /\ rep_good (store_Call w d shard q).2.1;
}.

(** ** Sending *)
Section control.
Context {W Hook CB : Type} {PO : Poster W aid req rep} {SC : StoreClient W aid Any} {Inv : W -> Prop} `{!Carrier PO SC Inv}.
Implicit Types (a : ActorControl aid req Hook CB) (w : W).

Definition queue_good a : Prop := Forall (fun it => req_good (pp_req it)) (postpone a).

(** The world after a step and the queue of the actor. *)
Definition fine (w : W) a : Prop := Inv w /\ queue_good a.

Lemma fine_seq n w a : fine w a -> fine w (set_seq n a).
Proof. done. Qed.

Lemma run_item_fine w a it : fine w a -> req_good (pp_req it) -> fine (run_item w a it).1.1 (run_item w a it).1.2.
Proof.
  intros [H1 H2] Hq. unfold run_item. simpl.
  pose proof (inv_fpost w (fromSeq a (from a)).2 (pp_id it) (pp_req it) H1 Hq) as H. simpl in H.
  destruct (fpost w _ _ _). by split.
Qed.

Lemma retry_items_fine l : forall w a, fine w a -> Forall (fun it => req_good (pp_req it)) l ->
  let '(w1, a1, kept) := retry_items w a l in fine w1 a1 /\ Forall (fun it => req_good (pp_req it)) kept.
Proof.
  induction l as [|it l IH]; intros w a Hf Hl; [done|]. apply Forall_cons in Hl as [Hq Hl]. cbn [retry_items].
  pose proof (run_item_fine w a it Hf Hq) as H. destruct (run_item w a it) as [[w1 a1] err]. simpl in H.
  specialize (IH w1 a1 H Hl). destruct (retry_items w1 a1 l) as [[w2 a2] kept]. destruct IH as [IH1 IH2].
  destruct err as [e|]; [destruct (is_busy e)|]; (split; [done|]); [by constructor|done|done].
Qed.

Lemma arm_keeps_items a : postpone (armPostponeFlush a) = postpone a.
Proof.
  unfold armPostponeFlush. destruct (_ || _); [done|]. destruct (Timer_queue "PostponeFlush" FnPostponeFlush a) as (H & _).
  by destruct (Timer _ _ a).
Qed.

Lemma stop_keeps_items a : postpone (stopPostponeFlush a) = postpone a.
Proof. unfold stopPostponeFlush, StopTimer. destruct (_ =? 0); [done|]. by destruct (timers a !! _). Qed.

Lemma poseponePost_fine w a : fine w a -> fine (poseponePost w a).1 (poseponePost w a).2.
Proof.
  intros Hf. unfold poseponePost. destruct (postpone a) as [|it l] eqn:E; [done|].
  assert (fine w (set_postpone [] (postponeSet a) a)) as Hf0 by (split; [apply Hf|constructor]).
  assert (Forall (fun it => req_good (pp_req it)) (it :: l)) as Hl by (rewrite <- E; apply Hf).
  pose proof (retry_items_fine (it :: l) w _ Hf0 Hl) as H. destruct (retry_items _ _ _) as [[w1 a1] kept].
  destruct H as [[H1 _] H2]. split; [done|]. simpl. unfold queue_good.
  destruct kept; [by rewrite stop_keeps_items|done].
Qed.

Lemma appendPostpone_fine id q w a : fine w a -> req_good q -> fine w (appendPostpone id q a).
Proof.
  intros [H1 H2] Hq. split; [done|]. unfold queue_good, appendPostpone. rewrite arm_keeps_items. simpl.
  apply Forall_app. split; [done|by repeat constructor].
Qed.

Lemma append_all_fine ids q w : forall a, fine w a -> req_good q -> fine w (append_all ids q a).
Proof. induction ids as [|id ids IH]; intros a Hf Hq; [done|]. apply IH; [by apply appendPostpone_fine|done]. Qed.

Lemma APost_fine w a id q : fine w a -> req_good q -> fine (APost w a id q).1.1 (APost w a id q).1.2.
Proof.
  intros Hf Hq. unfold APost. pose proof (poseponePost_fine w a Hf) as H. destruct (poseponePost w a) as [w1 a1]. simpl in H.
  destruct (hasPostpone a1 id); [by apply appendPostpone_fine|]. simpl.
  pose proof (inv_fpost w1 (fromSeq a1 (from a1)).2 id q (proj1 H) Hq) as H2. simpl in H2.
  assert (forall w2, Inv w2 -> fine w2 (set_seq (wrap64 (seqCounter a1 + 1)) a1)) as H3 by (intros w2 Hw; destruct H; by split).
  destruct (fpost w1 _ id q) as [w2 [e|]]; [destruct (is_busy e)|]; simpl in *; auto using appendPostpone_fine.
Qed.

Lemma AMulticast_fine w a ids q : fine w a -> req_good q -> fine (AMulticast w a ids q).1.1 (AMulticast w a ids q).1.2.
Proof.
  intros Hf Hq. unfold AMulticast. pose proof (poseponePost_fine w a Hf) as H. destruct (poseponePost w a) as [w1 a1]. simpl in H.
  destruct (splitPostpone a1 ids) as [p np]. simpl.
  pose proof (inv_fmulticast w1 (fromSeq a1 (from a1)).2 np q (proj1 H) Hq) as H2. simpl in H2.
  assert (forall w2, Inv w2 -> fine w2 (set_seq (wrap64 (seqCounter a1 + 1)) a1)) as H3 by (intros w2 Hw; destruct H; by split).
  destruct (fmulticast w1 _ np q) as [w2 [l [e|]]]; simpl in *; [auto|].
  destruct (splitIdErr l) as [b nb]. simpl. auto using append_all_fine.
Qed.

Lemma acall_loop_fine is_ : forall w a id q last, fine w a -> req_good q ->
  fine (acall_loop is_ w a id q last).1.1 (acall_loop is_ w a id q last).1.2.
Proof.
  induction is_ as [|i is_ IH]; intros w a id q last Hf Hq; [done|]. cbn [acall_loop]. set (w0 := if (0 <? i) then _ else _).
  assert (fine w0 a) as H0 by (destruct Hf; split; [unfold w0; destruct (0 <? i); [by apply inv_wsleep|done]|done]).
  assert (fine (acall_turn w0 a id q last.1).1.1.1 (acall_turn w0 a id q last.1).1.1.2) as Ht.
  { unfold acall_turn. pose proof (poseponePost_fine w0 a H0) as H. destruct (poseponePost w0 a) as [w1 a1]. simpl in H.
    destruct (hasPostpone a1 id); [done|]. simpl.
    pose proof (inv_fcall w1 (fromSeq a1 (from a1)).2 id q (proj1 H) Hq) as H2. simpl in H2.
    destruct (fcall w1 _ id q) as [w2 [rp err]]. destruct H. by split. }
  destruct (acall_turn w0 a id q last.1) as [[[w1 a1] r] again]. simpl in Ht. destruct again; [by apply IH|done].
Qed.
End control.
Arguments fine {W Hook CB} Inv w a.

(** ** Programs of good actors

    [spec P P' m Q]: from a state in [P], [m] sends good messages only, ends, by a return
    or by a panic, in a state in [P'], and what it returns satisfies [Q]. *)
Section logic.
Context {W Hook CB S : Type} {PO : Poster W aid req rep} {SC : StoreClient W aid Any} {Inv : W -> Prop} `{!Carrier PO SC Inv}.
Abbreviation act := (act W Hook CB S).

Definition spec {A} (P P' : S -> Prop) (m : act A) (Q : A -> Prop) : Prop :=
  forall w c, fine Inv w (ctrl c) -> P (state c) ->
  let '(w1, c1, r) := m w c in
  fine Inv w1 (ctrl c1) /\ P' (state c1) /\ match r with Done x => Q x | Panicked _ => True | NoFuel => False end.

Lemma spec_state {A} (P P' : S -> Prop) (m : act A) Q w c :
  spec P P' m Q -> fine Inv w (ctrl c) -> P (state c) -> P' (state (m w c).1.2).
Proof. intros Hm Hf Hs. specialize (Hm w c Hf Hs). destruct (m w c) as [[w1 c1] r]. apply Hm. Qed.

Lemma spec_ret {A} (P P' : S -> Prop) (x : A) (Q : A -> Prop) : (forall s, P s -> P' s) -> Q x -> spec P P' (ret x) Q.
Proof. intros HP HQ w c Hf Hs. cbn. auto. Qed.

Lemma spec_panic {A} (P : S -> Prop) v (Q : A -> Prop) : spec P P (panic v) Q.
Proof. intros w c Hf Hs. cbn. auto. Qed.

Lemma spec_gets {A} (P : S -> Prop) (f : S -> A) (Q : A -> Prop) : (forall s, P s -> Q (f s)) -> spec P P (gets f) Q.
Proof. intros HQ w c Hf Hs. cbn. auto. Qed.

Lemma spec_modify (P P' : S -> Prop) f : (forall s, P s -> P' (f s)) -> spec P P' (modify f) (fun _ => True).
Proof. intros HP w c Hf Hs. cbn. auto. Qed.

Lemma spec_self (P : S -> Prop) : spec P P self_id (fun _ => True).
Proof. intros w c Hf Hs. cbn. auto. Qed.

Lemma spec_open (P : S -> Prop) : spec P P open (fun _ => True).
Proof. intros w c Hf Hs. cbn. auto. Qed.

Lemma spec_post (P : S -> Prop) to q : req_good q -> spec P P (post to q) (fun _ => True).
Proof.
  intros Hq w c Hf Hs. unfold post. pose proof (APost_fine w (ctrl c) to q Hf Hq) as H.
  by destruct (APost w (ctrl c) to q) as [[w1 a1] e].
Qed.

Lemma spec_call (P : S -> Prop) to q : req_good q -> spec P P (call to q) (fun _ => True).
Proof.
  intros Hq w c Hf Hs. unfold call, ACall. pose proof (acall_loop_fine [0; 1; 2] w (ctrl c) to q (None, None) Hf Hq) as H.
  by destruct (acall_loop _ w (ctrl c) to q _) as [[w1 a1] e].
Qed.

Lemma spec_multicast (P : S -> Prop) to q : req_good q -> spec P P (multicast to q) (fun _ => True).
Proof.
  intros Hq w c Hf Hs. unfold multicast. pose proof (AMulticast_fine w (ctrl c) to q Hf Hq) as H.
  by destruct (AMulticast w (ctrl c) to q) as [[w1 a1] e].
Qed.

Lemma spec_bind {A B} (P P1 P2 : S -> Prop) (m : act A) (k : A -> act B) Q Q' :
  spec P P1 m Q -> (forall s, P1 s -> P2 s) -> (forall x, Q x -> spec P1 P2 (k x) Q') -> spec P P2 (bind m k) Q'.
Proof.
  intros Hm HP Hk w c Hf Hs. unfold bind. specialize (Hm w c Hf Hs). destruct (m w c) as [[w1 c1] [x|v|]].
  - destruct Hm as (H1 & H2 & H3). exact (Hk x H3 w1 c1 H1 H2).
  - destruct Hm as (H1 & H2 & _). auto.
  - by destruct Hm as (_ & _ & []).
Qed.

(** When the predicate does not change. *)
Lemma spec_seq {A B} (P : S -> Prop) (m : act A) (k : A -> act B) Q' :
  spec P P m (fun _ => True) -> (forall x, spec P P (k x) Q') -> spec P P (bind m k) Q'.
Proof. intros Hm Hk. apply (spec_bind P P P m k (fun _ => True)); auto. Qed.

Lemma spec_when (P : S -> Prop) b m : spec P P m (fun _ => True) -> spec P P (when b m) (fun _ => True).
Proof. destruct b; [done|]. intros _. by apply spec_ret. Qed.
End logic.
Arguments spec {W Hook CB S} Inv {A} P P' m Q.

(** One step of a program whose state stays in the same predicate and of whose values
    nothing need be known. *)
Ltac spec_step :=
  first
    [ apply spec_panic | apply spec_self | apply spec_open
    | apply spec_ret; [done|done]
    | apply spec_gets; done
    | apply spec_post; done | apply spec_call; done | apply spec_multicast; done
    | apply spec_when
    | apply spec_seq; [|intros ?]
    | match goal with |- spec _ _ _ (match ?x with _ => _ end) _ => destruct x end ].

Section actors.
Context {W Hook CB : Type} {PO : Poster W aid req rep} {SC : StoreClient W aid Any} {Inv : W -> Prop} `{!Carrier PO SC Inv}.

Definition always {S} (_ : S) : Prop := True.

Lemma client_good q sp : spec (Hook := Hook) (CB := CB) Inv always always (client_handle q sp) (fun _ => True).
Proof.
  destruct q; cbn [client_handle]; unfold Client.handleLogin, Client.handleJoin, Client.handleSay, Client.handleAttack,
    Client.handleStatus, Client.handlePush, Client.handleDrain, Client.forward;
    repeat first [spec_step | by apply spec_modify].
Qed.

Lemma room_good q sp : spec (Hook := Hook) (CB := CB) Inv always always (room_handle q sp) (fun _ => True).
Proof.
  destruct q; cbn [room_handle]; unfold Room.handleJoin, Room.handleLeave, Room.handleBriefChanged, Room.handleChat,
    Room.handleReport, Room.handleStatus, Room.broadcast; repeat first [spec_step | by apply spec_modify].
Qed.

Lemma publish_good g : spec (Hook := Hook) (CB := CB) Inv (fun s => cfg_good (World.Config s)) (fun s => cfg_good (World.Config s))
  (World.publish g) (fun _ => True).
Proof.
  intros w c Hf Hs. unfold World.publish, PublishWaitFrom. destruct (shardOf g _) as [shard|e|why]; cbn [obind]; [|done..].
  change (publishMessage World.ConfigKey (to_any (World.Config (state c))))
    with (Ok (E := error) (publishReq (I := aid) (Any := Any) "example/world/config" (Some (World.Config (state c))) (key_info World.ConfigKey))).
  cbn [obind]. pose proof (inv_store_Call w (fetchTimeout g) shard
    (publishReq (I := aid) "example/world/config" (Some (World.Config (state c))) (key_info World.ConfigKey)) (proj1 Hf) Hs) as [H _].
  destruct (store_Call w _ shard _) as [w1 [r err]]. destruct Hf as [_ Hq]. cbn in *. split; [by split|]. by split.
Qed.

(** The world, from the first message on, which is [WInit]. *)
Definition world_state_good q (sp : bool) (s : World.State) : Prop := cfg_good (World.Config s) \/ sp = true /\ q = WInit.

Lemma world_good g q sp : 100 <= R -> req_good q ->
  spec (Hook := Hook) (CB := CB) Inv (world_state_good q sp) (world_state_good q false) (world_handle g q sp) (fun _ => True).
Proof.
  intros HR Hq. assert (forall q s, cfg_good (World.Config s) -> world_state_good q false s) as Hl by (by left).
  assert (forall q s, world_state_good q false s -> cfg_good (World.Config s)) as Hr by (by intros ? ? [|[]]).
  destruct q; cbn [world_handle];
    try (intros w c Hf [H|[_ H]]; [|discriminate]; cbn; split; [done|split; [by left|done]]).
  - unfold World.handleInit. apply (spec_bind _ (fun s => cfg_good (World.Config s)) _ _ _ (fun _ => True)); [|auto|].
    + destruct sp; cbn [when].
      * intros w c Hf _. cbn. split; [done|]. split; [split; simpl; lia|done].
      * apply spec_ret; [|done]. intros s [?|[? _]]; done.
    + intros _ _. apply (spec_bind _ (fun s => cfg_good (World.Config s)) _ _ _ (fun _ => True)); [apply publish_good|auto|]. intros e _. apply spec_ret; auto.
  - unfold World.handleSetConfig. apply (spec_bind _ (fun s => cfg_good (World.Config s)) _ _ _ (fun _ => True)); [|auto|].
    + destruct (Z.ltb_spec 0 expRate) as [H|H]; cbn [when].
      * apply spec_modify. intros s _. cbn in *. split; simpl; lia.
      * apply spec_ret; [|done]. by intros s [?|[? ?]].
    + intros _ _. apply (spec_bind _ (fun s => cfg_good (World.Config s)) _ _ _ (fun _ => True)); [apply publish_good|auto|]. intros e _. apply spec_ret; auto.
Qed.
End actors.

(** ** The player *)
Definition reader_good (r : Reader Any) : Prop := forall name e, r_entries r !! name = Some e -> any_good (c_value e).

Lemma reader_entry_good name r : reader_good r -> reader_good (reader_entry name r).1 /\ any_good (c_value (reader_entry name r).2).
Proof.
  intros Hr. unfold reader_entry. destruct (r_entries r !! name) as [e|] eqn:E; [split; [done|by apply (Hr name)]|].
  split; [|done]. intros n e. simpl. intros [[<- <-]|[_ H]]%lookup_insert_Some; [done|by apply (Hr n)].
Qed.

Lemma set_good `{!Clock W} name version v ttl (w : W) r : reader_good r -> any_good v -> reader_good (set name version v ttl w r).
Proof.
  intros Hr Hv. unfold set. destruct (reader_entry_good name r Hr) as [H1 H2].
  destruct (reader_entry name r) as [r1 e]. simpl in H1, H2. destruct (_ && _); [done|].
  intros n e'. simpl. intros [[<- <-]|[_ H]]%lookup_insert_Some; [done|by apply (H1 n)].
Qed.

(** What a player may gain from a message. *)
Definition bonus (q : req) : Z := match q with PCombatResult _ level _ _ => 40 * level * R / 100 | _ => 0 end.

Lemma Reward_scaled slain level rate : 100 <= R <= 2 ^ 20 -> 1 <= level <= 2 ^ 31 -> 0 < rate <= R ->
  let '(gold, exp) := Reward slain level in
  0 <= gold /\ 0 <= Player.scaled exp rate /\ Z.max gold (Player.scaled exp rate) <= 40 * level * R / 100.
Proof.
  intros HR Hl Hr. unfold Reward, KillReward, HitReward, Player.scaled.
  assert (100 * level <= level * R) as H1 by (rewrite Z.mul_comm; apply Z.mul_le_mono_nonneg_l; lia).
  assert (0 <= level * rate <= level * R) as H2 by (split; [apply Z.mul_nonneg_nonneg; lia|apply Z.mul_le_mono_nonneg_l; lia]).
  assert (level * R <= 2 ^ 31 * 2 ^ 20) as H3 by (apply Z.mul_le_mono_nonneg; lia).
  assert (rate <= level * rate) as H4 by nia.
  assert (40 * level * R = 40 * (level * R)) as -> by ring.
  assert (forall e, 0 <= e <= 40 * (level * rate) -> 0 <= Z.quot (wrap64 e) 100 <= 40 * (level * R) / 100) as He.
  { intros e He. rewrite wrap64_small by lia. rewrite Z.quot_div_nonneg by lia.
    split; [apply Z.div_pos; lia|apply Z.div_le_mono; lia]. }
  assert (forall x, x <= 20 * level -> x <= 40 * (level * R) / 100) as Hx.
  { intros x Hx. apply Z.div_le_lower_bound; lia. }
  destruct slain.
  - rewrite (wrap64_small (20 * level)), (wrap64_small (40 * level)) by lia.
    specialize (He (40 * level * rate)). specialize (Hx (20 * level)). lia.
  - specialize (He (10 * rate)). specialize (Hx 5). lia.
Qed.

Lemma player_ok_same B s s' : player_ok B s -> Level s' = Level s -> HP s' = HP s -> Gold s' = Gold s -> Exp s' = Exp s -> player_ok B s'.
Proof. intros [H1 H2 H3 H4 H5] E1 E2 E3 E4. split; unfold total_exp in *; rewrite ?E1, ?E2, ?E3, ?E4 in *; done. Qed.

Lemma player_ok_mono B B' s : B <= B' -> player_ok B s -> player_ok B' s.
Proof. intros HB [H1 H2 H3 H4 H5]. split; lia. Qed.

Section player.
Context {W Dr UH UC : Type} `{!Clock W} {PO : Poster W aid req rep} {SC : StoreClient W aid Any} {Inv : W -> Prop} `{!Carrier PO SC Inv}.
Context (g : storeGlobals) (bs : bindings) (HR : 100 <= R <= 2 ^ 20).
Abbreviation act := (act W (grainHook UH) (grainCB UC) (Grain.State Dr PlayerState (ShotSelf PlayerState))).

Definition data_good (B : Z) (s : PlayerState) : Prop := player_ok B s /\ reader_good (Vars s).
Definition player_good (B : Z) (s : Grain.State Dr PlayerState (ShotSelf PlayerState)) : Prop := data_good B (Data s).

Lemma cacheGet_good w r k c : reader_good r -> cacheGet (V := Config) w r k = Some c -> cfg_good c.
Proof.
  intros Hr. unfold cacheGet. destruct (r_entries r !! key_name k) as [e|] eqn:E; [|done].
  destruct (negb _); [done|]. destruct (expired _ _); [done|]. intros H. apply Hr in E. cbn in H. by rewrite H in E.
Qed.

Lemma expRate_good B : spec Inv (player_good B) (player_good B) (Player.expRate g bs : act Z) (fun rate => 0 < rate <= R).
Proof.
  intros w c [Hw Hq] [Hp Hr]. unfold Player.expRate, Watch, WatchFrom.
  assert (forall r, reader_good r -> player_good B (state (with_Data (set_Vars r (Data (state c))) c))) as Hk.
  { intros r Hr'. split; [|done]. by eapply player_ok_same. }
  assert (0 < ExpRate DefaultConfig <= R) as Hd by (simpl; lia).
  destruct (lookupBinding bs _) as [b|]; [|split; [done|split; [by apply Hk|done]]].
  destruct (cacheGet w _ _) as [cfg|] eqn:E.
  { split; [done|]. split; [by apply Hk|]. by eapply cacheGet_good. }
  destruct (shardOf g _) as [shard|e|why]; [|split; [done|split; [by apply Hk|done]]..].
  pose proof (inv_store_Call w (fetchTimeout g) shard (subscribeReq (key_name World.ConfigKey) (ctx_id c) (Some b)) Hw I) as [H1 H2].
  destruct (store_Call w _ shard _) as [w1 [r err]]. simpl in H1, H2.
  destruct err; [split; [done|split; [by apply Hk|done]]|].
  destruct r as [[|ver v| |]|]; try (split; [done|split; [by apply Hk|done]]).
  destruct v as [cfg|]; cbn [as_V config_go id]; [|split; [done|split; [by apply Hk|done]]].
  destruct (key_info _); (split; [done|]; split; [|done]); apply Hk; [|done]. by apply set_good.
Qed.

Lemma push_good P m : spec Inv P P (Player.push m : act unit) (fun _ => True).
Proof. unfold Player.push, Player.data. repeat spec_step. Qed.

Lemma me_good P : spec Inv P P (Player.me : act PlayerId) (fun _ => True).
Proof. unfold Player.me. repeat spec_step. Qed.

Ltac player_step := first
  [ apply push_good | apply me_good
  | match goal with
    | |- spec _ _ _ (Player.pushState _) _ => unfold Player.pushState
    | |- spec _ _ _ Player.reportBrief _ => unfold Player.reportBrief
    | |- spec _ _ _ (Player.report _) _ => unfold Player.report
    | |- spec _ _ _ (Player.data _) _ => unfold Player.data
    end
  | spec_step ].

Lemma pushState_good P why : spec Inv P P (Player.pushState why : act unit) (fun _ => True).
Proof. repeat player_step. Qed.
Lemma reportBrief_good P : spec Inv P P (Player.reportBrief : act unit) (fun _ => True).
Proof. repeat player_step. Qed.
Lemma report_good P text : spec Inv P P (Player.report text : act unit) (fun _ => True).
Proof. repeat player_step. Qed.

(** A change of the session. *)
Lemma update_session B f : (forall s, Vars (f s) = Vars s) -> (forall s, Level (f s) = Level s /\ HP (f s) = HP s /\ Gold (f s) = Gold s /\ Exp (f s) = Exp s) ->
  spec Inv (player_good B) (player_good B) (Player.update f : act unit) (fun _ => True).
Proof.
  intros Hv Hf. apply spec_modify. intros s [H1 H2]. split; simpl; [|by rewrite Hv].
  destruct (Hf (Data s)) as (E1 & E2 & E3 & E4). by eapply player_ok_same.
Qed.

Lemma expRate_seq {A} B (k : Z -> act A) Q : (forall rate, spec Inv (player_good B) (player_good B) (k rate) Q) ->
  spec Inv (player_good B) (player_good B) (bind (Player.expRate g bs) k) Q.
Proof. intros H. eapply spec_bind; [apply expRate_good|done|auto]. Qed.

Lemma damage_good B from_ amount : B <= limit -> 0 <= amount <= limit ->
  spec Inv (player_good B) (player_good B) (Player.handleDamage from_ amount : act hres) (fun _ => True).
Proof.
  intros HB Ha. unfold Player.handleDamage, Player.data.
  apply (spec_bind _ (player_good B) _ _ _ (fun r => data_good B r.1)); [|done|].
  - apply spec_gets. intros s [H1 H2]. pose proof (applyDamage_spec B (Data s) amount H1 HB ltac:(unfold limit in *; lia)) as H.
    destruct (applyDamage amount (Data s)) as [s' [[taken slain] counts]]. destruct H as (G & _ & _ & _ & _ & E). split; [done|].
    simpl. by rewrite E.
  - intros [s [[taken slain] counts]] Hs. simpl in Hs. apply spec_seq; [apply spec_modify; by intros ? _|]. intros _.
    destruct counts; cbn [negb]; [|by apply spec_ret]. apply spec_seq; [apply me_good|]. intros id.
    apply spec_seq; [apply spec_post|].
    + cbn. destruct Hs as [Hs _]. pose proof (level_small_ok _ _ Hs HB). destruct Hs. lia.
    + intros _. repeat first [apply pushState_good | apply reportBrief_good | spec_step].
Qed.

Lemma combat_good B target level slain : 1 <= level <= 2 ^ 31 -> B + 40 * level * R / 100 <= limit ->
  spec Inv (player_good B) (player_good (B + 40 * level * R / 100)) (Player.handleCombatResult g bs target level slain : act hres) (fun _ => True).
Proof.
  intros Hl HB. unfold Player.handleCombatResult, Player.data. destruct (Reward slain level) as [gold exp] eqn:ER.
  assert (0 <= 40 * level * R / 100) as Hpos by (apply Z.div_pos; nia).
  assert (forall s, player_good B s -> player_good (B + 40 * level * R / 100) s) as Hmono.
  { intros s [H1 H2]. split; [|done]. eapply player_ok_mono; [|exact H1]. lia. }
  eapply spec_bind; [apply expRate_good|done|]. intros rate Hrate.
  pose proof (Reward_scaled slain level rate HR Hl Hrate) as Hb. rewrite ER in Hb. destruct Hb as (Hg & He & Hm).
  apply (spec_bind _ (player_good B) _ _ _ (fun r => exists s b, r = Some (s, b) /\ data_good (B + 40 * level * R / 100) s)); [|done|].
  - apply spec_gets. intros s [H1 H2].
    destruct (applyReward_exact B (Data s) gold (Player.scaled exp rate) H1 Hg He ltac:(lia)) as (s' & E & G & _ & _ & _ & _ & _ & _ & Ev).
    exists s', (Level (Data s) <? Level s'). split; [done|]. split; [|by rewrite Ev]. eapply player_ok_mono; [|exact G]. lia.
  - intros r (s & b & -> & Hs). apply (spec_bind _ (player_good (B + 40 * level * R / 100)) _ _ _ (fun _ => True)); [|done|].
    + apply spec_modify. by intros ? _.
    + intros _ _. repeat first [apply pushState_good | apply reportBrief_good | apply report_good | spec_step].
Qed.

Lemma session_change B f (k : act hres) :
  (forall s, Vars (f s) = Vars s) -> (forall s, Level (f s) = Level s /\ HP (f s) = HP s /\ Gold (f s) = Gold s /\ Exp (f s) = Exp s) ->
  spec Inv (player_good B) (player_good B) k (fun _ => True) ->
  spec Inv (player_good B) (player_good B) (bind (Player.update f) (fun _ => k)) (fun _ => True).
Proof. intros H1 H2 Hk. apply spec_seq; [by apply update_session|done]. Qed.

Lemma player_handle_good B q : 0 <= B -> req_good q -> B + bonus q <= limit ->
  spec Inv (player_good B) (player_good (B + bonus q)) (player_handle g bs q : act hres) (fun _ => True).
Proof.
  intros HB Hq Hb. destruct q; cbn [player_handle]; cbn [req_good bonus] in *; rewrite ?Z.add_0_r in *;
    try apply spec_panic.
  - unfold Player.handleLogin, Player.pushLoginOK. apply session_change; [done|done|]. apply spec_seq; [|intros _; by apply spec_ret].
    repeat first [apply expRate_seq; intros ? | player_step].
  - unfold Player.handleJoinRoom. repeat first [apply session_change; [done|done|] | player_step].
  - unfold Player.handleSay. repeat player_step.
  - unfold Player.handleAttack, Player.data. apply (spec_bind _ (player_good B) _ _ _ (fun s => data_good B s)); [by apply spec_gets|done|].
    intros s [Hs _]. apply spec_seq; [apply me_good|]. intros id. destruct (bool_decide _); [by apply spec_ret|].
    destruct (HP s <=? 0); [by apply spec_ret|]. apply spec_seq; [apply spec_post|intros [e|]; by apply spec_ret].
    cbn. pose proof (level_small_ok _ _ Hs Hb). destruct Hs. unfold atk. rewrite AtkOf_eq by lia. unfold limit. lia.
  - unfold Player.handleStatus. repeat first [apply expRate_seq; intros ? | player_step].
  - by apply damage_good.
  - by apply combat_good.
  - unfold Player.handleRoomEvent. repeat player_step.
  - intros w c Hf [H1 H2]. cbn. split; [done|]. split; [|done]. split; [by eapply player_ok_same|by apply set_good].
Qed.
End player.

(** C35 Good messages keep good players: take any invariant of the rest of the system that
    good messages preserve (damage within 2^62, results of fights that name a level,
    configurations with a positive rate of at most [R] percent). Then a handler of a
    player, given a good message, ends; the player is in good order afterwards (level,
    experience, hit points and gold within their bounds, nothing wrapped, the books of
    experience kept below the old bound plus the reward), its cache holds good
    configurations only, and everything it sent or queued is good; the handlers of the
    connections, the rooms and the world, given good messages, send good ones too. *)
Theorem good_players {W Dr Hook CB UH UC : Type} `{!Clock W} (PO : Poster W aid req rep) (SC : StoreClient W aid Any) (Inv : W -> Prop)
    `{!Carrier PO SC Inv} g bs B q sp : 100 <= R <= 2 ^ 20 -> req_good q -> 0 <= B -> B + bonus q <= limit ->
  spec Inv (player_good (Dr := Dr) B) (player_good (B + bonus q)) (player_handle (UH := UH) (UC := UC) g bs q) (fun _ => True) /\
  spec (Hook := Hook) (CB := CB) Inv always always (client_handle q sp) (fun _ => True) /\
  spec (Hook := Hook) (CB := CB) Inv always always (room_handle q sp) (fun _ => True) /\
  spec (Hook := Hook) (CB := CB) Inv (world_state_good q sp) (world_state_good q false) (world_handle g q sp) (fun _ => True).
Proof.
  intros HR Hq HB Hb. split; [by apply player_handle_good|]. split; [apply client_good|]. split; [apply room_good|].
  apply world_good; [lia|done].
Qed.
End good.
Arguments fine R {W Hook CB} Inv w a.

(** ** A world that keeps the messages *)
Module MailWorld.
Definition W : Type := list (aid * req).
#[export] Instance clock : Clock W := fun _ => 0.
#[export] Instance poster : Poster W aid req rep := {|
  fpost w _ id q := ((w ++ [(id, q)])%list, None);
  fcall w _ id q := ((w ++ [(id, q)])%list, (Some OkRep, None));
  fmulticast w _ ids q := ((w ++ ((fun id => (id, q)) <$> ids))%list, ((fun id => mkIdErr id None) <$> ids, None));
  fbroadcast w _ _ := (w, (0%nat, None));
  wsleep w _ := w;
|}.
(** Every key holds a rate of 200 percent. *)
#[export] Instance store : StoreClient W aid Any := {|
  store_Call w _ _ q := (w, (match q with subscribeReq _ _ _ => Some (subscribeRep 1 (Some (mkConfig 200))) | _ => Some Store.OkRep end, None));
  store_Post w _ _ := (w, None);
|}.

Definition all_good (w : W) : Prop := Forall (fun m => req_good 200 m.2) w.

#[export] Instance carrier : Carrier 200 poster store all_good.
Proof.
  split; unfold all_good; cbn.
  - intros w _ id q H Hq. apply Forall_app. split; [done|by repeat constructor].
  - intros w _ id q H Hq. apply Forall_app. split; [done|by repeat constructor].
  - intros w _ ids q H Hq. apply Forall_app. split; [done|]. apply Forall_fmap. apply Forall_true. intros id. exact Hq.
  - done.
  - intros w _ _ q H _. split; [done|]. destruct q; simpl; done || (unfold cfg_good; simpl; lia).
Qed.

(** The globals of a store with one shard, and the players bound to it. *)
Definition globals : storeGlobals := mkGlobals 1 (mkStoreOptions 1 0 0 0 0 0).
Definition bound : bindings := player_bindings 0%nat ∅.

Definition ann : aid := APlayer (mkPlayerId "ann").
Definition bob : aid := APlayer (mkPlayerId "bob").
Definition context (id : aid) (s : PlayerState) : ActorContext aid req (grainHook Empty_set) (grainCB Empty_set) (Grain.State unit PlayerState (ShotSelf PlayerState)) :=
  newActorContext (Grain.mkState s None None mkShotSelf) id.
End MailWorld.
Import MailWorld.

(** A new player that hears of a kill of a player of level 1: 20 in gold, and 80 points of
    experience, the rate being 200, which make it one of level 2. *)
Lemma good_players_witness :
  let q := PCombatResult (mkPlayerId "bob") 1 10 true in
  let s := state (player_handle globals bound q [] (context ann newPlayer)).1.2 in
  player_good 200 (0 + bonus 200 q) s /\ (Level (Data s), Exp (Data s), Gold (Data s)) = (2, 50, 20).
Proof.
  split; [|vm_compute; reflexivity].
  apply (spec_state (Inv := all_good) 200 (player_good 200 0) _ _ (fun _ => True)).
  - apply (good_players (Dr := unit) (Hook := Empty_set) (CB := Empty_set) (UH := Empty_set) (UC := Empty_set) 200 poster store all_good
      globals bound 0 (PCombatResult (mkPlayerId "bob") 1 10 true) false ltac:(lia) ltac:(simpl; lia) ltac:(lia) ltac:(vm_compute; discriminate)).
  - split; constructor.
  - split; [apply new_player_ok|by intros n e].
Defined.
