(* ===== verification/GameRoom.v ===== *)
(** * The rooms of the engineering example

    A room is a table of its members: every handler is one change of the table, one
    event for the members of the changed table, in order, and the loss of those the
    event could not be posted to at once. *)

From S2P Require Import Prelude ActorTypes Control ControlProps Registry Runtime Store Reader Grain Game GameActors GameLogic.

Local Open Scope string_scope.

Abbreviation roster := (gmap PlayerId Brief).

(** ** The members, in order *)
Definition ordered (t : roster) : list PlayerId := merge_sort Room.before (map_to_list t).*1.

#[export] Instance before_total : Total Room.before.
Proof. intros [a] [b]. unfold Room.before. simpl. apply (total stdpp.strings.String.le). Qed.
#[export] Instance before_trans : Transitive Room.before.
Proof. intros [a] [b] [c]. unfold Room.before. simpl. intros H1 H2. by etrans. Qed.
Lemma before_anti a b : Room.before a b -> Room.before b a -> a = b.
Proof. destruct a as [a], b as [b]. unfold Room.before. simpl. intros H1 H2. f_equal. by apply (anti_symm stdpp.strings.String.le). Qed.

Lemma ordered_In t p : p ∈ ordered t <-> is_Some (t !! p).
Proof.
  unfold ordered. rewrite (merge_sort_Permutation Room.before). rewrite list_elem_of_fmap. split.
  - intros ([p' b] & -> & H). apply elem_of_map_to_list in H. by exists b.
  - intros [b H]. exists (p, b). split; [done|]. by apply elem_of_map_to_list.
Qed.

Lemma ordered_NoDup t : NoDup (ordered t).
Proof. unfold ordered. rewrite (merge_sort_Permutation Room.before). apply NoDup_fst_map_to_list. Qed.

Lemma ordered_sorted t : StronglySorted Room.before (ordered t).
Proof. apply (StronglySorted_merge_sort Room.before). Qed.

Lemma ordered_nil t : ordered t = [] <-> t = ∅.
Proof.
  split.
  - intros H. apply map_eq. intros p. rewrite lookup_empty. destruct (t !! p) eqn:E; [|done].
    assert (p ∈ ordered t) as Hp by (apply ordered_In; by eexists). rewrite H in Hp. by apply not_elem_of_nil in Hp.
  - intros ->. done.
Qed.

(** ** The specification *)
Definition event : Type := string * string.

(** What a request does to the table, the event it is told as and the answer. *)
Definition room_step (r : RoomId) (q : req) (t : roster) : option (roster * option event * hres) :=
  match q with
  | RJoin p b =>
      Some (<[p := b]> t,
            match t !! p with None => Some ("join", OpenID p +:+ " 进入房间 " +:+ pretty (Seq r)) | Some _ => None end, ok)
  | RLeave p =>
      Some (delete p t,
            match t !! p with None => None | Some _ => Some ("leave", OpenID p +:+ " 离开房间 " +:+ pretty (Seq r)) end, ok)
  | RBriefChanged p b => Some (match t !! p with None => t | Some _ => <[p := b]> t end, None, ok)
  | RChat p text =>
      Some (t, match t !! p with None => None | Some _ => Some ("chat", OpenID p +:+ ": " +:+ text) end,
            match t !! p with
            | None => fail (ErrNew ("room: " +:+ OpenID p +:+ " 不在房间 " +:+ pretty (Seq r) +:+ " 里"))
            | Some _ => ok
            end)
  | RReport p text => Some (t, Some ("report", OpenID p +:+ " " +:+ text), ok)
  | RStatus =>
      Some (t, None, (Some (StatusRep (Seq r) ((fun p => default (mkBrief "" 0 0) (t !! p)) <$> ordered t)), None))
  | _ => None
  end.

(** Whom the event did not reach at once. *)
Definition failed (errs : list (IdErr aid)) : list PlayerId :=
  (fun e => player_of (Id e)) <$> filter (fun e => is_Some (IErr e)) errs.

Definition without (l : list PlayerId) (t : roster) : roster := filter (fun pb : PlayerId * Brief => pb.1 ∉ l) t.

Section room.
Context {W Hook CB : Type} {PO : Poster W aid req rep}.
Abbreviation ctl := (ActorControl aid req Hook CB).
Abbreviation ctx := (ActorContext aid req Hook CB Room.State).

(** An event for all members of a table. *)
Definition announce (r : RoomId) (t : roster) (e : option event) (w : W) (a : ctl) : W * ctl * roster :=
  match e with
  | None => (w, a, t)
  | Some (kind, text) =>
      match ordered t with
      | [] => (w, a, t)
      | ms =>
          let '(w1, a1, (errs, _)) := AMulticast w a (APlayer <$> ms) (PRoomEvent r kind text) in
          (w1, a1, without (failed errs) t)
      end
  end.

Lemma table_remove p s : Room.table (Room.remove p s) = delete p (Room.table s).
Proof. destruct s as [[t|]]; cbn; [done|]. by rewrite delete_empty. Qed.

Lemma table_ensure s : Room.table (Room.ensure s) = Room.table s.
Proof. by destruct s as [[t|]]. Qed.

Lemma table_drop errs : forall s, Room.table (Room.drop_failed errs s) = without (failed errs) (Room.table s).
Proof.
  induction errs as [|e errs IH]; intros s.
  - change (Room.drop_failed [] s) with s. symmetry. apply map_filter_id. intros p b _. apply not_elem_of_nil.
  - change (Room.drop_failed (e :: errs) s) with
      (Room.drop_failed errs (match IErr e with None => s | Some _ => Room.remove (player_of (Id e)) s end)).
    rewrite IH. destruct (IErr e) as [er|] eqn:E.
    + rewrite table_remove. unfold failed, without. rewrite filter_cons_True by (rewrite E; by eexists). cbn [fmap list_fmap].
      apply map_eq. intros p. apply option_eq. intros b. rewrite !map_lookup_filter_Some, lookup_delete_Some. cbn [fst].
      rewrite not_elem_of_cons. intuition congruence.
    + unfold failed, without. rewrite filter_cons_False by (rewrite E; by intros []). done.
Qed.

Lemma broadcast_spec kind text w (c : ctx) :
  let '(w1, a1, t1) := announce (room_of (ctx_id c)) (Room.table (state c)) (Some (kind, text)) w (ctrl c) in
  exists s1, Room.broadcast kind text w c = (w1, mkContext (ctx_id c) a1 s1, Done tt) /\ Room.table s1 = t1.
Proof.
  unfold announce, Room.broadcast, bind, gets, ret. change (Room.members (state c)) with (ordered (Room.table (state c))).
  destruct (ordered (Room.table (state c))) as [|m ms] eqn:E.
  - exists (state c). split; [by destruct c|done].
  - unfold self_id, multicast, modify. destruct (AMulticast _ _ _ _) as [[w1 a1] [errs e]].
    eexists. split; [reflexivity|]. apply table_drop.
Qed.

(** What a handler leaves: world, control, table, answer. *)
Definition ends (x : W * ctx * res hres) (id : aid) (w : W) (a : ctl) (t : roster) (ans : hres) : Prop :=
  exists s, x = (w, mkContext id a s, Done ans) /\ Room.table s = t.

Lemma broadcast_ends kind text w (c : ctx) :
  let '(w1, a1, t1) := announce (room_of (ctx_id c)) (Room.table (state c)) (Some (kind, text)) w (ctrl c) in
  ends (bind (Room.broadcast kind text) (fun _ => ret ok) w c) (ctx_id c) w1 a1 t1 ok.
Proof.
  pose proof (broadcast_spec kind text w c) as H. destruct (announce _ _ _ _ _) as [[w1 a1] t1].
  destruct H as (s1 & E & Ht). exists s1. unfold bind. rewrite E. by split.
Qed.
End room.

(** ** Refinement *)
Section refinement.
Context {W Hook CB : Type} {PO : Poster W aid req rep}.
Abbreviation ctx := (ActorContext aid req Hook CB Room.State).
Abbreviation act := (act W Hook CB Room.State).

Lemma bind_done {A B} (m : act A) (k : A -> act B) w c w1 c1 x : m w c = (w1, c1, Done x) -> bind m k w c = k x w1 c1.
Proof. intros H. unfold bind. by rewrite H. Qed.

Ltac step := erewrite bind_done; [|reflexivity]; cbn beta.

(** The control a handler broadcasts with. *)
Definition opened (q : req) (sp : bool) (a : ActorControl aid req Hook CB) : ActorControl aid req Hook CB :=
  match q with RJoin _ _ => if sp then Open a else a | _ => a end.

Definition refines (q : req) (sp : bool) : Prop := forall w (c : ctx) t' e ans,
  room_step (room_of (ctx_id c)) q (Room.table (state c)) = Some (t', e, ans) ->
  let '(w1, a1, t1) := announce (room_of (ctx_id c)) t' e w (opened q sp (ctrl c)) in
  ends (room_handle q sp w c) (ctx_id c) w1 a1 t1 ans.

Lemma join_refines p b sp : refines (RJoin p b) sp.
Proof.
  intros w [i a s] t' e ans H. cbn [ctx_id ctrl state] in *. cbn [room_step] in H. injection H as <- <- <-.
  cbn [room_handle opened]. unfold Room.handleJoin. step. step. step. cbn [state SetState ctrl ctx_id]. rewrite table_ensure.
  set (s1 := Room.put p b (Room.ensure s)).
  assert (Room.table s1 = <[p := b]> (Room.table s)) as Hs1 by (destruct s as [[t|]]; done).
  set (a1 := if sp then Open a else a).
  erewrite (bind_done (when sp open) _ _ _ w (mkContext i a1 s1)); [|by destruct sp]. cbn beta. step.
  destruct (Room.table s !! p) as [b'|] eqn:E.
  - rewrite bool_decide_true by done. cbn [negb when]. exists s1. by split.
  - rewrite bool_decide_false by (by intros []). cbn [negb when].
    pose proof (broadcast_ends "join" (OpenID p +:+ " 进入房间 " +:+ pretty (Seq (room_of i))) w (mkContext i a1 s1)) as Hc.
    cbn [ctx_id state ctrl] in Hc. by rewrite Hs1 in Hc.
Qed.

Lemma leave_refines p sp : refines (RLeave p) sp.
Proof.
  intros w [i a s] t' e ans H. cbn [ctx_id ctrl state] in *. cbn [room_step] in H. injection H as <- <- <-.
  cbn [room_handle opened]. unfold Room.handleLeave. step. cbn [state].
  destruct (Room.table s !! p) as [b'|] eqn:E.
  - step. step. cbn [ctx_id].
    pose proof (broadcast_ends "leave" (OpenID p +:+ " 离开房间 " +:+ pretty (Seq (room_of i))) w (mkContext i a (Room.remove p s))) as Hc.
    cbn [ctx_id state ctrl] in Hc. by rewrite table_remove in Hc.
  - exists s. split; [done|]. symmetry. by apply delete_id.
Qed.

Lemma brief_refines p b sp : refines (RBriefChanged p b) sp.
Proof.
  intros w [i a s] t' e ans H. cbn [ctx_id ctrl state] in *. cbn [room_step] in H. injection H as <- <- <-.
  cbn [room_handle opened]. unfold Room.handleBriefChanged. step. cbn [state].
  destruct (Room.table s !! p) as [b'|] eqn:E.
  - exists (Room.put p b s). split; [done|]. destruct s as [[t|]]; [done|].
    change (Room.table (Room.mkState None)) with (∅ : roster) in E. by rewrite lookup_empty in E.
  - by exists s.
Qed.

Lemma chat_refines p text sp : refines (RChat p text) sp.
Proof.
  intros w [i a s] t' e ans H. cbn [ctx_id ctrl state] in *. cbn [room_step] in H. injection H as <- <- <-.
  cbn [room_handle opened]. unfold Room.handleChat. step. step. cbn [state ctx_id].
  destruct (Room.table s !! p) as [b'|] eqn:E.
  - exact (broadcast_ends "chat" (OpenID p +:+ ": " +:+ text) w (mkContext i a s)).
  - by exists s.
Qed.

(** C36 A room is its table of members: every handler of a room answers, and changes the
    table, as [room_step] says (a member joins or is refreshed, leaves, nothing else; a
    report of a stranger changes nothing, the chat of a stranger is refused), and then
    multicasts the one event of the step, if it has one, to exactly the members of the new
    table, each once, in the order of their names; who cannot be reached at once is no
    member afterwards. The join that creates a room opens it. *)
Theorem room_refines q sp : refines q sp /\
  (forall t, NoDup (ordered t) /\ StronglySorted Room.before (ordered t) /\ forall p, p ∈ ordered t <-> is_Some (t !! p)).
Proof.
  split.
  - destruct q; try (by intros w c t' e ans H); [apply join_refines|apply leave_refines|apply chat_refines|apply brief_refines| |].
    + intros w [i a s] t' e ans H. cbn [room_step] in H. injection H as <- <- <-.
      exact (broadcast_ends "report" (OpenID actor +:+ " " +:+ text) w (mkContext i a s)).
    + intros w [i a s] t' e ans H. cbn [room_step] in H. injection H as <- <- <-. by exists s.
  - intros t. split; [apply ordered_NoDup|]. split; [apply ordered_sorted|apply ordered_In].
Qed.
End refinement.

(** ** Witness: two members, one of whom chats *)
Import MailWorld.
Definition two : Room.State := Room.mkState (Some {[mkPlayerId "bob" := mkBrief "bob" 1 100; mkPlayerId "ann" := mkBrief "ann" 1 100]}).
Definition lobby : ActorContext aid req Empty_set Empty_set Room.State := newActorContext two (ARoom (mkRoomId 1)).

Lemma room_refines_witness :
  exists w1 a1 s1, room_handle (RChat (mkPlayerId "ann") "hi") false [] lobby = (w1, mkContext (ARoom (mkRoomId 1)) a1 s1, Done ok) /\
    w1 = [(ann, PRoomEvent (mkRoomId 1) "chat" "ann: hi"); (bob, PRoomEvent (mkRoomId 1) "chat" "ann: hi")] /\
    map_to_list (Room.table s1) = map_to_list (Room.table two).
Proof.
  pose proof (proj1 (room_refines (W := W) (Hook := Empty_set) (CB := Empty_set) (RChat (mkPlayerId "ann") "hi") false) [] lobby
    (Room.table two) (Some ("chat", "ann: hi")) ok ltac:(vm_compute; reflexivity)) as H.
  assert ((announce (room_of (ctx_id lobby)) (Room.table two) (Some ("chat", "ann: hi")) [] (ctrl lobby)).1.1 =
    [(ann, PRoomEvent (mkRoomId 1) "chat" "ann: hi"); (bob, PRoomEvent (mkRoomId 1) "chat" "ann: hi")]) as E1 by (vm_compute; reflexivity).
  assert (map_to_list (announce (room_of (ctx_id lobby)) (Room.table two) (Some ("chat", "ann: hi")) ([] : W) (ctrl lobby)).2 =
    map_to_list (Room.table two)) as E2 by (vm_compute; reflexivity).
  cbn [opened] in H. destruct (announce _ _ _ _ _) as [[w1 a1] t1]. simpl in E1, E2. destruct H as (s1 & H & Ht).
  exists w1, a1, s1. split; [exact H|]. split; [exact E1|]. rewrite Ht. exact E2.
Defined.

(** ** A member that is busy is lost

    In a world where the mailbox of bob is full, what a room sends to bob is postponed,
    and reported with an error: the room strikes bob off, although the message will
    reach him. He goes on believing he is in the room: joining it again does nothing, and
    the room refuses what he says. *)
Module BusyWorld.
Definition poster : Poster W aid req rep := {|
  fpost w _ id q := if bool_decide (id = bob) then (w, Some (ActorBusyError None)) else ((w ++ [(id, q)])%list, None);
  fcall w _ id q := ((w ++ [(id, q)])%list, (Some OkRep, None));
  fmulticast w _ ids q :=
    ((w ++ ((fun id => (id, q)) <$> filter (fun id => id <> bob) ids))%list,
     ((fun id => mkIdErr id (if bool_decide (id = bob) then Some (ActorBusyError None) else None)) <$> ids, None));
  fbroadcast w _ _ := (w, (0%nat, None));
  wsleep w _ := w;
|}.

Definition said := room_handle (Poster0 := poster) (RChat (mkPlayerId "ann") "hi") false ([] : W) lobby.
Definition bobs : PlayerState := set_Room (mkRoomId 1) newPlayer.

Lemma busy_member_lost :
  (** Bob is struck off, *)
  (Room.table (state said.1.2) !! mkPlayerId "bob" = None) /\
  (** with the message queued for him; *)
  (postpone (ctrl said.1.2) = [mkPostpone bob (PRoomEvent (mkRoomId 1) "chat" "ann: hi")]) /\
  (** his join of the same room is answered without a word to the room, *)
  (player_handle (Poster0 := poster) globals bound (PJoinRoom (mkRoomId 1)) [] (context bob bobs) = ([], context bob bobs, Done ok)) /\
  (** and the room refuses him. *)
  (room_handle (Poster0 := poster) (RChat (mkPlayerId "bob") "hello") false said.1.1 said.1.2).2 =
    Done (fail (ErrNew "room: bob 不在房间 1 里")).
Proof. repeat split; vm_compute; reflexivity. Qed.
End BusyWorld.
