(* ===== verification/GameTraffic.v ===== *)
(** * A fight in the engineering example, message by message

    What the handlers of a player send on a network that takes every message, and the
    exchange of an attack: the hit, its settlement by the target, the reward. *)

From S2P Require Import Prelude ActorTypes Control Registry Runtime Store Reader Lease Grain Game GameSpec GameActors GameLogic.

Local Open Scope string_scope.
Local Open Scope Z_scope.

(** A network that takes every post; [mails] are the messages posted. *)
Class Healthy {W : Type} (PO : Poster W aid req rep) (mails : W -> list (aid * req)) : Prop := {
  healthy_post : forall w f id q, (fpost w f id q).2 = None /\ mails (fpost w f id q).1 = (mails w ++ [(id, q)])%list;
}.

Section traffic.
Context {W Dr UH UC : Type} `{!Clock W} {PO : Poster W aid req rep} {SC : StoreClient W aid Any}.
Context {mails : W -> list (aid * req)} `{!Healthy PO mails} (g : storeGlobals) (bs : bindings).
Abbreviation St := (Grain.State Dr PlayerState (ShotSelf PlayerState)).
Abbreviation ctx := (ActorContext aid req (grainHook UH) (grainCB UC) St).
Abbreviation act := (act W (grainHook UH) (grainCB UC) St).

(** Nothing is postponed. *)
Definition quiet (c : ctx) : Prop := postpone (ctrl c) = [] /\ postponeSet (ctrl c) = ∅.

(** [m] returns [x], sends [ms] and leaves the data [d] and the rest of the context. *)
Definition yields {A} (m : act A) (w : W) (c : ctx) (x : A) (d : PlayerState) (ms : list (aid * req)) : Prop :=
  let '(w1, c1, r) := m w c in
  r = Done x /\ mails w1 = (mails w ++ ms)%list /\ Data (state c1) = d /\ quiet c1 /\ ctx_id c1 = ctx_id c.

Lemma yields_ret {A} (x : A) w c : quiet c -> yields (ret x) w c x (Data (state c)) [].
Proof. intros H. cbn. by rewrite app_nil_r. Qed.

Lemma yields_bind {A B} (m : act A) (k : A -> act B) w c x d ms y d' ms' :
  yields m w c x d ms ->
  (forall w1 c1, quiet c1 -> ctx_id c1 = ctx_id c -> Data (state c1) = d -> yields (k x) w1 c1 y d' ms') ->
  yields (bind m k) w c y d' (ms ++ ms').
Proof.
  intros Hm Hk. unfold yields, bind in *. destruct (m w c) as [[w1 c1] r]. destruct Hm as (-> & H2 & H3 & H4 & H5).
  specialize (Hk w1 c1 H4 H5 H3). destruct (k x w1 c1) as [[w2 c2] r2]. destruct Hk as (G1 & G2 & G3 & G4 & G5).
  split; [done|]. split; [by rewrite G2, H2, app_assoc|]. split; [done|]. split; [done|congruence].
Qed.

(** A step that sends nothing. *)
Lemma yields_quiet {A B} (m : act A) (k : A -> act B) w c x d y d' ms' :
  yields m w c x d [] ->
  (forall w1 c1, quiet c1 -> ctx_id c1 = ctx_id c -> Data (state c1) = d -> yields (k x) w1 c1 y d' ms') ->
  yields (bind m k) w c y d' ms'.
Proof. apply yields_bind. Qed.

Lemma yields_data {A} (f : PlayerState -> A) w c : quiet c -> yields (Player.data f) w c (f (Data (state c))) (Data (state c)) [].
Proof. intros H. cbn. by rewrite app_nil_r. Qed.

Lemma yields_update f w c : quiet c -> yields (Player.update f) w c tt (f (Data (state c))) [].
Proof. intros H. cbn. by rewrite app_nil_r. Qed.

Lemma yields_me w c p : quiet c -> ctx_id c = APlayer p -> yields Player.me w c p (Data (state c)) [].
Proof. intros H E. unfold yields. cbn. rewrite app_nil_r, E. done. Qed.

Lemma yields_post to q w c : quiet c -> yields (post to q) w c None (Data (state c)) [(to, q)].
Proof.
  intros [H1 H2]. unfold yields, post, APost, poseponePost. rewrite H1. unfold hasPostpone. rewrite H2.
  rewrite bool_decide_false by set_solver. cbn. pose proof (healthy_post w (fromSeq (ctrl c) (from (ctrl c))).2 to q) as H.
  cbn in H. destruct (fpost w _ to q) as [w1 e]. simpl in H. destruct H as [-> H]. cbn. by repeat split.
Qed.

(** ** What is pushed and reported *)
Definition push_msgs (s : PlayerState) (m : Msg) : list (aid * req) :=
  if String.eqb (Conn (Client s)) "" then [] else [(AClient (Client s), CPush m)].
Definition state_msg (s : PlayerState) (why : string) : Msg := StateUpdate (Level s) (HP s) (maxHP s) (Gold s) (Exp s) why.
Definition brief_msgs (p : PlayerId) (s : PlayerState) : list (aid * req) :=
  if Seq (Room s) =? 0 then [] else [(ARoom (Room s), RBriefChanged p (brief p s))].
Definition report_msgs (p : PlayerId) (s : PlayerState) (text : string) : list (aid * req) :=
  if Seq (Room s) =? 0 then [] else [(ARoom (Room s), RReport p text)].

Lemma post_ignored to q w c : quiet c -> yields (bind (post to q) (fun _ => ret tt)) w c tt (Data (state c)) [(to, q)].
Proof.
  intros H. apply (yields_bind _ _ _ _ None (Data (state c)) [(to, q)] tt _ []); [by apply yields_post|].
  intros w1 c1 H1 _ <-. by apply yields_ret.
Qed.

Lemma push_yields m w c : quiet c -> yields (Player.push m) w c tt (Data (state c)) (push_msgs (Data (state c)) m).
Proof.
  intros H. unfold Player.push, push_msgs. eapply yields_quiet; [by apply yields_data|]. intros w1 c1 H1 _ E. rewrite <- E.
  destruct (String.eqb _ _); [by apply yields_ret|by apply post_ignored].
Qed.

Lemma pushState_yields why w c : quiet c ->
  yields (Player.pushState why) w c tt (Data (state c)) (push_msgs (Data (state c)) (state_msg (Data (state c)) why)).
Proof.
  intros H. unfold Player.pushState. eapply yields_quiet; [by apply yields_data|]. intros w1 c1 H1 _ E. rewrite <- E.
  by apply push_yields.
Qed.

Lemma reportBrief_yields p w c : quiet c -> ctx_id c = APlayer p ->
  yields Player.reportBrief w c tt (Data (state c)) (brief_msgs p (Data (state c))).
Proof.
  intros H Hp. unfold Player.reportBrief, brief_msgs. eapply yields_quiet; [by apply yields_data|]. intros w1 c1 H1 E1 E. rewrite <- E.
  destruct (_ =? 0); [by apply yields_ret|]. eapply yields_quiet; [apply (yields_me _ _ p); [done|congruence]|].
  intros w2 c2 H2 E2 Ed. rewrite <- Ed. by apply post_ignored.
Qed.

Lemma report_yields p text w c : quiet c -> ctx_id c = APlayer p ->
  yields (Player.report text) w c tt (Data (state c)) (report_msgs p (Data (state c)) text).
Proof.
  intros H Hp. unfold Player.report, report_msgs. eapply yields_quiet; [by apply yields_data|]. intros w1 c1 H1 E1 E. rewrite <- E.
  destruct (_ =? 0); [by apply yields_ret|]. eapply yields_quiet; [apply (yields_me _ _ p); [done|congruence]|].
  intros w2 c2 H2 E2 Ed. rewrite <- Ed. by apply post_ignored.
Qed.

(** ** The three handlers of a fight *)

(** The same with the data known. *)
Lemma pushState_at why w c d : quiet c -> Data (state c) = d -> yields (Player.pushState why) w c tt d (push_msgs d (state_msg d why)).
Proof. intros H <-. by apply pushState_yields. Qed.
Lemma reportBrief_at p w c d : quiet c -> ctx_id c = APlayer p -> Data (state c) = d -> yields Player.reportBrief w c tt d (brief_msgs p d).
Proof. intros H Hp <-. by apply reportBrief_yields. Qed.
Lemma report_at p text w c d : quiet c -> ctx_id c = APlayer p -> Data (state c) = d -> yields (Player.report text) w c tt d (report_msgs p d text).
Proof. intros H Hp <-. by apply report_yields. Qed.
Lemma post_at to q w c d : quiet c -> Data (state c) = d -> yields (post to q) w c None d [(to, q)].
Proof. intros H <-. by apply yields_post. Qed.
Lemma ret_at {A} (x : A) w c d : quiet c -> Data (state c) = d -> yields (ret x) w c x d [].
Proof. intros H <-. by apply yields_ret. Qed.
Lemma me_at p w c d : quiet c -> ctx_id c = APlayer p -> Data (state c) = d -> yields Player.me w c p d [].
Proof. intros H Hp <-. by apply yields_me. Qed.
Lemma data_at {A} (f : PlayerState -> A) w c d : quiet c -> Data (state c) = d -> yields (Player.data f) w c (f d) d [].
Proof. intros H <-. by apply yields_data. Qed.
Lemma update_at d' w c : quiet c -> yields (Player.update (fun _ => d')) w c tt d' [].
Proof. intros H. by apply (yields_update (fun _ => d')). Qed.

(** The end of the handlers of a fight: the state is pushed, the brief reported. *)
Lemma told_at {A} p why (k : act A) w c d x ms : quiet c -> ctx_id c = APlayer p -> Data (state c) = d ->
  (forall w1 c1, quiet c1 -> ctx_id c1 = APlayer p -> Data (state c1) = d -> yields k w1 c1 x d ms) ->
  yields (bind (Player.pushState why) (fun _ => bind Player.reportBrief (fun _ => k))) w c x d
    (push_msgs d (state_msg d why) ++ brief_msgs p d ++ ms).
Proof.
  intros H Hp Hd Hk. apply (yields_bind _ _ _ _ tt d); [by apply pushState_at|]. intros w1 c1 H1 E1 Ed1.
  apply (yields_bind _ _ _ _ tt d); [apply reportBrief_at; [done|congruence|done]|]. intros w2 c2 H2 E2 Ed2.
  apply Hk; [done|congruence|done].
Qed.

Lemma attack_yields p target w c d : quiet c -> ctx_id c = APlayer p -> p <> target -> Data (state c) = d -> 0 < HP d ->
  yields (Player.handleAttack target) w c ok d [(APlayer target, PDamage p (Room d) (atk d))].
Proof.
  intros H Hp Hne Hd Hhp. unfold Player.handleAttack. eapply yields_quiet; [by apply data_at|]. intros w1 c1 H1 E1 Ed1.
  eapply yields_quiet; [apply (me_at p); [done|congruence|done]|]. intros w2 c2 H2 E2 Ed2.
  rewrite bool_decide_false by congruence. assert ((HP d <=? 0) = false) as -> by lia.
  apply (yields_bind _ _ _ _ None d [_] _ _ []); [by apply post_at|]. intros w3 c3 H3 _ Ed3. by apply ret_at.
Qed.

Lemma damage_yields p from_ amount w c d d' taken slain : quiet c -> ctx_id c = APlayer p -> Data (state c) = d ->
  applyDamage amount d = (d', (taken, slain, true)) ->
  yields (Player.handleDamage from_ amount) w c ok d'
    ((APlayer from_, PCombatResult p (Level d') taken slain) :: push_msgs d' (state_msg d' "damage") ++ brief_msgs p d' ++ []).
Proof.
  intros H Hp Hd Ha. unfold Player.handleDamage.
  eapply yields_quiet; [by apply (data_at _ _ _ d)|]. rewrite Ha. intros w1 c1 H1 E1 _.
  eapply yields_quiet; [by apply update_at|]. intros w2 c2 H2 E2 Ed2. cbn [negb].
  eapply yields_quiet; [apply (me_at p); [done|congruence|done]|]. intros w3 c3 H3 E3 Ed3.
  apply (yields_bind _ _ _ _ None d' [_]); [by apply post_at|]. intros w4 c4 H4 E4 Ed4.
  apply told_at; [done|congruence|done|]. intros w5 c5 H5 _ Ed5. by apply ret_at.
Qed.

(** The rate is in the cache. *)
Definition cached (rate : Z) (w : W) (c : ctx) : Prop :=
  is_Some (bs !! "Player") /\ cacheGet w (Vars (Data (state c))) World.ConfigKey = Some (mkConfig rate).

Lemma expRate_yields p rate w c d : quiet c -> ctx_id c = APlayer p -> cached rate w c -> Data (state c) = d ->
  yields (Player.expRate g bs) w c rate d [].
Proof.
  intros H Hp [[b Hb] Hc] <-. unfold yields, Player.expRate, Watch, WatchFrom, lookupBinding. rewrite Hp.
  change (ActorType (APlayer p)) with "Player". rewrite Hb, Hc. cbn. rewrite app_nil_r.
  split; [done|]. split; [done|]. split; [by destruct (Data (state c))|done].
Qed.

Lemma combat_yields p target level slain rate w c d d' b : quiet c -> ctx_id c = APlayer p -> cached rate w c -> Data (state c) = d ->
  applyReward (Reward slain level).1 (Player.scaled (Reward slain level).2 rate) d = Some (d', b) ->
  yields (Player.handleCombatResult g bs target level slain) w c ok d'
    (push_msgs d' (state_msg d' "combat") ++ brief_msgs p d' ++
     (if slain then report_msgs p d' ("击倒了 " +:+ OpenID target) else [])).
Proof.
  intros H Hp Hc Hd Ha. unfold Player.handleCombatResult. destruct (Reward slain level) as [gold exp]. cbn [fst snd] in Ha.
  eapply yields_quiet; [by apply (expRate_yields p rate _ _ d)|]. intros w1 c1 H1 E1 Ed1.
  eapply yields_quiet; [by apply (data_at _ _ _ d)|]. rewrite Ha. intros w2 c2 H2 E2 _.
  eapply yields_quiet; [by apply update_at|]. intros w3 c3 H3 E3 Ed3.
  apply told_at; [done|congruence|done|]. intros w4 c4 H4 E4 Ed4. rewrite <- (app_nil_r (if slain then _ else _)).
  apply (yields_bind _ _ _ _ tt d').
  - destruct slain; cbn [when]; [by apply report_at|by apply ret_at].
  - intros w6 c6 H6 _ Ed6. by apply ret_at.
Qed.

(** ** The exchange *)
Definition hit_of (p : PlayerId) (s : PlayerState) : req := PDamage p (Room s) (40 + 5 * (Level s - 1)).
Definition loss (attacker target : PlayerState) : Z := Z.max 1 (40 + 5 * (Level attacker - 1) - (Level target - 1)).
Definition result_of (t : PlayerId) (attacker target : PlayerState) : req :=
  PCombatResult t (Level target) (loss attacker target) (HP target <=? loss attacker target).

(** C37 An attack, from the blow to the reward, on a network that takes every message: a
    player [a] that stands and attacks [b] sends one hit, of its attack value, and
    changes nothing; [b], if it stands, loses max(1, attack - defence) points down to
    zero, answers with exactly one result, which says whether that killed, pushes its
    state and reports to its room; [a], whatever happened to it meanwhile, is paid from
    that result: 5 gold and 10 points for a hit, 20 and 40 times the level of [b] for a
    kill, the points scaled by the rate of the world, and reports a kill to its room. *)
Theorem attack_exchange Ba Bb B a b rate w ca w2 cb w3 ca3 :
  a <> b -> ctx_id ca = APlayer a -> ctx_id ca3 = APlayer a -> ctx_id cb = APlayer b -> quiet ca -> quiet cb -> quiet ca3 ->
  let sa := Data (state ca) in let sb := Data (state cb) in let sa3 := Data (state ca3) in
  player_ok Ba sa -> Ba <= limit -> 0 < HP sa -> player_ok Bb sb -> Bb <= limit -> 0 < HP sb ->
  player_ok B sa3 -> cached rate w3 ca3 -> 0 < rate <= 2 ^ 20 -> B + 40 * Level sb * 2 ^ 20 <= limit ->
  yields (player_handle g bs (PAttack b)) w ca ok sa [(APlayer b, hit_of a sa)] /\
  (let sb' := set_HP (Z.max 0 (HP sb - loss sa sb)) sb in
   yields (player_handle g bs (hit_of a sa)) w2 cb ok sb'
     ((APlayer a, result_of b sa sb) :: push_msgs sb' (state_msg sb' "damage") ++ brief_msgs b sb' ++ [])) /\
  (let kill := HP sb <=? loss sa sb in
   exists sa', yields (player_handle g bs (result_of b sa sb)) w3 ca3 ok sa'
     (push_msgs sa' (state_msg sa' "combat") ++ brief_msgs a sa' ++ (if kill then report_msgs a sa' ("击倒了 " +:+ OpenID b) else [])) /\
   Gold sa' = Gold sa3 + (if kill then 20 * Level sb else 5) /\
   total_exp sa' = total_exp sa3 + (if kill then 40 * Level sb else 10) * rate / 100).
Proof.
  intros Hab Ha Ha3 Hb Qa Qb Qa3 sa sb sa3 Oa HBa Hha Ob HBb Hhb Oa3 Hc Hrate HB.
  pose proof (level_small_ok _ _ Oa HBa) as La. pose proof (level_small_ok _ _ Ob HBb) as Lb.
  assert (1 <= Level sa) as La1 by apply Oa. assert (1 <= Level sb) as Lb1 by apply Ob.
  split; [|split].
  - cbn [player_handle]. unfold hit_of. replace (40 + 5 * (Level sa - 1)) with (atk sa) by (unfold atk; rewrite AtkOf_eq by lia; lia).
    by apply attack_yields.
  - cbn [player_handle hit_of]. pose proof (applyDamage_spec Bb sb (40 + 5 * (Level sa - 1)) Ob HBb ltac:(unfold limit; lia)) as H.
    destruct (applyDamage _ sb) as [sb' [[taken slain] counts]] eqn:E. destruct H as (_ & H1 & H2 & H3 & H4 & H5).
    assert ((0 <? HP sb) = true) as Hp by lia. rewrite Hp in *. cbn [andb] in H3. fold (loss sa sb) in H4. subst counts taken.
    assert (set_HP (Z.max 0 (HP sb - loss sa sb)) sb = sb') as -> by (rewrite H5, H2; done).
    assert (slain = (HP sb <=? loss sa sb)) as -> by (rewrite H3, H2; lia).
    unfold result_of. replace (Level sb) with (Level sb') by (rewrite H5; done). by apply (damage_yields b _ _ _ _ sb).
  - cbn [player_handle result_of]. set (kill := HP sb <=? loss sa sb).
    assert (Reward kill (Level sb) = (if kill then 20 * Level sb else 5, if kill then 40 * Level sb else 10)) as ER.
    { unfold Reward, KillReward, HitReward. destruct kill; [|done]. by rewrite !wrap64_small by lia. }
    set (n := if kill then 40 * Level sb else 10) in *.
    assert (0 <= n <= 40 * Level sb) as Hn by (unfold n; destruct kill; lia).
    assert (0 <= n * rate <= 40 * Level sb * 2 ^ 20) as Hnr by nia.
    assert (Player.scaled n rate = n * rate / 100) as Es.
    { unfold Player.scaled. rewrite wrap64_small by (unfold limit in HB; destruct Oa3; lia). by rewrite Z.quot_div_nonneg by lia. }
    assert (0 <= n * rate / 100 <= n * rate) as Hd by (split; [apply Z.div_pos; lia|apply Z.div_le_upper_bound; lia]).
    destruct (applyReward_exact B sa3 (if kill then 20 * Level sb else 5) (Player.scaled n rate) Oa3) as (sa' & E & _ & Hg & Ht & _);
      [destruct kill; lia|rewrite Es; lia|rewrite Es; destruct kill; lia|].
    exists sa'. split; [|split; [done|by rewrite Ht, Es]].
    eapply (combat_yields a b (Level sb) kill rate _ _ sa3 sa'); [done|done|done|done|]. rewrite ER. exact E.
Qed.
End traffic.

(** ** Witness: ann attacks bob, both new; the rate is 200 *)
Import MailWorld.

#[export] Instance mail_healthy : Healthy poster (fun w : W => w).
Proof. by split. Qed.

Definition rich : PlayerState := set_Vars (set (key_name World.ConfigKey) 1 (Some (mkConfig 200)) 0 ([] : W) zero_reader) newPlayer.

Lemma attack_exchange_witness :
  player_handle globals bound (PAttack (mkPlayerId "bob")) [] (context ann newPlayer) =
    ([(bob, PDamage (mkPlayerId "ann") (mkRoomId 0) 40)], (player_handle globals bound (PAttack (mkPlayerId "bob")) [] (context ann newPlayer)).1.2, Done ok) /\
  exists sa', yields (mails := fun w : W => w) (player_handle globals bound (result_of (mkPlayerId "bob") newPlayer newPlayer)) [] (context ann rich) ok sa'
      (push_msgs sa' (state_msg sa' "combat") ++ brief_msgs (mkPlayerId "ann") sa' ++ []) /\
    Gold sa' = Gold rich + 5 /\ total_exp sa' = total_exp rich + 20.
Proof.
  split; [vm_compute; reflexivity|].
  assert (player_ok 0 rich) as Hr by (eapply player_ok_same; [exact new_player_ok|reflexivity..]).
  assert (forall id s, quiet (context id s)) as Hq by (intros; split; reflexivity).
  assert (cached (Dr := unit) (UH := Empty_set) (UC := Empty_set) bound 200 ([] : W) (context ann rich)) as Hc
    by (split; [exists 0%nat; reflexivity|vm_compute; reflexivity]).
  pose proof (attack_exchange (mails := fun w : W => w) (Dr := unit) (UH := Empty_set) (UC := Empty_set) globals bound 0 0 0 (mkPlayerId "ann") (mkPlayerId "bob") 200
    [] (context ann newPlayer) [] (context bob newPlayer) [] (context ann rich) ltac:(discriminate) eq_refl eq_refl eq_refl
    (Hq _ _) (Hq _ _) (Hq _ _) new_player_ok ltac:(vm_compute; discriminate) ltac:(vm_compute; reflexivity)
    new_player_ok ltac:(vm_compute; discriminate) ltac:(vm_compute; reflexivity) Hr
    Hc ltac:(lia) ltac:(vm_compute; discriminate)) as (_ & _ & H).
  exact H.
Defined.
