(* ===== verification/GameDemo.v ===== *)
(** * The engineering example: the scripted client

    demo/demo.go of cmd/engineering_example: a script that plays two connections. It waits
    for pushed messages by polling, with a deadline; [fuel] bounds the rounds of a wait. *)

From S2P Require Import Prelude ActorTypes Runtime Rpc Store Reader Text Grain Game GameActors.

Local Open Scope string_scope.
Local Open Scope go_scope.

(** The output of the script, and its pauses: a pause ends early, with an error, when
    the context is done. *)
Class Demo (W : Type) : Type := {
  Out : string -> W -> W;
  sleep : Z -> W -> W * option error;
}.

Record conn := mkConn { c_id : ClientId; c_player : PlayerId }.

(** What a step of the script ends in: a value or an error, with the world. [None]: the
    fuel ended first. *)
Definition step (W A : Type) : Type := W -> option (flow (W * (A + error))).

Section demo.
Context {W : Type} `{!Demo W, !Clock W, !Backend W aid req rep}.

Definition then_ {A B} (m : step W A) (k : A -> step W B) : step W B := fun w =>
  match m w with
  | None => None
  | Some Crashed => Some Crashed
  | Some Blocked => Some Blocked
  | Some (Go (w1, inl x)) => k x w1
  | Some (Go (w1, inr e)) => Some (Go (w1, inr e))
  end.

Definition done_ {A} (x : A) : step W A := fun w => Some (Go (w, inl x)).
Definition fail_ {A} (e : error) : step W A := fun w => Some (Go (w, inr e)).

Local Notation "'let*' x ':=' c 'in' k" := (then_ c (fun x => k))
  (at level 10, x pattern, c at level 100, k at level 200).
Local Notation "c ;; k" := (then_ c (fun _ => k)) (at level 100, right associativity).

(** [s.printf]. *)
Definition out (s : string) : step W unit := fun w => Some (Go (Out (s +:+ newline) w, inl tt)).

(** actor.Call, its error wrapped; a nil reply crashes where it is read. *)
Definition ask {A} (to : aid) (q : req) (what : string) (read : rep -> option A) : step W A := fun w =>
  let '(w1, (reply, err)) := mgr_Call w to q in
  match err with
  | Some e => fail_ (ErrWrap (what +:+ Error e) [e]) w1
  | None => match reply ≫= read with Some x => done_ x w1 | None => Some Crashed end
  end.

(** A call whose reply is dropped. *)
Definition tell (to : aid) (q : req) (what : string) : step W unit := fun w =>
  let '(w1, (_, err)) := mgr_Call w to q in
  match err with Some e => fail_ (ErrWrap (what +:+ Error e) [e]) w1 | None => done_ tt w1 end.

(** ** Requests *)
Definition login (openID : string) : step W conn :=
  let c := mkConn (mkClientId ("conn-" +:+ openID)) (mkPlayerId openID) in
  tell (AClient (c_id c)) (CLogin openID) ("demo: 登录 " +:+ openID +:+ " 失败: ");; done_ c.

Definition name (c : conn) : string := OpenID (c_player c).

Definition status (c : conn) : step W PlayerView :=
  ask (AClient (c_id c)) CStatus ("demo: 查询 " +:+ name c +:+ " 状态失败: ")
    (fun r => match r with ViewRep v => Some v | _ => None end).

Definition drain (c : conn) : step W (list Msg) :=
  ask (AClient (c_id c)) CDrain ("demo: 取 " +:+ name c +:+ " 下行失败: ")
    (fun r => match r with DrainRep ms => Some ms | _ => None end).

(** ** Waiting *)
Definition pause (ns : Z) : step W unit := fun w =>
  match sleep ns w with (w1, Some e) => fail_ e w1 | (w1, None) => done_ tt w1 end.

(** [time.Now().After(deadline)]. *)
Definition late (deadline : Z) (w : W) : bool := (deadline <? now w)%Z.

(** The loop of [waitExpRate]. *)
Fixpoint wait_rate (fuel : nat) (c : conn) (want deadline : Z) : step W Z :=
  match fuel with
  | O => fun _ => None
  | S fuel =>
      let* view := status c in
      fun w =>
        if (pv_ExpRate view =? want)%Z || late deadline w then done_ (pv_ExpRate view) w
        else (pause (10 * Millisecond);; wait_rate fuel c want deadline) w
  end.

Definition waitExpRate (fuel : nat) (c : conn) (want : Z) : step W Z := fun w =>
  wait_rate fuel c want (now w + 2 * Second)%Z w.

(** The loop of [expect]; the messages so far are [got]. An error ends it without one. *)
Fixpoint expect_loop (fuel : nat) (c : conn) (n : nat) (deadline : Z) (got : list Msg) : step W (list Msg) :=
  match fuel with
  | O => fun _ => None
  | S fuel => fun w =>
      match drain c w with
      | None => None
      | Some Crashed => Some Crashed
      | Some Blocked => Some Blocked
      | Some (Go (w1, inr e)) => (out ("  [" +:+ name c +:+ "] " +:+ Error e);; done_ got) w1
      | Some (Go (w1, inl batch)) =>
          let got := (got ++ batch)%list in
          if (n <=? length got)%nat || late deadline w1 then done_ got w1
          else match sleep (10 * Millisecond) w1 with
               | (w2, Some _) => done_ got w2
               | (w2, None) => expect_loop fuel c n deadline got w2
               end
      end
  end.

Definition expect (fuel : nat) (c : conn) (n : nat) : step W (list Msg) := fun w =>
  expect_loop fuel c n (now w + 2 * Second)%Z [] w.

(** ** What is shown *)
Definition d (z : Z) : string := FormatInt z.

Definition describe (m : Msg) : string :=
  match m with
  | LoginOK player level hp maxhp atk gold exp room rate =>
      "首帧  " +:+ player +:+ " Lv" +:+ d level +:+ " HP " +:+ d hp +:+ "/" +:+ d maxhp +:+ " Atk " +:+ d atk +:+
      " 金币 " +:+ d gold +:+ " 经验 " +:+ d exp +:+ " 房间 " +:+ d room +:+ " 倍率 " +:+ d rate +:+ "%"
  | StateUpdate level hp maxhp gold exp reason =>
      "状态[" +:+ reason +:+ "] Lv" +:+ d level +:+ " HP " +:+ d hp +:+ "/" +:+ d maxhp +:+ " 金币 " +:+ d gold +:+ " 经验 " +:+ d exp
  | RoomEvent _ kind text => "房间[" +:+ kind +:+ "] " +:+ text
  end.

Definition show_lines (who : string) (ms : list Msg) : list string :=
  match ms with
  | [] => ["  " +:+ pad 5 who +:+ " （没有收到报文）"]
  | _ => (fun m => "  " +:+ pad 5 who +:+ " " +:+ describe m) <$> ms
  end.

Fixpoint outs (l : list string) : step W unit :=
  match l with [] => done_ tt | s :: l => out s;; outs l end.

Definition show (who : string) (ms : list Msg) : step W unit := outs (show_lines who ms).

(** ** The script

    [wait fuel who c n]: [s.show(who, s.expect(ctx, c, n))]. *)
Definition wait (fuel : nat) (who : string) (c : conn) (n : nat) : step W unit :=
  let* ms := expect fuel c n in show who ms.

Definition room3 : RoomId := mkRoomId 3.

Definition enter (c : conn) : step W unit :=
  tell (AClient (c_id c)) (CJoin room3) ("demo: " +:+ name c +:+ " 进房失败: ").

(** One round of the fight; the third one ends it, with one message more for each. *)
Definition strike (fuel : nat) (alice bob : conn) (round : Z) : step W unit :=
  tell (AClient (c_id alice)) (CAttack (c_player bob)) "demo: 攻击失败: ";;
  let n := if (round =? 3)%Z then 2%nat else 1%nat in
  out ("  第 " +:+ d round +:+ " 击");;
  wait fuel "bob" bob n;; wait fuel "alice" alice n.

Definition member_line (m : Brief) : string :=
  "  " +:+ pad 6 (br_OpenID m) +:+ " Lv" +:+ d (br_Level m) +:+ " HP " +:+ d (br_HP m).

Definition run (fuel : nat) : step W unit :=
  let* alice := login "alice" in
  let* bob := login "bob" in
  out (newline +:+ "=== 1. 登录：连接 → player，玩家回推首帧全量 ===");;
  wait fuel "alice" alice 1;; wait fuel "bob" bob 1;;
  out (newline +:+ "=== 2. 进 3 号房间：房间把成员进出广播给全体成员 ===");;
  enter alice;; enter bob;;
  wait fuel "alice" alice 3;; wait fuel "bob" bob 2;;
  out (newline +:+ "=== 3. 聊天：玩家 → 房间 → 广播回全体成员 ===");;
  tell (AClient (c_id alice)) (CSay "一会儿一起打一架？") "demo: 发言失败: ";;
  wait fuel "alice" alice 1;; wait fuel "bob" bob 1;;
  out (newline +:+ "=== 4. 开打：同组 peer 只 Post，结果靠回执 ===");;
  strike fuel alice bob 1;; strike fuel alice bob 2;; strike fuel alice bob 3;;
  let* a := status alice in
  let* b := status bob in
  out ("  结算：alice Lv" +:+ d (pv_Level a) +:+ " 金币 " +:+ d (pv_Gold a) +:+ " 经验 " +:+ d (pv_Exp a) +:+ "（击杀奖励已入账）");;
  out ("        bob   Lv" +:+ d (pv_Level b) +:+ " HP " +:+ d (pv_HP b) +:+ "/" +:+ d (pv_MaxHP b) +:+ "（已倒地，重复攻击不再结算）");;
  out (newline +:+ "=== 5. 房间缓存：房间看到的是玩家上报的摘要，不是反向查询 ===");;
  let* members := ask (ARoom room3) RStatus "demo: 查询房间失败: "
                    (fun r => match r with StatusRep _ ms => Some ms | _ => None end) in
  outs (member_line <$> members);;
  out (newline +:+ "=== 6. 热更世界配置：world 发布，玩家从容器读到新值 ===");;
  tell (AWorld TheWorld) (WSetConfig 200) "demo: 热更配置失败: ";;
  let* rate := waitExpRate fuel alice 200 in
  out ("  alice 读到的经验倍率：" +:+ d rate +:+ "%（world 没有被打扰过，读的是容器推送）");;
  out (newline +:+ "=== 完成：关闭 Manager 时 grain 会把玩家数据落盘 ===").
(** ** main.go

    [run] of main.go, after the flags: the server is set up, and closed at the end also when
    the script ended with an error. A crash of the script ends the process. *)
Definition run_server {Dr} (NewJsonDriver : string -> Dr) (call_init : W -> Setup.Server Dr -> W * option error)
    (close : W -> W) (dataDir : string) (g : storeGlobals) (bs : bindings) (fresh : binding) (fuel : nat) (w : W)
    : outcome error (option (flow (W * option error))) :=
  let! (w1, srv) := Setup.New NewJsonDriver call_init close (Setup.mkConfig dataDir "" 0) g bs fresh w in
  Ok match srv with
     | inr e => Some (Go (w1, Some e))
     | inl _ =>
         match run fuel w1 with
         | Some (Go (w2, r)) => Some (Go (close w2, match r with inl _ => None | inr e => Some e end))
         | Some Crashed => Some Crashed
         | Some Blocked => Some Blocked
         | None => None
         end
     end.

(** What [main] does with its result: the line for the standard error and the exit code. *)
Definition main_exit (err : option error) : option string * nat :=
  match err with Some e => (Some ("出错: " +:+ Error e +:+ newline), 1%nat) | None => (None, 0%nat) end.
End demo.
