(* ===== verification/GameDemoSpec.v ===== *)
(** * The scripted client ends

    Its waits poll until a deadline. They end, with 202 rounds at most, on every server,
    provided that a pause lasts as long as it was asked to. *)

From S2P Require Import Prelude ActorTypes Runtime Rpc Store Text Game GameDemo.

Local Open Scope Z_scope.

(** What the script relies on: time does not run backwards during a call, and a pause that
    was not cut short lasts. *)
Class DemoTime (W : Type) `{!Demo W, !Clock W, !Backend W aid req rep} : Prop := {
  call_time : forall (w : W) to q, now w <= now (mgr_Call w to q).1;
  sleep_time : forall (w : W) ns w', sleep ns w = (w', None) -> now w + ns <= now w';
}.

Section demo.
Context {W : Type} `{Dem : !Demo W, Clk : !Clock W, Back : !Backend W aid req rep, !DemoTime W}.

Definition ends {A} (m : step W A) : Prop := forall w, m w <> None.

Lemma ends_then {A B} (m : step W A) (k : A -> step W B) :
  ends m -> (forall x, ends (k x)) -> ends (then_ m k).
Proof. intros Hm Hk w. specialize (Hm w). unfold then_. destruct (m w) as [[[w1 [x|e]]| |]|]; try done. apply Hk. Qed.

Lemma ends_tell to q what : ends (tell to q what).
Proof. intros w. unfold tell. destruct (mgr_Call w to q) as [w1 [r [e|]]]; done. Qed.

Lemma ends_ask {A} to q what (read : rep -> option A) : ends (ask to q what read).
Proof. intros w. unfold ask. destruct (mgr_Call w to q) as [w1 [r [e|]]]; [done|]. by destruct (r ≫= read). Qed.

Lemma ends_out s : ends (out s).
Proof. done. Qed.

Lemma ends_done {A} (x : A) : ends (done_ x).
Proof. done. Qed.

Lemma ends_outs l : ends (outs l).
Proof. induction l; [apply ends_done|]. by apply ends_then; [apply ends_out|]. Qed.

(** A call that gives a value took its time. *)
Lemma ask_time {A} to q what (read : rep -> option A) w w' r :
  ask to q what read w = Some (Go (w', r)) -> now w <= now w'.
Proof.
  unfold ask. pose proof (call_time w to q) as T. destruct (mgr_Call w to q) as [w1 [rp [e|]]]; simpl in T.
  - by intros [= <- <-].
  - destruct (rp ≫= read); [by intros [= <- <-] | done].
Qed.

(** One more round brings the deadline ten milliseconds nearer. *)
Lemma round_nearer deadline (w w1 w2 : W) f :
  now w <= now w1 -> late deadline w1 = false -> now w1 + 10 * Millisecond <= now w2 ->
  deadline - now w < 10 * Millisecond * Z.of_nat f ->
  exists f', f = S f' /\ deadline - now w2 < 10 * Millisecond * Z.of_nat f'.
Proof.
  unfold late. rewrite Z.ltb_ge. intros H1 H2 H3 H4. unfold Millisecond in *.
  destruct f as [|f]; [lia|]. exists f. split; [done|]. lia.
Qed.

Lemma wait_rate_ends c want deadline f w :
  deadline - now w < 10 * Millisecond * Z.of_nat f -> wait_rate (S f) c want deadline w <> None.
Proof.
  revert w. induction f as [|f IH]; intros w H; remember (S _) as k eqn:Ek; rewrite Ek at 1; subst k; simpl; unfold then_ at 1.
  all: pose proof (ends_ask (AClient (c_id c)) CStatus ("demo: 查询 " +:+ name c +:+ " 状态失败: ")
    (fun r => match r with ViewRep v => Some v | _ => None end) w) as HE; fold (status c) in HE.
  all: destruct (status c w) as [[[w1 [v|e]]| |]|] eqn:Es; try done; clear HE.
  all: apply ask_time in Es; destruct ((_ =? _) || late deadline w1) eqn:El; [done|]; apply orb_false_iff in El as [_ El].
  all: unfold then_, pause; destruct (sleep _ w1) as [w2 [e|]] eqn:Esl; [done|]; apply sleep_time in Esl.
  - destruct (round_nearer deadline w w1 w2 0) as (? & ? & ?); done.
  - destruct (round_nearer deadline w w1 w2 (S f)) as (f' & [= <-] & Hf); try done. by apply IH.
Qed.

Lemma waitExpRate_ends c want : ends (waitExpRate 202 c want).
Proof. intros w. apply wait_rate_ends. unfold Second, Millisecond. lia. Qed.

(** What a wait for [n] messages comes to: no result for a reply that is missing, else the
    messages; too few only when a drain or a pause failed or the deadline is over. *)
Definition waited (n : nat) (deadline : Z) (o : option (flow (W * (list Msg + error)))) : Prop :=
  match o with
  | Some (Go (w', inl got)) =>
      (n <= length got)%nat \/ deadline < now w'
      \/ (exists w1 to q, is_Some (mgr_Call w1 to q).2.2) \/ (exists w1 ns, is_Some (sleep ns w1).2)
  | Some (Go (_, inr _)) | Some Blocked | None => False
  | Some Crashed => True
  end.

Lemma drain_error c w w' e : drain c w = Some (Go (w', inr e)) -> is_Some (mgr_Call w (AClient (c_id c)) CDrain).2.2.
Proof.
  unfold drain, ask. destruct (mgr_Call _ _ _) as [w1 [rp [e'|]]]; simpl; [by eexists|].
  by destruct (rp ≫= _).
Qed.

Lemma expect_loop_waits c n deadline f got w :
  deadline - now w < 10 * Millisecond * Z.of_nat f ->
  waited n deadline (expect_loop (S f) c n deadline got w).
Proof.
  revert got w. induction f as [|f IH]; intros got w H; remember (S _) as k eqn:Ek; rewrite Ek; subst k; cbn [expect_loop].
  all: destruct (drain c w) as [[[w1 [batch|e]]| |]|] eqn:Ed.
  all: try (by unfold drain, ask in Ed; destruct (mgr_Call _ _ _) as [? [rp [?|]]]; [|destruct (rp ≫= _)]).
  all: try (simpl; right; right; left; eexists _, _, _; exact (drain_error c w _ _ Ed)).
  all: apply ask_time in Ed; destruct (n <=? length (got ++ batch))%nat eqn:En; [simpl; left; by apply Nat.leb_le|].
  all: destruct (late deadline w1) eqn:El; [simpl; right; left; by apply Z.ltb_lt|]; simpl.
  all: destruct (sleep _ w1) as [w2 [e|]] eqn:Esl;
    [right; right; right; exists w1, (10 * Millisecond); by rewrite Esl|]; apply sleep_time in Esl.
  - destruct (round_nearer deadline w w1 w2 0) as (? & ? & ?); done.
  - destruct (round_nearer deadline w w1 w2 (S f)) as (f' & [= <-] & Hf); try done. by apply IH.
Qed.

(** A wait with 202 rounds ends, and what it ends with. *)
Theorem expect_waits c n w : waited n (now w + 2 * Second) (expect 202 c n w).
Proof. apply expect_loop_waits. unfold Second, Millisecond. lia. Qed.

Lemma wait_ends who c n : ends (wait 202 who c n).
Proof.
  apply ends_then; [|intros; apply ends_outs]. intros w E. pose proof (expect_waits c n w) as H. by rewrite E in H.
Qed.

Lemma status_ends c : ends (status c).
Proof. apply ends_ask. Qed.

Lemma enter_ends c : ends (enter c).
Proof. apply ends_tell. Qed.

Create HintDb demo.
#[local] Hint Resolve ends_then ends_tell ends_ask ends_out ends_done ends_outs wait_ends waitExpRate_ends status_ends enter_ends : demo.

Ltac walk := repeat (apply ends_then; [solve [auto with demo]|intros]); auto with demo.

Lemma strike_ends a b r : ends (strike 202 a b r).
Proof. unfold strike. walk. Qed.
#[local] Hint Resolve strike_ends : demo.

Lemma login_ends o : ends (login o).
Proof. unfold login. walk. Qed.
#[local] Hint Resolve login_ends : demo.

(** C40 The scripted client ends on every server: with 202 rounds for each wait the script
    comes to a value, to an error or to a crash on a missing reply, whatever its calls
    answer, when they do not turn time back and a pause that was not cut short lasts. *)
Theorem script_ends (w : W) : exists r, run 202 w = Some r.
Proof.
  enough (ends (run 202)) as H. { specialize (H w). destruct (run 202 w); [by eexists|done]. }
  unfold run. walk.
Qed.
End demo.

(** ** A server that is never ready

    It accepts every call and pushes nothing: each wait runs into its deadline. *)
Module GameDemoWitness.
Record world := mkWorld { time : Z; printed : nat }.

#[local] Instance demo_inst : Demo world := {
  Out := fun _ w => mkWorld (time w) (S (printed w));
  sleep := fun ns w => (mkWorld (time w + Z.max 0 ns) (printed w), None) }.
#[local] Instance clock_inst : Clock world := time.
#[local] Instance backend_inst : Backend world aid req rep := {
  mgr_Post := fun w _ _ => (w, None);
  mgr_Call := fun w _ q => (w, (match q with
      | CDrain => Some (DrainRep [])
      | CStatus => Some (ViewRep (mkView "" 1 100 100 10 0 0 3 100))
      | RStatus => Some (StatusRep 3 [])
      | _ => Some OkRep end, None));
  mgr_Broadcast := fun w _ => (w, (0%nat, None));
  mgr_Multicast := fun w _ _ => (w, ([], None)) }.
#[local] Instance time_inst : DemoTime world.
Proof.
  split.
  - intros. simpl. lia.
  - intros w ns w' [= <-]. unfold now, clock_inst. simpl. lia.
Qed.

(** Twelve waits for messages and one for the rate, two seconds and one pause each. *)
Lemma script_ends_witness :
  (exists r, run 202 (mkWorld 0 0) = Some r) /\
  run 202 (mkWorld 0 0) = Some (Go (mkWorld (13 * (2 * Second + 10 * Millisecond)) 25, inl tt)).
Proof. split; [apply (script_ends (mkWorld 0 0)) | vm_compute; reflexivity]. Defined.
End GameDemoWitness.
