(* ===== verification/JsonRpc.v ===== *)
(** * Remote calls: the JSON codec and transport

    rpc/json.go on the document trees of encoding/json: the structs of the envelope and of
    the answer with their tags, written and read back field by field. The class [JsonText]
    is the package's text: trees to bytes and back; [LoggerSpec] has the trees. *)

From S2P Require Import Prelude ActorTypes Registry Rpc LoggerSpec.

Local Open Scope string_scope.

(** A [json.RawMessage]: nil, or the text of a document, taken as its tree. *)
Definition raw : Type := option json.

(** The text of a document ([json.Marshal] of a tree, compact), the document of a text
    ([None]: not one), the case folding of field names, and the errors [json.Unmarshal]
    answers for bytes that are no document and for a value that does not fit a field. *)
Class JsonText : Type := {
  doc_text : json -> string;
  doc_of : string -> option json;
  fold_name : string -> string;
  syntax_error : string -> error;
  type_error : string -> json -> error;
}.

Section json.
Context {JT : JsonText}.

(** ** Fields

    Reading a value into a field: the value of the field afterwards, and whether it fits.
    null leaves a field of a type without a method of its own as it is. *)
Definition read_string (j : json) (old : string) : string * bool :=
  match j with JStr s => (s, true) | JNull => (old, true) | _ => (old, false) end.

(** [strconv.ParseUint] with 64 bits on the text of a number. *)
Definition read_uint64 (j : json) (old : Z) : Z * bool :=
  match j with
  | JNum t =>
      match (if all_digits t then ParseInt t else None) with
      | Some z => if (z <? 2 ^ 64)%Z then (z, true) else (old, false)
      | None => (old, false)
      end
  | JNull => (old, true)
  | _ => (old, false)
  end.

(** A RawMessage takes any value, null too. *)
Definition read_raw (j : json) : raw := Some j.

Definition read_raws (j : json) (old : list raw) : list raw * bool :=
  match j with JArr l => (read_raw <$> l, true) | JNull => ([], true) | _ => (old, false) end.

(** The field a key is for: the one of that name, or else the first that folds alike. *)
Definition field_of (names : list string) (key : string) : option string :=
  if bool_decide (key ∈ names) then Some key
  else head (filter (fun n => fold_name n = fold_name key) names).

(** Reading an object into a struct of type [St]: [put] reads one field; the first error is
    kept, and the rest is read all the same. *)
Section object.
Context {St : Type} (names : list string) (put : string -> json -> St -> St * bool).

Fixpoint read_members (ms : list (string * json)) (s : St) (err : option error) : St * option error :=
  match ms with
  | [] => (s, err)
  | (key, j) :: ms =>
      match field_of names key with
      | None => read_members ms s err
      | Some name =>
          let '(s1, fits) := put name j s in
          read_members ms s1 (match err with Some e => Some e | None => if fits then None else Some (type_error name j) end)
      end
  end.

Definition Unmarshal (zero : St) (data : string) : St * option error :=
  match doc_of data with
  | None => (zero, Some (syntax_error data))
  | Some (JObj ms) => read_members ms zero None
  | Some JNull => (zero, None)
  | Some j => (zero, Some (type_error "" j))
  end.
End object.

(** ** The envelope: [jsonMessage] *)
Abbreviation jsonMessage := (envelope raw).

Definition message_names : list string := ["seq"; "method"; "actorType"; "reqType"; "actorId"; "targets"; "req"].
Definition zero_message : jsonMessage := mkEnvelope 0 "" "" "" None [] None.

Definition put_message (name : string) (j : json) (v : jsonMessage) : jsonMessage * bool :=
  let '(mkEnvelope seq method actorType reqType idM idsM reqM) := v in
  if String.eqb name "seq" then
    let '(x, f) := read_uint64 j seq in (mkEnvelope x method actorType reqType idM idsM reqM, f)
  else if String.eqb name "method" then
    let '(x, f) := read_string j method in (mkEnvelope seq x actorType reqType idM idsM reqM, f)
  else if String.eqb name "actorType" then
    let '(x, f) := read_string j actorType in (mkEnvelope seq method x reqType idM idsM reqM, f)
  else if String.eqb name "reqType" then
    let '(x, f) := read_string j reqType in (mkEnvelope seq method actorType x idM idsM reqM, f)
  else if String.eqb name "actorId" then (mkEnvelope seq method actorType reqType (read_raw j) idsM reqM, true)
  else if String.eqb name "targets" then
    let '(x, f) := read_raws j idsM in (mkEnvelope seq method actorType reqType idM x reqM, f)
  else (mkEnvelope seq method actorType reqType idM idsM (read_raw j), true).

(** A nil RawMessage is written as null; [omitempty] leaves the zero value out. *)
Definition raw_doc (m : raw) : json := default JNull m.
Definition omit (zero : bool) (key : string) (j : json) : list (string * json) := if zero then [] else [(key, j)].

Definition message_members (v : jsonMessage) : list (string * json) :=
       (omit (v_seq v =? 0)%Z "seq" (JNum (FormatInt (v_seq v))) ++
        [("method", JStr (v_method v))] ++
        omit (String.eqb (v_actorType v) "") "actorType" (JStr (v_actorType v)) ++
        [("reqType", JStr (v_reqType v))] ++
        omit (match v_idM v with None => true | Some _ => false end) "actorId" (raw_doc (v_idM v)) ++
        omit (match v_idsM v with [] => true | _ => false end) "targets" (JArr (raw_doc <$> v_idsM v)) ++
        [("req", raw_doc (v_reqM v))])%list.
Definition message_doc (v : jsonMessage) : json := JObj (message_members v).

(** ** The answer: [jsonResponse] *)
Definition response_names : list string := ["seq"; "reply"; "error"].

Definition put_response (name : string) (j : json) (v : Z * raw * string) : Z * raw * string * bool :=
  let '(seq, rep, err) := v in
  if String.eqb name "seq" then let '(x, f) := read_uint64 j seq in (x, rep, err, f)
  else if String.eqb name "reply" then (seq, read_raw j, err, true)
  else let '(x, f) := read_string j err in (seq, rep, x, f).

Definition response_members (seq : Z) (rep : raw) (err : string) : list (string * json) :=
       ([("seq", JNum (FormatInt seq))] ++
        omit (match rep with None => true | Some _ => false end) "reply" (raw_doc rep) ++
        omit (String.eqb err "") "error" (JStr err))%list.
Definition response_doc (seq : Z) (rep : raw) (err : string) : json := JObj (response_members seq rep err).

(** ** [JsonTransport] *)
#[export] Instance JsonTransport : Transport raw := {|
  EncodeReq v := Ok (doc_text (message_doc v));
  DecodeReq data :=
    match Unmarshal message_names put_message zero_message data with
    | (v, None) => Ok v
    | (_, Some e) => Err e
    end;
  EncodeRep seq m err := Ok (doc_text (response_doc seq m err));
  DecodeRep data :=
    match Unmarshal response_names put_response (0%Z, None, "") data with
    | (r, None) => Ok r
    | (_, Some e) => Err e
    end;
|}.
End json.

(** ** [JsonCodec]

    [json.Marshal] and [json.Unmarshal] at the types of the program: the document of a
    value and reading a document into a zero value. Unmarshalling the nil RawMessage is an
    error, which [nil_doc] is. *)
Class JsonValue (T I U R : Type) : Type := {
  id_doc : I -> json + error;
  req_doc : U -> json + error;
  rep_doc : option R -> json + error;
  doc_id : T -> json -> I + error;
  doc_req : T -> json -> U + error;
  doc_rep : T -> json -> R + error;
  nil_doc : error;
}.

Definition of_sum {X} (x : X + error) : outcome error X := match x with inl x => Ok x | inr e => Err e end.

Section codec.
Context {T I U R : Type} `{!JsonValue T I U R}.

Definition Encode (x : json + error) : outcome error raw := of_sum (match x with inl j => inl (Some j) | inr e => inr e end).
Definition Decode {X} (of_doc : json -> X + error) (m : raw) : outcome error X :=
  of_sum (match m with Some j => of_doc j | None => inr (nil_doc (I := I)) end).

#[export] Instance JsonCodec : Codec raw T I U R := {|
  nil_M := None;
  Encode_id i := Encode (id_doc i);
  Encode_req q := Encode (req_doc q);
  Encode_rep r := Encode (rep_doc r);
  Decode_id t := Decode (doc_id t);
  Decode_req t := Decode (doc_req t);
  Decode_rep t := Decode (doc_rep t);
|}.
End codec.
