(* ===== verification/JsonRpcSpec.v ===== *)
(** * Theorems on the JSON transport

    What one node writes is what the other reads, field by field; the transport and the
    codec satisfy what the theorems on remote calls ask of them. *)

From Stdlib Require Import Ascii.
From S2P Require Import Prelude ActorTypes Registry Runtime Rpc RpcSpec Logger LoggerSpec JsonRpc.

Local Open Scope string_scope.

(** ** The text of documents *)

(** Documents that text carries without loss: strings that are UTF-8, numerals. *)
Section ok.
Context (utf8 : string -> Prop).

Fixpoint doc_ok (j : json) : Prop :=
  match j with
  | JNull | JBool _ => True
  | JNum t => is_number t = true
  | JStr s => utf8 s
  | JArr l => (fix all (l : list json) : Prop := match l with [] => True | j :: l => doc_ok j /\ all l end) l
  | JObj l => (fix all (l : list (string * json)) : Prop :=
                 match l with [] => True | (k, j) :: l => utf8 k /\ doc_ok j /\ all l end) l
  end.

Lemma doc_ok_arr l : doc_ok (JArr l) <-> Forall doc_ok l.
Proof. induction l as [|j l IH]; [done|]. rewrite Forall_cons, <- IH. done. Qed.

Lemma doc_ok_obj l : doc_ok (JObj l) <-> Forall (fun kj => utf8 kj.1 /\ doc_ok kj.2) l.
Proof. induction l as [|[k j] l IH]; [done|]. rewrite Forall_cons, <- IH. cbn. tauto. Qed.
End ok.

(** Reading undoes writing; the names of the fields are ASCII. *)
Class JsonTextLaws `{!JsonText} : Type := {
  utf8 : string -> Prop;
  utf8_call : utf8 "call";
  utf8_names : Forall utf8 (message_names ++ response_names);
  doc_of_text : forall j, doc_ok utf8 j -> doc_of (doc_text j) = Some j;
}.

Section transport.
Context {JT : JsonText} {JL : JsonTextLaws}.

Lemma names_utf8 n : n ∈ (message_names ++ response_names)%list -> utf8 n.
Proof. intros H. exact (proj1 (Forall_forall _ _) utf8_names n H). Qed.

(** The messages that can be sent: none, or one of a document that text carries. *)
Definition raw_ok (m : raw) : Prop := match m with Some j => doc_ok utf8 j | None => True end.
Definition is_doc (m : raw) : Prop := match m with Some j => doc_ok utf8 j | None => False end.

Lemma raw_doc_ok m : raw_ok m -> doc_ok utf8 (raw_doc m).
Proof. by destruct m. Qed.

(** A field name is one of those of its struct. *)
Ltac a_name := unfold message_names, response_names; repeat constructor.

(** ** Reading the fields *)
Lemma digits_FormatInt z : (0 <= z)%Z -> all_digits (FormatInt z) = true.
Proof.
  intros Hz. unfold FormatInt. destruct z as [|p|p]; [done| |lia].
  change (DecimalString.NilZero.string_of_int (Z.to_int (Z.pos p))) with (DecimalString.NilZero.string_of_uint (Pos.to_uint p)).
  unfold DecimalString.NilZero.string_of_uint. destruct (Pos.to_uint p) eqn:E; [done|rewrite <- E; apply uint_digits..].
Qed.

Lemma read_seq z old : (0 <= z < 2 ^ 64)%Z -> read_uint64 (JNum (FormatInt z)) old = (z, true).
Proof.
  intros Hz. unfold read_uint64. rewrite digits_FormatInt by lia. rewrite ParseInt_FormatInt.
  destruct (Z.ltb_spec z (2 ^ 64)); [done|lia].
Qed.

(** A member that [omitempty] may have left out. *)
Lemma read_omit {St} names put zero key j ms (s s' : St) :
  key ∈ names -> (if zero : bool then s' = s else put key j s = (s', true)) ->
  read_members names put (omit zero key j ++ ms)%list s None = read_members names put ms s' None.
Proof.
  intros Hk H. destruct zero; cbn [omit app]; [by subst|]. cbn [read_members]. unfold field_of.
  rewrite bool_decide_true by done. by rewrite H.
Qed.

Lemma read_there {St} names put key j ms (s s' : St) :
  key ∈ names -> put key j s = (s', true) ->
  read_members names put ((key, j) :: ms) s None = read_members names put ms s' None.
Proof. intros Hk H. cbn [read_members]. unfold field_of. rewrite bool_decide_true by done. by rewrite H. Qed.

(** What arrives of an envelope: a nil request, or a nil target, as null. *)
Definition arrived (v : envelope raw) : envelope raw :=
  mkEnvelope (v_seq v) (v_method v) (v_actorType v) (v_reqType v) (v_idM v)
    ((fun m => Some (raw_doc m)) <$> v_idsM v) (Some (raw_doc (v_reqM v))).

Lemma message_read v : (0 <= v_seq v < 2 ^ 64)%Z ->
  read_members message_names put_message (message_members v) zero_message None = (arrived v, None).
Proof.
  intros Hseq. destruct v as [seq method aty rty idM idsM reqM]. unfold message_members. cbn [v_seq v_method v_actorType v_reqType v_idM v_idsM v_reqM] in *.
  rewrite (read_omit _ _ _ _ _ _ _ (@mkEnvelope raw seq "" "" "" None [] None)).
  2: a_name.
  2: { destruct (Z.eqb_spec seq 0) as [->|]; [done|]. unfold put_message, zero_message. cbn [String.eqb]. change (String.eqb "seq" "seq") with true. cbn iota. by rewrite read_seq. }
  cbn [app].
  rewrite (read_there _ _ _ _ _ _ (@mkEnvelope raw seq method "" "" None [] None)); [|a_name|done].
  rewrite (read_omit _ _ _ _ _ _ _ (@mkEnvelope raw seq method aty "" None [] None)); [|a_name|by destruct (String.eqb_spec aty "") as [->|]].
  cbn [app].
  rewrite (read_there _ _ _ _ _ _ (@mkEnvelope raw seq method aty rty None [] None)); [|a_name|done].
  rewrite (read_omit _ _ _ _ _ _ _ (@mkEnvelope raw seq method aty rty idM [] None)); [|a_name|by destruct idM].
  rewrite (read_omit _ _ _ _ _ _ _ (@mkEnvelope raw seq method aty rty idM ((fun m => Some (raw_doc m)) <$> idsM) None)); [|a_name|].
  2: { destruct idsM as [|m ms]; [done|]. unfold put_message. cbn. rewrite <- list_fmap_compose. done. }
  rewrite (read_there _ _ _ _ _ _ (arrived (@mkEnvelope raw seq method aty rty idM idsM reqM))); [done|a_name|done].
Qed.

Lemma response_read seq rep err : (0 <= seq < 2 ^ 64)%Z ->
  read_members response_names put_response (response_members seq rep err) (0%Z, None, "") None = ((seq, rep, err), None).
Proof.
  intros Hseq. unfold response_members. cbn [app].
  rewrite (read_there _ _ _ _ _ _ ((seq, None, "") : Z * raw * string)); [|a_name|].
  2: { unfold put_response. change (String.eqb "seq" "seq") with true. cbn iota. by rewrite read_seq. }
  rewrite (read_omit _ _ _ _ _ _ _ ((seq, rep, "") : Z * raw * string)); [|a_name|by destruct rep].
  rewrite <- (app_nil_r (omit _ "error" _)).
  rewrite (read_omit _ _ _ _ _ _ _ ((seq, rep, err) : Z * raw * string)); [done|a_name|by destruct (String.eqb_spec err "") as [->|]].
Qed.

(** ** The documents are texts *)
Lemma omit_ok zero key j : utf8 key -> (zero = false -> doc_ok utf8 j) ->
  Forall (fun kj => utf8 kj.1 /\ doc_ok utf8 kj.2) (omit zero key j).
Proof. intros Hk Hj. destruct zero; [constructor|]. repeat constructor; [done|by apply Hj]. Qed.

Lemma message_ok v : utf8 (v_method v) -> utf8 (v_actorType v) -> utf8 (v_reqType v) ->
  raw_ok (v_idM v) -> Forall raw_ok (v_idsM v) -> raw_ok (v_reqM v) -> doc_ok utf8 (message_doc v).
Proof.
  intros Hm Ha Hr Hi Hs Hq. apply doc_ok_obj. unfold message_members.
  assert (forall n, n ∈ message_names -> utf8 n) as Hn by (intros n H; apply names_utf8, elem_of_app; by left).
  rewrite !Forall_app. repeat split; try (apply omit_ok; [apply Hn; a_name|intros _]);
    try (repeat constructor; cbn [fst snd]; [apply Hn; a_name|done]).
  - apply is_number_FormatInt.
  - done.
  - by apply raw_doc_ok.
  - apply doc_ok_arr, Forall_fmap. eapply Forall_impl; [exact Hs|]. intros m H. by apply raw_doc_ok.
  - repeat constructor; cbn [fst snd]; [apply Hn; a_name|by apply raw_doc_ok].
Qed.

Lemma response_ok seq rep err : raw_ok rep -> utf8 err -> doc_ok utf8 (response_doc seq rep err).
Proof.
  intros Hr He. apply doc_ok_obj. unfold response_members.
  assert (forall n, n ∈ response_names -> utf8 n) as Hn by (intros n H; apply names_utf8, elem_of_app; by right).
  rewrite !Forall_app. repeat split; try (apply omit_ok; [apply Hn; a_name|intros _]).
  - repeat constructor; cbn [fst snd]; [apply Hn; a_name|apply is_number_FormatInt].
  - by apply raw_doc_ok.
  - done.
Qed.

(** C30 What one node writes is what the other reads: of an envelope whose texts are UTF-8
    every field arrives, whichever of them are left out because they are zero (a nil
    request arrives as null, and so does a nil target), and of an answer the number, the
    reply, nil or not, and the error text. *)
Theorem json_transport v seq rep err :
  (0 <= v_seq v < 2 ^ 64)%Z -> utf8 (v_method v) -> utf8 (v_actorType v) -> utf8 (v_reqType v) ->
  raw_ok (v_idM v) -> Forall raw_ok (v_idsM v) -> raw_ok (v_reqM v) ->
  (0 <= seq < 2 ^ 64)%Z -> raw_ok rep -> utf8 err ->
  (exists data, EncodeReq v = Ok data /\ DecodeReq data = Ok (arrived v)) /\
  (exists data, EncodeRep seq rep err = Ok data /\ DecodeRep (M := raw) data = Ok (seq, rep, err)).
Proof.
  intros H1 H2 H3 H4 H5 H6 H7 G1 G2 G3. split; eexists; (split; [reflexivity|]).
  - cbn [DecodeReq JsonTransport]. unfold Unmarshal. rewrite doc_of_text by (by apply message_ok).
    unfold message_doc. by rewrite message_read.
  - cbn [DecodeRep JsonTransport]. unfold Unmarshal. rewrite doc_of_text by (by apply response_ok).
    unfold response_doc. by rewrite response_read.
Qed.

(** ** What the theorems on remote calls ask for *)
Lemma arrived_docs v : Forall is_doc (v_idsM v) -> is_doc (v_reqM v) -> arrived v = v.
Proof.
  intros Hs Hq. destruct v as [seq method aty rty idM idsM reqM]. unfold arrived. cbn in *. f_equal; [|by destruct reqM].
  induction Hs as [|m l Hm _ IH]; [done|]. rewrite fmap_cons, IH. by destruct m.
Qed.

#[export] Instance json_transport_laws : TransportLaws raw.
Proof.
  refine {| msg_ok := is_doc; rep_ok := raw_ok; text_ok := utf8; call_ok := utf8_call |}.
  - intros v data H1 H2 H3 H4 H5 H6 H7 [= <-]. cbn [DecodeReq JsonTransport]. unfold Unmarshal.
    assert (forall m, is_doc m -> raw_ok m) as Hd by (by intros []).
    rewrite doc_of_text.
    + unfold message_doc. rewrite message_read by done. by rewrite arrived_docs.
    + apply message_ok; auto. eapply Forall_impl; [exact H6|exact Hd].
  - intros seq m e data H1 H2 H3 [= <-]. cbn [DecodeRep JsonTransport]. unfold Unmarshal.
    rewrite doc_of_text by (by apply response_ok). unfold response_doc. by rewrite response_read.
Defined.

(** The values of a program that json writes and reads back. *)
Class JsonValueLaws (T I U R : Type) `{!ActorId I, !Requests T U I, !JsonValue T I U R} : Prop := {
  id_doc_roundtrip : forall t id j, id_doc id = inl j -> doc_id t j = inl id;
  id_doc_ok : forall id j, id_doc id = inl j -> doc_ok utf8 j;
  req_doc_roundtrip : forall q j, req_doc q = inl j -> doc_req (user_type q) j = inl q /\ doc_ok utf8 j;
  rep_doc_roundtrip : forall t r j, rep_doc (Some r) = inl j -> doc_rep t j = inl r;
  rep_doc_ok : forall r j, rep_doc r = inl j -> doc_ok utf8 j;
}.

Lemma Encode_inv x m : Encode x = Ok m -> exists j, x = inl j /\ m = Some j.
Proof. unfold Encode, of_sum. destruct x as [j|e]; [|done]. intros [= <-]. by exists j. Qed.

#[export] Instance json_codec_laws {T I U R : Type} `{!ActorId I, !Requests T U I, !JsonValue T I U R, !JsonValueLaws T I U R} :
  CodecLaws raw T I U R.
Proof.
  split; cbn; unfold Decode, of_sum.
  - intros t i m H. apply Encode_inv in H as (j & E & ->). by rewrite (id_doc_roundtrip t i j E).
  - intros q m H. apply Encode_inv in H as (j & E & ->). by destruct (req_doc_roundtrip q j E) as [-> _].
  - intros t r m H. apply Encode_inv in H as (j & E & ->). by rewrite (rep_doc_roundtrip t r j E).
  - intros i m H. apply Encode_inv in H as (j & E & ->). by apply (id_doc_ok i).
  - intros q m H. apply Encode_inv in H as (j & E & ->). by destruct (req_doc_roundtrip q j E) as [_ ?].
  - intros r m H. apply Encode_inv in H as (j & E & ->). by apply (rep_doc_ok r).
  - done.
Qed.
End transport.

(** ** JSON text: a printer, read back by the reader of LoggerSpec *)
Module JsonWitness.
Fixpoint print (j : json) : string :=
  match j with
  | JNull => "null"
  | JBool b => FormatBool b
  | JNum t => t
  | JStr s => quoted (escapeString s)
  | JArr l => "[" +:+ join (map print l) +:+ "]"
  | JObj l => "{" +:+ join (map (fun '(k, j) => member (escapeString k, print j)) l) +:+ "}"
  end.

Fixpoint size (j : json) : nat :=
  match j with
  | JArr l => S (list_sum (map (fun j => S (size j)) l))
  | JObj l => S (list_sum (map (fun '(_, j) => S (size j)) l))
  | _ => 1
  end.

Lemma json_ind' (P : json -> Prop) :
  P JNull -> (forall b, P (JBool b)) -> (forall t, P (JNum t)) -> (forall s, P (JStr s)) ->
  (forall l, Forall P l -> P (JArr l)) -> (forall l, Forall (fun kj => P kj.2) l -> P (JObj l)) -> forall j, P j.
Proof.
  intros H1 H2 H3 H4 H5 H6. fix IH 1. intros [| | | |l|l]; [done|done|done|done| |].
  - apply H5. induction l as [|j l IHl]; constructor; [apply IH|done].
  - apply H6. induction l as [|[k j] l IHl]; constructor; [apply IH|done].
Qed.

Lemma size_pos j : 1 <= size j.
Proof. destruct j; simpl; lia. Qed.

Definition as_item (j : json) : item := mkItem (print j) j (size j).
Definition as_keyed (kj : string * json) : keyed := mkKeyed (escapeString kj.1) kj.1 (as_item kj.2).

Lemma print_reads j : doc_ok (fun _ => True) j -> reads (size j) (print j) j.
Proof.
  induction j as [|b|t|s|l IH|l IH] using json_ind'; intros Hok.
  - intros n t Hn _. destruct n as [|n]; [simpl in Hn; lia|done].
  - apply bool_reads.
  - by apply number_reads.
  - apply string_reads. intros r. apply parse_escape.
  - apply doc_ok_arr in Hok. assert (Forall item_reads (map as_item l)) as Hl.
    { apply Forall_fmap. induction IH as [|j l Hj _ IHl]; [done|]. apply Forall_cons in Hok as [Ho Hok].
      constructor; [exact (Hj Ho)|by apply IHl]. }
    pose proof (array_reads (map as_item l) Hl) as H. rewrite !map_map in H. cbn [i_text i_json i_fuel as_item] in H.
    rewrite map_id in H. apply H. apply Forall_fmap, Forall_true. intros j. apply size_pos.
  - apply doc_ok_obj in Hok. assert (Forall keyed_reads (map as_keyed l)) as Hl.
    { apply Forall_fmap. induction IH as [|[k j] l Hj _ IHl]; [done|]. apply Forall_cons in Hok as [[_ Ho] Hok].
      constructor; [|by apply IHl]. split; [intros r; apply parse_escape|exact (Hj Ho)]. }
    pose proof (object_reads (map as_keyed l) Hl) as H. rewrite !map_map in H.
    cbn [i_text i_json i_fuel as_item k_item k_name as_keyed] in H. cbn [print size].
    assert (map (fun kj => (kj.1, kj.2)) l = l) as E1 by (transitivity (map id l); [apply map_ext; by intros []|apply map_id]).
    assert (map (fun kj => keyed_text (as_keyed kj)) l = map (fun '(k, j) => member (escapeString k, print j)) l) as E2
      by (apply map_ext; by intros []).
    assert (map (fun kj : string * json => S (size kj.2)) l = map (fun '(_, j) => S (size j)) l) as E3 by (apply map_ext; by intros []).
    by rewrite E1, E2, E3 in H.
Qed.

Lemma length_append a b : String.length (a +:+ b) = String.length a + String.length b.
Proof. induction a as [|c a IH]; [done|]. exact (f_equal S IH). Qed.

(** The items of a list and the commas between them. *)
Lemma join_length l : l <> [] -> list_sum (map (fun x => S (String.length x)) l) = S (String.length (join l)).
Proof.
  induction l as [|x [|y l] IH]; intros Hne; [done| |].
  - cbn [map]. rewrite list_sum_cons. change (join [x]) with (x +:+ ""). rewrite length_append. simpl. lia.
  - cbn [map]. rewrite list_sum_cons. change (join (x :: y :: l)) with (x +:+ "," +:+ join (y :: l)).
    rewrite !length_append. specialize (IH ltac:(done)). cbn [map] in IH. rewrite IH. simpl. lia.
Qed.

Lemma list_sum_le {A} (f h : A -> nat) l : Forall (fun x => f x <= h x) l -> list_sum (map f l) <= list_sum (map h l).
Proof. induction 1 as [|x l Hx _ IH]; [done|]. cbn [map]. rewrite !list_sum_cons. lia. Qed.

Lemma number_not_empty t : is_number t = true -> 1 <= String.length t.
Proof. destruct t; [done|]. simpl. lia. Qed.

Lemma size_length j : doc_ok (fun _ => True) j -> size j <= String.length (print j).
Proof.
  induction j as [|b|t|s|l IH|l IH] using json_ind'; intros Hok; cbn [size print].
  - simpl. lia.
  - destruct b; simpl; lia.
  - by apply number_not_empty.
  - unfold quoted. rewrite length_append. simpl. lia.
  - apply doc_ok_arr in Hok. rewrite !length_append. destruct l as [|j l]; [simpl; lia|].
    pose proof (join_length (map print (j :: l)) ltac:(done)) as H. rewrite map_map in H.
    assert (list_sum (map (fun j => S (size j)) (j :: l)) <= list_sum (map (fun j => S (String.length (print j))) (j :: l))) as Hle.
    { apply list_sum_le. revert Hok. generalize (j :: l), IH. clear. induction 1 as [|j l Hj _ IHl]; intros Hok; [done|].
      apply Forall_cons in Hok as [Ho Hok]. constructor; [specialize (Hj Ho); lia|by apply IHl]. }
    change (String.length "[") with 1. change (String.length "]") with 1. lia.
  - apply doc_ok_obj in Hok. rewrite !length_append. destruct l as [|kj l]; [simpl; lia|].
    pose proof (join_length (map (fun '(k, j) => member (escapeString k, print j)) (kj :: l)) ltac:(done)) as H. rewrite map_map in H.
    assert (list_sum (map (fun '(_, j) => S (size j)) (kj :: l)) <=
      list_sum (map (fun x : string * json => S (String.length (let '(k, j) := x in member (escapeString k, print j)))) (kj :: l))) as Hle.
    { apply list_sum_le. revert Hok. generalize (kj :: l), IH. clear. induction 1 as [|[k j] l Hj _ IHl]; intros Hok; [done|].
      apply Forall_cons in Hok as [[_ Ho] Hok]. constructor; [|by apply IHl]. specialize (Hj Ho). cbn [snd] in Hj.
      unfold member. cbn [fst snd]. rewrite !length_append. lia. }
    change (String.length "{") with 1. change (String.length "}") with 1. lia.
Qed.

#[export] Instance plain_text : JsonText := {|
  doc_text := print;
  doc_of s := match parse_value (String.length s) s with Some (j, "") => Some j | _ => None end;
  fold_name s := s;
  syntax_error s := ErrNew ("invalid character in " +:+ s);
  type_error name _ := ErrNew ("json: cannot unmarshal into field " +:+ name);
|}.

#[export] Instance plain_text_laws : JsonTextLaws.
Proof.
  refine {| utf8 _ := True |}; [done|by repeat constructor|]. intros j Hj. cbn [doc_of doc_text plain_text].
  pose proof (print_reads j Hj (String.length (print j)) "" (size_length j Hj) eq_refl) as H.
  rewrite append_empty in H. by rewrite H.
Defined.

(** A call of player 7 with a request and no number of its own, on the wire. *)
Definition call7 : envelope raw :=
  mkEnvelope 1 "call" "Player" "Login" (Some (JObj [("id", JNum "7")])) [] None.

Lemma json_transport_witness :
  (exists data, EncodeReq call7 = Ok data /\ DecodeReq data = Ok (arrived call7)) /\
  (exists data, EncodeRep 1 (Some (JBool true)) "" = Ok data /\ DecodeRep (M := raw) data = Ok (1%Z, Some (JBool true), "")).
Proof. apply (json_transport call7 1 (Some (JBool true)) ""); [by vm_compute|exact Logic.I..|by repeat split|constructor|exact Logic.I|by vm_compute|exact Logic.I|exact Logic.I]. Defined.
End JsonWitness.
