(* ===== verification/Nodes.v ===== *)
(** * Nodes: routers, clients and servers put together

    The processes of a cluster, each with the router of cluster/cluster.go, the clients of
    rpc/client.go behind it, and a server of rpc/server.go in front of its manager. The
    definitions of Router and Rpc run here over one network, which delivers a frame when it
    is written: an operation of one process is over, replies included, before the next. *)

From S2P Require Import Prelude ActorTypes Control Registry Runtime Cluster Rpc Router.

Local Open Scope string_scope.
Local Open Scope go_scope.

(** Where the server of an address is found: what a client dials. *)
Definition url (addr : string) : string := "ws://" +:+ addr +:+ "/rpc".

Section nodes.
Context {M T I U R W : Type} `{!ActorId I, !Requests T U I, !Codec M T I U R, !Transport M, !Backend W I U R}.

(** The table of the server at a URL; the error of a dial that nobody answers, and the one
    of a context that ends without a reply. *)
Context (tables : string -> Server T) (refused no_reply : error).

(** What one process sees while it runs: itself, its member list, the managers of all
    nodes by the URL of their servers, its clients by pointer, the URLs its connections
    lead to, and the frames on their way. *)
Record world := mkWorld {
  here : Node;
  view : NodeSet;
  managers : gmap string W;
  clients : list (Client M);
  dialled : list string;
  wire : list (nat * string);
}.

Definition set_client (j : nat) (c : Client M) (w : world) : world :=
  mkWorld (here w) (view w) (managers w) (<[j := c]> (clients w)) (dialled w) (wire w).

#[export] Instance world_net : Net world := {|
  ws_Dial w u := match managers w !! u with
    | Some _ => (mkWorld (here w) (view w) (managers w) (clients w) (dialled w ++ [u])%list (wire w), Ok (length (dialled w)))
    | None => (w, Err refused)
    end;
  ws_Write w h data :=
    (mkWorld (here w) (view w) (managers w) (clients w) (dialled w) (wire w ++ [(h, data)])%list, None);
  ws_Close w _ := w;
|}.

(** One frame at the server it was sent to, and all that are on their way. *)
Definition arrive (ds : list string) (f : nat * string) (ms : gmap string W) : gmap string W * list string :=
  match ds !! f.1 with
  | None => (ms, [])
  | Some u =>
      match ms !! u with
      | None => (ms, [])
      | Some ws => match handleRPC (tables u) f.2 ws with Go (ws1, fs) => (<[u := ws1]> ms, fs) | _ => (ms, []) end
      end
  end.

Fixpoint arrive_all (ds : list string) (l : list (nat * string)) (ms : gmap string W) : gmap string W * list string :=
  match l with
  | [] => (ms, [])
  | f :: l => let '(ms1, fs1) := arrive ds f ms in let '(ms2, fs2) := arrive_all ds l ms1 in (ms2, (fs1 ++ fs2)%list)
  end.

Definition deliver (w : world) : world * list string :=
  let '(ms, fs) := arrive_all (dialled w) (wire w) (managers w) in
  (mkWorld (here w) (view w) ms (clients w) (dialled w) [], fs).

(** The loop of the client's reader on the frames that came back. *)
Definition receive (fs : list string) (c : Client M) : Client M :=
  foldl (fun c f => match on_response f c with Go c1 => c1 | _ => c end) c fs.

(** A message without an answer. *)
Definition send_on (send : Client M -> world -> flow (world * option error)) (w : world) (j : nat) : world * option error :=
  match clients w !! j with
  | None => (w, Some no_reply)
  | Some c =>
      match send c w with
      | Go (w1, err) => let '(w2, fs) := deliver w1 in (set_client j (receive fs c) w2, err)
      | _ => (w, Some no_reply)
      end
  end.

(** [rpc.Call], from the first encoding to its return. *)
Definition call_on (w : world) (j : nat) (id : I) (req : U) : world * (option R * option error) :=
  match clients w !! j with
  | None => (w, (None, Some no_reply))
  | Some c =>
      match Call_start (R := R) c id req w with
      | Go (w1, c1, inl e) => (set_client j c1 w1, (None, Some e))
      | Go (w1, c1, inr (seq, ch)) =>
          let '(w2, fs) := deliver w1 in
          let c2 := receive fs c1 in
          match Call_select (I := I) (U := U) (R := R) (user_type req) SReply seq ch c2 with
          | Some (c3, Ok r) => (set_client j c3 w2, (Some r, None))
          | Some (c3, Err e) => (set_client j c3 w2, (None, Some e))
          | _ => (set_client j (unregister seq c2) w2, (None, Some no_reply))
          end
      | _ => (w, (None, Some no_reply))
      end
  end.

#[export] Instance world_clients : RpcClients world I U R := {|
  rc_New w addr := (mkWorld (here w) (view w) (managers w) (clients w ++ [NewClient addr])%list (dialled w) (wire w),
                    length (clients w));
  rc_Connect w j := match clients w !! j with
    | Some c => let '(w1, c1, err) := Connect c w in (set_client j c1 w1, err)
    | None => (w, Some no_reply)
    end;
  rc_Close w j := match clients w !! j with
    | Some c => match Close (T := T) (I := I) (U := U) (R := R) c w with Go (w1, c1) => set_client j c1 w1 | _ => w end
    | None => w
    end;
  rc_Post w j id req := send_on (fun c => Post (R := R) c id req) w j;
  rc_Call := call_on;
  rc_Broadcast w j req := send_on (fun c => Broadcast (R := R) c req) w j;
  rc_Multicast w j ids req := send_on (fun c => Multicast (R := R) c ids req) w j;
|}.

#[export] Instance world_membership : Membership world := {| mb_Self := here; mb_Members := view; mb_Close w := (w, None) |}.

(** The manager of the process itself. *)
Definition at_home {X} (f : W -> W * X) (none : X) (w : world) : world * X :=
  match managers w !! url (Addr (here w)) with
  | None => (w, none)
  | Some ws => let '(ws1, x) := f ws in
      (mkWorld (here w) (view w) (<[url (Addr (here w)) := ws1]> (managers w)) (clients w) (dialled w) (wire w), x)
  end.

#[export] Instance world_backend : Backend world I U R := {|
  mgr_Post w id req := at_home (fun ws => mgr_Post (R := R) ws id req) (Some no_reply) w;
  mgr_Call w id req := at_home (fun ws => mgr_Call ws id req) (None, Some no_reply) w;
  mgr_Broadcast w req := at_home (fun ws => mgr_Broadcast (I := I) (R := R) ws req) (0, Some no_reply) w;
  mgr_Multicast w ids req := at_home (fun ws => mgr_Multicast (R := R) ws ids req) ([], Some no_reply) w;
|}.

(** No releaser is configured; the instance is not used. *)
#[export] Instance world_releaser : LeaseForceReleaser world := fun w _ _ => (w, (0%Z, Some no_reply)).

(** ** The whole cluster *)
Record process := mkProcess { p_clients : list (Client M); p_dialled : list string; p_pool : clientPool }.
Record system := mkSystem { s_managers : gmap string W; s_procs : gmap string process }.

Definition idle_process : process := mkProcess [] [] newClientPool.
Definition proc (s : system) (n : Node) : process := default idle_process (s_procs s !! ID n).

(** A user of node [n] posts or calls through the router of that node. *)
Inductive op := OPost (id : I) (req : U) | OCall (id : I) (req : U).
Abbreviation answer := (option R * option error)%type.

Context (place : PlacementStrategy) (views : Node -> NodeSet).

Definition enter (n : Node) (s : system) : world :=
  mkWorld n (views n) (s_managers s) (p_clients (proc s n)) (p_dialled (proc s n)) [].

Definition leave (n : Node) (w : world) (p : clientPool) (s : system) : system :=
  mkSystem (managers w) (<[ID n := mkProcess (clients w) (dialled w) p]> (s_procs s)).

Definition config : RouterConfig := NewRouterConfig [].
Definition alone : world -> clientPool -> clientPool := fun _ p => p.

Definition perform (n : Node) (o : op) (s : system) : flow (system * answer) :=
  match o with
  | OPost id req =>
      do! (w, p, err) := Router_Post (R := R) place alone config id req (enter n s) (p_pool (proc s n)) in
      Go (leave n w p s, (None, err))
  | OCall id req =>
      do! (w, p, r) := Router_Call place alone config id req (enter n s) (p_pool (proc s n)) in
      Go (leave n w p s, r)
  end.

Fixpoint perform_all (evs : list (Node * op)) (s : system) : flow (system * list answer) :=
  match evs with
  | [] => Go (s, [])
  | (n, o) :: evs =>
      do! (s1, a) := perform n o s in
      do! (s2, l) := perform_all evs s1 in Go (s2, a :: l)
  end.

(** ** What it should amount to

    Every message is handled by the manager of the owner of its actor, directly. The
    answer of a call is the manager's when the owner is the node of the caller; from
    another node an error comes back as text. A post to another node answers nothing. *)
Definition over_wire (r : answer) : answer :=
  match r.2 with
  | Some e => (None, Some (ErrWrap ("rpc call failed: " +:+ Error e) [ErrRpcCallFailed]))
  | None => r
  end.

Definition op_id (o : op) : I := match o with OPost id _ | OCall id _ => id end.
Definition op_req (o : op) : U := match o with OPost _ req | OCall _ req => req end.

Definition direct (o : op) (ws : W) : W * answer :=
  match o with
  | OPost id req => let '(ws1, err) := mgr_Post (R := R) ws id req in (ws1, (None, err))
  | OCall id req => mgr_Call ws id req
  end.

Definition far (o : op) (r : answer) : answer := match o with OPost _ _ => (None, None) | OCall _ _ => over_wire r end.

Definition owner_of (members : NodeSet) (o : op) : option Node :=
  place (ActorType (op_id o)) (String (op_id o)) members.

Definition direct_at (members : NodeSet) (n : Node) (o : op) (ms : gmap string W) : gmap string W * answer :=
  match owner_of members o with
  | None => (ms, (None, None))
  | Some m =>
      match ms !! url (Addr m) with
      | None => (ms, (None, None))
      | Some ws => let '(ws1, r) := direct o ws in
          (<[url (Addr m) := ws1]> ms, if String.eqb (ID m) (ID n) then r else far o r)
      end
  end.

Fixpoint direct_all (members : NodeSet) (evs : list (Node * op)) (ms : gmap string W) : gmap string W * list answer :=
  match evs with
  | [] => (ms, [])
  | (n, o) :: evs =>
      let '(ms1, a) := direct_at members n o ms in
      let '(ms2, l) := direct_all members evs ms1 in (ms2, a :: l)
  end.
End nodes.

Arguments world M W : clear implicits.
Arguments process M : clear implicits.
Arguments system M W : clear implicits.
Arguments op I U : clear implicits.
