(* ===== verification/NodesSpec.v ===== *)
(** * A cluster behaves like its managers

    Calls and posts from any nodes, through routers, clients, frames and servers, amount to
    direct calls of the managers of the owners, in the same order. *)

From S2P Require Import Prelude ActorTypes Control Registry Runtime Cluster ClusterSpec Rpc RpcSpec Router Logger LoggerSpec JsonRpc JsonRpcSpec Nodes.

Local Open Scope string_scope.
Local Open Scope go_scope.

(** Values that encode, and texts that the transport carries. *)
Class Encodes (M T I U R : Type) `{!ActorId I, !Requests T U I, !Codec M T I U R, !Transport M, !TransportLaws M} : Prop := {
  encodes_id : forall id, exists m, Encode_id id = Ok m;
  encodes_req : forall req, exists m, Encode_req req = Ok m;
  encodes_rep : forall r, exists m, Encode_rep (I := I) (T := T) (U := U) (Some r) = Ok m;
  encodes_envelope : forall v, exists data, EncodeReq v = Ok data;
  encodes_reply : forall seq m e, exists data, EncodeRep seq m e = Ok data;
  type_text : forall id, text_ok (ActorType id);
  request_text : forall t, text_ok (user_ReqType (U := U) (I := I) t);
  post_text : text_ok "post";
  no_text : text_ok "";
}.

(** The handlers behind a manager: a call without an error has a reply, and the text of an
    error is not empty. *)
Class Answers (M W I U R : Type) `{!Transport M, !TransportLaws M, !Backend W I U R} : Prop := {
  replies : forall (ws : W) id req ws1 rep, mgr_Call ws id req = (ws1, (rep, None)) -> is_Some rep;
  error_text : forall (ws : W) id req ws1 rep e, mgr_Call ws id req = (ws1, (rep, Some e)) -> text_ok (Error e) /\ Error e <> "";
}.

Section nodes.
Context {M T I U R W : Type} `{!ActorId I, !Requests T U I, !Codec M T I U R, !Transport M, !Backend W I U R}.
Context `{!TransportLaws M, !CodecLaws M T I U R, !Encodes M T I U R, !Answers M W I U R}.
Context (tables : string -> Server T) (refused no_reply : error).

Abbreviation world := (world M W).
Abbreviation process := (process M).
Implicit Types (w : world) (c : Client M) (ws : W).

#[local] Hint Extern 0 (Net world) => exact (world_net refused) : typeclass_instances.
#[local] Hint Extern 0 (RpcClients world I U R) => exact (world_clients tables refused no_reply) : typeclass_instances.
#[local] Hint Extern 0 (Backend world I U R) => exact (world_backend no_reply) : typeclass_instances.
#[local] Hint Extern 0 (LeaseForceReleaser world) => exact (world_releaser no_reply) : typeclass_instances.

(** The server at [u] knows the type of the request. *)
Definition knows (u : string) (id : I) (req : U) : Prop :=
  srv_entryMap (tables u) !! (ActorType id, user_ReqType (U := U) (I := I) (user_type req)) = Some (user_type req).

(** A client in use: connected to [u], with room for more calls. *)
Definition connected (k : Z) (u : string) (ds : list string) c : Prop :=
  exists h, conn c = Some h /\ ds !! h = Some u /\ (0 <= reqIDSeq c <= k)%Z.

Record pool_ok (k : Z) (cs : list (Client M)) (ds : list string) (p : clientPool) : Prop := {
  pooled : forall addr j, p !! addr = Some j -> exists c, cs !! j = Some c /\ connected k (url addr) ds c;
}.

Lemma connected_more k k' u ds ds' c : connected k u ds c -> (k <= k')%Z -> connected k' u (ds ++ ds')%list c.
Proof. intros (h & H1 & H2 & H3) Hk. exists h. split; [done|]. split; [by apply lookup_app_l_Some|lia]. Qed.

(** ** Sending *)

(** The frame of a call starts a waiting call. *)
Lemma Call_starts c id req w h : conn c = Some h -> (0 <= reqIDSeq c < 2 ^ 64 - 1)%Z ->
  exists c1 seq ch data, Call_start (R := R) c id req w =
    Go (mkWorld (here w) (view w) (managers w) (clients w) (dialled w) (wire w ++ [(h, data)])%list, c1, inr (seq, ch)) /\
    conn c1 = Some h /\ reqIDSeq c1 = (reqIDSeq c + 1)%Z /\ pendingCalls c1 !! seq = Some ch /\ cl_chans c1 !! ch = Some None.
Proof.
  intros Hc Hn. assert (uwrap64 (reqIDSeq c + 1) = (reqIDSeq c + 1)%Z) as Eu by (apply Z.mod_small; lia).
  destruct (encodes_id id) as [idM E1]. destruct (encodes_req req) as [reqM E2].
  unfold Call_start. rewrite E1, E2. cbn [obind]. unfold newSeq. rewrite Eu.
  destruct (encodes_envelope (mkEnvelope (reqIDSeq c + 1) "call" (ActorType id)
    (user_ReqType (U := U) (I := I) (user_type req)) idM [] reqM)) as [data E3].
  rewrite E3. unfold write. simpl. rewrite Hc. cbn [fbind]. eexists _, _, _, data. split; [done|]. simpl.
  split; [done|]. split; [done|]. by rewrite !lookup_insert_eq.
Qed.

(** What the answer of a manager becomes in a frame. *)
Lemma framed ws id req ws1 rep err seq : mgr_Call ws id req = (ws1, (rep, err)) ->
  exists m frame, EncodeRep seq m (error_string err) = Ok frame /\ rep_ok m /\ text_ok (error_string err) /\
    match err with None => Encode_rep (I := I) (T := T) (U := U) rep = Ok m | Some _ => m = nil_M (T := T) (I := I) (U := U) (R := R) end /\
    (if String.eqb (error_string err) "" then Decode_rep (I := I) (U := U) (user_type req) m
     else Err (ErrWrap ("rpc call failed: " +:+ error_string err) [ErrRpcCallFailed])) =
    match over_wire (R := R) (rep, err) with (Some r, None) => Ok r | (_, Some e) => Err e | _ => Err no_reply end.
Proof.
  intros H. destruct err as [e|].
  - destruct (error_text _ _ _ _ _ _ H) as [He Hne]. destruct (encodes_reply seq (nil_M (T := T) (I := I) (U := U) (R := R)) (Error e)) as [f Hf].
    exists nil_M, f. simpl. split; [done|]. split; [apply nil_carried|]. split; [done|]. split; [done|].
    by destruct (String.eqb_spec (Error e) "").
  - destruct (replies _ _ _ _ _ H) as [r ->]. destruct (encodes_rep r) as [m Hm]. destruct (encodes_reply seq m "") as [f Hf].
    exists m, f. simpl. split; [done|]. split; [by eapply rep_carried|]. split; [apply no_text|]. split; [done|].
    by eapply rep_roundtrip.
Qed.

(** One frame at its server. *)
Lemma deliver_one w h data u ws ws1 fs :
  wire w = [(h, data)] -> dialled w !! h = Some u -> managers w !! u = Some ws ->
  handleRPC (tables u) data ws = Go (ws1, fs) ->
  deliver tables w = (mkWorld (here w) (view w) (<[u := ws1]> (managers w)) (clients w) (dialled w) [], fs).
Proof.
  intros Hw Hd Hm Hs. unfold deliver. rewrite Hw. simpl. unfold arrive. simpl. rewrite Hd, Hm, Hs. by rewrite app_nil_r.
Qed.

(** A call over a connected client is the call of the manager at the other end. *)
Lemma call_far w j id req c h u ws ws1 r :
  clients w !! j = Some c -> conn c = Some h -> (0 <= reqIDSeq c < 2 ^ 64 - 1)%Z -> wire w = [] ->
  dialled w !! h = Some u -> managers w !! u = Some ws -> knows u id req -> mgr_Call ws id req = (ws1, r) ->
  exists c', call_on tables refused no_reply w j id req =
      (mkWorld (here w) (view w) (<[u := ws1]> (managers w)) (<[j := c']> (clients w)) (dialled w) [], over_wire r) /\
    conn c' = Some h /\ reqIDSeq c' = (reqIDSeq c + 1)%Z.
Proof.
  intros Hj Hc Hn Hw Hd Hm Hk Hcall. unfold call_on. rewrite Hj.
  destruct (Call_starts c id req w h Hc Hn) as (c1 & seq & ch & data & E & H1 & H2 & H3 & H4).
  destruct (Call_start_data c id req w _ c1 seq ch (type_text _) (request_text _) Hn E)
    as (h' & data' & idM & reqM & Hc' & Hwr & Eseq & E1 & E2 & E3).
  rewrite Hc in Hc'. injection Hc' as <-. simpl in Hwr. injection Hwr as Hwr. apply app_inv_head in Hwr as [= ->].
  rewrite E, Hw. destruct r as [rep err].
  destruct (framed _ _ _ _ _ _ seq Hcall) as (m & frame & Hf & Hrep & Htxt & Hm' & Hdec).
  rewrite (deliver_one _ h data u ws ws1 [frame]); [|done..|].
  2: { eapply serve_call; [exact E3|lia|done..]. }
  destruct (receive_reply c1 seq ch m _ frame (user_type req) ltac:(lia) Hrep Htxt Hf H3 H4) as (c2 & c3 & G1 & G2 & G3 & G4).
  unfold receive. cbn [foldl]. rewrite G1. cbv zeta. rewrite G4, Hdec. exists c3. split; [|split; congruence].
  destruct err as [e|]; [done|]. simpl. destruct (replies _ _ _ _ _ Hcall) as [x ->]. done.
Qed.

(** A post over a connected client is the post of the manager at the other end; whatever
    that answers, nothing comes back. *)
Lemma post_far w j id req c h u ws ws1 err :
  clients w !! j = Some c -> conn c = Some h -> wire w = [] ->
  dialled w !! h = Some u -> managers w !! u = Some ws -> knows u id req -> mgr_Post (R := R) ws id req = (ws1, err) ->
  send_on tables no_reply (fun c => Post (R := R) c id req) w j =
    (mkWorld (here w) (view w) (<[u := ws1]> (managers w)) (<[j := c]> (clients w)) (dialled w) [], None).
Proof.
  intros Hj Hc Hw Hd Hm Hk Hpost. unfold send_on. rewrite Hj. unfold Post, make_req.
  destruct (encodes_id id) as [idM E1]. destruct (encodes_req req) as [reqM E2]. rewrite E1, E2. cbn [obind].
  destruct (encodes_envelope (mkEnvelope 0 "post" (ActorType id)
    (user_ReqType (U := U) (I := I) (user_type req)) idM [] reqM)) as [data E3].
  rewrite E3. cbn [encoded]. unfold write. rewrite Hc. simpl. rewrite Hw. simpl.
  rewrite (deliver_one _ h data u ws ws1 []); [done|done..|].
  eapply EncodeReq_roundtrip in E3; simpl; [|lia|apply post_text|apply type_text|apply request_text|
    by eapply id_carried|done|by eapply req_carried].
  unfold handleRPC. rewrite E3. simpl. rewrite Hk. simpl. unfold entry_post, decoded. rewrite (id_roundtrip (user_type req) _ _ E1), (req_roundtrip _ _ E2).
  by rewrite Hpost.
Qed.

(** ** The pool dials once per address *)
Lemma getOrDial_ready k m w p :
  wire w = [] -> (0 <= k)%Z -> pool_ok k (clients w) (dialled w) p -> is_Some (managers w !! url (Addr m)) ->
  exists cs ds p' j c, getOrDial (U := U) (I := I) (R := R) alone m w p =
      (mkWorld (here w) (view w) (managers w) cs ds [], p', inl j) /\
    pool_ok k cs ds p' /\ cs !! j = Some c /\ connected k (url (Addr m)) ds c.
Proof.
  intros Hw Hk Hp [ws Hm]. unfold getOrDial. destruct (p !! Addr m) as [j|] eqn:Ej.
  - destruct (pooled _ _ _ _ Hp _ _ Ej) as (c & Hc & Hok). exists (clients w), (dialled w), p, j, c.
    rewrite <- Hw. by destruct w.
  - cbn. rewrite list_lookup_middle by done. unfold Connect. cbn. fold (url (Addr m)). rewrite Hm. cbn. unfold alone. rewrite Ej.
    unfold set_client. cbn. rewrite insert_app_r_alt by lia. rewrite Nat.sub_diag. cbn. rewrite Hw.
    eexists _, _, _, _, _. split; [done|]. split.
    + split. intros addr j [[<- <-]|[Hne H]]%lookup_insert_Some.
      * eexists. rewrite list_lookup_middle by done. split; [done|]. exists (length (dialled w)). cbn.
        by rewrite list_lookup_middle.
      * destruct (pooled _ _ _ _ Hp _ _ H) as (c & Hc & Hok). exists c. split; [by apply lookup_app_l_Some|].
        by eapply connected_more.
    + rewrite list_lookup_middle by done. split; [done|]. exists (length (dialled w)). cbn.
      by rewrite list_lookup_middle.
Qed.

(** The pool stays fit for use when one of its clients made a call. *)
Lemma pool_ok_used k cs ds p j c c' u :
  pool_ok k cs ds p -> cs !! j = Some c -> connected k u ds c ->
  conn c' = conn c -> (reqIDSeq c <= reqIDSeq c' <= reqIDSeq c + 1)%Z -> pool_ok (k + 1) (<[j := c']> cs) ds p.
Proof.
  intros [Hp] Hj (h & Hc & Hd & Hk) Ec Es. split. intros addr i Hi. destruct (Hp _ _ Hi) as (c1 & Hc1 & h1 & G1 & G2 & G3).
  destruct (decide (j = i)) as [<-|Hne].
  - exists c'. rewrite list_lookup_insert_eq by (by eapply lookup_lt_Some). split; [done|].
    rewrite Hj in Hc1. injection Hc1 as <-. exists h1. rewrite Ec. split; [done|]. split; [done|lia].
  - exists c1. rewrite list_lookup_insert_ne by done. split; [done|]. exists h1. split; [done|]. split; [done|lia].
Qed.

Lemma pool_ok_more k cs ds p : pool_ok k cs ds p -> pool_ok (k + 1) cs ds p.
Proof.
  intros [Hp]. split. intros addr j H. destruct (Hp _ _ H) as (c & Hc & h & G1 & G2 & G3).
  exists c. split; [done|]. exists h. split; [done|]. split; [done|lia].
Qed.

(** ** One operation through a router *)
Context (place : PlacementStrategy) (views : Node -> NodeSet) (members : NodeSet).

Abbreviation system := (system M W).
Abbreviation op := (op I U).
Abbreviation answer := (option R * option error)%type.
Implicit Types (s : system) (o : op).
Abbreviation perform := (perform (R := R) tables refused no_reply place views).
Abbreviation perform_all := (perform_all (R := R) tables refused no_reply place views).

(** The operation on a world: what [perform] does between [enter] and [leave]. *)
Definition routed o w (p : clientPool) : flow (world * clientPool * answer) :=
  match o with
  | OPost id req => do! (w1, p1, err) := Router_Post (R := R) place alone config id req w p in Go (w1, p1, (None, err))
  | OCall id req => Router_Call place alone config id req w p
  end.

Lemma perform_routed n o s :
  perform n o s = fbind (routed o (enter views n s) (p_pool (proc s n)))
    (fun x => Go (leave n x.1.1 x.1.2 s, x.2)).
Proof.
  destruct o as [id req|id req]; simpl.
  - by destruct (Router_Post _ _ _ _ _ _ _) as [[[w p] err]| |].
  - by destruct (Router_Call _ _ _ _ _ _ _) as [[[w p] r]| |].
Qed.

(** No lease is retried: the answer of the first attempt is the answer. *)
Lemma routed_once o w p :
  routed o w p = match o with
    | OPost id req => do! (w1, p1, err) := postOnce (R := R) place alone id req w p in Go (w1, p1, (None, err))
    | OCall id req => callOnce place alone id req w p
    end.
Proof.
  destruct o as [id req|id req]; simpl.
  - unfold Router_Post. by destruct (postOnce _ _ _ _ _ _) as [[[w1 p1] [e|]]| |].
  - unfold Router_Call. by destruct (callOnce _ _ _ _ _ _) as [[[w1 p1] [r [e|]]]| |].
Qed.

Lemma routed_home o w p m ws :
  owner_of place (view w) o = Some m -> ID m = ID (here w) ->
  managers w !! url (Addr (here w)) = Some ws ->
  routed o w p = Go (mkWorld (here w) (view w) (<[url (Addr (here w)) := (direct o ws).1]> (managers w))
    (clients w) (dialled w) (wire w), p, (direct o ws).2).
Proof.
  intros Ho Hid Hm. rewrite routed_once. unfold owner_of in Ho.
  destruct o as [id req|id req]; simpl in *; unfold postOnce, callOnce, Router_Place; simpl; rewrite Ho; cbn [fbind];
    rewrite (proj2 (String.eqb_eq _ _) Hid); unfold at_home; rewrite Hm.
  - by destruct (mgr_Post ws id req).
  - by destruct (mgr_Call ws id req).
Qed.

Lemma routed_away k o w p m ws :
  wire w = [] -> (0 <= k < 2 ^ 64 - 1)%Z -> pool_ok k (clients w) (dialled w) p ->
  owner_of place (view w) o = Some m -> ID m <> ID (here w) ->
  managers w !! url (Addr m) = Some ws -> knows (url (Addr m)) (op_id o) (op_req o) ->
  exists cs ds p', routed o w p = Go (mkWorld (here w) (view w) (<[url (Addr m) := (direct o ws).1]> (managers w)) cs ds [], p',
      far o (direct o ws).2) /\ pool_ok (k + 1) cs ds p'.
Proof.
  intros Hw Hk Hp Ho Hid Hm Hkn. rewrite routed_once. unfold owner_of in Ho.
  destruct (getOrDial_ready k m w p Hw ltac:(lia) Hp ltac:(by eexists)) as (cs & ds & p' & j & c & E & Hp' & Hj & Hc).
  pose proof Hc as (h & Hh & Hd & Hs).
  destruct o as [id req|id req]; simpl in *; unfold postOnce, callOnce, Router_Place; simpl; rewrite Ho; cbn [fbind];
    rewrite (proj2 (String.eqb_neq _ _) Hid), E.
  - destruct (mgr_Post ws id req) as [ws1 err] eqn:Eop. simpl.
    rewrite (post_far (mkWorld (here w) (view w) (managers w) cs ds []) j id req c h (url (Addr m)) ws ws1 err); try done. simpl.
    exists (<[j := c]> cs), ds, p'. split; [done|]. eapply pool_ok_used; [done..|lia].
  - destruct (mgr_Call ws id req) as [ws1 r] eqn:Eop. simpl.
    destruct (call_far (mkWorld (here w) (view w) (managers w) cs ds []) j id req c h (url (Addr m)) ws ws1 r)
      as (c' & -> & G1 & G2); try done; [simpl; lia|]. cbn [fbind].
    exists (<[j := c']> cs), ds, p'. split; [done|]. eapply pool_ok_used; [done..|congruence|lia].
Qed.

(** ** Any number of operations *)

(** Every process has a fit pool, and every member a server. *)
Record sys_ok (k : Z) s : Prop := {
  so_pool : forall n, pool_ok k (p_clients (proc s n)) (p_dialled (proc s n)) (p_pool (proc s n));
  so_up : forall n, n ∈ members -> is_Some (s_managers s !! url (Addr n));
}.

(** An operation that has an owner: its caller is a member that places it like the others,
    and the owner a member whose server knows the request. *)
Record event_ok n o : Prop := {
  ev_member : n ∈ members;
  ev_view : owner_of place (views n) o = owner_of place members o;
  ev_owner : exists m, owner_of place members o = Some m /\ m ∈ members /\ knows (url (Addr m)) (op_id o) (op_req o);
}.

Lemma sys_ok_leave k n w p s :
  sys_ok k s -> (forall x, x ∈ members -> is_Some (managers w !! url (Addr x))) ->
  pool_ok (k + 1) (clients w) (dialled w) p -> sys_ok (k + 1) (leave n w p s).
Proof.
  intros [H1 H2] Hup Hp. split; [|done]. intros x. unfold proc, leave. simpl.
  destruct (decide (ID n = ID x)) as [<-|Hne]; [by rewrite lookup_insert_eq|].
  rewrite lookup_insert_ne by done. apply pool_ok_more, H1.
Qed.

(** One operation is the direct one at its owner. *)
Lemma perform_direct k n o s :
  NoDup (ID <$> members) -> sys_ok k s -> (0 <= k < 2 ^ 64 - 1)%Z -> event_ok n o ->
  exists s', perform n o s = Go (s', (direct_at place members n o (s_managers s)).2) /\
    s_managers s' = (direct_at place members n o (s_managers s)).1 /\ sys_ok (k + 1) s'.
Proof.
  intros Hnd Hs Hk [Hn Hv (m & Ho & Hm & Hkn)]. rewrite perform_routed. unfold direct_at. rewrite Ho.
  destruct (so_up _ _ Hs _ Hm) as [ws Hws]. rewrite Hws. rewrite <- Hv in Ho.
  assert (forall (ms' : gmap string W), (forall x, is_Some (s_managers s !! x) -> is_Some (ms' !! x)) ->
    forall x, x ∈ members -> is_Some (ms' !! url (Addr x))) as Hup by (intros ms' H x Hx; by apply H, Hs).
  assert (forall ws1 x, is_Some (s_managers s !! x) -> is_Some (<[url (Addr m) := ws1]> (s_managers s) !! x)) as Hins.
  { intros ws1 x Hx. rewrite lookup_insert_is_Some'. by right. }
  destruct (decide (ID m = ID n)) as [Hid|Hid].
  - assert (m = n) as -> by (by eapply (NoDup_key_eq ID)).
    rewrite (routed_home o (enter views n s) _ n ws Ho eq_refl Hws). cbn [fbind fst snd]. rewrite String.eqb_refl.
    destruct (direct o ws) as [ws1 r]. eexists. split; [done|]. split; [done|].
    apply sys_ok_leave; [done|by apply Hup, Hins|apply pool_ok_more, Hs].
  - destruct (routed_away k o (enter views n s) (p_pool (proc s n)) m ws eq_refl Hk (so_pool _ _ Hs n) Ho Hid Hws Hkn)
      as (cs & ds & p' & -> & Hp'). cbn [fbind fst snd]. rewrite (proj2 (String.eqb_neq _ _) Hid).
    destruct (direct o ws) as [ws1 r]. eexists. split; [done|]. split; [done|].
    apply sys_ok_leave; [done|by apply Hup, Hins|done].
Qed.

Lemma perform_all_direct evs : forall k s,
  NoDup (ID <$> members) -> sys_ok k s -> (0 <= k)%Z -> (k + Z.of_nat (length evs) < 2 ^ 64)%Z ->
  Forall (fun e => event_ok e.1 e.2) evs ->
  exists s', perform_all evs s = Go (s', (direct_all place members evs (s_managers s)).2) /\
    s_managers s' = (direct_all place members evs (s_managers s)).1.
Proof.
  induction evs as [|[n o] evs IH]; intros k s Hnd Hs Hk Hlen Hev; [by exists s|].
  apply Forall_cons in Hev as [He Hev]. simpl in Hlen.
  destruct (perform_direct k n o s Hnd Hs ltac:(lia) He) as (s1 & E & Em & Hs1).
  destruct (IH (k + 1)%Z s1 Hnd Hs1 ltac:(lia) ltac:(lia) Hev) as (s2 & E2 & Em2).
  simpl. rewrite E. cbn [fbind]. rewrite E2. cbn [fbind]. rewrite Em in *.
  destruct (direct_at place members n o (s_managers s)) as [ms1 a]. simpl in *.
  destruct (direct_all place members evs ms1) as [ms2 l]. by exists s2.
Qed.

End nodes.

(** With consistent hashing the nodes agree on the owners, in whatever order each lists the
    members. *)
Section consistent.
Context `{!SortSlice} {I U : Type} `{!ActorId I} (p : ConsistentHashPlacement).
Hypothesis virtual_nodes : (0 < VirtualNodes p)%Z.

Lemma consistent_owner (o : op I U) members view :
  collision_free (VirtualNodes p) (filterEligible p (ActorType (op_id o)) members) ->
  filterEligible p (ActorType (op_id o)) members <> [] -> (forall n, n ∈ view <-> n ∈ members) ->
  owner_of (Place p) view o = owner_of (Place p) members o /\
  exists m, owner_of (Place p) members o = Some m /\ m ∈ members.
Proof.
  intros Hcf Hne Hv. unfold owner_of.
  destruct (Place_total p virtual_nodes (ActorType (op_id o)) (String (op_id o)) members) as [m Hm].
  destruct (Place_total p virtual_nodes (ActorType (op_id o)) (String (op_id o)) view) as [m' Hm'].
  destruct (Place_in p virtual_nodes _ _ _ _ Hne Hm) as (e & _ & Hin & _).
  rewrite Hm, Hm'. split; [|by exists m]. f_equal.
  apply (Place_step p virtual_nodes (ActorType (op_id o)) (String (op_id o)) members view); try done; by apply Hv.
Qed.
End consistent.

(** ** Three nodes, placed by consistent hashing; each lists the members in its own order.
    The managers double the request, and refuse zero; the nodes speak JSON. *)
Module NodesWitness.
Import ClusterWitness JsonWitness.

#[export] Instance nat_id : ActorId nat :=
  {| ActorType := fun _ => "Player"; String := fun n => pretty (Z.of_nat n); zero_id := 0 |}.
#[export] Instance one_request : Requests unit nat nat :=
  {| user_type := fun _ => tt; user_ReqType := fun _ => "Double"; user_id0 := fun _ => 0 |}.

Definition nat_doc (n : nat) : json + error := inl (JNum (FormatInt (Z.of_nat n))).
Definition doc_nat (j : json) : nat + error :=
  match j with
  | JNum t => match ParseInt t with Some z => inl (Z.to_nat z) | None => inr (ErrNew "number") end
  | _ => inr (ErrNew "number")
  end.

Lemma doc_nat_roundtrip n j : nat_doc n = inl j -> doc_nat j = inl n /\ doc_ok utf8 j.
Proof.
  intros [= <-]. simpl. rewrite ParseInt_FormatInt. split; [by rewrite Nat2Z.id|apply is_number_FormatInt].
Qed.

#[export] Instance numbers : JsonValue unit nat nat nat := {|
  id_doc := nat_doc; req_doc := nat_doc; rep_doc r := match r with Some n => nat_doc n | None => inl JNull end;
  doc_id _ := doc_nat; doc_req _ := doc_nat; doc_rep _ := doc_nat; nil_doc := ErrNew "unexpected end of JSON input" |}.

#[export] Instance numbers_laws : JsonValueLaws unit nat nat nat.
Proof.
  split; simpl.
  - intros _ n j H. by apply doc_nat_roundtrip.
  - intros n j H. by eapply doc_nat_roundtrip.
  - intros n j H. by apply doc_nat_roundtrip.
  - intros _ n j H. by apply doc_nat_roundtrip.
  - intros [n|] j H; [by eapply doc_nat_roundtrip|]. by injection H as <-.
Qed.

Definition srv : Server unit := NewServer (fun b => RegisterRequest (U := nat) (I := nat) b tt).

#[export] Instance handled : Backend (list (nat * nat)) nat nat nat := {|
  mgr_Post w id q := ((w ++ [(id, q)])%list, if decide (q = 0) then Some (ErrNew "zero") else None);
  mgr_Call w id q := ((w ++ [(id, q)])%list, if decide (q = 0) then (None, Some (ErrNew "zero")) else (Some (2 * q), None));
  mgr_Broadcast w q := (w, (0, None));
  mgr_Multicast w ids q := (w, ((fun id => mkIdErr id None) <$> ids, None)) |}.

#[export] Instance numbers_encode : Encodes raw unit nat nat nat.
Proof. split; simpl; try (intros; eexists; reflexivity); done. Qed.

#[export] Instance handled_answers : Answers raw (list (nat * nat)) nat nat nat.
Proof. split; intros ws id req ws1 rep; simpl; destruct (decide (req = 0)); simpl; naive_solver. Qed.

Definition members : NodeSet := [n1; n2; n4].
Definition views (n : Node) : NodeSet := if String.eqb (ID n) "n2" then [n4; n2; n1] else members.
Definition managers0 : gmap string (list (nat * nat)) := list_to_map ((fun n => (url (Addr n), [])) <$> members).

(** Actor 7 lives on n4, actor 0 on n1; both are used from several nodes. *)
Definition script : list (Node * op nat nat) :=
  [(n1, OCall 7 21); (n2, OPost 7 0); (n2, OCall 7 0); (n4, OCall 7 0); (n4, OCall 0 5); (n1, OCall 7 4)].

Definition served := direct_all (R := nat) (Place strategy) members script managers0.

Lemma owners_agree n o : n ∈ members ->
  event_ok (T := unit) (fun _ => srv) (Place strategy) views members n o.
Proof.
  intros Hn. assert (ActorType (op_id o) = "Player") as Ht by done.
  destruct (consistent_owner strategy eq_refl o members (views n)) as [H1 (m & H2 & H3)].
  - rewrite Ht. apply collision_free_dec. apply (bool_decide_unpack (NoDup _)). vm_compute. exact Logic.I.
  - rewrite Ht. vm_compute. discriminate.
  - intros x. unfold views, members. destruct (String.eqb _ _); rewrite !elem_of_cons; tauto.
  - split; [done|done|]. exists m. split; [done|]. split; [done|]. by destruct o.
Qed.

End NodesWitness.
