(* ===== verification/ClusterExample.v ===== *)
(** * The cluster example: a node

    cmd/cluster_example/main.go: the identifiers, the messages and the handlers of the
    players, rooms and chats, the member list that changes while the node runs, and what
    [startNode] sets up for a type of node. What is printed and logged is output of the
    world. *)

From Stdlib Require Import Ascii.
From S2P Require Import Prelude ActorTypes Rpc Control Registry Runtime Cluster Text.
From S2P Require Export Act.

Local Open Scope string_scope.

(** ** Identifiers *)
Record PlayerId := mkPlayerId { ServerId : Z; OpenId : string }.
Record RoomId := mkRoomId { Room : Z }.
Record ChatId := mkChatId { Channel : string }.

Definition PlayerId_String (id : PlayerId) : string :=
  "Player(" +:+ FormatInt (ServerId id) +:+ "," +:+ OpenId id +:+ ")".
Definition RoomId_String (id : RoomId) : string := "Room(" +:+ FormatInt (Room id) +:+ ")".
Definition ChatId_String (id : ChatId) : string := "Chat(" +:+ Channel id +:+ ")".

Inductive aid := APlayer (id : PlayerId) | ARoom (id : RoomId) | AChat (id : ChatId).

#[export] Instance aid_eq_dec : EqDecision aid.
Proof. unfold EqDecision, Decision. repeat decide equality. Defined.
#[export] Instance aid_countable : Countable aid.
Proof.
  apply (inj_countable'
    (fun a => match a with
              | APlayer p => inl (ServerId p, OpenId p)
              | ARoom r => inr (inl (Room r))
              | AChat c => inr (inr (Channel c))
              end)
    (fun x => match x with
              | inl (s, o) => APlayer (mkPlayerId s o)
              | inr (inl r) => ARoom (mkRoomId r)
              | inr (inr c) => AChat (mkChatId c)
              end)).
  by intros [[]|[]|[]].
Defined.

Definition aid_type (a : aid) : string :=
  match a with APlayer _ => "Player" | ARoom _ => "Room" | AChat _ => "Chat" end.
Definition aid_String (a : aid) : string :=
  match a with APlayer p => PlayerId_String p | ARoom r => RoomId_String r | AChat c => ChatId_String c end.

#[export] Instance aid_ActorId : ActorId aid :=
  {| ActorType := aid_type; String := aid_String; zero_id := APlayer (mkPlayerId 0 "") |}.

(** ** Requests, replies and states *)
Inductive req :=
  | Login (InitHP InitLevel : Z) | Attack (Damage : Z) | Heal (Amount : Z) | ClosePlayer | PlayerStateReq | CheckPlayer
  | CreateRoom (MaxPlayers : Z) | RoomInfo | CheckRoom
  | SendMessage (Text : string) | CheckChat.

Inductive rep :=
  | OkRep
  | AttackReply (RemainingHP : Z)
  | HealReply (NewHP : Z)
  | PlayerStateReply (HP Level : Z) (Owned : bool)
  | RoomInfoReply (MaxPlayers : Z)
  | SendMessageReply (Echo : string).

Record PlayerState := mkPlayerState { HP : Z; Level : Z }.
Record RoomState := mkRoomState { MaxPlayers : Z }.
Record ChatState := mkChatState { Messages : list string }.

(** The request types with their [ReqType] methods. *)
Inductive reqT := TLogin | TAttack | THeal | TClosePlayer | TPlayerStateReq | TCheckPlayer
  | TCreateRoom | TRoomInfo | TCheckRoom | TSendMessage | TCheckChat.

#[export] Instance reqT_eq_dec : EqDecision reqT.
Proof. solve_decision. Defined.

Definition req_type (q : req) : reqT :=
  match q with
  | Login _ _ => TLogin | Attack _ => TAttack | Heal _ => THeal | ClosePlayer => TClosePlayer
  | PlayerStateReq => TPlayerStateReq | CheckPlayer => TCheckPlayer
  | CreateRoom _ => TCreateRoom | RoomInfo => TRoomInfo | CheckRoom => TCheckRoom
  | SendMessage _ => TSendMessage | CheckChat => TCheckChat
  end.

Definition req_ReqType (t : reqT) : string :=
  match t with
  | TLogin => "Login" | TAttack => "Attack" | THeal => "Heal" | TClosePlayer => "Close"
  | TPlayerStateReq => "PlayerState"
  | TCheckPlayer | TCheckRoom | TCheckChat => "CheckOwnership"
  | TCreateRoom => "CreateRoom" | TRoomInfo => "RoomInfo" | TSendMessage => "SendMessage"
  end.

Definition req_id0 (t : reqT) : aid :=
  match t with
  | TLogin | TAttack | THeal | TClosePlayer | TPlayerStateReq | TCheckPlayer => APlayer (mkPlayerId 0 "")
  | TCreateRoom | TRoomInfo | TCheckRoom => ARoom (mkRoomId 0)
  | TSendMessage | TCheckChat => AChat (mkChatId "")
  end.

#[export] Instance example_Requests : Requests reqT req aid :=
  {| user_type := req_type; user_ReqType := req_ReqType; user_id0 := req_id0 |}.

(** ** The groups a type of node hosts *)
Definition groupMapping : GroupMapping :=
  {["player-server" := ["Player"]; "room-server" := ["Room"]; "chat-server" := ["Chat"];
    "all-in-one" := ["Player"; "Room"; "Chat"]]}.

(** ** The members at the start *)
Definition inferTypeFromAddr (addr : string) : string :=
  if Contains (lit addr) (lit "8002") then "room-server"
  else if Contains (lit addr) (lit "8003") then "chat-server"
  else if Contains (lit addr) (lit "8004") then "all-in-one"
  else "player-server".

Definition unlit (s : text) : string := String.string_of_list_ascii s.

Definition seed_node (seed : string) : Node :=
  let seedType := inferTypeFromAddr seed in
  mkNode (seedType +:+ "-" +:+ seed) seed seedType ∅.

(** The loop over the seeds. *)
Fixpoint seed_nodes (addr : string) (seeds : list text) : NodeSet :=
  match seeds with
  | [] => []
  | seed :: seeds =>
      let seed := unlit (TrimSpace seed) in
      if String.eqb seed "" || String.eqb seed addr then seed_nodes addr seeds
      else seed_node seed :: seed_nodes addr seeds
  end.

Definition start_members (id nodeType addr seeds : string) : Node * NodeSet :=
  let self := mkNode id addr nodeType ∅ in
  (self, self :: (if String.eqb seeds "" then [] else seed_nodes addr (split_on "," (lit seeds)))).

(** ** dynamicMembership: the member list and the channel of its changes *)
Record dynamicMembership := mkDM { self : Node; members : NodeSet; events : list MemberEvent }.

Definition newDynamicMembership (self : Node) (members : NodeSet) : dynamicMembership := mkDM self members [].

Definition dm_Self (d : dynamicMembership) : Node := self d.
(** [Members] copies the slice under the lock. *)
Definition dm_Members (d : dynamicMembership) : NodeSet := members d.
Definition dm_Events (d : dynamicMembership) : list MemberEvent := events d.

(** Join, Leave and Close do nothing and return nil. *)
Definition dm_Join (seeds : list string) (d : dynamicMembership) : dynamicMembership * option error := (d, None).
Definition dm_Leave (d : dynamicMembership) : dynamicMembership * option error := (d, None).
Definition dm_Close (d : dynamicMembership) : dynamicMembership * option error := (d, None).

(** A send on the channel, whose buffer holds 100 events. *)
Definition send_event (e : MemberEvent) (d : dynamicMembership) : flow dynamicMembership :=
  if (length (events d) <? 100)%nat then Go (mkDM (self d) (members d) (events d ++ [e])%list) else Blocked.

(** The part of [AddNode] and of [RemoveNode] under the lock: the event to send, if any. *)
Definition add_locked (n : Node) (d : dynamicMembership) : dynamicMembership * option MemberEvent :=
  if existsb (fun m => String.eqb (ID m) (ID n)) (members d) then (d, None)
  else
    let ms := (members d ++ [n])%list in
    (mkDM (self d) ms (events d), Some (mkMemberEvent MemberJoined n ms)).

Definition remove_locked (nodeID : string) (d : dynamicMembership) : dynamicMembership * option MemberEvent :=
  let '(removed, newMembers) :=
    foldl (fun '(removed, ms) m => if String.eqb (ID m) nodeID then (m, ms) else (removed, (ms ++ [m])%list))
      (no_node, []) (members d) in
  if String.eqb (ID removed) "" then (d, None)
  else (mkDM (self d) newMembers (events d), Some (mkMemberEvent MemberLeft removed newMembers)).

Definition and_send (x : dynamicMembership * option MemberEvent) : flow dynamicMembership :=
  match x with (d, Some e) => send_event e d | (d, None) => Go d end.

Definition AddNode (n : Node) (d : dynamicMembership) : flow dynamicMembership := and_send (add_locked n d).
Definition RemoveNode (nodeID : string) (d : dynamicMembership) : flow dynamicMembership := and_send (remove_locked nodeID d).

(** ** The process of a node

    [mem] is the member list the handlers, the router and the commands share; [Printf] is
    the log and [Print] the terminal. *)
Class NodeWorld (W : Type) : Type := {
  mem : W -> dynamicMembership;
  set_mem : dynamicMembership -> W -> W;
  Printf : string -> W -> W;
  Print : string -> W -> W;
}.

Abbreviation hres := (hres rep).
Definition ok : hres := (Some OkRep, None).
Definition reply (r : rep) : hres := (Some r, None).

Local Open Scope act_scope.

Section handlers.
Context {W Hook CB : Type} `{!NodeWorld W} (place : PlacementStrategy).

Definition logf {S} (line : string) : act aid req W Hook CB S unit := tell (Printf line).

(** The text of [ctx.Id().String()]. *)
Definition me {S} : act aid req W Hook CB S string := let* id := self_id in ret (aid_String id).

(** The three handlers of the ownership check differ in the group and in what they log of
    the state; a placement that panics panics in the handler. *)
Definition moves_to (group id target : string) (at_state : string) : string :=
  "[迁移] " +:+ group +:+ " " +:+ id +:+ " 应迁移到 " +:+ target +:+ ", " +:+ at_state.
Definition stays_on (group id selfID : string) : string :=
  "[迁移] " +:+ group +:+ " " +:+ id +:+ " 仍属于当前节点 " +:+ selfID.

Definition checkOwnership {S} (group : string) (at_state : S -> string) : act aid req W Hook CB S hres :=
  let* selfID := asks (fun w => ID (dm_Self (mem w))) in
  let* members := asks (fun w => dm_Members (mem w)) in
  let* id := me in
  match CheckOwnership place members selfID group id with
  | None => panic None
  | Some (target, leave) =>
      let* text := gets at_state in
      logf (if leave : bool then moves_to group id target text else stays_on group id selfID) ;;
      ret ok
  end.

(** *** Player *)
Abbreviation player := (act aid req W Hook CB PlayerState).

Definition handleLogin (InitHP InitLevel : Z) (spawning : bool) : player hres :=
  when spawning open ;;
  modify (fun _ => mkPlayerState InitHP InitLevel) ;;
  let* id := me in
  logf ("[Player] " +:+ id +:+ " 登录 HP=" +:+ FormatInt InitHP +:+ " Level=" +:+ FormatInt InitLevel) ;;
  ret ok.

Definition add_HP (d : Z) (s : PlayerState) : PlayerState := mkPlayerState (wrap64 (HP s + d)) (Level s).

Definition handleAttack (Damage : Z) : player hres :=
  modify (add_HP (- Damage)) ;;
  let* id := me in
  let* hp := gets HP in
  logf ("[Player] " +:+ id +:+ " 受到 " +:+ FormatInt Damage +:+ " 伤害, HP=" +:+ FormatInt hp) ;;
  ret (reply (AttackReply hp)).

Definition handleHeal (Amount : Z) : player hres :=
  modify (add_HP Amount) ;;
  let* id := me in
  let* hp := gets HP in
  logf ("[Player] " +:+ id +:+ " 治疗 " +:+ FormatInt Amount +:+ ", HP=" +:+ FormatInt hp) ;;
  ret (reply (HealReply hp)).

Definition handleClosePlayer : player hres :=
  let* id := me in
  logf ("[Player] " +:+ id +:+ " 退出") ;;
  quit ;;
  ret ok.

(** The field [Owned] of the reply is left at its zero value. *)
Definition handlePlayerState : player hres :=
  let* s := gets id in
  ret (reply (PlayerStateReply (HP s) (Level s) false)).

Definition player_text (s : PlayerState) : string :=
  "当前 HP=" +:+ FormatInt (HP s) +:+ " Level=" +:+ FormatInt (Level s).
Definition handleCheckPlayer : player hres := checkOwnership "Player" player_text.

Definition player_handle (q : req) (spawning : bool) : player hres :=
  match q with
  | Login hp lv => handleLogin hp lv spawning
  | Attack d => handleAttack d
  | Heal a => handleHeal a
  | ClosePlayer => handleClosePlayer
  | PlayerStateReq => handlePlayerState
  | CheckPlayer => handleCheckPlayer
  | _ => panic None
  end.

(** *** Room *)
Abbreviation room := (act aid req W Hook CB RoomState).

Definition handleCreateRoom (max : Z) (spawning : bool) : room hres :=
  when spawning open ;;
  modify (fun _ => mkRoomState max) ;;
  let* id := me in
  logf ("[Room] " +:+ id +:+ " 创建 最大人数=" +:+ FormatInt max) ;;
  ret ok.

Definition handleRoomInfo : room hres := let* max := gets MaxPlayers in ret (reply (RoomInfoReply max)).

Definition room_text (s : RoomState) : string := "当前 MaxPlayers=" +:+ FormatInt (MaxPlayers s).
Definition handleCheckRoom : room hres := checkOwnership "Room" room_text.

Definition room_handle (q : req) (spawning : bool) : room hres :=
  match q with
  | CreateRoom max => handleCreateRoom max spawning
  | RoomInfo => handleRoomInfo
  | CheckRoom => handleCheckRoom
  | _ => panic None
  end.

(** *** Chat *)
Abbreviation chat := (act aid req W Hook CB ChatState).

Definition handleSendMessage (text : string) (spawning : bool) : chat hres :=
  when spawning open ;;
  modify (fun s => mkChatState (Messages s ++ [text])%list) ;;
  let* id := me in
  logf ("[Chat] " +:+ id +:+ " 消息: " +:+ text) ;;
  ret (reply (SendMessageReply text)).

Definition chat_text (s : ChatState) : string := "消息数=" +:+ FormatInt (Z.of_nat (length (Messages s))).
Definition handleCheckChat : chat hres := checkOwnership "Chat" chat_text.

Definition chat_handle (q : req) (spawning : bool) : chat hres :=
  match q with
  | SendMessage text => handleSendMessage text spawning
  | CheckChat => handleCheckChat
  | _ => panic None
  end.
End handlers.

(** ** startNode *)

(** The handlers are known by the request type they serve. *)
Abbreviation builder := (Registry.RegistryBuilder reqT reqT Empty_set).

Definition serves (ts : list reqT) : builder := foldl (fun b t => RegisterServe b (TUser t) t) NewRegistryBuilder ts.

Definition player_registry : builder := serves [TLogin; TAttack; THeal; TClosePlayer; TPlayerStateReq; TCheckPlayer].
Definition room_registry : builder := serves [TCreateRoom; TRoomInfo; TCheckRoom].
Definition chat_registry : builder := serves [TSendMessage; TCheckChat].

(** The conditions on the type of the node. *)
Definition is_type (nodeType server : string) : bool := String.eqb nodeType server || String.eqb nodeType "all-in-one".
Definition hosts_players (nodeType : string) : bool := is_type nodeType "player-server".
Definition hosts_rooms (nodeType : string) : bool := is_type nodeType "room-server".
Definition hosts_chats (nodeType : string) : bool := is_type nodeType "chat-server".

Definition on {A} (b : bool) (l : list A) : list A := if b then l else [].

(** The groups the manager serves, with the size of their mailboxes. *)
Definition start_groups (nodeType : string) : list (string * nat * builder) :=
  (on (hosts_players nodeType) [("Player", 100%nat, player_registry)] ++
   on (hosts_rooms nodeType) [("Room", 100%nat, room_registry)] ++
   on (hosts_chats nodeType) [("Chat", 100%nat, chat_registry)])%list.

(** The requests a client may send. *)
Definition rpc_types (nodeType : string) : list reqT :=
  (on (hosts_players nodeType) [TLogin; TAttack; THeal; TClosePlayer; TPlayerStateReq] ++
   on (hosts_rooms nodeType) [TCreateRoom; TRoomInfo] ++
   on (hosts_chats nodeType) [TSendMessage])%list.

(** The callbacks of the coordinator: each broadcasts one request. *)
Definition start_coordinator (nodeType : string) : MigrationCoordinator (N := req) :=
  foldl (fun mc q => RegisterNotify q mc) NewMigrationCoordinator
    (on (hosts_players nodeType) [CheckPlayer] ++ on (hosts_rooms nodeType) [CheckRoom] ++
     on (hosts_chats nodeType) [CheckChat])%list.

Record Process := mkProcess {
  pr_groups : list (string * nat * builder);
  pr_placement : ConsistentHashPlacement;
  pr_server : Life.ServerState (T := reqT);
  pr_coord : MigrationCoordinator (N := req);
}.

Section start.
Context {W : Type} `{!NodeWorld W, !Life.Http (T := reqT) (W := W)}.

(** [None]: the server does not start and the program ends. *)
Definition startNode (id nodeType addr seeds : string) (w : W) : W * option Process :=
  let '(self, ms) := start_members id nodeType addr seeds in
  let w := set_mem (newDynamicMembership self ms) w in
  let placement := WithGroupMapping groupMapping (NewConsistentHashPlacement 128) in
  let table := NewServer (fun b => foldl (RegisterRequest (U := req) (I := aid)) b (rpc_types nodeType)) in
  match Life.Start (Life.new_state table addr) w with
  | (w1, _, Some err) => (Printf ("启动 RPC Server 失败: " +:+ Error err) w1, None)
  | (w1, server, None) =>
      (Printf ("节点已启动: " +:+ id +:+ " (" +:+ nodeType +:+ ") 监听 " +:+ addr +:+ ", 成员 " +:+
               FormatInt (Z.of_nat (length ms)) +:+ ", 迁移协调器已启用") w1,
       Some (mkProcess (start_groups nodeType) placement server (start_coordinator nodeType)))
  end.

(** What [main] does before it waits: an unknown type of node ends the program. *)
Definition main_start (nodeType addr seeds : string) (w : W) : W * option Process :=
  match groupMapping !! nodeType with
  | None =>
      (Printf ("未知节点类型: " +:+ nodeType +:+ "，支持: player-server, room-server, chat-server, all-in-one") w, None)
  | Some _ => startNode (nodeType +:+ "-" +:+ addr) nodeType addr seeds w
  end.
End start.

(** What a callback of the coordinator does: the result of the broadcast is dropped. *)
Definition notify {W} `{!Backend W aid req rep} (q : req) (w : W) : W := (mgr_Broadcast (I := aid) w q).1.

(** ** The actors as user code *)
Section code.
Context {W : Type} `{!NodeWorld W} (place : PlacementStrategy).

#[export] Instance player_code : UserCode W aid req Empty_set Empty_set PlayerState req rep reqT Empty_set := {|
  run_handler := dispatch (player_handle place);
  run_spawn f w c := match (f : Empty_set) with end;
  run_hook h w c := match (h : Empty_set) with end;
  run_callback cb w c := match (cb : Empty_set) with end;
  run_close _ w := w;
  zero_state := mkPlayerState 0 0;
|}.

#[export] Instance room_code : UserCode W aid req Empty_set Empty_set RoomState req rep reqT Empty_set := {|
  run_handler := dispatch (room_handle place);
  run_spawn f w c := match (f : Empty_set) with end;
  run_hook h w c := match (h : Empty_set) with end;
  run_callback cb w c := match (cb : Empty_set) with end;
  run_close _ w := w;
  zero_state := mkRoomState 0;
|}.

#[export] Instance chat_code : UserCode W aid req Empty_set Empty_set ChatState req rep reqT Empty_set := {|
  run_handler := dispatch (chat_handle place);
  run_spawn f w c := match (f : Empty_set) with end;
  run_hook h w c := match (h : Empty_set) with end;
  run_callback cb w c := match (cb : Empty_set) with end;
  run_close _ w := w;
  zero_state := mkChatState [];
|}.
End code.
