(* ===== verification/ClusterRepl.v ===== *)
(** * The cluster example: the command line

    [repl] of cmd/cluster_example/main.go with the commands of the user: requests sent
    through the router of the node, the topology that is shown, and the changes of the
    member list. The prompt and the answers are output of the world; a line is a list of
    bytes (see Text). *)

From Stdlib Require Import Ascii.
From S2P Require Import Prelude ActorTypes Runtime Rpc Cluster Router Text ClusterExample.

Local Open Scope string_scope.

(** The router reads the shared member list. *)
#[export] Instance node_membership {W} `{!NodeWorld W} : Membership W := {|
  mb_Self w := dm_Self (mem w);
  mb_Members w := dm_Members (mem w);
  mb_Close w := (w, None);
|}.

Local Open Scope go_scope.
Definition println {W} `{!NodeWorld W} (s : string) (w : W) : W := Print (s +:+ newline) w.
Definition printlns {W} `{!NodeWorld W} (l : list string) (w : W) : W := foldl (fun w s => println s w) w l.

Fixpoint join_with (sep : string) (l : list string) : string :=
  match l with
  | [] => ""
  | [x] => x
  | x :: l => x +:+ sep +:+ join_with sep l
  end.

Definition itoa (z : Z) : string := FormatInt z.

(** ** migrate *)
Section migrate.
Context {W : Type} `{!NodeWorld W, !Unicode}.

Definition join_node (nodeType addr : string) : Node := mkNode (nodeType +:+ "-" +:+ addr) addr nodeType ∅.

(** A change of the member list, on the world; the pause after it, in which the
    coordinator works, is left to the scheduler. *)
Definition change (f : dynamicMembership -> flow dynamicMembership) (w : W) : flow W :=
  do! d := f (mem w) in Go (set_mem d w).

(** [args] holds the words after the command, at least one: the sub-command. *)
Definition handleMigrate (sub : text) (args : list text) (w : W) : flow W :=
  let subCmd := unlit (ToLower sub) in
  if String.eqb subCmd "join" then
    match args with
    | nodeType :: addr :: _ =>
        let '(nodeType, addr) := (unlit nodeType, unlit addr) in
        let n := join_node nodeType addr in
        let w := println (">>> 模拟节点加入: " +:+ ID n +:+ " (类型=" +:+ nodeType +:+ ", 地址=" +:+ addr +:+ ")") w in
        do! w := change (AddNode n) w in
        Go (printlns [">>> 节点加入完成，查看 info 确认集群拓扑变化";
                      ">>> 注意观察日志中的 [迁移] 信息，了解哪些 Actor 应迁移到新节点"] w)
    | _ => Go (printlns ["用法: migrate join <nodeType> <addr>"; "示例: migrate join player-server localhost:8005"] w)
    end
  else if String.eqb subCmd "leave" then
    match args with
    | nodeID :: _ =>
        let nodeID := unlit nodeID in
        if String.eqb nodeID (ID (Self w)) then Go (println "错误: 不能移除当前节点自身，请在其他节点上执行此操作" w)
        else
          let w := println (">>> 模拟节点离开: " +:+ nodeID) w in
          do! w := change (RemoveNode nodeID) w in
          Go (printlns [">>> 节点离开完成，查看 info 确认集群拓扑变化";
                        ">>> 注意观察日志中的 [迁移] 信息，了解 Actor 重新分配情况"] w)
    | _ => Go (printlns ["用法: migrate leave <nodeId>"; "示例: migrate leave player-server-localhost:8005"] w)
    end
  else Go (printlns ["未知的 migrate 子命令: " +:+ subCmd; "可用子命令: join, leave"] w).
End migrate.

(** ** info and status *)
Section info.
Context {W : Type} `{!NodeWorld W, !Unicode} (place : PlacementStrategy).

Definition group_text (nodeType : string) : string :=
  let groups := GroupsOf groupMapping nodeType in
  if (0 <? length groups)%nat && negb (String.eqb nodeType "all-in-one") then join_with ", " groups else "全部".

Definition member_lines (self n : Node) : list string :=
  ["  " +:+ (if String.eqb (ID n) (ID self) then "*" else " ") +:+ " " +:+ ID n;
   "     地址: " +:+ Addr n +:+ "  类型: " +:+ NType n +:+ "  Group: " +:+ group_text (NType n)].

Definition double_rule : string := "═══════════════════════════════════════════════════════".
Definition single_rule : string := "───────────────────────────────────────────────────────".

Definition printClusterInfo (w : W) : W :=
  let ms := Members w in
  printlns ([double_rule; "  集群成员 (" +:+ itoa (Z.of_nat (length ms)) +:+ " 个节点):"] ++
            (ms ≫= member_lines (Self w)) ++ [double_rule])%list w.

(** How many of the first ten keys of a group are local. *)
Fixpoint local_keys (actorType : string) (keys : list nat) (w : W) : flow nat :=
  match keys with
  | [] => Go 0%nat
  | i :: keys =>
      do! b := IsLocal place actorType (unlit (ToLower (lit actorType)) +:+ "-" +:+ itoa (Z.of_nat i)) w in
      do! n := local_keys actorType keys w in
      Go ((if b : bool then 1 else 0) + n)%nat
  end.

Fixpoint group_lines (self : Node) (groups : list string) (w : W) : flow (list string) :=
  match groups with
  | [] => Go []
  | actorType :: groups =>
      do! line :=
        (if HasGroup groupMapping (NType self) actorType then
           do! n := local_keys actorType (seq 0 10) w in
           Go ("    " +:+ actorType +:+ ": 本地 " +:+ itoa (Z.of_nat n) +:+ "/10")
         else Go ("    " +:+ actorType +:+ ": 不承载")) in
      do! lines := group_lines self groups w in Go (line :: lines)
  end.

Definition printStatus (w : W) : flow W :=
  let self := Self w in
  do! lines := group_lines self ["Player"; "Room"; "Chat"] w in
  Go (printlns ([single_rule; "  节点 ID:   " +:+ ID self; "  节点类型:  " +:+ NType self; "  监听地址:  " +:+ Addr self;
                 "  承载 Group: " +:+ group_text (NType self); "  集群成员:  " +:+ itoa (Z.of_nat (length (Members w)));
                 "  Placement 分布 (前 10 个 key):"] ++ lines ++ [single_rule])%list w).
End info.

(** ** The banner *)
Section banner.
Context {W : Type} `{!NodeWorld W}.

Definition banner_groups (nodeType : string) : string :=
  let groups := default [] (groupMapping !! nodeType) in
  if (0 <? length groups)%nat && negb (String.eqb nodeType "all-in-one") then join_with ", " groups else "所有".

Definition row (label : string) (width : nat) (s : string) : string := "║  " +:+ label +:+ pad width s +:+ " ║".

Definition printBanner (nodeType addr : string) (w : W) : W :=
  printlns ([""; "╔══════════════════════════════════════════════════════╗";
             "║          Actor-Go 异构集群示例                         ║";
             "╠══════════════════════════════════════════════════════╣";
             row "节点 ID:   " 42 (ID (Self w)); row "节点类型:  " 42 nodeType; row "监听地址:  " 42 addr;
             row "承载 Group: " 41 (banner_groups nodeType);
             row "集群成员:  " 41 (itoa (Z.of_nat (length (Members w))));
             "╠══════════════════════════════════════════════════════╣";
             "║  命令:                                                ║"] ++
            on (hosts_players nodeType) ["║    login <id> <hp>    - 创建玩家 (本地)               ║"] ++
            ["║    attack <id> <dmg>  - 攻击玩家                       ║";
             "║    heal <id> <amt>    - 治疗玩家                       ║"] ++
            on (hosts_rooms nodeType) ["║    room <id> <max>    - 创建房间 (本地)               ║"] ++
            ["║    roominfo <id>      - 查询房间                       ║"] ++
            on (hosts_chats nodeType) ["║    chat <ch> <msg>    - 发送消息 (本地)               ║"] ++
            ["║    info               - 集群拓扑                       ║";
             "║    status             - 节点信息                       ║";
             "║    migrate join <t> <a> - 模拟节点加入，触发迁移       ║";
             "║    migrate leave <id>   - 模拟节点离开，触发迁移       ║";
             "║    quit               - 退出                           ║";
             "╚══════════════════════════════════════════════════════╝"; ""])%list w.
End banner.

(** ** The commands *)
Section repl.
Context {W : Type} `{!NodeWorld W, !Unicode, !Backend W aid req rep, !RpcClients W aid req rep, !LeaseForceReleaser W}.
Context (place : PlacementStrategy) (meanwhile : W -> clientPool -> clientPool).

(** The world with the connections of the router. *)
Abbreviation world := (W * clientPool)%type.

Definition say (lines : list string) (x : world) : flow world := Go (printlns lines x.1, x.2).
Definition usage (text : string) (x : world) : flow world := say ["用法: " +:+ text] x.

(** cluster.Post and cluster.Call on the router of the node, which has no options. *)
Definition post (id : aid) (q : req) (done : string) (x : world) : flow world :=
  do! (w, p, err) := Router_Post (R := rep) place meanwhile (NewRouterConfig []) id q x.1 x.2 in
  say [match err with Some e => "错误: " +:+ Error e | None => done end] (w, p).

(** A nil reply is read through; a reply has the type of its request. *)
Definition call (id : aid) (q : req) (done : rep -> option string) (x : world) : flow world :=
  do! (w, p, (reply, err)) := Router_Call (R := rep) place meanwhile (NewRouterConfig []) id q x.1 x.2 in
  match err with
  | Some e => say ["错误: " +:+ Error e] (w, p)
  | None => match reply ≫= done with Some line => say [line] (w, p) | None => Crashed end
  end.

Definition player (openid : text) : aid := APlayer (mkPlayerId 1 (unlit openid)).

Definition login (args : list text) (x : world) : flow world :=
  match args with
  | name :: hp :: _ =>
      let hp := Atoi hp in
      post (player name) (Login hp 1) ("✓ Player " +:+ unlit name +:+ " 已创建 (HP=" +:+ itoa hp +:+ ")") x
  | _ => usage "login <id> <hp>" x
  end.

Definition attack (args : list text) (x : world) : flow world :=
  match args with
  | name :: dmg :: _ =>
      let dmg := Atoi dmg in
      call (player name) (Attack dmg) (fun r =>
        match r with
        | AttackReply hp => Some ("✓ Player " +:+ unlit name +:+ " 受到 " +:+ itoa dmg +:+ " 伤害, 剩余 HP=" +:+ itoa hp)
        | _ => None
        end) x
  | _ => usage "attack <id> <damage>" x
  end.

Definition heal (args : list text) (x : world) : flow world :=
  match args with
  | name :: amt :: _ =>
      let amt := Atoi amt in
      call (player name) (Heal amt) (fun r =>
        match r with
        | HealReply hp => Some ("✓ Player " +:+ unlit name +:+ " 治疗 " +:+ itoa amt +:+ ", 新 HP=" +:+ itoa hp)
        | _ => None
        end) x
  | _ => usage "heal <id> <amount>" x
  end.

Definition room (args : list text) (x : world) : flow world :=
  match args with
  | rid :: max :: _ =>
      let '(rid, max) := (Atoi rid, Atoi max) in
      post (ARoom (mkRoomId rid)) (CreateRoom max) ("✓ Room " +:+ itoa rid +:+ " 已创建 (最大 " +:+ itoa max +:+ " 人)") x
  | _ => usage "room <id> <max_players>" x
  end.

Definition roominfo (args : list text) (x : world) : flow world :=
  match args with
  | rid :: _ =>
      let rid := Atoi rid in
      call (ARoom (mkRoomId rid)) RoomInfo (fun r =>
        match r with
        | RoomInfoReply max => Some ("✓ Room " +:+ itoa rid +:+ " 最大人数=" +:+ itoa max)
        | _ => None
        end) x
  | _ => usage "roominfo <id>" x
  end.

Definition chat (args : list text) (x : world) : flow world :=
  match args with
  | channel :: ((_ :: _) as words) =>
      let '(channel, msg) := (unlit channel, unlit (join_words words)) in
      call (AChat (mkChatId channel)) (SendMessage msg) (fun r =>
        match r with
        | SendMessageReply echo => Some ("✓ [" +:+ channel +:+ "] 发送: " +:+ msg +:+ " → echo: " +:+ echo)
        | _ => None
        end) x
  | _ => usage "chat <channel> <message>" x
  end.

Definition on_world (f : W -> flow W) (x : world) : flow world := do! w := f x.1 in Go (w, x.2).

Definition migrate (args : list text) (x : world) : flow world :=
  match args with
  | [] => usage "migrate join <nodeType> <addr>  或  migrate leave <nodeId>" x
  | sub :: args => on_world (handleMigrate sub args) x
  end.

(** One command; [None] ends the program. *)
Definition command (cmd : string) (args : list text) (x : world) : option (flow world) :=
  match cmd with
  | "login" => Some (login args x)
  | "attack" => Some (attack args x)
  | "heal" => Some (heal args x)
  | "room" => Some (room args x)
  | "roominfo" => Some (roominfo args x)
  | "chat" => Some (chat args x)
  | "info" => Some (Go (printClusterInfo x.1, x.2))
  | "status" => Some (on_world (printStatus place) x)
  | "migrate" => Some (migrate args x)
  | "quit" | "exit" => None
  | _ => Some (say ["未知命令: " +:+ cmd;
                    "可用命令: login, attack, heal, room, roominfo, chat, info, status, migrate, quit"] x)
  end.

Definition prompt (x : world) : world := (Print "> " x.1, x.2).

(** The lines the scanner reads; [true] when the program has been left. *)
Fixpoint repl_lines (lines : list text) (x : world) : flow (world * bool) :=
  match lines with
  | [] => Go (x, false)
  | line :: lines =>
      match Fields (TrimSpace line) with
      | [] => repl_lines lines (prompt x)
      | cmd :: args =>
          match command (unlit (ToLower cmd)) args x with
          | None => Go ((println "再见!" x.1, x.2), true)
          | Some r => do! x := r in repl_lines lines (prompt x)
          end
      end
  end.

Definition repl (lines : list text) (x : world) : flow (world * bool) := repl_lines lines (prompt x).
End repl.
