(* ===== verification/ClusterExampleSpec.v ===== *)
(** * The cluster example: changes of the topology

    What [migrate join] and [migrate leave] do to the member list, and who is told to move
    when the coordinator handles the event: only actors that the joined node takes over,
    and nobody when a node leaves. *)

From Stdlib Require Import Ascii.
From S2P Require Import Prelude ActorTypes Control Rpc Registry Runtime Cluster ClusterSpec Router Text ClusterExample ClusterRepl.


#[local] Arguments printlns : simpl never.
#[local] Arguments join_node : simpl never.

(** ** The member list *)
Definition ids (ms : NodeSet) : list string := ID <$> ms.

(** Distinct IDs, none of them empty, and the node itself is a member. *)
Definition members_ok (d : dynamicMembership) : Prop :=
  NoDup (ids (members d)) /\ (""%string ∉ ids (members d)) /\ self d ∈ members d.

Definition without (id : string) (ms : list Node) : list Node := filter (fun m => ID m <> id) ms.
Definition named (id : string) (ms : list Node) : list Node := filter (fun m => ID m = id) ms.

(** What an event says of the list before it. *)
Definition apply_event (e : MemberEvent) (ms : list Node) : list Node :=
  match EType e with
  | MemberJoined => ms ++ [ENode e]
  | MemberLeft => without (ID (ENode e)) ms
  end.

Definition present (id : string) (ms : NodeSet) : bool := existsb (fun m => String.eqb (ID m) id) ms.

Lemma present_spec id ms : present id ms = true <-> id ∈ ids ms.
Proof.
  unfold present, ids. rewrite existsb_exists, list_elem_of_fmap. split.
  - intros (m & Hm & E%String.eqb_eq). exists m. by rewrite list_elem_of_In.
  - intros (m & -> & Hm). exists m. rewrite <- list_elem_of_In. by rewrite String.eqb_refl.
Qed.

Lemma add_locked_eq n d : add_locked n d =
  if present (ID n) (members d) then (d, None)
  else (mkDM (self d) (members d ++ [n]) (events d), Some (mkMemberEvent MemberJoined n (members d ++ [n]))).
Proof. done. Qed.

Lemma remove_fold id (ms : list Node) : forall r acc,
  foldl (fun '(removed, ms) m => if String.eqb (ID m) id then (m, ms) else (removed, ms ++ [m])) (r, acc) ms =
  (default r (last (named id ms)), acc ++ without id ms).
Proof.
  induction ms as [|m ms IH]; intros r acc; simpl; [by rewrite app_nil_r|].
  destruct (String.eqb_spec (ID m) id) as [E|E]; rewrite IH; unfold named, without; rewrite !filter_cons.
  - rewrite decide_True, decide_False by (done || congruence).
    rewrite last_cons. by destruct (last (filter _ ms)).
  - rewrite decide_False by done. rewrite decide_True by done. by rewrite <- app_assoc.
Qed.

Lemma named_unique id m (ms : list Node) : NoDup (ids ms) -> m ∈ ms -> ID m = id -> named id ms = [m].
Proof.
  intros Hnd Hm <-. induction ms as [|x ms IH]; [by apply elem_of_nil in Hm|].
  unfold ids in Hnd. rewrite fmap_cons, NoDup_cons in Hnd. destruct Hnd as [Hx Hnd]. unfold named in *. rewrite filter_cons.
  apply elem_of_cons in Hm as [->|Hm].
  - rewrite decide_True by done. f_equal.
    destruct (filter _ ms) as [|y l] eqn:F; [done|]. exfalso. apply Hx. apply list_elem_of_fmap.
    assert (y ∈ filter (fun m => ID m = ID x) ms) as Hy by (rewrite F; left).
    apply list_elem_of_filter in Hy as [E Hy]. by exists y.
  - rewrite decide_False; [by apply IH|]. intros E. apply Hx. rewrite E. by apply list_elem_of_fmap_2.
Qed.

Lemma remove_locked_present id d n : members_ok d -> n ∈ members d -> ID n = id ->
  remove_locked id d = (mkDM (self d) (without id (members d)) (events d),
    Some (mkMemberEvent MemberLeft n (without id (members d)))).
Proof.
  intros (Hnd & Hne & _) Hn E. unfold remove_locked. rewrite remove_fold, (named_unique id n) by done. simpl.
  destruct (String.eqb_spec (ID n) ""%string) as [E'|]; [|done].
  exfalso. apply Hne. rewrite <- E'. by apply list_elem_of_fmap_2.
Qed.

Lemma remove_locked_absent id d : id ∉ ids (members d) -> remove_locked id d = (d, None).
Proof.
  intros Hid. unfold remove_locked. rewrite remove_fold.
  destruct (named id (members d)) as [|y l] eqn:F; [done|]. exfalso. apply Hid.
  assert (y ∈ named id (members d)) as [<- Hy]%list_elem_of_filter by (rewrite F; left).
  by apply list_elem_of_fmap_2.
Qed.

Lemma ids_without id ms : ids (without id ms) = filter (fun i => i <> id) (ids ms).
Proof.
  unfold ids, without. induction ms as [|m ms IH]; [done|]. rewrite fmap_cons, !filter_cons.
  destruct (decide (ID m <> id)); by rewrite ?fmap_cons, IH.
Qed.

(** ** One change *)

(** The list after the change is the one the event announces, and the event says what
    changed. *)
Definition announced (d d' : dynamicMembership) (e : MemberEvent) : Prop :=
  events d' = events d ++ [e] /\ ENodes e = members d' /\ members d' = apply_event e (members d) /\
  match EType e with
  | MemberJoined => ID (ENode e) ∉ ids (members d)
  | MemberLeft => ENode e ∈ members d /\ ID (ENode e) <> ID (self d)
  end.

Lemma announced_ok d d' e : members_ok d -> self d' = self d -> announced d d' e -> (ID (ENode e) <> ""%string) -> members_ok d'.
Proof.
  intros (Hnd & Hne & Hself) Es (_ & _ & Em & He) Hid. unfold members_ok. rewrite Em, Es. unfold apply_event.
  destruct (EType e).
  - unfold ids in *. rewrite fmap_app. split; [|split].
    + apply NoDup_app. split; [done|]. split; [|apply NoDup_singleton].
      intros x Hx ->%list_elem_of_singleton. done.
    + rewrite elem_of_app. intros [?|E%list_elem_of_singleton]; done.
    + apply elem_of_app. by left.
  - rewrite ids_without. destruct He as [_ He]. split; [|split].
    + by apply NoDup_filter.
    + by intros [_ ?]%list_elem_of_filter.
    + apply list_elem_of_filter. by split.
Qed.

(** What a command on the member list ends in: it blocks on a full channel, finds nothing
    to do, or announces its change. *)
Definition changed (d : dynamicMembership) (r : flow dynamicMembership) (E : MemberEvent -> Prop) : Prop :=
  r = Blocked /\ 100 <= length (events d) \/ r = Go d \/ exists d' e, r = Go d' /\ self d' = self d /\ announced d d' e /\ E e.

Lemma send_event_cases e d : send_event e d = Blocked /\ 100 <= length (events d) \/
  send_event e d = Go (mkDM (self d) (members d) (events d ++ [e])) /\ length (events d) < 100.
Proof.
  unfold send_event. destruct (Nat.ltb_spec (length (events d)) 100) as [H|H]; [by right|by left].
Qed.

Lemma AddNode_changed n d : changed d (AddNode n d) (fun e => e = mkMemberEvent MemberJoined n (members d ++ [n])).
Proof.
  unfold AddNode. rewrite add_locked_eq. destruct (present (ID n) (members d)) eqn:P; [by right; left|]. simpl.
  match goal with |- context [send_event ?e ?d1] => destruct (send_event_cases e d1) as [[-> ?]|[-> _]] end; [by left|].
  right; right. eexists _, _. repeat split. simpl. rewrite <- present_spec. by rewrite P.
Qed.

Lemma RemoveNode_changed id d : members_ok d -> id <> ID (self d) -> changed d (RemoveNode id d)
  (fun e => EType e = MemberLeft /\ ID (ENode e) = id /\ ENode e ∈ members d).
Proof.
  intros Hok Hid. unfold RemoveNode. destruct (decide (id ∈ ids (members d))) as [H|H].
  - apply list_elem_of_fmap in H as (n & -> & Hn). rewrite (remove_locked_present _ _ n) by done. simpl.
    match goal with |- context [send_event ?e ?d1] => destruct (send_event_cases e d1) as [[-> ?]|[-> _]] end; [by left|].
    right; right. by eexists _, _.
  - rewrite remove_locked_absent by done. by right; left.
Qed.

(** ** The process *)
Class NodeLaws (W : Type) `{!NodeWorld W} : Type := {
  logs : W -> list string;
  mem_set d w : mem (set_mem d w) = d;
  mem_Print s w : mem (Print s w) = mem w;
  mem_Printf s w : mem (Printf s w) = mem w;
  logs_set d w : logs (set_mem d w) = logs w;
  logs_Print s w : logs (Print s w) = logs w;
  logs_Printf s w : logs (Printf s w) = logs w ++ [s];
}.

Section process.
Context {W : Type} `{!NodeWorld W, !NodeLaws W} `{Uni : !Unicode}.

Lemma mem_printlns l w : mem (printlns l w) = mem w.
Proof.
  unfold printlns. revert w. induction l as [|s l IH]; intros w; [done|]. simpl. rewrite IH. apply mem_Print.
Qed.
Lemma logs_printlns l w : logs (printlns l w) = logs w.
Proof.
  unfold printlns. revert w. induction l as [|s l IH]; intros w; [done|]. simpl. rewrite IH. apply logs_Print.
Qed.

(** A [migrate] command leaves the member list alone, or changes it and announces the
    change; nothing is logged. *)
Definition quiet_change (w : W) (r : flow W) (E : MemberEvent -> Prop) : Prop :=
  r = Blocked /\ 100 <= length (events (mem w)) \/ exists w', r = Go w' /\ logs w' = logs w /\ self (mem w') = self (mem w) /\
    (mem w' = mem w \/ exists e, announced (mem w) (mem w') e /\ E e).

Lemma quiet_print l w E : quiet_change w (Go (printlns l w)) E.
Proof. right. eexists. rewrite mem_printlns, logs_printlns. by split_and!; try left. Qed.

Lemma quiet_do s l f w E : changed (mem w) (f (mem w)) E ->
  quiet_change w ((do! w := change f (println s w) in Go (printlns l w))%go) E.
Proof.
  intros H. unfold change, println. rewrite mem_Print. destruct H as [[-> ?]|[->|(d' & e & -> & Es & Ha & He)]]; [by left|right..].
  - eexists. split; [done|]. rewrite logs_printlns, mem_printlns, mem_set, logs_set, logs_Print. by split_and!; try left.
  - eexists. split; [done|]. rewrite logs_printlns, mem_printlns, mem_set, logs_set, logs_Print. split_and!; try done.
    right. by exists e.
Qed.

Lemma join_ID t a : ID (join_node t a) <> ""%string.
Proof. by destruct t. Qed.

Lemma handleMigrate_quiet sub args w : members_ok (mem w) ->
  quiet_change w (handleMigrate sub args w) (fun e => ID (ENode e) <> ""%string).
Proof.
  intros Hok. unfold handleMigrate, Self. destruct (String.eqb _ "join"); [|destruct (String.eqb _ "leave")].
  - destruct args as [|t [|a args]]; [apply quiet_print..|]. apply quiet_do.
    destruct (AddNode_changed (join_node (unlit t) (unlit a)) (mem w)) as [?|[?|(d' & e & ? & ? & ? & ->)]];
      [by left|by right; left|right; right]. eexists _, _. split_and!; try done. apply join_ID.
  - destruct args as [|i args]; [apply quiet_print|].
    destruct (String.eqb_spec (unlit i) (ID (mb_Self w))) as [E|E]; [apply (quiet_print [_])|]. apply quiet_do.
    destruct (RemoveNode_changed (unlit i) (mem w) Hok E) as [?|[?|(d' & e & ? & ? & ? & _ & Ei & Hin)]];
      [by left|by right; left|right; right]. eexists _, _. split_and!; try done.
    intros E'. destruct Hok as (_ & Hne & _). apply Hne. rewrite <- E'. by apply list_elem_of_fmap_2.
  - apply quiet_print.
Qed.

(** ** A run of the process

    The commands of the user and the events the coordinator has received, whose callbacks
    leave the member list alone. *)
Inductive runs : W -> list MemberEvent -> W -> Prop :=
  | runs_refl w : runs w [] w
  | runs_command w evs w1 sub args w2 :
      runs w evs w1 -> handleMigrate sub args w1 = Go w2 -> runs w evs w2
  | runs_receive w evs w1 e es w2 :
      runs w evs w1 -> events (mem w1) = e :: es -> mem w2 = mkDM (self (mem w1)) (members (mem w1)) es ->
      runs w (evs ++ [e]) w2.

(** Every event carries the list it leads to. *)
Fixpoint history (ms : list Node) (evs : list MemberEvent) : Prop :=
  match evs with
  | [] => True
  | e :: evs => ENodes e = apply_event e ms /\ history (apply_event e ms) evs
  end.
Definition replay (ms : list Node) (evs : list MemberEvent) : list Node := foldl (fun ms e => apply_event e ms) ms evs.

Lemma history_snoc ms evs e : history ms (evs ++ [e]) <-> history ms evs /\ ENodes e = apply_event e (replay ms evs).
Proof.
  revert ms. induction evs as [|e0 evs IH]; intros ms; simpl; [tauto|]. rewrite IH. unfold replay. simpl. tauto.
Qed.

(** The member list and its events agree in every run: whatever the user types and
    however far behind the coordinator is, the IDs stay distinct and non-empty, the node
    stays a member, the list is what the events received and still queued make of the first
    one, each of them carries the list it led to, and a command blocks only on a full
    channel. *)
Theorem members_replayed w evs w' : members_ok (mem w) -> events (mem w) = [] -> runs w evs w' ->
  let all := evs ++ events (mem w') in
  members_ok (mem w') /\ self (mem w') = self (mem w) /\
  members (mem w') = replay (members (mem w)) all /\ history (members (mem w)) all /\
  forall sub args, length (events (mem w')) < 100 -> exists w2, handleMigrate sub args w' = Go w2.
Proof.
  intros Hok He Hr. cbn zeta. assert (members_ok (mem w') /\ self (mem w') = self (mem w) /\
    members (mem w') = replay (members (mem w)) (evs ++ events (mem w')) /\ history (members (mem w)) (evs ++ events (mem w'))) as Hinv.
  { induction Hr as [w|w evs w1 sub args w2 Hr IH Hc|w evs w1 e es w2 Hr IH Hq Hm].
    - by rewrite He.
    - destruct (IH Hok He) as (Hok1 & Es & Em & Hh).
      destruct (handleMigrate_quiet sub args w1 Hok1) as [[? _]|(w' & Ew & _ & Es' & [Esame|(e & Ha & Hid)])]; [congruence|..];
        rewrite Hc in Ew; injection Ew as <-.
      + by rewrite Esame.
      + pose proof (announced_ok _ _ _ Hok1 Es' Ha Hid) as Hok2. destruct Ha as (Ev & En & Em' & _).
        rewrite Ev, app_assoc. split_and!; [done|congruence|..].
        * rewrite Em', Em. unfold replay. by rewrite (foldl_app _ _ [e]).
        * apply history_snoc. split; [done|]. by rewrite En, Em', Em.
    - destruct (IH Hok He) as (Hok1 & Es & Em & Hh). rewrite Hq in *. unfold members_ok. rewrite Hm. simpl.
      by rewrite <- app_assoc. }
  destruct Hinv as (Hok' & Hs & Hm & Hh). split_and!; try done. intros sub args Hlen.
  destruct (handleMigrate_quiet sub args w' Hok') as [[_ ?]|(w2 & -> & _)]; [lia|by exists w2].
Qed.
End process.

(** ** Who is told to move *)

(** The actors of a node, with their contexts. *)
Abbreviation context St := (ActorContext aid req Empty_set Empty_set St).
Inductive actor := PlayerA (c : context PlayerState) | RoomA (c : context RoomState) | ChatA (c : context ChatState).

Definition actor_id (a : actor) : aid :=
  match a with PlayerA c => ctx_id c | RoomA c => ctx_id c | ChatA c => ctx_id c end.
Definition group_of (a : actor) : string := match a with PlayerA _ => "Player" | RoomA _ => "Room" | ChatA _ => "Chat" end.
Definition check_of (a : actor) : req := match a with PlayerA _ => CheckPlayer | RoomA _ => CheckRoom | ChatA _ => CheckChat end.
Definition text_of (a : actor) : string :=
  match a with PlayerA c => player_text (state c) | RoomA c => room_text (state c) | ChatA c => chat_text (state c) end.
#[export] Instance req_eq_dec : EqDecision req.
Proof. solve_decision. Defined.

(** The actors that are asked, group by group. *)
Definition asked (q : req) (hosted : list actor) : list actor := filter (fun a => check_of a = q) hosted.
Definition visited (nodeType : string) (hosted : list actor) : list actor :=
  on (hosts_players nodeType) (asked CheckPlayer hosted) ++ on (hosts_rooms nodeType) (asked CheckRoom hosted) ++
  on (hosts_chats nodeType) (asked CheckChat hosted).

(** The placement of every node of the example. *)
Definition strategy : ConsistentHashPlacement := WithGroupMapping groupMapping (NewConsistentHashPlacement 128).
Definition owner `{SortSlice} (ms : list Node) (a : actor) : option Node :=
  Place strategy (group_of a) (aid_String (actor_id a)) ms.

Section verdicts.
Context {W : Type} `{!NodeWorld W, !NodeLaws W} `{Uni : !Unicode} `{Srt : SortSlice} `{!Backend W aid req rep}.

(** The handler an actor runs when it is asked. *)
Definition visit (a : actor) (w : W) : W :=
  match a with
  | PlayerA c => (run_handler (UserCode := player_code (Place strategy)) TCheckPlayer w c (UserReq CheckPlayer) false).1.1
  | RoomA c => (run_handler (UserCode := room_code (Place strategy)) TCheckRoom w c (UserReq CheckRoom) false).1.1
  | ChatA c => (run_handler (UserCode := chat_code (Place strategy)) TCheckChat w c (UserReq CheckChat) false).1.1
  end.

(** A broadcast of the manager reaches the actors of its group, one after the other. *)
Class BroadcastVisits (hosted : list actor) : Prop :=
  broadcast_visits : forall q w, notify q w = foldl (fun w a => visit a w) w (asked q hosted).

(** What an actor logs when [owner] answers with [n]. *)
Definition line (selfID : string) (n : Node) (a : actor) : string :=
  if String.eqb (ID n) "" || String.eqb (ID n) selfID then stays_on (group_of a) (aid_String (actor_id a)) selfID
  else moves_to (group_of a) (aid_String (actor_id a)) (ID n) (text_of a).

Lemma checkOwnership_logs {St} (c : context St) place group (f : St -> string) w n :
  place group (aid_String (ctx_id c)) (members (mem w)) = Some n ->
  checkOwnership place group f w c =
    (Printf (if String.eqb (ID n) "" || String.eqb (ID n) (ID (self (mem w)))
             then stays_on group (aid_String (ctx_id c)) (ID (self (mem w)))
             else moves_to group (aid_String (ctx_id c)) (ID n) (f (state c))) w, c, Done ok).
Proof.
  intros Hn. unfold checkOwnership, bind, me, asks, self_id, ret, CheckOwnership, dm_Members, dm_Self. simpl.
  unfold bind. simpl. rewrite Hn. simpl. by destruct (String.eqb (ID n) ""), (String.eqb (ID n) (ID (self (mem w)))).
Qed.

Lemma visit_logs a w n : owner (members (mem w)) a = Some n ->
  visit a w = Printf (line (ID (self (mem w))) n a) w.
Proof.
  unfold owner, line. intros Hn.
  destruct a as [c|c|c]; simpl in *; unfold handleCheckPlayer, handleCheckRoom, handleCheckChat;
    by rewrite (checkOwnership_logs c _ _ _ _ n Hn).
Qed.

(** A round of questions logs one line for each actor. *)
Lemma visits_log (f : actor -> Node) as_ w : (forall a, a ∈ as_ -> owner (members (mem w)) a = Some (f a)) ->
  let w' := foldl (fun w a => visit a w) w as_ in
  mem w' = mem w /\ logs w' = logs w ++ ((fun a => line (ID (self (mem w))) (f a) a) <$> as_).
Proof.
  revert w. induction as_ as [|a as_ IH]; intros w H; simpl; [by rewrite app_nil_r|].
  rewrite (visit_logs a w (f a)) by (apply H; left).
  destruct (IH (Printf (line (ID (self (mem w))) (f a) a) w)) as [Em El].
  { intros b Hb. rewrite mem_Printf. apply H. by right. }
  rewrite Em, El, mem_Printf, logs_Printf. by rewrite <- app_assoc.
Qed.

Lemma coordinator_visits hosted `{!BroadcastVisits hosted} nodeType e w :
  Run notify (start_coordinator nodeType) [Event (Some e)] w = foldl (fun w a => visit a w) w (visited nodeType hosted).
Proof.
  unfold visited, start_coordinator. simpl.
  destruct (hosts_players nodeType), (hosts_rooms nodeType), (hosts_chats nodeType); simpl; unfold handleEvent; simpl;
    rewrite ?(broadcast_visits (hosted := hosted)), ?app_nil_r, ?foldl_app; done.
Qed.

Lemma visited_hosted nodeType hosted a : a ∈ visited nodeType hosted -> a ∈ hosted.
Proof.
  unfold visited, asked, on. rewrite !elem_of_app.
  intros [H|[H|H]]; case_match; try (by apply elem_of_nil in H); by apply list_elem_of_filter in H as [_ ?].
Qed.

Lemma collision_free_sub v ms ms' : (forall n, n ∈ ms' -> n ∈ ms) -> collision_free v ms -> collision_free v ms'.
Proof.
  intros Hsub Hcf e e' He He'. apply Hcf; apply ring_entry_node; [apply ring_entry_node in He as [? ?]|apply ring_entry_node in He' as [? ?]];
    split; try done; by apply Hsub.
Qed.

(** The node an actor sits on keeps it, unless another node of the new list takes it over. *)
Lemma owner_keeps a ms ms' self : (self ∈ ms) -> ID self <> ""%string -> collision_free 128 ms' ->
  (forall n, n ∈ ms -> n ∈ ms') -> owner ms a = Some self -> exists n, owner ms' a = Some n /\ (n ∈ ms' ) /\ (n ∈ ms -> n = self).
Proof.
  unfold owner. intros Hself Hid Hcf Hsub Ho. set (at_ := group_of a) in *.
  assert (filterEligible strategy at_ ms <> []) as Hne.
  { intros E. unfold Place in Ho. rewrite E in Ho. destruct ms; injection Ho as <-; by apply Hid. }
  assert (exists x, x ∈ filterEligible strategy at_ ms) as [x Hx].
  { destruct (filterEligible strategy at_ ms) as [|x l]; [done|]. exists x. left. }
  pose proof (filterEligible_mono strategy at_ ms' ms x Hsub Hx) as Hx'.
  assert (filterEligible strategy at_ ms' <> []) as Hne' by (intros E; rewrite E in Hx'; by apply elem_of_nil in Hx').
  destruct (Place_total strategy eq_refl at_ (aid_String (actor_id a)) ms') as [n Hn]. exists n. split; [done|].
  destruct (Place_in strategy eq_refl at_ _ ms' n Hne' Hn) as (_ & _ & Hin & _ & _). split; [done|]. intros Hn_.
  symmetry. apply (Place_step strategy eq_refl at_ (aid_String (actor_id a)) ms' ms n self); try done.
  eapply collision_free_sub; [|exact Hcf]. intros y Hy. by eapply filterEligible_subset.
Qed.

Lemma owner_stays a ms ms' self : collision_free 128 ms -> ID self <> ""%string -> (forall n, n ∈ ms' -> n ∈ ms) ->
  owner ms a = Some self -> self ∈ ms' -> owner ms' a = Some self.
Proof.
  unfold owner. intros Hcf Hid Hsub Ho Hself. set (at_ := group_of a) in *.
  assert (filterEligible strategy at_ ms <> []) as Hne.
  { intros E. unfold Place in Ho. rewrite E in Ho. destruct ms; injection Ho as <-; by apply Hid. }
  destruct (Place_total strategy eq_refl at_ (aid_String (actor_id a)) ms') as [n Hn]. rewrite Hn. f_equal.
  eapply (Place_step strategy eq_refl); [|exact Hsub|exact Hne|exact Ho|exact Hn|exact Hself].
  eapply collision_free_sub; [|exact Hcf]. intros y Hy. by eapply filterEligible_subset.
Qed.

(** *** The change the user asks for *)
Inductive topo := Joins (nodeType addr : string) | Leaves (nodeID : string).

Definition topo_sub (t : topo) : text := match t with Joins _ _ => lit "join" | Leaves _ => lit "leave" end.
Definition topo_args (t : topo) : list text := match t with Joins ty a => [lit ty; lit a] | Leaves i => [lit i] end.

(** It changes something: the ID is new, or it is the one of another member. *)
Definition topo_ok (t : topo) (d : dynamicMembership) : Prop :=
  match t with
  | Joins ty a => ID (join_node ty a) ∉ ids (members d)
  | Leaves i => i ∈ ids (members d) /\ i <> ID (self d)
  end.

Definition topo_members (t : topo) (ms : list Node) : list Node :=
  match t with Joins ty a => ms ++ [join_node ty a] | Leaves i => without i ms end.

Definition larger (t : topo) (ms : list Node) : list Node :=
  match t with Joins _ _ => topo_members t ms | Leaves _ => ms end.

(** Whom an actor should log as the node to move to. *)
Definition verdict (t : topo) (d : dynamicMembership) (a : actor) : string :=
  let stay := stays_on (group_of a) (aid_String (actor_id a)) (ID (self d)) in
  match t with
  | Joins ty addr =>
      let n := join_node ty addr in
      if decide (owner (topo_members t (members d)) a = Some n)
      then moves_to (group_of a) (aid_String (actor_id a)) (ID n) (text_of a) else stay
  | Leaves _ => stay
  end.

Lemma unlit_lit s : unlit (lit s) = s.
Proof. apply String.string_of_list_ascii_of_string. Qed.

Lemma topo_command t w : members_ok (mem w) -> topo_ok t (mem w) -> length (events (mem w)) < 100 ->
  exists w1 e, handleMigrate (topo_sub t) (topo_args t) w = Go w1 /\ logs w1 = logs w /\ self (mem w1) = self (mem w) /\
    events (mem w1) = events (mem w) ++ [e] /\ members (mem w1) = topo_members t (members (mem w)).
Proof.
  intros Hok Ht Hlen. unfold handleMigrate, topo_sub, topo_args, change, println, AddNode, RemoveNode, Self. destruct t as [ty a|i]; simpl in *.
  - rewrite !unlit_lit, mem_Print, add_locked_eq.
    destruct (present _ _) eqn:P; [by apply present_spec in P|]. simpl.
    match goal with |- context [send_event ?e ?d1] => destruct (send_event_cases e d1) as [[_ H]|[-> _]] end; [simpl in H; lia|].
    eexists _, _. split; [done|]. by rewrite logs_printlns, mem_printlns, mem_set, logs_set, logs_Print.
  - destruct Ht as [Hin Hi]. rewrite unlit_lit. destruct (String.eqb_spec i (ID (dm_Self (mem w)))) as [E|_]; [done|].
    apply list_elem_of_fmap in Hin as (n & -> & Hn). rewrite mem_Print, (remove_locked_present _ _ n) by done. simpl.
    match goal with |- context [send_event ?e ?d1] => destruct (send_event_cases e d1) as [[_ H]|[-> _]] end; [simpl in H; lia|].
    eexists _, _. split; [done|]. by rewrite logs_printlns, mem_printlns, mem_set, logs_set, logs_Print.
Qed.

Lemma topo_owner t d a : members_ok d -> topo_ok t d -> collision_free 128 (larger t (members d)) ->
  owner (members d) a = Some (self d) ->
  exists n, owner (topo_members t (members d)) a = Some n /\ line (ID (self d)) n a = verdict t d a.
Proof.
  intros (_ & Hne & Hself) Ht Hcf Hown.
  assert (ID (self d) <> ""%string) as Hid.
  { intros E. apply Hne. rewrite <- E. by apply list_elem_of_fmap_2. }
  assert (forall ty addr, t = Joins ty addr -> ID (join_node ty addr) <> ID (self d)) as Hnew.
  { intros ty addr -> E. unfold topo_ok in Ht. rewrite E in Ht. by apply Ht, list_elem_of_fmap_2. }
  unfold verdict, line. destruct t as [ty addr|i]; simpl in *.
  - destruct (owner_keeps a (members d) (members d ++ [join_node ty addr]) (self d)) as (n & Hn & Hin & Hold);
      [done|done|done|by intros n Hn; apply elem_of_app; left|done|]. exists n. rewrite Hn. split; [done|].
    apply elem_of_app in Hin as [Hin| ->%list_elem_of_singleton].
    + rewrite (Hold Hin), String.eqb_refl, orb_true_r. rewrite decide_False; [done|].
      intros E%(inj Some). apply (Hnew ty addr eq_refl). by apply (f_equal ID (eq_sym E)).
    + rewrite decide_True by done. destruct (String.eqb_spec (ID (join_node ty addr)) (ID (self d))) as [E|_].
      * by destruct (Hnew ty addr eq_refl).
      * pose proof (join_ID ty addr) as Hj. apply String.eqb_neq in Hj. by rewrite Hj.
  - exists (self d). split; [|by rewrite String.eqb_refl, orb_true_r].
    apply (owner_stays a (members d)); try done.
    + intros n Hn. by apply list_elem_of_filter in Hn as [_ ?].
    + apply list_elem_of_filter. split; [|done]. intros E. apply Ht. by rewrite E.
Qed.

End verdicts.

(** ** The groups of a node *)

(** What a type of node serves is what the mapping says, so a node that the placement
    picks for an actor serves the group of the actor. *)
Theorem mapping_served nodeType actorType : is_Some (groupMapping !! nodeType) ->
  (actorType ∈ (start_groups nodeType).*1.*1 <-> HasGroup groupMapping nodeType actorType = true).
Proof.
  intros [gs Hg]. unfold groupMapping in Hg.
  assert (nodeType ∈ ["player-server"; "room-server"; "chat-server"; "all-in-one"]%string) as Hin.
  { repeat (apply lookup_insert_Some in Hg as [[<- _]|[_ Hg]]; [rewrite !elem_of_cons; tauto|]). apply lookup_singleton_Some in Hg as [<- _]. rewrite !elem_of_cons. tauto. }
  clear gs Hg. unfold HasGroup. rewrite !elem_of_cons, elem_of_nil in Hin.
  destruct Hin as [->|[->|[->|[->|[]]]]]; vm_compute (_ !! _); simpl; by rewrite bool_decide_eq_true.
Qed.

Corollary placed_where_served `{SortSlice} ms actorType actorId n :
  Place strategy actorType actorId ms = Some n -> n <> no_node -> is_Some (groupMapping !! NType n) ->
  actorType ∈ (start_groups (NType n)).*1.*1.
Proof.
  intros Hp Hn Hk. apply mapping_served; [done|].
  assert (filterEligible strategy actorType ms <> []) as Hne.
  { intros E. unfold Place in Hp. rewrite E in Hp. by destruct ms; injection Hp as <-. }
  destruct (Place_in strategy eq_refl actorType actorId ms n Hne Hp) as (_ & _ & _ & Hel & _).
  unfold filterEligible, FilterByGroup in Hel. simpl in Hel.
  destruct ms; [by apply elem_of_nil in Hel|]. by apply list_elem_of_filter in Hel as [? _].
Qed.

(** A seed given twice is a member twice, although [AddNode] refuses a second node of the
    same ID. *)
Remark seed_twice : ids (start_members "player-server-a" "player-server" "a" "b, b").2 =
  ["player-server-a"; "player-server-b"; "player-server-b"]%string.
Proof. reflexivity. Qed.

(** * Witnesses *)
Module ClusterExampleWitness.
Import ClusterWitness.

#[local] Instance ascii_only : Unicode := id.

Record proc := mkProc { p_mem : dynamicMembership; p_log : list string; p_out : list string }.

#[local] Instance proc_world : NodeWorld proc := {|
  mem := p_mem;
  set_mem d w := mkProc d (p_log w) (p_out w);
  Printf s w := mkProc (p_mem w) (p_log w ++ [s]) (p_out w);
  Print s w := mkProc (p_mem w) (p_log w) (p_out w ++ [s]);
|}.

#[local] Instance proc_laws : NodeLaws proc.
Proof. by exists p_log. Defined.

Definition player_at (name : string) (hp : Z) : actor :=
  PlayerA (SetState (mkPlayerState hp 1) (newActorContext (mkPlayerState 0 0) (APlayer (mkPlayerId 1 name)))).
Definition hosted : list actor := [player_at "alice" 100; player_at "p0" 80].

#[local] Instance proc_backend : Backend proc aid req rep := {|
  mgr_Post w _ _ := (w, None);
  mgr_Call w _ _ := (w, (None, None));
  mgr_Broadcast w q := (foldl (fun w a => visit a w) w (asked q hosted), (length (asked q hosted), None));
  mgr_Multicast w _ _ := (w, ([], None));
|}.

#[local] Instance proc_visits : BroadcastVisits hosted.
Proof. done. Defined.

Definition me : Node := mkNode "player-server-localhost:8001" "localhost:8001" "player-server" ∅.
Definition start : proc :=
  mkProc (newDynamicMembership me (start_members "player-server-localhost:8001" "player-server" "localhost:8001" "localhost:8003").2) [] [].

Lemma start_ok : members_ok (mem start).
Proof.
  split_and!.
  - apply (bool_decide_unpack (NoDup _)). vm_compute. exact I.
  - apply (bool_decide_unpack (not (_ ∈ _))). vm_compute. exact I.
  - left.
Qed.

Definition join : topo := Joins "player-server" "localhost:8005".

Lemma join_no_collision : collision_free 128 (larger join (members (p_mem start))).
Proof. apply collision_free_dec. apply (bool_decide_unpack (NoDup _)). vm_compute. exact I. Qed.


(** A join, the event received, and the node leaving again. *)
Definition typed (sub : text) (args : list text) (w : proc) : proc :=
  match handleMigrate sub args w with Go w' => w' | Crashed | Blocked => w end.
Definition w1 : proc := typed (lit "join") (topo_args join) start.
Definition w2 : proc := mkProc (mkDM (self (p_mem w1)) (members (p_mem w1)) []) (p_log w1) (p_out w1).
Definition w3 : proc := typed (lit "leave") [lit "player-server-localhost:8005"] w2.
Definition came : MemberEvent := mkMemberEvent MemberJoined (join_node "player-server" "localhost:8005") (members (p_mem w1)).

Lemma members_replayed_witness : runs start [came] w3 /\ length ([came] ++ events (p_mem w3)) = 2 /\
  members (p_mem w3) = replay (members (p_mem start)) ([came] ++ events (p_mem w3)) /\ members (p_mem w3) = members (p_mem start).
Proof.
  assert (runs start [came] w3) as Hr.
  { eapply runs_command with (w1 := w2) (sub := lit "leave") (args := [lit "player-server-localhost:8005"]); [|vm_compute; reflexivity].
    apply (runs_receive start [] w1 came []); [|vm_compute; reflexivity|reflexivity].
    eapply runs_command with (sub := lit "join") (args := topo_args join); [apply runs_refl|vm_compute; reflexivity]. }
  destruct (members_replayed start [came] w3 start_ok eq_refl Hr) as (_ & _ & Hm & _).
  split; [exact Hr|]. split; [vm_compute; reflexivity|]. split; [exact Hm|vm_compute; reflexivity].
Defined.
End ClusterExampleWitness.
