(* ===== verification/Script.v ===== *)
(** * Scripts: what the main functions of the examples share

    The terminal and the clock of the process, and a call whose answer is printed. A
    script is a function of the world that crashes when it reads through a nil reply. *)

From S2P Require Import Prelude ActorTypes Rpc Runtime Text.

Local Open Scope string_scope.

Class Terminal (W : Type) : Type := {
  Print : string -> W -> W;
  Sleep : Z -> W -> W;
}.

Definition show_bool (b : bool) : string := if b then "true" else "false".

Section script.
Context {W I U R : Type} `{!Terminal W, !Backend W I U R}.

Definition println (s : string) (w : W) : W := Print (s +:+ newline) w.
Definition title (s : string) (w : W) : W := println (newline +:+ s) w.

(** The answer of a call: the line for its error, or the one for its reply. *)
Definition show_answer (failed : string) (done : R -> option string) (x : W * (option R * option error)) : flow W :=
  let '(w, (reply, err)) := x in
  match err with
  | Some e => Go (println (failed +:+ Error e) w)
  | None => match reply ≫= done with Some line => Go (println line w) | None => Crashed end
  end.

(** A post whose error is dropped. *)
Definition post_ (id : I) (q : U) (w : W) : W := (mgr_Post w id q).1.
Definition call_ (id : I) (q : U) (failed : string) (done : R -> option string) (w : W) : flow W :=
  show_answer failed done (mgr_Call w id q).
End script.
