(* ===== verification/GrainExample.v ===== *)
(** * The grain example

    cmd/grain_example/main.go: a player whose data is kept in a JSON file between its
    activations. The handlers are programs of Act on the state of a grain; [main] is the
    script that calls them. Logging is left out. *)

From S2P Require Import Prelude ActorTypes Control Rpc Registry Runtime Lease FileDriver Grain Text Script.
From S2P Require Export Act.

Local Open Scope string_scope.

(** ** Identifiers, requests and replies *)
Record PlayerId := mkPlayerId { ServerId : Z; OpenId : string }.

#[export] Instance PlayerId_eq_dec : EqDecision PlayerId.
Proof. solve_decision. Defined.
#[export] Instance PlayerId_countable : Countable PlayerId.
Proof.
  apply (inj_countable' (fun p => (ServerId p, OpenId p)) (fun '(s, o) => mkPlayerId s o)). by intros [].
Defined.

Definition PlayerId_String (id : PlayerId) : string :=
  "GrainPlayer(" +:+ FormatInt (ServerId id) +:+ "," +:+ OpenId id +:+ ")".

#[export] Instance PlayerId_ActorId : ActorId PlayerId :=
  {| ActorType _ := "GrainPlayer"; String := PlayerId_String; zero_id := mkPlayerId 0 "" |}.

Record PlayerData := mkPlayerData { HP : Z; Level : Z }.

Inductive req := Login (InitHP InitLevel : Z) | Attack (Damage : Z) | SaveAndQuit | ForceSave.
Inductive rep := OkRep | AttackReply (RemainingHP : Z) (Alive : bool) | SaveReply (HP : Z).

Inductive reqT := TLogin | TAttack | TSaveAndQuit | TForceSave.

#[export] Instance reqT_eq_dec : EqDecision reqT.
Proof. solve_decision. Defined.

Definition req_type (q : req) : reqT :=
  match q with Login _ _ => TLogin | Attack _ => TAttack | SaveAndQuit => TSaveAndQuit | ForceSave => TForceSave end.
Definition req_ReqType (t : reqT) : string :=
  match t with TLogin => "Login" | TAttack => "Attack" | TSaveAndQuit => "SaveAndQuit" | TForceSave => "ForceSave" end.

#[export] Instance grain_Requests : Requests reqT req PlayerId :=
  {| user_type := req_type; user_ReqType := req_ReqType; user_id0 _ := mkPlayerId 0 "" |}.

(** ** Handlers *)
Abbreviation hres := (hres rep).
Definition ok : hres := (Some OkRep, None).

Local Open Scope act_scope.

Section handlers.
Context {W Dr UH UC : Type} `{!Driver Dr W PlayerData}.
Abbreviation GrainState := (Grain.State Dr PlayerData (ShotSelf PlayerData)).
Abbreviation act := (act PlayerId req W (grainHook UH) (grainCB UC) GrainState).

(** [ctx.State().Data] *)
Definition data {A} (f : PlayerData -> A) : act A := gets (fun s => f (Data s)).
Definition update (f : PlayerData -> PlayerData) : act unit := modify (fun s => set_Data (f (Data s)) s).

(** The activation callback. *)
Definition onActivate (created : bool) : act (option error) :=
  when created (update (fun d => mkPlayerData 100 1)) ;; ret None.

Definition handleLogin (InitHP InitLevel : Z) : act hres :=
  let* hp := data HP in
  when (hp =? 0)%Z (update (fun _ => mkPlayerData InitHP InitLevel)) ;;
  ret ok.

Definition hit (damage : Z) (d : PlayerData) : PlayerData := mkPlayerData (wrap64 (HP d - damage)) (Level d).

Definition handleAttack (Damage : Z) : act hres :=
  update (hit Damage) ;;
  let* hp := data HP in
  ret (Some (AttackReply hp (0 <? hp)%Z), None).

Definition handleSaveAndQuit : act hres := quit ;; ret ok.

(** [Persist] of the grain; its error is dropped. *)
Definition save : act unit := fun w c =>
  let '(w1, c1, r) := Persist w c in
  (w1, c1, match r with Returns _ => Done tt | Panics v => Panicked v end).

Definition handleForceSave : act hres :=
  save ;;
  let* hp := data HP in
  ret (Some (SaveReply hp), None).

Definition handle (q : req) : act hres :=
  match q with
  | Login hp lv => handleLogin hp lv
  | Attack d => handleAttack d
  | SaveAndQuit => handleSaveAndQuit
  | ForceSave => handleForceSave
  end.

End handlers.

(** ** The player as a grain *)
#[export] Instance player_grain {W Dr} `{!Driver Dr W PlayerData} :
    GrainUser (W := W) (I := PlayerId) (Q := req) (R := rep) (Dr := Dr) (D := PlayerData) (UH := Empty_set) (UC := Empty_set)
      (T := ShotSelf PlayerData) req reqT := {|
  user_handler := dispatch (fun q _ => handle q);
  user_hook h w c := match (h : Empty_set) with end;
  user_callback cb w c := match (cb : Empty_set) with end;
  user_close _ w := w;
  zero_data := mkPlayerData 0 0;
  zero_snap := mkShotSelf;
|}.

#[export] Instance player_activate {W Dr UH UC} :
    ActivateCode (W := W) (I := PlayerId) (Q := req) (Dr := Dr) (D := PlayerData) (UH := UH) (UC := UC)
      (T := ShotSelf PlayerData) (UA := unit) :=
  fun _ w c created => let '(w1, c1, r) := onActivate created w c in (w1, c1, spawn_return r).

(** ** setupGrainPlayer *)
Section setup.
Context {Dr : Type}.
Abbreviation setup := (GrainSetup (Dr := Dr) (T := ShotSelf PlayerData) (UA := unit)).

Definition grain_setup (pm : PersistenceManager Dr) : setup := mkSetup (Some pm) mkShotSelf (Some tt).

(** The handlers are known by the request type they serve; the mailbox holds 100. *)
Definition player_registry (pm : PersistenceManager Dr) : Registry.RegistryBuilder reqT reqT setup :=
  let b := SetupGrain NewRegistryBuilder (Some pm) mkShotSelf (Some tt) in
  let b := RegisterSpawn b (TUser TLogin) TLogin in
  let b := RegisterQuery b (TUser TAttack) TAttack in
  let b := RegisterQuery b (TUser TSaveAndQuit) TSaveAndQuit in
  RegisterQuery b (TUser TForceSave) TForceSave.

Definition manager (NewJsonDriver : string -> Dr) : PersistenceManager Dr :=
  NewPersistenceManager
    [WithDriver (Some (NewJsonDriver "./grain_data")); WithNodeId "node-1"; WithAutoPersistInterval (5 * Second)].
End setup.

(** ** main

    The requests go to the manager; the errors of the posts are dropped. *)
Section main.
Context {W : Type} `{!Terminal W, !Backend W PlayerId req rep} (RemoveAll : string -> W -> W).

Definition post_and_wait (id : PlayerId) (q : req) (w : W) : W := Sleep (200 * Millisecond) (post_ (R := rep) id q w).

Definition main (w : W) : flow W :=
  let player := mkPlayerId 1 "alice" in
  let w := println "=== 1. Spawn (activate) ===" w in
  let w := post_and_wait player (Login 100 1) w in
  let w := title "=== 2. Call: Attack ===" w in
  (do! w := call_ player (Attack 30) "Attack error: " (fun r =>
     match r with
     | AttackReply hp alive => Some ("After attack: remainingHP=" +:+ FormatInt hp +:+ ", alive=" +:+ show_bool alive)
     | _ => None
     end) w in
   let w := title "=== 3. Call: Force Save ===" w in
   do! w := call_ player ForceSave "ForceSave error: " (fun r =>
     match r with SaveReply hp => Some ("Saved state: HP=" +:+ FormatInt hp) | _ => None end) w in
   let w := title "=== 4. Deactivate ===" w in
   let w := post_and_wait player SaveAndQuit w in
   let w := title "=== 5. Re-activate (load from disk) ===" w in
   let w := post_and_wait player (Login 999 99) w in
   do! w := call_ player (Attack 0) "Attack error: " (fun r =>
     match r with AttackReply hp _ => Some ("After re-activation: HP=" +:+ FormatInt hp) | _ => None end) w in
   let w := post_and_wait player SaveAndQuit w in
   Go (RemoveAll "./grain_data" (title "=== Done ===" w)))%go.
End main.
