(* ===== verification/GrainExampleSpec.v ===== *)
(** * The grain example refines a player that is never unloaded

    Messages handled by the goroutine of the player, activations and deactivations
    included, against the data of one player in memory and on disk. *)

From Stdlib Require Import Ascii.
From S2P Require Import Prelude ActorTypes Control Registry Runtime Lease FileDriver FileSpec Grain GrainSpec GrainExample.

(** ** The specification: what is stored, and what is live *)
Record game := mkGame { stored : option PlayerData; live : option PlayerData }.

Definition new_player : PlayerData := mkPlayerData 100 1.
Definition greet (hp lv : Z) (d : PlayerData) : PlayerData := if (HP d =? 0)%Z then mkPlayerData hp lv else d.

Definition play (g : game) (q : req) : game :=
  match q, live g with
  | Login hp lv, None => mkGame (stored g) (Some (greet hp lv (default new_player (stored g))))
  | Attack n, Some d => mkGame (stored g) (Some (mkPlayerData (wrap64 (HP d - n)) (Level d)))
  | ForceSave, Some d => mkGame (Some d) (Some d)
  | SaveAndQuit, Some d => mkGame (Some d) None
  | _, _ => g
  end.

(** What the goroutine handles: requests, and the timer that saves, which acts only as
    long as it runs. *)
Inductive event := Posted (q : req) | Timed (id : Z) (t : nat).

Inductive plays : game -> event -> game -> Prop :=
  | plays_post g q : plays g (Posted q) (play g q)
  | plays_late g i t : plays g (Timed i t) g
  | plays_save g i t d : live g = Some d -> plays g (Timed i t) (mkGame (Some d) (Some d)).

Inductive plays_all : game -> list event -> game -> Prop :=
  | plays_none g : plays_all g [] g
  | plays_cons g e g1 evs g2 : plays g e g1 -> plays_all g1 evs g2 -> plays_all g (e :: evs) g2.

(** Seen from outside, a player is live or not, and has data; where the data is kept makes
    no difference: saving and unloading leave it alone. *)
Definition view (g : game) : bool * option PlayerData :=
  match live g with Some d => (true, Some d) | None => (false, stored g) end.

Definition view_play (v : bool * option PlayerData) (q : req) : bool * option PlayerData :=
  match q, v with
  | Login hp lv, (false, d) => (true, Some (greet hp lv (default new_player d)))
  | Attack n, (true, d) => (true, (fun d => mkPlayerData (wrap64 (HP d - n)) (Level d)) <$> d)
  | SaveAndQuit, (true, d) => (false, d)
  | _, _ => v
  end.

Definition posted (evs : list event) : list req := omap (fun e => match e with Posted q => Some q | Timed _ _ => None end) evs.

Lemma plays_view g evs g1 : plays_all g evs g1 -> view g1 = foldl view_play (view g) (posted evs).
Proof.
  induction 1 as [g|g e g1 evs g2 H _ IH]; [done|]. rewrite IH. clear IH. unfold posted. destruct H as [g q|g i t|g i t d Hl]; simpl.
  - f_equal. unfold view, play. destruct (live g) as [d|] eqn:E; destruct q; simpl; by rewrite ?E.
  - done.
  - f_equal. unfold view. simpl. by rewrite Hl.
Qed.

Section GrainExampleSpec.
Context (Join : list string -> string) (Dir : string -> string).
Context `{!Json PlayerData, !JsonLaws PlayerData} `{!Poster disk PlayerId req rep}.
Context (Hzero : json_zero = mkPlayerData 0 0) (Hmarshal : forall p, exists r, json_Marshal p = inl r).

#[local] Instance files_driver : Driver JsonDriver disk PlayerData := json_driver Join Dir.

Definition pm : PersistenceManager JsonDriver := manager NewJsonDriver.
Definition path (id : PlayerId) : string := filePath Join (NewJsonDriver "./grain_data") "GrainPlayer" (PlayerId_String id).

Abbreviation ctx := (ActorContext PlayerId req (grainHook Empty_set) (grainCB Empty_set) (Grain.State JsonDriver PlayerData (ShotSelf PlayerData))).
Abbreviation msg := (invokable reqT req reqT (grainCB Empty_set)).

(** A request posted to the player: its entry is the one of the registry. *)
Definition post (q : req) : msg :=
  match findHandler (handlers (player_registry pm)) (req_ReqType (req_type q)) with
  | Some h => MInvoke (mkInvoke (mkFrom "" "") h (UserReq q) None false)
  | None => MClose
  end.

(** The context of a live player. *)
Definition playing (id : PlayerId) (l : LeaseInfo) (d : PlayerData) (c : ctx) : Prop :=
  ctx_id c = id /\ active (ctrl c) = true /\ state c = mkState d (Some l) (Some pm) mkShotSelf /\
  OnQuit (ctrl c) = [QuitHook] /\ postpone (ctrl c) = [].

Definition on_disk (id : PlayerId) (p : option PlayerData) (w : disk) : Prop :=
  healthy w /\ match p with Some p => exists g, saved (path id) g p w | None => files w !! path id = None end.

Definition simulates (id : PlayerId) (g : game) (b : bstate disk rep) (c : option ctx) : Prop :=
  on_disk id (stored g) (bw b) /\
  match live g, c with
  | Some d, Some c => exists l, playing id l d c
  | None, None => True
  | _, _ => False
  end.

Definition message (e : event) : msg := match e with Posted q => post q | Timed i t => MTimer (mkStub (FnUser AutoPersist) i t) end.

(** ** One step of the goroutine *)

(** The lease of a live player, for the lemmas on persisting. *)
Lemma playing_leased id l d c : playing id l d c -> leased c (NewJsonDriver "./grain_data") "node-1" l.
Proof. intros (_ & _ & Hs & _ & _). exists pm. by rewrite Hs. Qed.

Lemma saves canceled id l d c w : healthy w -> playing id l d c ->
  exists w', persist canceled w c = (w', c, Returns None) /\ on_disk id (Some d) w'.
Proof.
  intros Hw Hp. pose proof (persist_leased canceled w c _ _ l (playing_leased _ _ _ _ Hp)) as H.
  destruct Hp as (Hi & _ & Hs & _ & _). destruct c as [i a st]. simpl in *. subst i st. simpl in H. destruct H as [H _].
  destruct (Hmarshal d) as [r Hr].
  destruct (Save_saved Join Dir (NewJsonDriver "./grain_data") w "GrainPlayer" (PlayerId_String id) d (Generation l) r Hw Hr)
    as (w' & Hsave & Hw' & Hsaved).
  exists w'. rewrite H. cbn [driver_Save files_driver json_driver]. rewrite Hsave. split; [done|]. split; [done|]. by eexists.
Qed.

Definition is_login (q : req) : bool := match q with Login _ _ => true | _ => false end.

Lemma post_eq q : post q = MInvoke (mkInvoke (mkFrom "" "")
  (mkEntry (TUser (req_type q)) (req_ReqType (req_type q)) (is_login q) (negb (is_login q)) (req_type q)) (UserReq q) None false).
Proof. destruct q; vm_compute; reflexivity. Qed.

(** The handler of a request runs in the context with its logger. *)
Definition logged (c : ctx) : ctx := set_ctrl (invokeLogger (mkFrom "" "") (ctrl c)) c.

Lemma playing_logged id l d c : playing id l d c -> playing id l d (logged c).
Proof. by destruct c. Qed.

Lemma post_runs q b c sp : msg_Invoke (post q) b c sp =
  let '(w, c1, e) := handler_return (handle q (bw b) (logged c)) in
  Go (set_bw w b, c1, match e with HReturn _ _ => None | HPanic err => Some err end).
Proof.
  rewrite post_eq. cbn [msg_Invoke]. unfold Invoke. cbn [i_from i_h i_req i_ch fn run_handler grain_code user_handler player_grain dispatch].
  unfold dispatch. cbn [user_type grain_Requests]. rewrite bool_decide_true by done. fold (logged c).
  destruct (handler_return _) as [[w c1] []]; done.
Qed.

(** What a live player does with a request, before the goroutine looks at it again. *)
Lemma live_handles q id l d c w : healthy w -> is_login q = false -> playing id l d c -> exists w' c' r,
  handle q w c = (w', c', Done r) /\
  match q with
  | Attack n => w' = w /\ playing id l (hit n d) c'
  | ForceSave => on_disk id (Some d) w' /\ playing id l d c'
  | SaveAndQuit => w' = w /\ c' = ctx_Quit c
  | Login _ _ => True
  end.
Proof.
  intros Hw Hq Hp. destruct q as [| n | |]; [done|..].
  - destruct Hp as (Hi & Ha & Hs & Ho & Hpo). destruct c as [i a st]. simpl in *. subst i st. by eexists _, _, _.
  - by eexists _, _, _.
  - destruct (saves (ctx_canceled c) id l d c w Hw Hp) as (w' & Hsave & Hd).
    exists w', c, (Some (SaveReply (HP d)), None). split; [|done].
    cbn [handle]. unfold handleForceSave, save, bind, Persist. rewrite Hsave.
    destruct Hp as (_ & _ & Hs & _). unfold data, gets. by rewrite Hs.
Qed.

(** The end of a live player: one save, nothing else is left to do. *)
Lemma clear_quiet w (a : ActorControl PlayerId req (grainHook Empty_set) (grainCB Empty_set)) :
  postpone a = [] -> (clear w a).1.1 = w.
Proof.
  intros H. unfold clear, flushPostpone. assert (postpone (stopPostponeFlush a) = []) as ->; [|done].
  unfold stopPostponeFlush, StopTimer. destruct (_ =? _)%Z; [done|]. by destruct (timers a !! _).
Qed.

Lemma ends id l d c w : healthy w -> playing id l d c -> on_disk id (Some d) (ctx_clear w (ctx_Quit c)).
Proof.
  intros Hw Hp. pose proof Hp as (Hi & Ha & Hs & Ho & Hpo).
  rewrite (ctx_clear_hooks w (ctx_Quit c) QuitHook []) by done. pose proof (clear_quiet w (ctrl (ctx_Quit c)) Hpo) as Hc.
  destruct (clear w (ctrl (ctx_Quit c))) as [[w1 a1] dropped]. simpl in Hc. subst w1.
  set (c1 := set_ctrl _ _). cbn [run_hooks run_hook grain_code].
  assert (state c1 = state c /\ ctx_id c1 = ctx_id c) as [Es Ei] by done.
  assert (leased c1 (NewJsonDriver "./grain_data") "node-1" l) as Hl by (exists pm; by rewrite Es, Hs).
  pose proof (quit_hook_leased w c1 _ _ l Hl) as H.
  rewrite Es, Ei, Hs, Hi in H. simpl in H. rewrite H. simpl.
  destruct (Hmarshal d) as [r Hr].
  destruct (Save_saved Join Dir (NewJsonDriver "./grain_data") w "GrainPlayer" (PlayerId_String id) d (Generation l) r Hw Hr)
    as (w' & Hsave & Hw' & Hsaved).
  unfold saved_released. cbn [driver_Save driver_Release files_driver json_driver ActorType String PlayerId_ActorId].
  rewrite Hsave. split; [done|]. by eexists.
Qed.

(** ** Activation *)
Abbreviation setup := (grain_setup pm).
Abbreviation at_spawn id := (set_ctrl (invokeLogger (MakeFrom id "OnSpawn") (ctrl (fresh id))) (fresh id) : ctx).

(** What the driver answers: the data that was saved, or a new lease and no data. *)
Lemma loads id p w : on_disk id p w -> exists l, Load Join (NewJsonDriver "./grain_data") w "GrainPlayer" (PlayerId_String id) "node-1" (Some (mkPlayerData 0 0)) =
  match p with
  | Some p => (Some p, (Some l, None))
  | None => (Some (mkPlayerData 0 0), (Some l, Some ErrNotFound))
  end.
Proof.
  intros [Hw Hp]. destruct p as [p|].
  - destruct Hp as [g Hg]. eexists. rewrite <- Hzero. by apply Load_saved.
  - eexists. unfold Load, os_Open, not_exist. rewrite Hw. unfold path in Hp. by rewrite Hp.
Qed.

Lemma spawns id p b : on_disk id p (bw b) -> exists c l,
  do_spawn id (Some setup) b (fresh id) = (set_bw (bw b) b, SpawnOk c) /\ playing id l (default new_player p) c.
Proof.
  intros Hd. destruct (loads id p (bw b) Hd) as [l Hl].
  unfold do_spawn. cbv beta zeta delta [run_spawn grain_code]. unfold Grain.on_spawn, Activate.
  destruct p as [p|].
  - erewrite (activate_eq id setup (bw b) (at_spawn id) pm (NewJsonDriver "./grain_data") (bw b) (mkPlayerData 0 0) _ (bw b) (Some p) (Some (Some l, None)));
      [|try reflexivity..].
    + eexists _, l. by split.
    + cbn. by rewrite Hl.
  - erewrite (activate_eq id setup (bw b) (at_spawn id) pm (NewJsonDriver "./grain_data") (bw b) (mkPlayerData 0 0) _ (bw b) (Some (mkPlayerData 0 0)) (Some (Some l, Some ErrNotFound)));
      [|try reflexivity..].
    + eexists _, l. by split.
    + cbn. by rewrite Hl.
Qed.

(** ** The simulation *)
Lemma settle_bw (p : bool) (c : ctx) (b : bstate disk rep) : bw (settle p c b) = bw b.
Proof. unfold settle. by repeat case_match. Qed.

Lemma post_live id g q b c : simulates id g b (Some c) -> exists b' c',
  batch_body id (Some setup) (post q) b (Some c) = Go (b', MsgDone c') /\ simulates id (play g q) b' c'.
Proof.
  intros [Hd Hl]. destruct (live g) as [d|] eqn:E; [|done]. destruct Hl as [l Hp].
  unfold batch_body. destruct (is_login q) eqn:Eq.
  - destruct q; try done. rewrite post_eq. cbn. eexists _, _. split; [done|]. unfold play. rewrite E. split; [done|]. rewrite E. by exists l.
  - assert (allowed (post q) false = true) as -> by (rewrite post_eq; by destruct q).
    rewrite post_runs. destruct Hd as [Hw Hst].
    destruct (live_handles q id l d (logged c) (bw b) Hw Eq (playing_logged _ _ _ _ Hp)) as (w' & c' & r & -> & Hc).
    cbn [handler_return]. destruct r as [rp err]. cbn [fbind].
    destruct q as [|n| |]; [done|..]; unfold play; rewrite E.
    + destruct Hc as [-> Hp']. pose proof Hp' as (_ & -> & _). eexists _, _. split; [done|].
      split; [|by exists l]. rewrite settle_bw. by split.
    + destruct Hc as [-> ->]. cbn [ctx_Quit set_ctrl ctrl Quit active set_active]. eexists _, _. split; [done|].
      split; [|done]. cbn [bclear bw set_bw]. rewrite settle_bw. by apply (ends id l d (logged c)); [|apply playing_logged].
    + destruct Hc as [Hd' Hp']. pose proof Hp' as (_ & -> & _). eexists _, _. split; [done|].
      split; [|by exists l]. by rewrite settle_bw.
Qed.

Lemma login_greets id l d c w hp lv : playing id l d c -> exists c' r,
  handle (Login hp lv) w c = (w, c', Done r) /\ playing id l (greet hp lv d) c'.
Proof.
  intros (Hi & Ha & Hs & Ho & Hpo). destruct c as [i a st]. simpl in *. subst i st.
  unfold handleLogin, bind, data, gets, when, update, modify, greet. simpl.
  destruct (HP d =? 0)%Z; by eexists _, _.
Qed.

Lemma post_asleep id g q b : simulates id g b None -> exists b' c',
  batch_body id (Some setup) (post q) b None = Go (b', MsgDone c') /\ simulates id (play g q) b' c'.
Proof.
  intros [Hd Hl]. destruct (live g) as [d|] eqn:E; [done|]. unfold batch_body, play. rewrite E.
  destruct q as [hp lv| | |]; [|rewrite post_eq; cbn; eexists _, _; (split; [done|split; [done|by rewrite E]])..].
  assert (allowed (post (Login hp lv)) true = true) as -> by (by rewrite post_eq). fold (fresh id).
  destruct (spawns id (stored g) b Hd) as (c & l & -> & Hp). rewrite post_runs. cbn [bw set_bw].
  destruct (login_greets id l _ (logged c) (bw b) hp lv (playing_logged _ _ _ _ Hp)) as (c' & [rp err] & -> & Hp').
  cbn [handler_return fbind]. pose proof Hp' as (_ & -> & _). eexists _, _. split; [done|].
  split; [by rewrite settle_bw|]. by exists l.
Qed.

(** The timer is dropped when the player is not live, and ignored when it no longer runs. *)
Lemma timer_acts id g i t b c : simulates id g b c -> exists b' c' g',
  batch_body id (Some setup) (message (Timed i t)) b c = Go (b', MsgDone c') /\ plays g (Timed i t) g' /\ simulates id g' b' c'.
Proof.
  intros [Hd Hl]. cbn [message]. destruct (live g) as [d|] eqn:E, c as [c|]; try done.
  - destruct Hl as [l Hp]. unfold batch_body. cbn [allowed negb msg_Invoke]. unfold timer_Invoke.
    destruct (take_timer _ (ctrl c)) as [a|] eqn:Et.
    + cbn [stub_fn]. set (c1 := set_ctrl _ c).
      assert (playing id l d c1) as Hp1.
      { destruct Hp as (Hi & Ha & Hs & Ho & Hpo). unfold take_timer in Et. case_match; [|done]. case_match; [|done].
        injection Et as <-. by destruct c. }
      destruct Hd as [Hw Hst]. destruct (saves (ctx_canceled c1) id l d c1 (bw b) Hw Hp1) as (w' & Hsave & Hd').
      cbn [run_callback grain_code]. unfold auto_persist, Persist. rewrite Hsave. cbn [fbind]. pose proof Hp1 as (_ & -> & _).
      eexists _, _, (mkGame (Some d) (Some d)). split; [done|]. split; [by apply plays_save|]. split; [by rewrite settle_bw|by exists l].
    + cbn [fbind]. pose proof Hp as (_ & Ha & _). rewrite Ha. eexists _, _, g. split; [done|]. split; [apply plays_late|].
      split; [by rewrite settle_bw|]. rewrite E. by exists l.
  - unfold batch_body. cbn. eexists _, _, g. split; [done|]. split; [apply plays_late|]. split; [done|by rewrite E].
Qed.

(** C38 The grain example refines a player that is never unloaded: whatever requests are
    posted to it and whenever its timer fires, the goroutine handles the whole batch without
    a panic and without blocking, and what is in memory and in the file is what the
    specification has: an attack hits the data of the first login, however often the player
    was saved, unloaded and activated again in between; what was live is stored when it quits. *)
Theorem grain_example_refines id evs : forall nx g b c, simulates id g b c -> exists b' c' g',
  batch_loop id (Registry.on_spawn (player_registry pm)) (message <$> evs) nx b c =
    Go (b', (nx + length evs)%nat, MsgDone c') /\
  plays_all g evs g' /\ view g' = foldl view_play (view g) (posted evs) /\ simulates id g' b' c'.
Proof.
  induction evs as [|e evs IH]; intros nx g b c Hs.
  - rewrite Nat.add_0_r. eexists _, _, g. split; [done|]. split; [apply plays_none|by split].
  - assert (exists b1 c1 g1, batch_body id (Some setup) (message e) b c = Go (b1, MsgDone c1) /\
              plays g e g1 /\ simulates id g1 b1 c1) as (b1 & c1 & g1 & Hb & Hp & Hs1).
    { destruct e as [q|i t]; [|by apply timer_acts]. destruct c as [c|];
        [destruct (post_live id g q b c Hs) as (b1 & c1 & ? & ?)|destruct (post_asleep id g q b Hs) as (b1 & c1 & ? & ?)];
        exists b1, c1, (play g q); (split; [done|]; split; [apply plays_post|done]). }
    destruct (IH (S nx) g1 b1 c1 Hs1) as (b2 & c2 & g2 & Hr & Hps & _ & Hs2).
    assert (plays_all g (e :: evs) g2) as Hall by (by eapply plays_cons).
    exists b2, c2, g2. split; [|split; [done|]; split; [by apply plays_view|done]].
    rewrite fmap_cons. cbn [batch_loop]. change (Registry.on_spawn (player_registry pm)) with (Some setup).
    rewrite Hb. cbn [fbind]. etransitivity; [exact Hr|]. simpl. by rewrite Nat.add_succ_r.
Qed.
End GrainExampleSpec.


(** The values of the first login are not used, since the activation has set others by
    then; they are used when a player was unloaded with no hit points left. *)
Remark first_login_ignored hp lv : view_play (false, None) (Login hp lv) = (true, Some new_player).
Proof. done. Qed.
Remark login_revives hp lv lv0 : view_play (false, Some (mkPlayerData 0 lv0)) (Login hp lv) = (true, Some (mkPlayerData hp lv)).
Proof. done. Qed.

(** * Witness: two activations of a player *)
Module GrainExampleWitness.
Import FileWitness.

#[local] Instance data_json : Json PlayerData := {|
  json_Marshal p := inl (String.String "v"%char (bits (encode (HP p, Level p))));
  json_Unmarshal r q := match r with
                        | String.String c s =>
                            if Ascii.eqb c "v"%char
                            then match decode (unbits s) with Some (hp, lv) => (mkPlayerData hp lv, None) | None => (q, None) end
                            else (q, None)
                        | EmptyString => (q, Some (ErrNew "unexpected end of JSON input"))
                        end;
  encode_doc := encode_doc (P := string);
  decode_doc := decode_doc (P := string);
|}.

#[local, program] Instance data_laws : JsonLaws PlayerData := {|
  json_zero := mkPlayerData 0 0;
  valid r := r <> ""%string;
|}.
Next Obligation. intros g r Hr. exists r. simpl. rewrite unbits_bits, decode_encode. done. Qed.
Next Obligation. by eexists. Qed.
Next Obligation. done. Qed.
Next Obligation. done. Qed.
Next Obligation. intros p r. simpl. by intros [= <-]. Qed.
Next Obligation. intros [hp lv] r [= <-]. cbn -[encode decode bits unbits]. by rewrite unbits_bits, decode_encode. Qed.
Next Obligation. done. Qed.

(** The player sends nothing. *)
#[local] Instance alone : Poster disk PlayerId req rep := {|
  fpost w _ _ _ := (w, None);
  fcall w _ _ _ := (w, (None, None));
  fmulticast w _ _ _ := (w, ([], None));
  fbroadcast w _ _ := (w, (0, None));
  wsleep w _ := w;
|}.

Definition join := String.concat "/".
#[local] Instance the_driver : Driver JsonDriver disk PlayerData := files_driver join id.
Definition alice : PlayerId := mkPlayerId 1 "alice".
Definition script : list event :=
  [Posted (Login 100 1); Posted (Attack 30); Timed 1 0; Posted SaveAndQuit; Posted (Login 999 99); Posted (Attack 0)].

(** The hit points of the first activation are there in the second. *)
Lemma grain_example_refines_witness : exists b' c' g',
  batch_loop alice (Registry.on_spawn (player_registry pm)) (message <$> script) 0 (mkB no_disk 0 ∅) None = Go (b', 6, MsgDone c') /\
  simulates join alice g' b' c' /\ view g' = (true, Some (mkPlayerData 70 1)).
Proof.
  assert (simulates join alice (mkGame None None) (mkB no_disk 0 ∅) None) as Hs by (split; [split|]; done).
  assert (json_zero = mkPlayerData 0 0) as Hz by reflexivity.
  assert (forall p : PlayerData, exists r, json_Marshal p = inl r) as Hm by (intros p; by eexists).
  destruct (grain_example_refines join id Hz Hm alice script 0 (mkGame None None) (mkB no_disk 0 ∅) None Hs)
    as (b' & c' & g' & Hr & _ & Hv & Hg).
  exists b', c', g'. split; [exact Hr|]. split; [exact Hg|]. rewrite Hv. vm_compute. reflexivity.
Defined.
End GrainExampleWitness.
