(* ===== verification/ActorExample.v ===== *)
(** * The actor example

    cmd/actor_example/main.go: players with a timer, a number drawn from an allocator that
    the manager carries, and direct references to other players. The handlers are
    programs of Act; [main] is the script that calls them. Logging is left out. *)

From S2P Require Import Prelude ActorTypes Control Rpc Registry Runtime Text Script.
From S2P Require Export Act.

Local Open Scope string_scope.

(** ** Identifiers, requests and replies *)
Record PlayerId := mkPlayerId { ServerId : Z; OpenId : string }.

#[export] Instance PlayerId_eq_dec : EqDecision PlayerId.
Proof. solve_decision. Defined.
#[export] Instance PlayerId_countable : Countable PlayerId.
Proof.
  apply (inj_countable' (fun p => (ServerId p, OpenId p)) (fun '(s, o) => mkPlayerId s o)). by intros [].
Defined.

Definition PlayerId_String (id : PlayerId) : string := "Player(" +:+ FormatInt (ServerId id) +:+ "," +:+ OpenId id +:+ ")".

#[export] Instance PlayerId_ActorId : ActorId PlayerId :=
  {| ActorType _ := "Player"; String := PlayerId_String; zero_id := mkPlayerId 0 "" |}.

Record PlayerState := mkPlayerState { HP : Z; Level : Z; Seq : Z }.

Inductive req :=
  | Login (InitHP InitLevel : Z) | Attack (Damage : Z) | Heal (Amount : Z) | Follow (Target : PlayerId)
  | Ping (From_ : PlayerId) | QueryHP | Logout | Close.

Inductive rep := OkRep | AttackReply (RemainingHP : Z) (Alive : bool) | HealReply (NewHP : Z) | HPReply (HP : Z).

Inductive reqT := TLogin | TAttack | THeal | TFollow | TPing | TQueryHP | TLogout | TClose.

#[export] Instance reqT_eq_dec : EqDecision reqT.
Proof. solve_decision. Defined.

Definition req_type (q : req) : reqT :=
  match q with
  | Login _ _ => TLogin | Attack _ => TAttack | Heal _ => THeal | Follow _ => TFollow
  | Ping _ => TPing | QueryHP => TQueryHP | Logout => TLogout | Close => TClose
  end.
Definition req_ReqType (t : reqT) : string :=
  match t with
  | TLogin => "Login" | TAttack => "Attack" | THeal => "Heal" | TFollow => "Follow"
  | TPing => "Ping" | TQueryHP => "QueryHP" | TLogout => "Logout" | TClose => "Close"
  end.

#[export] Instance actor_Requests : Requests reqT req PlayerId :=
  {| user_type := req_type; user_ReqType := req_ReqType; user_id0 _ := mkPlayerId 0 "" |}.

(** ** What the handlers need of the manager

    [PlayerSeqValue.Get]: the allocator, [None] when none was mounted; it is one object for
    all players. References: [ctx.Ref] finds a live player of the group, or nil; the
    result of [RefCall] is the one of a call that returns. *)
Record PlayerSeq := mkPlayerSeq { last_seq : Z }.

Definition Next (s : PlayerSeq) : PlayerSeq * Z := let k := wrap64 (last_seq s + 1) in (mkPlayerSeq k, k).

Class PlayerSeqValue (W : Type) : Type := {
  get_seq : W -> option PlayerSeq;
  put_seq : PlayerSeq -> W -> W;
}.

Class Refs (W : Type) : Type := {
  take_ref : PlayerId -> W -> W * option nat;
  Release : nat -> W -> W;
  RefPost : nat -> req -> W -> W * option error;
  RefCall : nat -> req -> W -> W * (option rep * option error);
}.

(** ** Handlers *)
Abbreviation hres := (hres rep).
Definition ok : hres := (Some OkRep, None).

(** The callback of the timer. *)
Inductive callback := Regen.

Local Open Scope act_scope.

Section handlers.
Context {W Hook : Type} `{!PlayerSeqValue W, !Refs W}.
Abbreviation act := (act PlayerId req W Hook callback PlayerState).

Definition handleLogin (InitHP InitLevel : Z) : act hres :=
  let* alloc := asks get_seq in
  match alloc with
  | None => ret (Some OkRep, Some (ErrNew "PlayerSeqValue not mounted"))
  | Some s =>
      open ;;
      let '(s, k) := Next s in
      tell (put_seq s) ;;
      modify (fun _ => mkPlayerState InitHP InitLevel k) ;;
      timer "regen" Regen ;;
      ret ok
  end.

Definition add_HP (d : Z) (s : PlayerState) : PlayerState := mkPlayerState (wrap64 (HP s + d)) (Level s) (Seq s).

Definition regen (s : PlayerState) : PlayerState := add_HP 1 s.

Definition handleAttack (Damage : Z) : act hres :=
  modify (add_HP (- Damage)) ;;
  let* hp := gets HP in
  ret (Some (AttackReply hp (0 <? hp)%Z), None).

Definition handleHeal (Amount : Z) (spawning : bool) : act hres :=
  when spawning open ;;
  modify (add_HP Amount) ;;
  let* hp := gets HP in
  ret (Some (HealReply hp), None).

(** [defer]: the clean-up runs however the rest ends. *)
Definition deferred {A} (f : W -> W) (m : act A) : act A := fun w c =>
  let '(w1, c1, r) := m w c in (f w1, c1, r).

(** A call of the world, by its two results. *)
Definition ask_world {A} (f : W -> W * A) : act A := fun w c => let '(w1, x) := f w in (w1, c, Done x).

Definition handleFollow (Target : PlayerId) : act hres :=
  let* ref := ask_world (take_ref Target) in
  match ref with
  | None => ret (fail (ErrNew ("player not found: " +:+ PlayerId_String Target)))
  | Some r =>
      deferred (Release r)
        (let* id := self_id in
         let* err := ask_world (RefPost r (Ping id)) in
         match err with
         | Some e => ret (fail e)
         | None =>
             let* (reply, err) := ask_world (RefCall r QueryHP) in
             match err with
             | Some e => ret (fail e)
             | None =>
                 (* hp.HP, in the log, is read through the reply *)
                 match reply with
                 | Some _ => ret ok
                 | None => panic (Some (ErrNew "runtime error: invalid memory address or nil pointer dereference"))
                 end
             end
         end)
  end.

Definition handleQueryHP : act hres := let* hp := gets HP in ret (Some (HPReply hp), None).
Definition handlePing (from_ : PlayerId) : act hres := ret ok.

(** The method [Handle] of the request. *)
Definition Logout_Handle : act hres := quit ;; ret ok.
Definition handleClose : act hres := quit ;; ret ok.

Definition handle (q : req) (spawning : bool) : act hres :=
  match q with
  | Login hp lv => handleLogin hp lv
  | Attack d => handleAttack d
  | Heal a => handleHeal a spawning
  | Follow t => handleFollow t
  | Ping p => handlePing p
  | QueryHP => handleQueryHP
  | Logout => Logout_Handle
  | Close => handleClose
  end.

(** The OnSpawn hook only logs. *)
Definition onSpawn : act (option error) := ret None.
End handlers.

#[export] Instance player_code {W} `{!PlayerSeqValue W, !Refs W} :
    UserCode W PlayerId req Empty_set callback PlayerState req rep reqT unit := {|
  run_handler := dispatch handle;
  run_spawn _ w c := let '(w1, c1, r) := onSpawn w c in (w1, c1, spawn_return r);
  run_hook h w c := match (h : Empty_set) with end;
  run_callback _ w c := (w, SetState (regen (state c)) c, false);
  run_close _ w := w;
  zero_state := mkPlayerState 0 0 0;
|}.

(** ** setupPlayer *)
Definition player_registry : Registry.RegistryBuilder reqT reqT unit :=
  let b := SetOnSpawn (Some tt) NewRegistryBuilder in
  let b := RegisterSpawn b (TUser TLogin) TLogin in
  let b := RegisterQuery b (TUser TAttack) TAttack in
  let b := RegisterServe b (TUser THeal) THeal in
  let b := RegisterQuery b (TUser TFollow) TFollow in
  let b := RegisterQuery b (TUser TQueryHP) TQueryHP in
  let b := RegisterQuery b (TUser TPing) TPing in
  let b := RegisterServeHandler (fun _ => TLogout) b (TUser TLogout) in
  RegisterQuery b (TUser TClose) TClose.

(** ** main

    [Count] of the manager, and its closing. *)
Class ManagerEnd (W : Type) : Type := {
  Count : W -> nat;
  CloseManager : W -> W;
  JoinManager : W -> W;
}.

Section main.
Context {W : Type} `{!Terminal W, !Backend W PlayerId req rep, !PlayerSeqValue W, !ManagerEnd W}.

Abbreviation post := (post_ (R := rep)).
Definition broadcast (q : req) (w : W) : W := (mgr_Broadcast (I := PlayerId) w q).1.

Definition show_attack (line : Z -> bool -> string) (r : rep) : option string :=
  match r with AttackReply hp alive => Some (line hp alive) | _ => None end.

Definition online (w : W) : W := println ("在线玩家：" +:+ FormatInt (Z.of_nat (Count w))) w.

Definition player1 : PlayerId := mkPlayerId 1 "alice".
Definition player2 : PlayerId := mkPlayerId 1 "bob".

(** The follow prints only its error, the attack after the timer only its reply. *)
Definition follow (w : W) : W :=
  let '(w1, (_, err)) := mgr_Call w player1 (Follow player2) in
  match err with Some e => println ("关注失败: " +:+ Error e) w1 | None => w1 end.
Definition look (w : W) : flow W :=
  let '(w1, (reply, err)) := mgr_Call w player1 (Attack 0) in
  match err with
  | Some _ => Go w1
  | None =>
      match reply ≫= show_attack (fun hp _ => "alice 回血后 HP=" +:+ FormatInt hp) with
      | Some line => Go (println line w1)
      | None => Crashed
      end
  end.

Definition main (w : W) : flow W :=
  let w := put_seq (mkPlayerSeq 0) w in
  let w := title "=== 1. Post: 创建玩家 ===" w in
  let w := Sleep (100 * Millisecond) (post player2 (Login 80 2) (post player1 (Login 100 1) w)) in
  let w := title "=== 2. Call: 攻击 ===" w in
  (do! w := call_ player1 (Attack 30) "攻击失败: "
     (show_attack (fun hp alive => "alice 受到 30 伤害：remainingHP=" +:+ FormatInt hp +:+ " alive=" +:+ show_bool alive)) w in
   let w := title "=== 3. Call: 治疗 ===" w in
   do! w := call_ player2 (Heal 20) "治疗失败: "
     (fun r => match r with HealReply hp => Some ("bob 治疗 20：newHP=" +:+ FormatInt hp) | _ => None end) w in
   let w := follow (title "=== 4. Call: 关注（ActorRef） ===" w) in
   do! w := look (Sleep (700 * Millisecond) (title "=== 5. Timer: 等待回血 ===" w)) in
   let w := title "=== 6. Post: bob 下线 ===" w in
   let w := online (Sleep (100 * Millisecond) (post player2 Logout w)) in
   let w := title "=== 7. Broadcast: 全部下线 ===" w in
   let w := online (Sleep (100 * Millisecond) (broadcast Close w)) in
   Go (title "=== Done ===" (JoinManager (CloseManager w))))%go.
End main.
