(* ===== verification/ActorExampleSpec.v ===== *)
(** * The actor example: references are given back, the timer fires once *)

From S2P Require Import Prelude ActorTypes Control Registry Runtime ActorExample.

(** ** References

    [holds w k]: how often the player holds the actor behind the pointer [k]; sending over
    a reference does not change it. *)
Class RefLaws (W : Type) `{!Refs W} : Type := {
  holds : W -> nat -> nat;
  take_none id w w1 : take_ref id w = (w1, None) -> holds w1 = holds w;
  take_some id w w1 r : take_ref id w = (w1, Some r) -> holds w1 r = S (holds w r) /\ forall k, k <> r -> holds w1 k = holds w k;
  release_one r w : holds (Release r w) r = pred (holds w r) /\ forall k, k <> r -> holds (Release r w) k = holds w k;
  post_keeps r q w : holds (RefPost r q w).1 = holds w;
  call_keeps r q w : holds (RefCall r q w).1 = holds w;
}.

Section refs.
Context {W Hook : Type} `{!PlayerSeqValue W, !Refs W, !RefLaws W}.

(** A program that leaves the references as they are. *)
Definition keeps {A} (m : act PlayerId req W Hook callback PlayerState A) : Prop :=
  forall w c, holds (m w c).1.1 = holds w.

Lemma keeps_bind {A B} (m : act PlayerId req W Hook callback PlayerState A) (k : A -> act PlayerId req W Hook callback PlayerState B) :
  keeps m -> (forall x, keeps (k x)) -> keeps (bind m k).
Proof.
  intros Hm Hk w c. unfold bind. specialize (Hm w c). destruct (m w c) as [[w1 c1] [x|v|]]; simpl in *; [by rewrite Hk|done..].
Qed.

Lemma keeps_ret {A} (x : A) : keeps (ret x).
Proof. done. Qed.
Lemma keeps_panic {A} v : keeps (panic v : act PlayerId req W Hook callback PlayerState A).
Proof. done. Qed.
Lemma keeps_self : keeps self_id.
Proof. done. Qed.
Lemma keeps_world {A} (f : W -> W * A) : (forall w, holds (f w).1 = holds w) -> keeps (ask_world f).
Proof. intros H w c. unfold ask_world. specialize (H w). by destruct (f w). Qed.

(** However a follow ends (an error of the post or of the call, a reply, a panic), the
    reference it took is given back, once, and no other one is touched. *)
Theorem follow_gives_back (target : PlayerId) w (c : ActorContext PlayerId req Hook callback PlayerState) k :
  holds (handleFollow target w c).1.1 k = holds w k.
Proof.
  unfold handleFollow, bind at 1, ask_world at 1. destruct (take_ref target w) as [w1 [r|]] eqn:Et; [|by rewrite (take_none _ _ _ Et)].
  unfold deferred. match goal with |- context [?m w1 c] => assert (keeps m) as Hk end.
  { repeat first [apply keeps_bind; [|intros ?]|apply keeps_ret|apply keeps_panic|apply keeps_self
                 |apply keeps_world; intros; first [apply post_keeps|apply call_keeps]|case_match]. }
  specialize (Hk w1 c). destruct (bind _ _ w1 c) as [[w2 c2] x]. simpl in *.
  destruct (take_some _ _ _ _ Et) as [H1 H2], (release_one r w2) as [H3 H4].
  destruct (decide (k = r)) as [->|Hkr]; [by rewrite H3, Hk, H1|by rewrite H4, Hk, H2].
Qed.
End refs.

(** ** The timer *)
#[local] Arguments probe : simpl never.

(** The timer of the login fires once: its callback heals by one point and leaves no timer,
    so the player is not healed again. *)
Remark regen_once {W} `{!PlayerSeqValue W, !Refs W} (w : W) (c : ActorContext PlayerId req Empty_set callback PlayerState) hp lv s :
  timers (ctrl c) = ∅ -> get_seq w = Some s ->
  let c1 := (handleLogin hp lv w c).1.2 in
  exists t a, take_timer t (ctrl c1) = Some a /\ stub_fn t = FnUser Regen /\ timers a = ∅ /\
    state (run_callback (UserCode := player_code) Regen w (set_ctrl a c1)).1.2 = mkPlayerState (wrap64 (hp + 1)) lv (wrap64 (last_seq s + 1)).
Proof.
  intros Ht Hs. unfold handleLogin, bind, asks. rewrite Hs. simpl. unfold timer, ctx_Timer, Timer. simpl. rewrite Ht.
  set (i := probe _ _ _ _). set (g := next_timer (ctrl c)). exists (mkStub (FnUser Regen) i g). unfold take_timer. simpl.
  rewrite lookup_insert_eq. simpl. rewrite bool_decide_true by done. eexists. split; [done|]. split; [done|].
  split; [|done]. simpl. by rewrite delete_insert_id.
Qed.

(** ** The allocator

    [Next] without a lock, as two players run it: each reads, adds and writes in steps of
    its own. When one reads before the other has written, both get the same number. *)
Inductive seq_step := Read (player : nat) | Write (player : nat).

Definition seq_run (steps : list seq_step) (s : PlayerSeq) : PlayerSeq * gmap nat Z :=
  foldl (fun '(s, local) st =>
    match st with
    | Read p => (s, <[p := (Next s).2]> local)
    | Write p => (mkPlayerSeq (default 0%Z (local !! p)), local)
    end) (s, ∅) steps.

Remark seq_race : seq_run [Read 1; Read 2; Write 1; Write 2] (mkPlayerSeq 0) = (mkPlayerSeq 1, {[1 := 1%Z; 2 := 1%Z]}).
Proof. vm_compute. reflexivity. Qed.
Remark seq_in_turn : seq_run [Read 1; Write 1; Read 2; Write 2] (mkPlayerSeq 0) = (mkPlayerSeq 2, {[1 := 1%Z; 2 := 2%Z]}).
Proof. vm_compute. reflexivity. Qed.
