(* ===== verification/SharedExample.v ===== *)
(** * The shared data example

    cmd/shared_example/main.go: a world that publishes two keys, and regions that read them
    through their caches. The handlers are programs of Act over the readers and owners of
    Reader; [main] is the script that calls them. Logging is left out. *)

From S2P Require Import Prelude ActorTypes Control Rpc Registry Runtime Text Script Store Reader.
From S2P Require Export Act.

Local Open Scope string_scope.

(** ** Values and keys *)
Inductive value := VNil | VInt (z : Z) | VStr (s : string).

#[export] Instance value_nil : GoAny value := VNil.
#[export] Instance int_value : GoType value Z :=
  {| as_V x := match x with VInt z => Some z | _ => None end; to_any := VInt; as_to_any _ := eq_refl |}.
#[export] Instance string_value : GoType value string :=
  {| as_V x := match x with VStr s => Some s | _ => None end; to_any := VStr; as_to_any _ := eq_refl |}.

(** The definitions of the package, one after the other. *)
Definition seed_pattern : string := "demo/world/%s/seed".
Definition weather_pattern : string := "demo/world/%s/weather".
Definition seed_options : list (KeyOption value) := [Immutable].
Definition weather_options : list (KeyOption value) := [WithCooldown (100 * Millisecond); WithTTL (30 * Second)].

Definition defined (pattern : string) (opts : list (KeyOption value)) (seen : gmap string string) : gmap string string * Store.Def value :=
  match Define pattern opts seen with
  | Ok x => x
  | Err _ | Panic _ => (seen, mkDef (mkDefInfo pattern 0 0 None false))
  end.

Definition DemoWorldSeed : Store.Def value := (defined seed_pattern seed_options ∅).2.
Definition DemoWorldWeather : Store.Def value :=
  (defined weather_pattern weather_options (defined seed_pattern seed_options ∅).1).2.

Definition seed_key (name : string) : Store.Key value := Of DemoWorldSeed [AStr name].
Definition weather_key (name : string) : Store.Key value := Of DemoWorldWeather [AStr name].

(** ** Identifiers, requests and states *)
Record WorldId := mkWorldId { WName : string }.
Record RegionId := mkRegionId { RName : string }.

Inductive aid := AWorld (id : WorldId) | ARegion (id : RegionId).

#[export] Instance aid_eq_dec : EqDecision aid.
Proof. unfold EqDecision, Decision. repeat decide equality. Defined.
#[export] Instance aid_countable : Countable aid.
Proof.
  apply (inj_countable' (fun a => match a with AWorld w => inl (WName w) | ARegion r => inr (RName r) end)
    (fun x => match x with inl s => AWorld (mkWorldId s) | inr s => ARegion (mkRegionId s) end)). by intros [[]|[]].
Defined.

Definition aid_type (a : aid) : string := match a with AWorld _ => "DemoWorld" | ARegion _ => "DemoRegion" end.
Definition aid_String (a : aid) : string :=
  match a with AWorld w => "DemoWorld(" +:+ WName w +:+ ")" | ARegion r => "DemoRegion(" +:+ RName r +:+ ")" end.

#[export] Instance aid_ActorId : ActorId aid :=
  {| ActorType := aid_type; String := aid_String; zero_id := AWorld (mkWorldId "") |}.

Inductive req :=
  | InitWorld (Seed : Z) | SetWeather (Weather : string)
  | EnterRegion (World : WorldId) | ShowState | Refresh (q : refreshReq value).
Inductive rep := OkRep | StateReply (Seed : Z) (Weather : string) | RefreshRep.

Inductive reqT := TInitWorld | TSetWeather | TEnterRegion | TShowState | TRefresh.

#[export] Instance reqT_eq_dec : EqDecision reqT.
Proof. solve_decision. Defined.

Definition req_type (q : req) : reqT :=
  match q with
  | InitWorld _ => TInitWorld | SetWeather _ => TSetWeather
  | EnterRegion _ => TEnterRegion | ShowState => TShowState | Refresh _ => TRefresh
  end.
Definition req_ReqType (t : reqT) : string :=
  match t with
  | TInitWorld => "InitWorld" | TSetWeather => "SetWeather"
  | TEnterRegion => "EnterRegion" | TShowState => "ShowState" | TRefresh => "__shared_refresh__"
  end.
Definition req_id0 (t : reqT) : aid :=
  match t with TInitWorld | TSetWeather => AWorld (mkWorldId "") | _ => ARegion (mkRegionId "") end.

#[export] Instance shared_Requests : Requests reqT req aid :=
  {| user_type := req_type; user_ReqType := req_ReqType; user_id0 := req_id0 |}.

Record WorldState := mkWorldState { WSeed : Z; WWeather : string }.
Record RegionState := mkRegionState { Vars : Reader value; World : WorldId; Seed : Z; Weather : string; PushSeen : Z }.

Definition set_Vars (r : Reader value) (s : RegionState) : RegionState := mkRegionState r (World s) (Seed s) (Weather s) (PushSeen s).
Definition set_World (w : WorldId) (s : RegionState) : RegionState := mkRegionState (Vars s) w (Seed s) (Weather s) (PushSeen s).
Definition set_seen (seed : Z) (weather : string) (s : RegionState) : RegionState :=
  mkRegionState (Vars s) (World s) seed weather (PushSeen s).

(** ** Handlers *)
Abbreviation hres := (hres rep).
Definition ok : hres := (Some OkRep, None).

Local Open Scope act_scope.

Section handlers.
Context {W Hook CB : Type} `{!Clock W, !StoreClient W aid value} (g : storeGlobals) (bs : bindings).

(** *** The world *)
Abbreviation wact := (act aid req W Hook CB WorldState).

(** [shared.Publish] and [shared.PublishWait]. *)
Definition published {S} (f : W -> outcome error (W * option error)) : act aid req W Hook CB S (option error) := fun w c =>
  match f w with
  | Ok (w1, err) => (w1, c, Done err)
  | Err e => (w, c, Done (Some e))
  | Panic _ => (w, c, Panicked None)
  end.

Definition world_of (a : aid) : WorldId := match a with AWorld w => w | ARegion _ => mkWorldId "" end.

Definition handleInitWorld (seed : Z) : wact hres :=
  open ;;
  modify (fun _ => mkWorldState seed "sunny") ;;
  let* id := self_id in
  let name := WName (world_of id) in
  let* s := gets (fun s => s) in
  let* err := published (PublishFrom (V := Z) (I := aid) g (seed_key name) (WSeed s)) in
  match err with
  | Some e => ret (Some OkRep, Some e)
  | None =>
      let* err := published (PublishFrom (V := string) (I := aid) g (weather_key name) (WWeather s)) in
      ret (Some OkRep, err)
  end.

Definition handleSetWeather (weather : string) : wact hres :=
  modify (fun s => mkWorldState (WSeed s) weather) ;;
  let* id := self_id in
  let* err := published (PublishWaitFrom (V := string) (I := aid) g (weather_key (WName (world_of id))) weather) in
  ret (Some OkRep, err).

Definition world_handle (q : req) (spawning : bool) : wact hres :=
  match q with
  | InitWorld seed => handleInitWorld seed
  | SetWeather weather => handleSetWeather weather
  | _ => panic None
  end.

(** *** The regions *)
Abbreviation ract := (act aid req W Hook CB RegionState).

(** [shared.Watch] on the reader of the state. *)
Definition watch {V} `{!GoType value V} (k : Store.Key value) : ract (V + error) := fun w c =>
  let '(w1, r1, v) := Watch g bs c k w (Vars (state c)) in
  let c1 := SetState (set_Vars r1 (state c)) c in
  match v with
  | Ok v => (w1, c1, Done (inl v))
  | Err e => (w1, c1, Done (inr e))
  | Panic _ => (w1, c1, Panicked None)
  end.

(** The two watches that entering and showing share: the values, or the first error. *)
Definition watch_both (name : string) : ract ((Z * string) + error) :=
  let* seed := watch (V := Z) (seed_key name) in
  match seed with
  | inr e => ret (inr e)
  | inl seed =>
      let* weather := watch (V := string) (weather_key name) in
      match weather with
      | inr e => ret (inr e)
      | inl weather => modify (set_seen seed weather) ;; ret (inl (seed, weather))
      end
  end.

Definition handleEnterRegion (world : WorldId) : ract hres :=
  open ;;
  modify (set_World world) ;;
  let* x := watch_both (WName world) in
  ret (Some OkRep, match x with inl _ => None | inr e => Some e end).

Definition handleShowState : ract hres :=
  let* world := gets World in
  let* x := watch_both (WName world) in
  ret (match x with inl (seed, weather) => (Some (StateReply seed weather), None) | inr e => fail e end).

(** The handler [shared.ServeReader] registers. *)
Definition handleRefresh (q : refreshReq value) : ract hres := fun w c =>
  (w, SetState (set_Vars (on_refresh q w (Vars (state c))) (state c)) c, Done (Some RefreshRep, None)).

Definition region_handle (q : req) (spawning : bool) : ract hres :=
  match q with
  | EnterRegion world => handleEnterRegion world
  | ShowState => handleShowState
  | Refresh q => handleRefresh q
  | _ => panic None
  end.
End handlers.

(** ** The actors as user code *)
Section code.
Context {W : Type} `{!Clock W, !StoreClient W aid value} (g : storeGlobals) (bs : bindings).

#[export] Instance world_code : UserCode W aid req Empty_set Empty_set WorldState req rep reqT Empty_set := {|
  run_handler := dispatch (world_handle g);
  run_spawn f w c := match (f : Empty_set) with end;
  run_hook h w c := match (h : Empty_set) with end;
  run_callback cb w c := match (cb : Empty_set) with end;
  run_close _ w := w;
  zero_state := mkWorldState 0 "";
|}.

#[export] Instance region_code : UserCode W aid req Empty_set Empty_set RegionState req rep reqT Empty_set := {|
  run_handler := dispatch (region_handle g bs);
  run_spawn f w c := match (f : Empty_set) with end;
  run_hook h w c := match (h : Empty_set) with end;
  run_callback cb w c := match (cb : Empty_set) with end;
  run_close _ w := w;
  zero_state := mkRegionState zero_reader (mkWorldId "") 0 "" 0;
|}.
End code.

(** ** Registration *)
Definition world_registry : Registry.RegistryBuilder reqT reqT Empty_set :=
  RegisterServe (RegisterSpawn NewRegistryBuilder (TUser TInitWorld) TInitWorld) (TUser TSetWeather) TSetWeather.
Definition region_registry : Registry.RegistryBuilder reqT reqT Empty_set :=
  let b := RegisterQuery NewRegistryBuilder (TUser TRefresh) TRefresh in
  RegisterQuery (RegisterSpawn b (TUser TEnterRegion) TEnterRegion) (TUser TShowState) TShowState.
Definition region_bindings (fresh : binding) (bs : bindings) : bindings := ServeReader_bind (ARegion (mkRegionId "")) fresh bs.

(** ** main *)
Section main.
Context {W : Type} `{!Terminal W, !Backend W aid req rep, !StoreClient W aid value} (close : W -> W).

Abbreviation post := (post_ (R := rep)).

Definition world : aid := AWorld (mkWorldId "w1").
Definition region : aid := ARegion (mkRegionId "r1").

Definition show_state (suffix : string) (r : rep) : option string :=
  match r with
  | StateReply seed weather => Some ("r1 缓存" +:+ suffix +:+ "：seed=" +:+ FormatInt seed +:+ " weather=" +:+ weather)
  | _ => None
  end.

(** The change of the weather prints only its error. *)
Definition rain (w : W) : W :=
  let '(w1, (_, err)) := mgr_Call w world (SetWeather "rain") in
  match err with Some e => println ("改天气失败: " +:+ Error e) w1 | None => w1 end.

Definition fetch (g : storeGlobals) (w : W) : flow W :=
  match FetchFrom (V := string) (I := aid) g (weather_key "w1") w with
  | (w1, Ok latest) => Go (println ("容器中的 weather=" +:+ latest) w1)
  | (w1, Err e) => Go (println ("Fetch 失败: " +:+ Error e) w1)
  | (_, Panic _) => Crashed
  end.

(** The store is served with four shards and a cooldown; the globals are those of package
    shared. *)
Definition main (g : storeGlobals) (w : W) : flow W :=
  match Serve_globals (mkStoreOptions 4 0 (100 * Millisecond) 0 0 0) g with
  | Err _ | Panic _ => Crashed
  | Ok (_, g) =>
      let w := title "=== 1. World 发布、Region 订阅 ===" w in
      let w := Sleep (50 * Millisecond) (post world (InitWorld 42) w) in
      let w := Sleep (100 * Millisecond) (post region (EnterRegion (mkWorldId "w1")) w) in
      (do! w := call_ region ShowState "查询失败: " (show_state "") w in
       let w := title "=== 2. World 改天气 —— 容器推送到读者缓存 ===" w in
       let w := Sleep (300 * Millisecond) (rain w) in
       do! w := call_ region ShowState "查询失败: " (show_state "（已由推送更新）") w in
       do! w := fetch g (title "=== 3. Fetch：不读缓存，每次向容器取最新值 ===" w) in
       Go (title "=== Done ===" (close w)))%go
  end.
End main.
