(* ===== verification/SharedExampleSpec.v ===== *)
(** * The shared data example: what a region shows *)

From S2P Require Import Prelude ActorTypes Control Registry Runtime Store Reader SharedExample.

Section spec.
Context {W Hook CB : Type} `{!Clock W, !StoreClient W aid value} (g : storeGlobals) (bs : bindings).
Abbreviation ctx := (ActorContext aid req Hook CB RegionState).
Implicit Types (c : ctx).

(** The cache holds a value of the key that has not expired. *)
Definition cached {V} `{!GoType value V} (k : Store.Key value) (v : V) (w : W) (r : Reader value) : Prop := cacheGet w r k = Some v.

Lemma watch_cached {V} `{!GoType value V} k (v : V) w c :
  is_Some (lookupBinding bs (ActorType (ctx_id c))) -> cached k v w (Vars (state c)) ->
  watch g bs k w c = (w, SetState (state c) c, Done (inl v)).
Proof.
  intros [b Hb] Hk. unfold watch, Watch, WatchFrom. rewrite Hb, Hk. by destruct (state c).
Qed.

(** A region that holds both keys shows them without a message to the store, and keeps
    what it showed in its state. *)
Theorem show_from_cache w c seed weather :
  is_Some (lookupBinding bs (ActorType (ctx_id c))) ->
  cached (seed_key (WName (World (state c)))) seed w (Vars (state c)) ->
  cached (weather_key (WName (World (state c)))) weather w (Vars (state c)) ->
  exists c', handleShowState g bs w c = (w, c', Done (Some (StateReply seed weather), None)) /\
    Seed (state c') = seed /\ Weather (state c') = weather.
Proof.
  intros Hb Hs Hw. unfold handleShowState, bind at 1, gets at 1. simpl. unfold watch_both, bind.
  pose proof (watch_cached _ seed w c Hb Hs) as E1. rewrite E1. cbv beta iota.
  pose proof (watch_cached _ weather w (SetState (state c) c) Hb Hw) as E2. rewrite E2. by eexists.
Qed.

Lemma keys_differ name : key_name (seed_key name) <> key_name (weather_key name).
Proof.
  change (("demo/world/" +:+ (name +:+ "/seed"))%string <> ("demo/world/" +:+ (name +:+ "/weather"))%string).
  intros H%(inj (String.append _))%(inj (String.append _)). discriminate.
Qed.

Lemma set_other {V} `{!GoType value V} nm ver x ttl w r (k : Store.Key value) (v : V) :
  key_name k <> nm -> cached k v w r -> cached k v w (set nm ver x ttl w r).
Proof.
  intros Hne Hk. unfold cached, cacheGet, set, reader_entry in *. assert (nm <> key_name k) by congruence.
  destruct (r_entries r !! nm) as [e|]; simpl;
    [destruct (c_loaded e && (ver <=? c_version e)%Z); simpl; [done|]|]; by rewrite !lookup_insert_ne.
Qed.

Lemma set_newer k ver v ttl w r :
  ((VersionOf r k).1 < ver)%Z -> (ttl <= 0 \/ Since w (now w) <= ttl)%Z ->
  cached k v w (set (key_name k) ver (VStr v) ttl w r).
Proof.
  intros Hver Httl. unfold cached, cacheGet, VersionOf, set, reader_entry in *.
  assert (expired w (mkCache (VStr v) ver true (now w) ttl) = false) as He.
  { unfold expired. simpl. destruct Httl; [destruct (Z.ltb_spec 0 ttl)|destruct (Z.ltb_spec ttl (Since w (now w)))];
      rewrite ?andb_false_r; try done; lia. }
  destruct (r_entries r !! key_name k) as [e|]; simpl in *.
  - destruct (c_loaded e); simpl in *.
    + destruct (Z.leb_spec ver (c_version e)); [lia|]. simpl. rewrite lookup_insert_eq. simpl. by rewrite He.
    + rewrite lookup_insert_eq. simpl. by rewrite He.
  - rewrite lookup_insert_eq. simpl. by rewrite He.
Qed.

(** A push of a newer version, in time, is what the region shows next, without a message to
    the store; the seed does not change with the weather. *)
Theorem push_then_show w c seed v ver ttl :
  let name := WName (World (state c)) in
  is_Some (lookupBinding bs (ActorType (ctx_id c))) ->
  cached (seed_key name) seed w (Vars (state c)) ->
  ((VersionOf (Vars (state c)) (weather_key name)).1 < ver)%Z -> (ttl <= 0 \/ Since w (now w) <= ttl)%Z ->
  exists c1 r c2, handleRefresh (mkRefresh (key_name (weather_key name)) ver (VStr v) ttl) w c = (w, c1, Done r) /\
    handleShowState g bs w c1 = (w, c2, Done (Some (StateReply seed v), None)).
Proof.
  intros name Hb Hs Hver Httl. eexists _, _.
  destruct (show_from_cache w (handleRefresh (mkRefresh (key_name (weather_key name)) ver (VStr v) ttl) w c).1.2 seed v)
    as (c2 & Hc & _); [done|..|by exists c2].
  - apply set_other; [|done]. intros E. by apply (keys_differ name).
  - by apply set_newer.
Qed.
End spec.
