(* ===== verification/RpcExample.v ===== *)
(** * The RPC example

    cmd/rpc_example/main.go: players behind a server, and a client that creates, hits and
    heals them. The handlers are programs of Act; the runs of the server and of the client
    are scripts, which [log.Fatalf] may end. Logging is left out. *)

From S2P Require Import Prelude ActorTypes Rpc Control Registry Runtime Text Script.
From S2P Require Export Act.

Local Open Scope string_scope.

(** ** Identifiers, requests and replies *)
Record PlayerId := mkPlayerId { ServerId : Z; OpenId : string }.

#[export] Instance PlayerId_eq_dec : EqDecision PlayerId.
Proof. solve_decision. Defined.
#[export] Instance PlayerId_countable : Countable PlayerId.
Proof.
  apply (inj_countable' (fun p => (ServerId p, OpenId p)) (fun '(s, o) => mkPlayerId s o)). by intros [].
Defined.

Definition PlayerId_String (id : PlayerId) : string := "Player(" +:+ FormatInt (ServerId id) +:+ "," +:+ OpenId id +:+ ")".

#[export] Instance PlayerId_ActorId : ActorId PlayerId :=
  {| ActorType _ := "Player"; String := PlayerId_String; zero_id := mkPlayerId 0 "" |}.

Record PlayerState := mkPlayerState { HP : Z; Level : Z }.

Inductive req := Login (InitHP InitLevel : Z) | Attack (Damage : Z) | Heal (Amount : Z) | Close.
Inductive rep := OkRep | AttackReply (RemainingHP : Z) (Alive : bool) | HealReply (NewHP : Z).

Inductive reqT := TLogin | TAttack | THeal | TClose.

#[export] Instance reqT_eq_dec : EqDecision reqT.
Proof. solve_decision. Defined.

Definition req_type (q : req) : reqT :=
  match q with Login _ _ => TLogin | Attack _ => TAttack | Heal _ => THeal | Close => TClose end.
Definition req_ReqType (t : reqT) : string :=
  match t with TLogin => "Login" | TAttack => "Attack" | THeal => "Heal" | TClose => "Close" end.

#[export] Instance rpc_Requests : Requests reqT req PlayerId :=
  {| user_type := req_type; user_ReqType := req_ReqType; user_id0 _ := mkPlayerId 0 "" |}.

(** ** Handlers *)
Abbreviation hres := (hres rep).
Definition ok : hres := (Some OkRep, None).

Local Open Scope act_scope.

Section handlers.
Context {W Hook CB : Type}.
Abbreviation act := (act PlayerId req W Hook CB PlayerState).

Definition handleLogin (InitHP InitLevel : Z) : act hres :=
  open ;;
  modify (fun _ => mkPlayerState InitHP InitLevel) ;;
  ret ok.

Definition add_HP (d : Z) (s : PlayerState) : PlayerState := mkPlayerState (wrap64 (HP s + d)) (Level s).

Definition handleAttack (Damage : Z) : act hres :=
  modify (add_HP (- Damage)) ;;
  let* hp := gets HP in
  ret (Some (AttackReply hp (0 <? hp)%Z), None).

Definition handleHeal (Amount : Z) : act hres :=
  modify (add_HP Amount) ;;
  let* hp := gets HP in
  ret (Some (HealReply hp), None).

Definition handleClose : act hres := quit ;; ret ok.

Definition handle (q : req) : act hres :=
  match q with
  | Login hp lv => handleLogin hp lv
  | Attack d => handleAttack d
  | Heal a => handleHeal a
  | Close => handleClose
  end.
End handlers.

#[export] Instance player_code {W} : UserCode W PlayerId req Empty_set Empty_set PlayerState req rep reqT Empty_set := {|
  run_handler := dispatch (fun q _ => handle q);
  run_spawn f w c := match (f : Empty_set) with end;
  run_hook h w c := match (h : Empty_set) with end;
  run_callback cb w c := match (cb : Empty_set) with end;
  run_close _ w := w;
  zero_state := mkPlayerState 0 0;
|}.

Definition player_registry : Registry.RegistryBuilder reqT reqT Empty_set :=
  let b := RegisterSpawn NewRegistryBuilder (TUser TLogin) TLogin in
  foldl (fun b t => RegisterQuery b (TUser t) t) b [TAttack; THeal; TClose].

(** ** runServer *)
Definition server_table : Server reqT :=
  NewServer (fun b => foldl (RegisterRequest (U := req) (I := PlayerId)) b [TLogin; TAttack; THeal; TClose]).

(** [None]: the program has ended. *)
Definition runServer {W} `{!Terminal W, !Life.Http (T := reqT) (W := W)} (log : string -> W -> W) (addr : string) (w : W)
    : W * option (Life.ServerState (T := reqT)) :=
  match Life.Start (Life.new_state server_table addr) w with
  | (w1, _, Some err) => (log ("server start failed: " +:+ Error err) w1, None)
  | (w1, s, None) => (println ("[Server] started on " +:+ addr) w1, Some s)
  end.

(** ** runClient

    The methods of rpc.Client; a call may be given a time limit. *)
Class Client (W : Type) : Type := {
  Connect : W -> W * option error;
  CloseClient : W -> W;
  client_Post : PlayerId -> req -> W -> W * option error;
  client_Call : option Z -> PlayerId -> req -> W -> W * (option rep * option error);
  client_Broadcast : req -> W -> W * option error;
}.

(** What is left of a script: the world, and whether the program goes on. *)
Inductive run (W : Type) := Goes (w : W) | Exits (w : W).
Arguments Goes {W} w.
Arguments Exits {W} w.

Section client.
Context {W : Type} `{!Terminal W, !Client W} (log : string -> W -> W).

(** A call whose error ends the program. *)
Definition must (what : string) (line : rep -> option string) (x : W * (option rep * option error)) (k : W -> flow (run W)) : flow (run W) :=
  let '(w, (reply, err)) := x in
  match err with
  | Some e => Go (Exits (log (what +:+ Error e) w))
  | None => match reply ≫= line with Some s => k (println s w) | None => Crashed end
  end.

Definition post (id : PlayerId) (q : req) (w : W) : W := (client_Post id q w).1.

Definition attacked (damage : string) (r : rep) : option string :=
  match r with
  | AttackReply hp alive =>
      Some ("  Player1 attacked: damage=" +:+ damage +:+ ", remainingHP=" +:+ FormatInt hp +:+ ", alive=" +:+ show_bool alive)
  | _ => None
  end.
Definition healed (r : rep) : option string :=
  match r with HealReply hp => Some ("  Player1 healed: amount=20, newHP=" +:+ FormatInt hp) | _ => None end.

Definition runClient (addr : string) (w : W) : flow (run W) :=
  let player1 := mkPlayerId 1 "alice" in
  let player2 := mkPlayerId 1 "bob" in
  match Connect w with
  | (w, Some err) => Go (Exits (log ("client connect failed: " +:+ Error err) w))
  | (w, None) =>
      let w := title "=== 1. Post: Spawn Players ===" (println ("[Client] connected to " +:+ addr) w) in
      let w := println "  Player1 (alice) logged in" (post player1 (Login 100 1) w) in
      let w := println "  Player2 (bob) logged in" (post player2 (Login 80 2) w) in
      let w := title "=== 2. Call: Attack ===" (Sleep (200 * Millisecond) w) in
      must "Call Attack failed: " (attacked "30") (client_Call None player1 (Attack 30) w) (fun w =>
      let w := title "=== 3. Call: Heal ===" w in
      must "Call Heal failed: " healed (client_Call None player1 (Heal 20) w) (fun w =>
      let w := title "=== 4. CallTimeout: Attack ===" w in
      must "CallTimeout Attack failed: " (attacked "50") (client_Call (Some (5 * Second)%Z) player1 (Attack 50) w) (fun w =>
      let w := title "=== 5. Broadcast: Close All ===" w in
      let w := println "  Broadcast sent, waiting for actors to close..." (client_Broadcast Close w).1 in
      Go (Goes (CloseClient (Sleep (300 * Millisecond) w))))))
  end.

(** ** main *)
Definition main `{!Life.Http (T := reqT) (W := W)} (w : W) : flow (run W) :=
  let addr := "localhost:8080" in
  match runServer log addr w with
  | (w, None) => Go (Exits w)
  | (w, Some server) =>
      (do! r := runClient addr (Sleep (300 * Millisecond) w) in
       match r with
       | Exits w => Go (Exits w)
       | Goes w =>
           let w := title "--- Shutting down ---" w in
           Go (Goes (println "Done." (Life.Shutdown server None w).1))
       end)%go
  end.
End client.
