(* ===== verification/TestUtil.v ===== *)
(** * Test helpers

    internal/testutil/testutil.go: waiting for the number of actors, and a call on a
    goroutine of its own. [fuel] bounds the rounds of a wait. *)

From S2P Require Import Prelude ActorTypes Runtime Store.

Local Open Scope Z_scope.

(** The world of a test: its clock is [Clock]; [Count] is actor.Count of one type, and
    [Errorf] records a failure. *)
Class TestWorld (W : Type) : Type := {
  Sleep : Z -> W -> W;
  Count : W -> nat;
  Errorf : string -> W -> W;
}.

Section test.
Context {W : Type} `{!Clock W, !TestWorld W}.

Definition DefaultSettle : Z := 50 * Millisecond.

Definition Settle (ms : list Z) (w : W) : W := Sleep (default DefaultSettle (head ms)) w.

(** [%v] of a duration is left to [show]. *)
Fixpoint wait_count (show : Z -> string) (fuel : nat) (want timeout deadline : Z) (w : W) : option (W * bool) :=
  match fuel with
  | O => None
  | S fuel =>
      let n := Z.of_nat (Count w) in
      if n =? want then Some (w, true)
      else if deadline <? now w then
        Some (Errorf ("WaitCount: expected " +:+ FormatInt want +:+ " actors, got " +:+ FormatInt n +:+ " after " +:+ show timeout) w, false)
      else wait_count show fuel want timeout deadline (Sleep (10 * Millisecond) w)
  end.

Definition WaitCount (show : Z -> string) (fuel : nat) (want timeout : Z) (w : W) : option (W * bool) :=
  wait_count show fuel want timeout (now w + timeout) w.

Definition WaitStop (show : Z -> string) (fuel : nat) (timeout : Z) (w : W) : option (W * bool) :=
  WaitCount show fuel 0 timeout w.

(** [GoCall]: the channel it returns is made before its goroutine runs; the goroutine
    makes the call and puts the result into the channel. *)
Record CallResult (R : Type) := mkCallResult { Reply : R; Err : option error }.
Arguments mkCallResult {R} _ _.

Definition GoCall_start {R} (ch : nat) (chans : gmap nat (option (CallResult R))) : gmap nat (option (CallResult R)) :=
  <[ch := None]> chans.

Definition GoCall_run {R} (fn : W -> W * (R * option error)) (ch : nat) (w : W) (chans : gmap nat (option (CallResult R)))
    : flow (W * gmap nat (option (CallResult R))) :=
  let '(w1, (reply, err)) := fn w in
  match chans !! ch with
  | Some None => Go (w1, <[ch := Some (mkCallResult reply err)]> chans)
  | _ => Blocked
  end.
End test.

(** A wait ends: the rounds needed follow from the time given. A wait that fails had the
    time it was given, and one that succeeds ends with the number wanted. *)
Section waits.
Context {W : Type} `{Clk : !Clock W, TW : !TestWorld W}.
Hypothesis Sleep_lasts : forall ns (w : W), now w + ns <= now (Sleep ns w).

Lemma wait_count_ends show want timeout deadline f w :
  deadline - now w < 10 * Millisecond * Z.of_nat f ->
  exists w' ok, wait_count show (S f) want timeout deadline w = Some (w', ok) /\
    (ok = true -> Z.of_nat (Count w') = want) /\
    (ok = false -> exists w1, deadline < now w1 /\ Z.of_nat (Count w1) <> want).
Proof.
  revert w. induction f as [|f IH]; intros w H; remember (S _) as k eqn:Ek; rewrite Ek; subst k; cbn [wait_count].
  all: destruct (_ =? want) eqn:En; [apply Z.eqb_eq in En; by exists w, true|].
  all: apply Z.eqb_neq in En; destruct (deadline <? now w) eqn:Ed.
  - eexists _, false. split; [done|]. split; [done|]. intros _. exists w. by apply Z.ltb_lt in Ed.
  - apply Z.ltb_ge in Ed. unfold Millisecond in *. exfalso. lia.
  - eexists _, false. split; [done|]. split; [done|]. intros _. exists w. by apply Z.ltb_lt in Ed.
  - apply IH. pose proof (Sleep_lasts (10 * Millisecond) w). unfold Millisecond in *. lia.
Qed.

(** [WaitCount] with a round for every ten milliseconds of its time, and one more. *)
Theorem WaitCount_result show want timeout w : 0 <= timeout ->
  exists w' ok, WaitCount show (Z.to_nat (timeout / (10 * Millisecond)) + 2) want timeout w = Some (w', ok) /\
    (ok = true -> Z.of_nat (Count w') = want) /\
    (ok = false -> exists w1, now w + timeout < now w1 /\ Z.of_nat (Count w1) <> want).
Proof.
  intros H. unfold WaitCount.
  replace (Z.to_nat (timeout / (10 * Millisecond)) + 2)%nat with (S (S (Z.to_nat (timeout / (10 * Millisecond))))) by lia.
  apply wait_count_ends. unfold Millisecond. change (10 * 1000000) with 10000000.
  pose proof (Z.mod_pos_bound timeout 10000000 eq_refl). pose proof (Z.div_mod timeout 10000000 ltac:(lia)).
  pose proof (Z.div_pos timeout 10000000 H eq_refl). lia.
Qed.
End waits.

(** The goroutine of [GoCall] never blocks, since its channel holds one result and nobody
    else sends. *)
Lemma GoCall_returns {W R} (fn : W -> W * (R * option error)) ch w chans :
  exists w' r, GoCall_run fn ch w (GoCall_start ch chans) = Go (w', <[ch := Some r]> (GoCall_start ch chans)).
Proof.
  unfold GoCall_run, GoCall_start. destruct (fn w) as [w1 [reply err]]. rewrite lookup_insert, decide_True by done. by eexists _, _.
Qed.

(** The comment on [Settle] says that Settle(100) waits for 100 ms: its argument is in
    nanoseconds. *)
Remark settle_nanoseconds {W} `{!TestWorld W} (w : W) : Settle [100] w = Sleep 100 w /\ 100 < Millisecond.
Proof. done. Qed.
